(* ===== verification/_CoqProject ===== *)
-Q . S2P
Prelude.v
Text.v
Netip.v
Wire.v
Replay.v
Reliable.v
ReliableFacts.v
Stream.v
Channel.v
LayerSafety.v
KeyMethod2.v
DataChannel.v
ControlWrap.v
TlsCrypt.v
TlsAuth.v
Watch.v
DataKeys.v
Tables.v
Session.v
SessionSafety.v
Transport.v
PushReply.v
Handshake.v
Dial.v
OvpnLex.v
Ovpn.v
OvpnFacts.v
Client.v
ClientSafety.v
Dns.v
DnsFacts.v
Resolver.v
ResolverFacts.v
Socks.v
SocksFacts.v
SocksUdp.v
SocksUdpFacts.v
SocksRelays.v
SocksProxy.v
Cli.v
CliFacts.v
Limiter.v
Workers.v
Tunnel.v
Cancel.v
Exit.v
Optional.v
Buffers.v
Serve.v
Process.v
Connect.v
Statistics.v
Opening.v
Framing.v
Sharing.v
