(* ===== verification/Prelude.v ===== *)
(** * Verification of go-openvpn, an OpenVPN client library

    ** The program

    A client opens a transport ([internal/transport]), exchanges control packets
    over a reliability layer ([internal/reliable]) protected by tls-crypt or
    tls-auth ([internal/tlscrypt], [internal/tlsauth]), runs TLS and the KEY_METHOD 2
    exchange on top of it ([internal/control], [internal/proto]), and from the
    exported keys builds data-channel slots ([internal/data]).  A session
    ([internal/session]) ties them: its read, write and tick loops, its rekeys,
    which install a new slot and a new layer under the next key-id while the old
    ones stay for a transition window, and its watchdogs.  A public client
    ([openvpn.go], [conn.go]) holds the current session and replaces it when the
    server or a watchdog asks for a restart; its configuration may come from an
    OpenVPN profile ([pkg/ovpn]).  A SOCKS5 proxy ([cmd/openvpn2socks]) sits on top:
    it resolves names over the tunnel and relays TCP streams and UDP datagrams.

    ** The library

    Every file says in its first comment what it holds; in the order of
    [_CoqProject]:

    - [Prelude]: Go outcomes ([res]: a value, an error or a panic), machine
      words, bytes, big-endian numbers, slices and indexing with their panics,
      the tactics [bind], [pass], [safe] and the shared lemmas;
    - [Text], [Netip]: what the code uses of [strings], [strconv], [net/netip];
    - [Wire]: [proto/opcodes.go], [header.go], [ping.go];
    - [Replay]: [data/replay.go], the window of [tlscrypt/v1.go]; a set-based
      specification and the class of implementations of it;
    - [Reliable] (operations of [reliable/reliable.go]), [ReliableFacts] (single
      operations), [Stream] (the invariant of one direction), [Channel] (two
      layers over a lossy network), [LayerSafety] (one layer, any peer);
    - [KeyMethod2]: [proto/keymethod2.go], [control/messages.go],
      [proto/peerinfo.go];
    - [DataChannel]: [data/aead.go], [data/slot.go]; [DataKeys]:
      [control/keys.go] and the slots built from the export; [Buffers]: [Seal] in
      place, the two buffer pools of [data/slot.go] and the goroutines that share
      them, over a memory of numbered buffers;
    - [ControlWrap] (the interface of the session to its wrapper, as a class),
      [TlsCrypt] ([tlscrypt/keys.go], [v1.go], [v2.go]) and [TlsAuth]
      ([tlsauth/tlsauth.go]), its instances;
    - [Watch]: the decisions of [session/keepalive.go]; [Tables]:
      [session/tables.go]; [Session]: [session/session.go] and [rekey.go],
      one function per handler; [SessionSafety]: the transition system of all
      handlers and its theorems;
    - [Transport]: [transport/scramble.go], [tcp.go], [udp.go], [datagram.go],
      [memory.go];
    - [PushReply]: [proto/pushreply.go]; [Handshake]: [control/handshake.go],
      [trace/trace.go] and the identity a rekey presents;
    - [Dial]: the configuration of [openvpn.go], its checks, the choice of the
      control wrapper and the dial of a session around its handshake;
    - [OvpnLex] (comments, quoting, blocks), [Ovpn] (directives, the loop over
      the lines, the final checks) and [OvpnFacts] (theorems): [pkg/ovpn/parse.go];
    - [Client]: the reconnecting client and the rounds of its tunnel, each
      operation cut where the code waits; [ClientSafety]: the transition system
      of those steps and its theorems;
    - [Dns] (the DNS codec of [cmd/openvpn2socks/resolver.go]), [Resolver] (its
      queries, order of servers and cache), with [DnsFacts] and [ResolverFacts];
    - [Socks], [SocksFacts]: [socks5.go] and [socks5_tcp.go]; [SocksUdp]:
      [socks5_udp.go]; [SocksUdpFacts]: its header; [SocksRelays]: the transition
      system of one UDP association and its theorems; [SocksProxy]: the copying of
      a connected stream ([proxy] of [socks5_tcp.go]), with its deadlines;
    - [Cli], [CliFacts]: [config.go] and [main.go], from the options to what
      serves the clients; [Limiter]: [connrate.go], with binary64 tokens;
    - [Workers]: [internal/workers], the supervision of goroutines; [Tunnel]: the
      deadlines, addresses and options of [conn.go] and [pkg/netstack]; [Cancel]:
      the watchers by which [transport/udp.go] interrupts a read; [Exit]: the
      bounded waits of [Session.Close];
    - [Framing]: concurrent writers of one TCP connection, with their deadlines;
    - [Opening]: who opens and who closes a socket in [transport.Dial],
      [session.Dial] and [openvpn.Dial];
    - [Serve]: the accept loop of [socks5.go] with its watchers and handlers;
      [Process]: the goroutines of [run] in [main.go], signals, deferred calls and
      exit codes, around the server of [Serve]; [Connect]: one accepted connection
      from its greeting to its last byte, composed of [Socks], [Resolver],
      [Limiter], [SocksProxy] and [SocksUdp] the way [handle] composes them;
    - [Sharing]: the arrays behind the slices of the resolver, shared by its cache,
      its resolutions and its callers;
    - [Statistics]: the snapshot and the log lines of the counters; [Optional]:
      [internal/optional].

    Definitions keep the names of the code; where two files of the code use one
    name, a prefix tells them apart ([auth_Wrap], [slot_Install]).  A method is a
    function on the state record of its type; what it reads from the world (the
    clock, the outcome of a system call, random bytes, the TLS library) is an
    argument.  A wait on a condition variable or a channel is a "blocked" result
    of a step.  Goroutines are sequences of steps in any order; each step is the
    section the code runs under its locks.

    ** What the theorems show

    - Channel: over a network that loses, reorders and repeats packets, what is
      read is a prefix of what was written, acknowledgements are earned, and an
      empty queue means delivery; a layer stays bounded whatever its peer sends,
      its retransmission schedule is exact, and no packet is retried for ever.
    - Replay and authenticity: both windows refine the set of accepted ids; no
      data or control packet is accepted twice or without the peer's key.
    - Wire formats: each parser accepts exactly what its marshaller writes, or
      the documented superset, and no parser panics (but for the static-key
      file, where a theorem gives the input that does).
    - Session: traffic, rekeys and timers in any interleaving keep an active
      slot and its layer; a rekey is all or nothing; the reason of a close is
      the first one recorded; packets reach the layer or slot of their key-id.
    - Handshake: stages in order, stopping at the first failure; with a server
      that answers, both sides hold the same session.
    - Timers: keepalive and watchdog bounds in nanoseconds.
    - Transports: streams are framed, by concurrent writers too unless a write is cut;
      UDP writes come back.
    - Dialling: a dial with a server that answers gives a session that is a state
      of the transition system of [SessionSafety], paired with the server's; it
      opens one socket at most and loses none.
    - Buffers: however goroutines fill, send, read and recycle pooled buffers, the
      wire and the consumers see what the value-level definitions say.
    - Profiles: the parser never panics; what it returns passes the checks of the
      dial and of the session on its fields (the text of the control key is read by
      the session), says what the file says, and never trusts an unverified chain.
    - Client: one session is open at a time and none after [Close]; a
      reconnection swaps sessions exactly once, keeps totals and handler, waits the
      backoff before each dial, ends within its attempts, and gives up exactly after
      the configured stalls.
    - DNS: the answers taken are exactly those tied to the query; the system's
      resolver is asked only when the tunnel's all failed, and never cached; the cache
      is bounded and fresh, and shares no memory with its callers.
    - SOCKS5: a command is handled only for an admitted client; a UDP association
      serves one source, dials for each datagram an address of its own header, never
      panics and leaves no connection open; a copied stream is a prefix of what was
      sent, and ends, but not before [-idle] has passed or a connection failed (that a
      busy one is cut then is a finding).  [connect_end_to_end] joins
      admission, lookup, limiter, dial and copying.
    - The process: the accept loop returns exactly after a cancellation, with every
      client gone, within a bounded number of steps; the exit codes say why it ended,
      and a signal is heard unless the client gave up before (a finding).
    - Command line: the proxy never trusts an unverified server and warns about
      every open listener; the limiter lets exactly eight of a burst through.
    - Goroutines: the counters of the workers are those of the running ones, a
      shutdown ends them all; a cancelled read is interrupted as long as no context has
      a deadline and there is one lifetime context, as in the session; closing a session
      takes a bounded time.

    ** Bounds and fuel

    Integers are [Z] with the width of the code written out ([u8], [u32], [u64],
    [i64]).  Recursion is on the data almost everywhere.  Fuel remains in six
    places, each with a lemma that it is enough: the retry loop of UDP writes
    (the total sleep bounds the rounds), [dec] (twenty digits for 64 bits), the
    drains of the reliability layer (the size of the map they empty), the
    loop over the lines of a profile (every round takes a line: [run_loop_keeps]),
    and the names and aliases of a DNS response (the cap on jumps, the number of
    records: [read_response_total], [select_answers_spec]), and the looks at the
    queue of a closing session (one every ten milliseconds: [await_ack_ends]).

    ** Parameters

    Ciphers, HMAC and PEM are classes with their documented laws ([Aead],
    [Primitives]); every theorem that uses one has a witness with a concrete
    instance.  crypto/tls is the bytes it carries and the keys it exports.
    The file system, certificate parsing and chain verification are arguments of
    the definitions of [Ovpn] and [OvpnFacts]; so are the answers of the network,
    the iteration order of a map and the verdict of the limiter in [Resolver] and
    [Socks] (the limiter itself is [Limiter]).

    ** Not modelled

    - In [openvpn.go] and [conn.go]: the accessors that only forward to the current
      session, and the logger.
    - In [cmd/openvpn2socks]: the flag package, sockets, and which concurrent lookups
      of a name are merged (a third-party package: any of them may be in [Sharing]).
      [pkg/netstack] (but for its options) and [examples]: glue to third-party
      network code, and programs that call the library.
    - In the modelled packages: logging (but for the counters logged) and socket
      options; in [internal/transport] the cancellation of calls other than a read
      of UDP.  Timeouts show as the errors they cause. *)
From Stdlib Require Export ZArith Lia Strings.Byte.
From Stdlib Require Import Zbitwise.
From stdpp Require Export base tactics numbers list gmap strings option.
Local Open Scope Z_scope.

(** ** Go outcomes: a value, an [error], or a run-time panic *)

Inductive res (E A : Type) : Type :=
  | Ok (a : A)
  | Err (e : E)
  | Panic.
Arguments Ok {E A} a.
Arguments Err {E A} e.
Arguments Panic {E A}.

#[global] Instance res_ret E : MRet (res E) := λ A a, Ok a.
#[global] Instance res_bind E : MBind (res E) := λ A B f m,
  match m with
  | Ok a => f a
  | Err e => Err e
  | Panic => Panic
  end.

(** [guard_err b e] is the early return [if b { return e }]. *)
Definition guard_err {E} (b : bool) (e : E) : res E unit :=
  if b then Err e else Ok tt.

(** Errors wrapped by the caller. *)
Definition map_err {E E' A} (f : E → E') (r : res E A) : res E' A :=
  match r with Ok a => Ok a | Err e => Err (f e) | Panic => Panic end.

Definition no_panic {E A} (m : res E A) : Prop := m ≠ Panic.

Lemma bind_Ok {E A B} (m : res E A) (f : A → res E B) b :
  (m ≫= f) = Ok b ↔ ∃ a, m = Ok a ∧ f a = Ok b.
Proof. destruct m; cbn; naive_solver. Qed.

Lemma no_panic_bind {E A B} (m : res E A) (f : A → res E B) :
  no_panic m → (∀ a, m = Ok a → no_panic (f a)) → no_panic (m ≫= f).
Proof. destruct m; cbn; unfold no_panic; naive_solver. Qed.

(** ** Fixed-width unsigned arithmetic *)

Definition u8 (z : Z) : Z := z mod 2 ^ 8.
Definition u16 (z : Z) : Z := z mod 2 ^ 16.
Definition u32 (z : Z) : Z := z mod 2 ^ 32.
Definition u64 (z : Z) : Z := z mod 2 ^ 64.
(** Two's complement wrap-around of [int64] and [int32]. *)
Definition i64 (z : Z) : Z := (z + 2 ^ 63) mod 2 ^ 64 - 2 ^ 63.
Definition i32 (z : Z) : Z := (z + 2 ^ 31) mod 2 ^ 32 - 2 ^ 31.

Definition is_u8 (z : Z) : Prop := 0 ≤ z < 2 ^ 8.
Definition is_u16 (z : Z) : Prop := 0 ≤ z < 2 ^ 16.
Definition is_u24 (z : Z) : Prop := 0 ≤ z < 2 ^ 24.
Definition is_u32 (z : Z) : Prop := 0 ≤ z < 2 ^ 32.
Definition is_u64 (z : Z) : Prop := 0 ≤ z < 2 ^ 64.

Lemma u32_range z : is_u32 (u32 z).
Proof. unfold is_u32, u32. apply Z.mod_pos_bound. lia. Qed.
Lemma u32_small z : is_u32 z → u32 z = z.
Proof. unfold is_u32, u32. intros. by apply Z.mod_small. Qed.
Lemma u64_range z : is_u64 (u64 z).
Proof. unfold is_u64, u64. apply Z.mod_pos_bound. lia. Qed.
Lemma u64_small z : is_u64 z → u64 z = z.
Proof. unfold is_u64, u64. intros. by apply Z.mod_small. Qed.
Lemma i64_small z : - 2 ^ 63 ≤ z < 2 ^ 63 → i64 z = z.
Proof. unfold i64. intros. rewrite Z.mod_small; lia. Qed.

(** ** Bytes *)

Abbreviation byte := Byte.byte.
Abbreviation bytes := (list byte).

#[global] Instance byte_eq_decision : EqDecision byte := Byte.byte_eq_dec.

Definition b2z (b : byte) : Z := Z.of_N (Byte.to_N b).
(** The conversion [byte(x)]: truncation to the low eight bits. *)
Definition z2b (z : Z) : byte :=
  default Byte.x00 (Byte.of_N (Z.to_N (z mod 256))).

Lemma b2z_range b : 0 ≤ b2z b < 256.
Proof. unfold b2z. pose proof (Byte.to_N_bounded b). lia. Qed.

Lemma b2z_z2b z : b2z (z2b z) = z mod 256.
Proof.
  unfold b2z, z2b. pose proof (Z.mod_pos_bound z 256 ltac:(lia)) as Hb.
  destruct (Byte.of_N (Z.to_N (z mod 256))) as [b|] eqn:E; cbn.
  - apply Byte.to_of_N in E. rewrite E. lia.
  - apply Byte.of_N_None_iff in E. lia.
Qed.

Lemma z2b_b2z b : z2b (b2z b) = b.
Proof.
  unfold z2b, b2z. rewrite Z.mod_small by (apply b2z_range).
  rewrite N2Z.id, Byte.of_to_N. done.
Qed.

Lemma b2z_inj b1 b2 : b2z b1 = b2z b2 → b1 = b2.
Proof. intros H. by rewrite <-(z2b_b2z b1), H, z2b_b2z. Qed.

Lemma z2b_mod z : z2b (z mod 256) = z2b z.
Proof. unfold z2b. by rewrite Z.mod_mod by lia. Qed.

Lemma z2b_eq_iff z1 z2 : z2b z1 = z2b z2 ↔ z1 mod 256 = z2 mod 256.
Proof.
  split; intros H.
  - by rewrite <-!b2z_z2b, H.
  - by rewrite <-(z2b_mod z1), H, z2b_mod.
Qed.

Definition bxor (a b : byte) : byte := z2b (Z.lxor (b2z a) (b2z b)).

Lemma lxor_byte_range a b : 0 ≤ Z.lxor (b2z a) (b2z b) < 256.
Proof.
  pose proof (b2z_range a) as Ha; pose proof (b2z_range b) as Hb.
  assert (0 ≤ Z.lxor (b2z a) (b2z b)) by (apply Z.lxor_nonneg; lia).
  split; [done|].
  destruct (decide (Z.lxor (b2z a) (b2z b) = 0)) as [->|Hne]; [lia|].
  change 256 with (2 ^ 8). apply Z.log2_lt_pow2; [lia|].
  eapply Z.le_lt_trans; [apply Z.log2_lxor; lia|].
  apply Z.max_lub_lt.
  - destruct (decide (b2z a = 0)) as [->|]; [cbn; lia|]. apply Z.log2_lt_pow2; lia.
  - destruct (decide (b2z b = 0)) as [->|]; [cbn; lia|]. apply Z.log2_lt_pow2; lia.
Qed.

Lemma b2z_bxor a b : b2z (bxor a b) = Z.lxor (b2z a) (b2z b).
Proof. unfold bxor. rewrite b2z_z2b. apply Z.mod_small, lxor_byte_range. Qed.

Lemma bxor_cancel_r a b : bxor (bxor a b) b = a.
Proof.
  apply b2z_inj. rewrite !b2z_bxor, Z.lxor_assoc, Z.lxor_nilpotent. apply Z.lxor_0_r.
Qed.

(** Bit fields packed side by side add up. *)
Lemma lor_shiftl_add a b n :
  0 ≤ n → 0 ≤ b < 2 ^ n → Z.lor (Z.shiftl a n) b = a * 2 ^ n + b.
Proof.
  intros Hn Hb. rewrite <-Z.shiftl_mul_pow2 by done. rewrite <-Z.add_lor_land.
  enough (Z.land (Z.shiftl a n) b = 0) by lia.
  apply Z.bits_inj'. intros i Hi. rewrite Z.land_spec, Z.bits_0, Z.shiftl_spec by done.
  destruct (decide (i < n)).
  - rewrite Z.testbit_neg_r by lia. done.
  - rewrite <-(Z.mod_small b (2 ^ n)), Z.mod_pow2_bits_high by lia.
    by rewrite andb_false_r.
Qed.

Lemma lor_shiftl_add_w a b n m :
  m = 2 ^ n → 0 ≤ n → 0 ≤ b < m → Z.lor (Z.shiftl a n) b = a * m + b.
Proof. intros ->. apply lor_shiftl_add. Qed.

Lemma land_ones_mod a n m : m = 2 ^ n → 0 ≤ n → Z.land a (m - 1) = a mod m.
Proof. intros -> ?. by rewrite <-Z.land_ones, Z.ones_equiv by done. Qed.

Lemma shiftr_div a n m : m = 2 ^ n → 0 ≤ n → Z.shiftr a n = a / m.
Proof. intros -> ?. by apply Z.shiftr_div_pow2. Qed.

(** Pointwise xor of a buffer with a key stream of at least its length. *)
Definition xor_bytes (l k : bytes) : bytes := zip_with bxor l k.

Lemma length_xor_bytes l k :
  (length l ≤ length k)%nat → length (xor_bytes l k) = length l.
Proof. intros. unfold xor_bytes. rewrite length_zip_with. lia. Qed.

Lemma xor_bytes_cancel l k :
  (length l ≤ length k)%nat → xor_bytes (xor_bytes l k) k = l.
Proof.
  unfold xor_bytes. revert k. induction l as [|x l IH]; intros [|y k] H; cbn in *; try done; try lia.
  rewrite bxor_cancel_r, IH by lia. done.
Qed.

(** The bytes of a string constant. *)
Definition text (s : string) : bytes := String.list_byte_of_string s.

(** ** Slices *)

Definition zlen {A} (l : list A) : Z := Z.of_nat (length l).

(** [l[lo:hi]].  The run-time check is made against the length: where Go
    checks a slice's upper bound against its capacity, the model panics, so an
    expression that does not panic here does not panic there either and yields
    the same elements. *)
Definition slice {E A} (l : list A) (lo hi : nat) : res E (list A) :=
  if bool_decide (lo ≤ hi ∧ hi ≤ length l)%nat
  then Ok (take (hi - lo) (drop lo l)) else Panic.

(** [l[i]]. *)
Definition index {E A} (l : list A) (i : nat) : res E A :=
  match l !! i with Some x => Ok x | None => Panic end.

Lemma slice_Ok {E A} (l : list A) lo hi :
  (lo ≤ hi ∧ hi ≤ length l)%nat →
  slice (E:=E) l lo hi = Ok (take (hi - lo) (drop lo l)).
Proof. intros. unfold slice. by rewrite bool_decide_eq_true_2. Qed.

(** Slicing a list that is known as a concatenation. *)
Lemma slice_app {E A} (l1 l2 l3 : list A) lo hi :
  lo = length l1 → hi = (length l1 + length l2)%nat →
  slice (E:=E) (l1 ++ l2 ++ l3) lo hi = Ok l2.
Proof.
  intros -> ->. rewrite slice_Ok by (rewrite !length_app; lia).
  rewrite drop_app_length. f_equal. rewrite take_app_le by lia.
  apply take_ge. lia.
Qed.

Lemma slice_to_end {E A} (l1 l2 : list A) lo hi :
  lo = length l1 → hi = (length l1 + length l2)%nat →
  slice (E:=E) (l1 ++ l2) lo hi = Ok l2.
Proof.
  intros. rewrite <-(app_nil_r (l1 ++ l2)), <-app_assoc. by apply slice_app.
Qed.

Lemma slice_no_panic {E A} (l : list A) lo hi :
  (lo ≤ hi ∧ hi ≤ length l)%nat → no_panic (slice (E:=E) l lo hi).
Proof. intros. by rewrite slice_Ok. Qed.

Lemma slice_Ok_inv {E A} (l r : list A) lo hi :
  slice (E:=E) l lo hi = Ok r →
  (lo ≤ hi ∧ hi ≤ length l)%nat ∧ r = take (hi - lo) (drop lo l).
Proof. unfold slice. case_bool_decide; naive_solver. Qed.

Lemma length_slice {E A} (l r : list A) lo hi :
  slice (E:=E) l lo hi = Ok r → length r = (hi - lo)%nat.
Proof.
  intros [? ->]%slice_Ok_inv. rewrite length_take, length_drop. lia.
Qed.

Lemma index_Ok {E A} (l : list A) i x : l !! i = Some x → index (E:=E) l i = Ok x.
Proof. unfold index. by intros ->. Qed.

Lemma index_no_panic {E A} (l : list A) i :
  (i < length l)%nat → no_panic (index (E:=E) l i).
Proof.
  intros [x Hx]%lookup_lt_is_Some_2. by rewrite (index_Ok _ _ x).
Qed.

(** ** Big-endian fields ([encoding/binary.BigEndian]) *)

Fixpoint be_enc (n : nat) (z : Z) : bytes :=
  match n with
  | O => []
  | S n' => z2b (Z.shiftr z (8 * Z.of_nat n')) :: be_enc n' z
  end.

Definition be_dec (l : bytes) : Z := foldl (λ acc b, acc * 256 + b2z b) 0 l.

Lemma length_be_enc n z : length (be_enc n z) = n.
Proof. induction n; cbn; congruence. Qed.

Lemma be_dec_acc l a :
  foldl (λ acc b, acc * 256 + b2z b) a l = a * 256 ^ zlen l + be_dec l.
Proof.
  unfold be_dec. revert a. induction l as [|x l IH]; intros a.
  - unfold zlen. cbn. lia.
  - cbn [foldl]. rewrite IH, (IH (0 * 256 + b2z x)).
    unfold zlen. cbn [length]. rewrite Nat2Z.inj_succ, Z.pow_succ_r by lia. ring.
Qed.

Lemma be_dec_cons x l : be_dec (x :: l) = b2z x * 256 ^ zlen l + be_dec l.
Proof. unfold be_dec at 1. cbn [foldl]. by rewrite be_dec_acc. Qed.

Lemma be_dec_range l : 0 ≤ be_dec l < 256 ^ zlen l.
Proof.
  induction l as [|x l IH]; [unfold zlen; cbn; lia|]. rewrite be_dec_cons.
  unfold zlen in *. cbn [length]. rewrite Nat2Z.inj_succ, Z.pow_succ_r by lia.
  pose proof (b2z_range x). nia.
Qed.

Lemma be_dec_enc n z : be_dec (be_enc n z) = z mod 256 ^ Z.of_nat n.
Proof.
  induction n as [|n IH]; [cbn; by rewrite Z.mod_1_r|].
  cbn [be_enc]. rewrite be_dec_cons, IH, b2z_z2b. unfold zlen.
  rewrite length_be_enc, Z.shiftr_div_pow2 by lia.
  rewrite Nat2Z.inj_succ, Z.pow_succ_r by lia.
  assert (2 ^ (8 * Z.of_nat n) = 256 ^ Z.of_nat n) as ->
    by (rewrite Z.pow_mul_r by lia; done).
  rewrite (Z.mul_comm 256), Z.rem_mul_r by lia. ring.
Qed.

Lemma be_enc_mod n k z :
  (n ≤ k)%nat → be_enc n (z mod 256 ^ Z.of_nat k) = be_enc n z.
Proof.
  induction n as [|n IH]; intros Hk; [done|]. cbn [be_enc].
  rewrite IH by lia. f_equal. apply z2b_eq_iff.
  rewrite !Z.shiftr_div_pow2 by lia.
  replace (2 ^ (8 * Z.of_nat n)) with (256 ^ Z.of_nat n)
    by (rewrite Z.pow_mul_r by lia; done).
  replace (Z.of_nat k) with (Z.of_nat n + Z.succ (Z.of_nat (k - S n))) by lia.
  rewrite Z.pow_add_r, Z.rem_mul_r by lia.
  rewrite Z.add_comm, (Z.mul_comm (256 ^ Z.of_nat n)), Z.div_add_l by lia.
  rewrite (Z.div_small (z mod _)) by (apply Z.mod_pos_bound; lia).
  rewrite Z.add_0_r. apply Z.mod_mod_divide.
  rewrite Z.pow_succ_r by lia. by exists (256 ^ Z.of_nat (k - S n)); rewrite Z.mul_comm.
Qed.

Lemma be_enc_dec l : be_enc (length l) (be_dec l) = l.
Proof.
  induction l as [|x l IH]; [done|]. cbn [length be_enc]. f_equal.
  - rewrite be_dec_cons, Z.shiftr_div_pow2 by lia.
    replace (2 ^ (8 * Z.of_nat (length l))) with (256 ^ zlen l)
      by (unfold zlen; rewrite Z.pow_mul_r by lia; done).
    rewrite Z.div_add_l by (unfold zlen; lia).
    rewrite (Z.div_small (be_dec l)) by apply be_dec_range.
    rewrite Z.add_0_r. apply z2b_b2z.
  - rewrite <-(be_enc_mod (length l) (length l)) by lia.
    rewrite be_dec_cons. unfold zlen. rewrite Z.add_comm, Z.mod_add by lia.
    rewrite Z.mod_small by apply be_dec_range. done.
Qed.

Lemma be_enc_dec_len n l : length l = n → be_enc n (be_dec l) = l.
Proof. intros <-. apply be_enc_dec. Qed.

Lemma be_dec_enc_small n z : 0 ≤ z < 256 ^ Z.of_nat n → be_dec (be_enc n z) = z.
Proof. intros. rewrite be_dec_enc. by apply Z.mod_small. Qed.

Lemma split_at {A} n (l : list A) :
  (n ≤ length l)%nat → ∃ l1 l2, l = l1 ++ l2 ∧ length l1 = n.
Proof.
  intros. exists (take n l), (drop n l). rewrite take_drop, length_take. split; [done|lia].
Qed.

(** Two ways to cut one list. *)
Lemma app_cut {A} (l1 l2 m1 m2 : list A) :
  l1 ++ l2 = m1 ++ m2 → (length m1 ≤ length l1)%nat → ∃ k, l1 = m1 ++ k ∧ m2 = k ++ l2.
Proof.
  revert l1. induction m1 as [|x m1 IH]; intros l1 H Hl; [by exists l1|].
  destruct l1 as [|y l1]; cbn in *; [lia|]. injection H as -> H.
  destruct (IH l1 H ltac:(lia)) as (k & -> & ->). by exists k.
Qed.

(** Automation: [bytes_len] normalises the length of a wire layout. *)
Create Rewrite HintDb wire_len.
#[export] Hint Rewrite @length_app @length_cons @length_be_enc @length_nil
  @length_take @length_drop @length_replicate @length_fmap : wire_len.
Ltac bytes_len := autorewrite with wire_len in *; cbn [length] in *; try lia.

#[global] Arguments be_enc : simpl never.
#[global] Arguments be_dec : simpl never.
#[global] Arguments z2b : simpl never.
#[global] Arguments b2z : simpl never.

(** A guard that does not fire. *)
Lemma guard_pass {E} b (e : E) : b = false → guard_err b e = Ok tt.
Proof. by intros ->. Qed.
Lemma guard_Ok {E} b (e : E) u : guard_err b e = Ok u ↔ b = false.
Proof. destruct b, u; naive_solver. Qed.
Lemma guard_fail {E} b (e : E) : b = true → guard_err b e = Err e.
Proof. by intros ->. Qed.

(** Absence of panics, one step of a [res] computation at a time. *)
Lemma no_panic_guard {E A} b (e : E) (f : unit → res E A) :
  (b = false → no_panic (f tt)) → no_panic (guard_err b e ≫= f).
Proof. destruct b; [done|]. cbn. auto. Qed.
Lemma no_panic_slice {E A B} (l : list A) lo hi (f : list A → res E B) :
  (lo ≤ hi ∧ hi ≤ length l)%nat → (∀ r, length r = (hi - lo)%nat → no_panic (f r)) →
  no_panic (slice l lo hi ≫= f).
Proof.
  intros H Hf. apply no_panic_bind; [by apply slice_no_panic|]. intros r Hr. apply Hf.
  by apply length_slice in Hr.
Qed.
Lemma no_panic_index {E A B} (l : list A) i (f : A → res E B) :
  (i < length l)%nat → (∀ x, no_panic (f x)) → no_panic (index l i ≫= f).
Proof. intros H Hf. apply no_panic_bind; [by apply index_no_panic|auto]. Qed.

(** [time.Duration] counts nanoseconds. *)
Definition Millisecond : Z := 1000000.
Definition Second : Z := 1000000000.

(** A test of one bit, as the code writes it. *)
Lemma bit_test b i : 0 ≤ i → negb (Z.land b (Z.shiftl 1 i) =? 0) = Z.testbit b i.
Proof.
  intros Hi. rewrite Z.shiftl_1_l. destruct (Z.testbit b i) eqn:Hb.
  - apply negb_true_iff, Z.eqb_neq. intros H0. apply (f_equal (λ z, Z.testbit z i)) in H0.
    rewrite Z.land_spec, Hb, Z.pow2_bits_true, Z.bits_0 in H0 by done. done.
  - apply negb_false_iff, Z.eqb_eq, Z.bits_inj'. intros j Hj. rewrite Z.land_spec, Z.bits_0.
    destruct (decide (i = j)) as [<-|]; [by rewrite Hb|].
    rewrite Z.pow2_bits_false by done. apply andb_false_r.
Qed.

(** [bind] computes one bind of [res]; [pass] goes past a guard whose condition
    is false by computation or by the lengths of the layout; [idx x] reads an
    element. *)
Ltac bind := cbn [mbind res_bind].
Ltac pass_by tac :=
  match goal with
  | |- context [mbind _ (guard_err ?b ?e)] => rewrite (guard_pass b e) by tac
  end; bind.
Ltac pass :=
  pass_by ltac:(first [done | apply Nat.ltb_ge; bytes_len | apply Z.ltb_ge; bytes_len
                      | apply Nat.eqb_neq; bytes_len | apply Z.eqb_neq; bytes_len]).
Ltac idx x :=
  match goal with
  | |- context [mbind _ (index ?l ?i)] => rewrite (index_Ok l i x) by done
  end; bind.

(** [safe tac] proves [no_panic] of a chain of guards, slices and index
    expressions, [tac] turning what the guards tested into bounds. *)
Ltac safe tac :=
  repeat first
    [ done
    | apply no_panic_guard; let H := fresh "Hg" in intros H
    | apply no_panic_slice; [solve [tac]|]; intros ? ?
    | apply no_panic_index; [solve [tac]|]; intros ? ].

(** ** Counting *)

Definition counted {A} (f : A → bool) (l : list A) : Z := Z.of_nat (length (filter (λ w, f w = true) l)).

Lemma length_filter_one {A} f (w : A) : Z.of_nat (length (filter (λ w, f w = true) [w])) = if f w then 1 else 0.
Proof. rewrite filter_cons. destruct (f w); by case_decide. Qed.

Lemma counted_app {A} f l (w : A) : counted f (l ++ [w]) = counted f l + (if f w then 1 else 0).
Proof. unfold counted. by rewrite list.filter_app, length_app, Nat2Z.inj_add, length_filter_one. Qed.

Lemma counted_insert {A} f l i (v w : A) :
  l !! i = Some v → counted f (<[i := w]> l) = counted f l + (if f w then 1 else 0) - (if f v then 1 else 0).
Proof.
  intros Hi. rewrite insert_take_drop by (by eapply lookup_lt_Some). pose proof (take_drop_middle _ _ _ Hi) as Hl.
  rewrite <-Hl at 3. unfold counted. rewrite !(cons_middle _ (take _ _)), !list.filter_app, !length_app, !Nat2Z.inj_add, !length_filter_one.
  lia.
Qed.

Lemma counted_zero {A} f (l : list A) : counted f l = 0 ↔ Forall (λ w, f w = false) l.
Proof.
  unfold counted. induction l as [|w l IH]; [done|]. rewrite filter_cons, list.Forall_cons. case_decide as Hf; cbn [length].
  - split; [lia|]. intros [H _]. by rewrite Hf in H.
  - rewrite IH. apply not_true_is_false in Hf. tauto.
Qed.
