(* ===== verification/Text.v ===== *)
(** Go strings as byte sequences: the functions of [strings] and [strconv] the
    code uses, and what undoes them.  White space is Unicode's, given by its
    UTF-8 encodings: their first bytes never occur inside another encoding, so
    scanning bytes finds the same spaces as scanning runes. *)
From S2P Require Import Prelude.
Local Open Scope Z_scope.

Definition comma : byte := x2c.
Definition space : byte := x20.

Definition HasPrefix (s prefix : bytes) : bool := bool_decide (take (length prefix) s = prefix).
Definition TrimPrefix (s prefix : bytes) : bytes :=
  if HasPrefix s prefix then drop (length prefix) s else s.

(** [strings.Cut]. *)
Fixpoint Cut (s : bytes) (sep : byte) : bytes * bytes * bool :=
  match s with
  | [] => ([], [], false)
  | b :: s' =>
      if bool_decide (b = sep) then ([], s', true)
      else let '(before, after, found) := Cut s' sep in (b :: before, after, found)
  end.

(** [strings.Split] with a separator of one byte. *)
Fixpoint Split (s : bytes) (sep : byte) : list bytes :=
  match s with
  | [] => [[]]
  | b :: s' =>
      let parts := Split s' sep in
      if bool_decide (b = sep) then [] :: parts
      else match parts with p :: ps => (b :: p) :: ps | [] => [[b]] end
  end.

(** [strings.Join] with a separator of one byte. *)
Fixpoint Join (parts : list bytes) (sep : byte) : bytes :=
  match parts with
  | [] => []
  | [p] => p
  | p :: ps => p ++ sep :: Join ps sep
  end.

(** [strings.LastIndexByte]. *)
Definition LastIndexByte (s : bytes) (c : byte) : option nat :=
  match list_find (c =.) (reverse s) with
  | Some (i, _) => Some (length s - 1 - i)%nat
  | None => None
  end.

(** ** White space *)

(** The encodings of the runes [unicode.IsSpace] accepts. *)
Definition spaces : list bytes :=
  [[x09]; [x0a]; [x0b]; [x0c]; [x0d]; [x20]; [xc2; x85]; [xc2; xa0]; [xe1; x9a; x80];
   [xe2; x80; x80]; [xe2; x80; x81]; [xe2; x80; x82]; [xe2; x80; x83]; [xe2; x80; x84];
   [xe2; x80; x85]; [xe2; x80; x86]; [xe2; x80; x87]; [xe2; x80; x88]; [xe2; x80; x89];
   [xe2; x80; x8a]; [xe2; x80; xa8]; [xe2; x80; xa9]; [xe2; x80; xaf]; [xe2; x81; x9f];
   [xe3; x80; x80]].

(** The length of the space [s] starts with, 0 if there is none. *)
Fixpoint space_prefix (encodings : list bytes) (s : bytes) : nat :=
  match encodings with
  | [] => O
  | e :: es => if HasPrefix s e then length e else space_prefix es s
  end.

Definition flush (cur : bytes) : list bytes := match cur with [] => [] | _ => [cur] end.

(** [strings.Fields]; [skip] bytes of the current space are still to be passed. *)
Fixpoint Fields_loop (skip : nat) (cur s : bytes) : list bytes :=
  match s with
  | [] => flush cur
  | b :: s' =>
      match skip with
      | S k => Fields_loop k cur s'
      | O =>
          match space_prefix spaces s with
          | O => Fields_loop 0 (cur ++ [b]) s'
          | S k => flush cur ++ Fields_loop k [] s'
          end
      end
  end.
Definition Fields (s : bytes) : list bytes := Fields_loop 0 [] s.

Fixpoint trim_start (encodings : list bytes) (skip : nat) (s : bytes) : bytes :=
  match s with
  | [] => []
  | b :: s' =>
      match skip with
      | S k => trim_start encodings k s'
      | O => match space_prefix encodings s with O => s | S k => trim_start encodings k s' end
      end
  end.

(** [strings.TrimSpace]: the end is trimmed on the reversed string. *)
Definition TrimSpace (s : bytes) : bytes :=
  reverse (trim_start (reverse <$> spaces) 0 (reverse (trim_start spaces 0 s))).

(** [strings.Contains]. *)
Fixpoint Contains (s sub : bytes) : bool :=
  HasPrefix s sub || match s with [] => false | _ :: s' => Contains s' sub end.

(** ** Case *)

Definition lower (b : byte) : byte :=
  let c := b2z b in if (65 <=? c) && (c <=? 90) then z2b (c + 32) else b.
Definition upper (b : byte) : byte :=
  let c := b2z b in if (97 <=? c) && (c <=? 122) then z2b (c - 32) else b.

(** [strings.EqualFold(s, t)] for an ASCII [t]: the long s and the Kelvin sign
    are the two runes outside ASCII that fold to a letter of it. *)
Fixpoint EqualFold (s t : bytes) : bool :=
  match s, t with
  | [], [] => true
  | xc5 :: xbf :: s', b :: t' => bool_decide (lower b = x73) && EqualFold s' t'
  | xe2 :: x84 :: xaa :: s', b :: t' => bool_decide (lower b = x6b) && EqualFold s' t'
  | a :: s', b :: t' => bool_decide (lower a = lower b) && EqualFold s' t'
  | _, _ => false
  end.

(** ** Numbers *)

Fixpoint digits (acc : Z) (s : bytes) : option Z :=
  match s with
  | [] => Some acc
  | b :: s' =>
      if (48 <=? b2z b) && (b2z b <=? 57) then digits (acc * 10 + (b2z b - 48)) s' else None
  end.

(** [strconv.Atoi] on a 64-bit platform; [None] is an error. *)
Definition Atoi (s : bytes) : option Z :=
  let '(neg, ds) := match s with
                    | b :: s' => if bool_decide (b = x2d) then (true, s')
                                 else if bool_decide (b = x2b) then (false, s') else (false, s)
                    | [] => (false, s)
                    end in
  match ds with
  | [] => None
  | _ => n ← digits 0 ds;
         let n := if neg : bool then - n else n in
         if (- 2 ^ 63 <=? n) && (n <? 2 ^ 63) then Some n else None
  end.

(** [strconv.ParseUint(s, 10, bits)]. *)
Definition ParseUint (bits : Z) (s : bytes) : option Z :=
  match s with
  | [] => None
  | _ => n ← digits 0 s; if n <? 2 ^ bits then Some n else None
  end.

(** [strconv.Itoa] of a natural number: most significant digit first. *)
Fixpoint dec_loop (fuel : nat) (n : Z) (acc : bytes) : bytes :=
  match fuel with
  | O => acc
  | S fuel' =>
      let acc := z2b (48 + n mod 10) :: acc in
      if n <? 10 then acc else dec_loop fuel' (n / 10) acc
  end.
(** Twenty digits are enough for 64 bits. *)
Definition dec (n : Z) : bytes := dec_loop 20 n [].

(** ** Reading back *)

Lemma Join_cons p ps sep : ps ≠ [] → Join (p :: ps) sep = p ++ sep :: Join ps sep.
Proof. by destruct ps. Qed.

Lemma Split_no_sep s sep : sep ∉ s → Split s sep = [s].
Proof.
  induction s as [|b s IH]; [done|]. intros [Hb Hs]%not_elem_of_cons. cbn.
  rewrite bool_decide_eq_false_2 by congruence. by rewrite (IH Hs).
Qed.

Lemma Split_app p s sep : sep ∉ p → Split (p ++ sep :: s) sep = p :: Split s sep.
Proof.
  induction p as [|b p IH]; intros H; cbn; [by rewrite bool_decide_eq_true_2|].
  apply not_elem_of_cons in H as [Hb Hp]. rewrite bool_decide_eq_false_2 by congruence. by rewrite IH.
Qed.

Lemma Split_Join parts sep :
  parts ≠ [] → Forall (λ p, sep ∉ p) parts → Split (Join parts sep) sep = parts.
Proof.
  intros Hne. induction 1 as [|p ps Hp Hps IH]; [done|]. destruct ps as [|q ps].
  - by apply Split_no_sep.
  - rewrite Join_cons, Split_app by done. by rewrite IH.
Qed.

Lemma Cut_app a b sep : sep ∉ a → Cut (a ++ sep :: b) sep = (a, b, true).
Proof.
  induction a as [|x a IH]; intros H; cbn; [by rewrite bool_decide_eq_true_2|].
  apply not_elem_of_cons in H as [Hx Ha]. rewrite bool_decide_eq_false_2 by congruence. by rewrite IH.
Qed.

Lemma Cut_no_sep a sep : sep ∉ a → Cut a sep = (a, [], false).
Proof.
  induction a as [|x a IH]; intros H; cbn; [done|].
  apply not_elem_of_cons in H as [Hx Ha]. rewrite bool_decide_eq_false_2 by congruence. by rewrite IH.
Qed.

(** A visible ASCII character, and a word of them. *)
Definition visible (b : byte) : Prop := 33 ≤ b2z b ≤ 126.
#[export] Instance visible_dec b : Decision (visible b) := _.
Definition word (t : bytes) : Prop := t ≠ [] ∧ Forall visible t.
#[export] Instance word_dec t : Decision (word t) := _.

Lemma HasPrefix_app p s : HasPrefix (p ++ s) p = true.
Proof. unfold HasPrefix. by rewrite take_app_length, bool_decide_eq_true_2. Qed.

Lemma HasPrefix_head b s c p : b ≠ c → HasPrefix (b :: s) (c :: p) = false.
Proof. intros H. unfold HasPrefix. rewrite bool_decide_eq_false_2; [done|]. cbn. congruence. Qed.

(** An encoding that does not start with a visible character. *)
Definition unseen (e : bytes) : Prop := match e with c :: _ => ¬ visible c | [] => True end.
#[export] Instance unseen_dec e : Decision (unseen e).
Proof. destruct e; apply _. Defined.

Lemma space_prefix_visible encodings b s :
  Forall unseen encodings →
  visible b → space_prefix encodings (b :: s) = O.
Proof.
  intros He Hb. induction He as [|e es Hc _ IH]; [done|]. cbn [space_prefix]. destruct e as [|c e].
  - unfold HasPrefix. by case_bool_decide.
  - rewrite HasPrefix_head; [done|]. by intros ->.
Qed.

Lemma spaces_invisible : Forall unseen spaces.
Proof. apply (bool_decide_unpack _). by vm_compute. Qed.
Lemma rspaces_invisible :
  Forall unseen (reverse <$> spaces).
Proof. apply (bool_decide_unpack _). by vm_compute. Qed.

Lemma Fields_visible cur t s : Forall visible t → Fields_loop 0 cur (t ++ s) = Fields_loop 0 (cur ++ t) s.
Proof.
  intros Ht. revert cur. induction Ht as [|b t Hb _ IH]; intros cur; [by rewrite app_nil_r|].
  cbn [app Fields_loop]. rewrite space_prefix_visible by (done || apply spaces_invisible).
  by rewrite IH, <-app_assoc.
Qed.

Lemma Fields_space cur s : Fields_loop 0 cur (space :: s) = flush cur ++ Fields_loop 0 [] s.
Proof. done. Qed.

Lemma Fields_Join ws : Forall word ws → Fields (Join ws space) = ws.
Proof.
  unfold Fields. induction 1 as [|w ws [Hne Hw] Hws IH]; [done|]. destruct ws as [|w' ws].
  - cbn [Join]. rewrite <-(app_nil_r w) at 1. rewrite Fields_visible by done. cbn. by destruct w.
  - rewrite Join_cons by done. rewrite Fields_visible, Fields_space, IH by done. by destruct w.
Qed.

Lemma trim_start_visible encodings b s :
  Forall unseen encodings →
  visible b → trim_start encodings 0 (b :: s) = b :: s.
Proof. intros He Hb. cbn [trim_start]. by rewrite space_prefix_visible. Qed.

Lemma TrimSpace_id b s c : visible b → visible c → TrimSpace (b :: s ++ [c]) = b :: s ++ [c].
Proof.
  intros Hb Hc. unfold TrimSpace. rewrite trim_start_visible by (done || apply spaces_invisible).
  rewrite reverse_cons, reverse_app. cbn [reverse rev_append app].
  rewrite trim_start_visible by (done || apply rspaces_invisible).
  change (c :: reverse s ++ [b]) with ([c] ++ reverse s ++ [b]).
  by rewrite !reverse_app, reverse_involutive.
Qed.

Lemma TrimSpace_word w : word w → TrimSpace w = w.
Proof.
  intros [Hne Hw]. destruct w as [|b w]; [done|]. destruct w as [|c w _] using rev_ind.
  - apply (list.Forall_singleton visible) in Hw. unfold TrimSpace.
    rewrite trim_start_visible by (done || apply spaces_invisible). cbn [reverse rev_append].
    by rewrite trim_start_visible by (done || apply rspaces_invisible).
  - apply list.Forall_cons in Hw as [Hb Hw]. apply list.Forall_app in Hw as [_ Hc].
    apply (list.Forall_singleton visible) in Hc. by apply TrimSpace_id.
Qed.

Lemma TrimSpace_words ws : ws ≠ [] → Forall word ws → TrimSpace (Join ws space) = Join ws space.
Proof.
  intros Hne Hws. destruct ws as [|w ws]; [done|]. apply list.Forall_cons in Hws as [Hw Hws].
  destruct ws as [|l ws _] using rev_ind; [by apply TrimSpace_word|].
  apply list.Forall_app in Hws as [_ Hl]. apply (list.Forall_singleton word) in Hl.
  destruct Hw as [Hne' Hw], w as [|b w]; [done|]. destruct Hl as [Hnl Hl].
  destruct l as [|c l _] using rev_ind; [done|]. apply list.Forall_app in Hl as [_ Hc].
  apply (list.Forall_singleton visible) in Hc. apply list.Forall_cons in Hw as [Hb _].
  assert (∃ mid, Join (ws ++ [l ++ [c]]) space = mid ++ [c]) as [mid Hm].
  { clear. induction ws as [|v ws [mid IH]]; [by exists l|]. exists (v ++ space :: mid).
    cbn [app]. rewrite Join_cons by (by destruct ws). rewrite IH. by rewrite <-app_assoc. }
  rewrite Join_cons by (by destruct ws). rewrite Hm.
  replace ((b :: w) ++ space :: mid ++ [c]) with (b :: (w ++ space :: mid) ++ [c])
    by (cbn; by rewrite <-app_assoc). by apply TrimSpace_id.
Qed.

(** ** Decimal numbers *)

Definition is_digit (b : byte) : Prop := 48 ≤ b2z b ≤ 57.

Lemma dec_digit n : 0 ≤ n < 10 → b2z (z2b (48 + n)) = 48 + n.
Proof. intros. rewrite b2z_z2b. apply Z.mod_small. lia. Qed.

Lemma dec_loop_digits fuel n :
  0 ≤ n < 10 ^ Z.of_nat fuel → (0 < fuel)%nat →
  ∃ k, 0 ≤ k ∧ ∀ a tl, digits a (dec_loop fuel n tl) = digits (a * 10 ^ k + n) tl.
Proof.
  revert n. induction fuel as [|fuel IH]; intros n Hn Hf; [lia|].
  assert (∀ a tl, digits a (z2b (48 + n mod 10) :: tl) = digits (a * 10 + n mod 10) tl) as Hd.
  { intros a tl. pose proof (Z.mod_pos_bound n 10 ltac:(lia)). cbn [digits]. rewrite dec_digit by lia.
    rewrite !(proj2 (Z.leb_le _ _)) by lia. cbn. f_equal. lia. }
  cbn [dec_loop]. destruct (Z.ltb_spec n 10) as [Hlt|Hge].
  - exists 1. split; [lia|]. intros a tl. rewrite Hd. rewrite (Z.mod_small n) by lia. f_equal; lia.
  - rewrite Nat2Z.inj_succ, Z.pow_succ_r in Hn by lia.
    assert (0 < fuel)%nat by (destruct fuel; [cbn in Hn; lia|lia]).
    destruct (IH (n / 10)) as (k & Hk & Hdig); [split; [apply Z.div_pos; lia|apply Z.div_lt_upper_bound; lia]|done|].
    exists (k + 1). split; [lia|]. intros a tl. rewrite Hdig, Hd. f_equal.
    rewrite Z.pow_add_r by lia. pose proof (Z.div_mod n 10 ltac:(lia)). lia.
Qed.

Lemma dec_loop_chars fuel n tl :
  Forall is_digit tl → Forall is_digit (dec_loop fuel n tl).
Proof.
  revert n tl. induction fuel as [|fuel IH]; intros n tl Ht; [done|]. cbn [dec_loop].
  assert (Forall is_digit (z2b (48 + n mod 10) :: tl)) as H.
  { constructor; [|done]. pose proof (Z.mod_pos_bound n 10 ltac:(lia)). unfold is_digit.
    rewrite dec_digit; lia. }
  destruct (n <? 10); [done|]. by apply IH.
Qed.

Lemma dec_loop_ne fuel n tl : tl ≠ [] ∨ (0 < fuel)%nat → dec_loop fuel n tl ≠ [].
Proof.
  revert n tl. induction fuel as [|fuel IH]; intros n tl [H|H]; cbn [dec_loop]; try done; try lia;
    (destruct (n <? 10); [done|]); apply IH; by left.
Qed.

Lemma dec_chars n : Forall is_digit (dec n).
Proof. by apply dec_loop_chars. Qed.
Lemma dec_ne n : dec n ≠ [].
Proof. apply dec_loop_ne. right. lia. Qed.
Lemma dec_word n : word (dec n).
Proof.
  split; [apply dec_ne|]. eapply list.Forall_impl; [apply dec_chars|].
  intros b H. unfold is_digit, visible in *. lia.
Qed.
Lemma digits_dec n : 0 ≤ n < 10 ^ 20 → digits 0 (dec n) = Some n.
Proof.
  intros Hn. destruct (dec_loop_digits 20 n) as (k & _ & H); [done|lia|]. unfold dec. rewrite H. cbn. done.
Qed.

Lemma Atoi_dec n : 0 ≤ n < 2 ^ 63 → Atoi (dec n) = Some n.
Proof.
  intros Hn. unfold Atoi. pose proof (dec_ne n) as Hne. pose proof (dec_chars n) as Hc.
  pose proof (digits_dec n ltac:(lia)) as Hd. destruct (dec n) as [|b s]; [done|].
  apply list.Forall_cons in Hc as [Hb _].
  do 2 (rewrite bool_decide_eq_false_2 by (intros ->; by destruct Hb)). rewrite Hd. cbn.
  rewrite (proj2 (Z.leb_le _ _)), (proj2 (Z.ltb_lt _ _)) by lia. done.
Qed.

Lemma ParseUint_dec bits n : 0 ≤ n < 2 ^ bits → n < 10 ^ 20 → ParseUint bits (dec n) = Some n.
Proof.
  intros Hn Hl. unfold ParseUint. pose proof (dec_ne n) as Hne. pose proof (digits_dec n ltac:(lia)) as Hd.
  destruct (dec n) as [|b s]; [done|]. rewrite Hd. cbn. by rewrite (proj2 (Z.ltb_lt _ _)) by lia.
Qed.
