(* ===== verification/Netip.v ===== *)
(** IP addresses and prefixes: what the code uses of [net/netip].  Addresses
    are parsed by the loops of that package, byte by byte. *)
From S2P Require Import Prelude Text.
Local Open Scope Z_scope.

(** [netip.Addr]: the zero value, an IPv4 and an IPv6 address with its zone. *)
Inductive Addr : Type :=
  | AddrZero
  | Addr4 (v : Z)
  | Addr6 (v : Z) (zone : bytes).
#[export] Instance Addr_eq_dec : EqDecision Addr.
Proof. solve_decision. Defined.

Definition Is4 (a : Addr) : bool := match a with Addr4 _ => true | _ => false end.
Definition Is6 (a : Addr) : bool := match a with Addr6 _ _ => true | _ => false end.
Definition BitLen (a : Addr) : Z := match a with AddrZero => 0 | Addr4 _ => 32 | Addr6 _ _ => 128 end.

(** [As16] and [AsSlice]. *)
Definition As16 (a : Addr) : bytes :=
  match a with
  | AddrZero => be_enc 16 0
  | Addr4 v => be_enc 10 0 ++ [xff; xff] ++ be_enc 4 v
  | Addr6 v _ => be_enc 16 v
  end.
Definition AsSlice (a : Addr) : bytes :=
  match a with AddrZero => [] | Addr4 v => be_enc 4 v | Addr6 v _ => be_enc 16 v end.

(** [netip.Prefix]; the zero value has no address. *)
Record Prefix := mkPrefix { pf_addr : Addr; pf_bits : Z }.
Definition PrefixZero : Prefix := mkPrefix AddrZero (-1).

Definition withoutZone (a : Addr) : Addr := match a with Addr6 v _ => Addr6 v [] | _ => a end.

Definition PrefixFrom (a : Addr) (bits : Z) : Prefix :=
  mkPrefix (withoutZone a)
    (if (0 <=? bits) && (bits <=? BitLen a) && negb (bool_decide (a = AddrZero)) then bits else -1).

(** The value with only the top [n] of [w] bits kept. *)
Definition mask_top (w n v : Z) : Z := Z.land v (Z.shiftl (Z.ones n) (w - n)).

(** [Addr.Prefix]; [None] is an error. *)
Definition Addr_Prefix (b : Z) (a : Addr) : option Prefix :=
  if b <? 0 then None
  else match a with
       | AddrZero => Some PrefixZero
       | Addr4 v => if 32 <? b then None else Some (PrefixFrom (Addr4 (mask_top 32 b v)) b)
       | Addr6 v z => if 128 <? b then None else Some (PrefixFrom (Addr6 (mask_top 128 b v) z) b)
       end.

(** ** Parsing *)

Definition dot : byte := x2e.
Definition colon : byte := x3a.

(** [parseIPv4Fields]: [val] and [digLen] of the current field, [prev] whether
    the byte before is a dot (or there is none), the fields read so far. *)
Fixpoint parse4 (s : bytes) (val : Z) (digLen : nat) (prev : bool) (fields : list Z) : option (list Z) :=
  match s with
  | [] => if (length fields <? 3)%nat then None else Some (fields ++ [val])
  | b :: s' =>
      if (48 <=? b2z b) && (b2z b <=? 57) then
        if (digLen =? 1)%nat && (val =? 0) then None
        else
          let val := val * 10 + b2z b - 48 in
          if 255 <? val then None else parse4 s' val (S digLen) false fields
      else if bool_decide (b = dot) then
        if prev || bool_decide (s' = []) then None
        else if (length fields =? 3)%nat then None
        else parse4 s' 0 0 true (fields ++ [val])
      else None
  end.

Definition parseIPv4Fields (s : bytes) : option (list Z) := parse4 s 0 0 true [].

Definition parseIPv4 (s : bytes) : option Addr :=
  fields ← parseIPv4Fields s; Some (Addr4 (be_dec (z2b <$> fields))).

Definition hex_digit (b : byte) : option Z :=
  let c := b2z b in
  if (48 <=? c) && (c <=? 57) then Some (c - 48)
  else if (97 <=? c) && (c <=? 102) then Some (c - 97 + 10)
  else if (65 <=? c) && (c <=? 70) then Some (c - 65 + 10)
  else None.

(** The digits of a group: how many, their value and the rest; [None] is too
    many digits (more than four; the value then never exceeds 16 bits). *)
Fixpoint hex_group (s : bytes) (off : nat) (acc : Z) : option (nat * Z * bytes) :=
  match s with
  | [] => Some (off, acc, [])
  | b :: s' =>
      match hex_digit b with
      | None => Some (off, acc, s)
      | Some d => if (3 <? off)%nat then None else hex_group s' (S off) (acc * 16 + d)
      end
  end.

(** The loop of [parseIPv6]: [ip] holds the bytes read, [ellipsis] the position
    of the [::].  Each round adds two bytes, so eight rounds are enough. *)
Fixpoint parse6 (fuel : nat) (s ip : bytes) (ellipsis : option nat) : option (bytes * option nat * bytes) :=
  match fuel with
  | O => Some (ip, ellipsis, s)
  | S fuel' =>
      '(off, acc, rest) ← hex_group s 0 0;
      if (off =? 0)%nat then None
      else if bool_decide (head rest = Some dot) then
        if bool_decide (ellipsis = None) && negb (length ip =? 12)%nat then None
        else if (16 <? length ip + 4)%nat then None
        else fields ← parseIPv4Fields s; Some (ip ++ (z2b <$> fields), ellipsis, [])
      else
        let ip := ip ++ [z2b (Z.shiftr acc 8); z2b acc] in
        match rest with
        | [] => Some (ip, ellipsis, [])
        | c :: rest' =>
            if negb (bool_decide (c = colon)) then None
            else match rest' with
                 | [] => None
                 | d :: rest'' =>
                     if bool_decide (d = colon) then
                       match ellipsis with
                       | Some _ => None
                       | None => match rest'' with
                                 | [] => Some (ip, Some (length ip), [])
                                 | _ => parse6 fuel' rest'' ip (Some (length ip))
                                 end
                       end
                     else parse6 fuel' rest' ip ellipsis
                 end
        end
  end.

Definition parseIPv6 (s : bytes) : option Addr :=
  let '(s, zone, has) := Cut s x25 in
  if has && bool_decide (zone = []) then None
  else
    let '(s, ellipsis) := if HasPrefix s [colon; colon] then (drop 2 s, Some O) else (s, None) in
    if bool_decide (ellipsis = Some O) && bool_decide (s = []) then Some (Addr6 0 zone)
    else
      '(ip, ellipsis, rest) ← parse6 8 s [] ellipsis;
      match rest with
      | _ :: _ => None
      | [] =>
          if (length ip <? 16)%nat then
            e ← ellipsis;
            Some (Addr6 (be_dec (take e ip ++ replicate (16 - length ip) x00 ++ drop e ip)) zone)
          else if bool_decide (is_Some ellipsis) then None
          else Some (Addr6 (be_dec ip) zone)
      end.

(** [ParseAddr]: the first of the three characters decides. *)
Fixpoint ParseAddr_loop (s whole : bytes) : option Addr :=
  match s with
  | [] => None
  | b :: s' =>
      if bool_decide (b = dot) then parseIPv4 whole
      else if bool_decide (b = colon) then parseIPv6 whole
      else if bool_decide (b = x25) then None
      else ParseAddr_loop s' whole
  end.
Definition ParseAddr (s : bytes) : option Addr := ParseAddr_loop s s.

Definition ParsePrefix (s : bytes) : option Prefix :=
  i ← LastIndexByte s x2f;
  ip ← ParseAddr (take i s);
  if match ip with Addr6 _ (_ :: _) => true | _ => false end then None
  else
    let bitsStr := drop (S i) s in
    if (1 <? length bitsStr)%nat &&
       match bitsStr with c :: _ => (b2z c <? 49) || (57 <? b2z c) | [] => false end then None
    else
      bits ← Atoi bitsStr;
      if (bits <? 0) || (BitLen ip <? bits) then None else Some (PrefixFrom ip bits).

Example ParseAddr_examples :
  ParseAddr (text "10.8.0.1") = Some (Addr4 0x0A080001) ∧
  ParseAddr (text "fe80::1%eth0") = Some (Addr6 0xfe800000000000000000000000000001 (text "eth0")) ∧
  ParseAddr (text "::ffff:1.2.3.4") = Some (Addr6 0xffff01020304 []) ∧
  ParseAddr (text "1:2:3:4:5:6:7::") = Some (Addr6 0x00010002000300040005000600070000 []) ∧
  ParseAddr (text "::") = Some (Addr6 0 []) ∧
  ParseAddr (text "1:2:3:4:5:6:7:8::") = None ∧ ParseAddr (text "::1:2:3:4:5:6:7:8") = None ∧
  ParseAddr (text "1::2::3") = None ∧ ParseAddr (text "12345::") = None ∧ ParseAddr (text "1:2") = None ∧
  ParseAddr (text "1.2.3") = None ∧ ParseAddr (text "1.2.3.04") = None ∧ ParseAddr (text "1.2.3.256") = None ∧
  ParseAddr (text "1..2.3") = None ∧ ParseAddr (text "1.2.3.4.") = None ∧ ParseAddr (text "%eth0") = None ∧
  ParseAddr (text "::1%") = None ∧ ParseAddr (text "vpn_gateway") = None ∧
  ParsePrefix (text "fd00::1/64") = Some (mkPrefix (Addr6 0xfd000000000000000000000000000001 []) 64) ∧
  ParsePrefix (text "10.0.0.0/08") = None ∧ ParsePrefix (text "10.0.0.0/33") = None ∧
  ParsePrefix (text "10.0.0.0") = None.
Proof. by vm_compute. Qed.

(** ** Dotted quads *)

Definition quad (v : Z) : bytes :=
  Join [dec (v / 2 ^ 24); dec (v / 2 ^ 16 mod 2 ^ 8); dec (v / 2 ^ 8 mod 2 ^ 8); dec (v mod 2 ^ 8)] dot.

(** ** Printing *)

Definition hex_char (n : Z) : byte := if n <? 10 then z2b (48 + n) else z2b (87 + n).
(** [appendHex] of a 16-bit group: no leading zeros. *)
Definition appendHex (x : Z) : bytes :=
  (if 0x1000 <=? x then [hex_char (x / 2 ^ 12)] else []) ++
  (if 0x100 <=? x then [hex_char (x / 2 ^ 8 mod 16)] else []) ++
  (if 0x10 <=? x then [hex_char (x / 2 ^ 4 mod 16)] else []) ++ [hex_char (x mod 16)].

Definition group (v : Z) (i : nat) : Z := v / 2 ^ (112 - 16 * Z.of_nat i) mod 2 ^ 16.
(** The end of the run of zero groups at [i], with [n] groups left. *)
Fixpoint zeros_from (v : Z) (n i : nat) : nat :=
  match n with
  | S n' => if group v i =? 0 then zeros_from v n' (S i) else i
  | O => i
  end.
(** The longest run of two groups or more, the first of its length. *)
Definition zero_gap (v : Z) : nat * nat :=
  foldl (λ '(s, e) i, let j := zeros_from v (8 - i) i in
           if (2 <=? j - i)%nat && (e - s <? j - i)%nat then (i, j) else (s, e)) (255%nat, 255%nat) (seq 0 8).
Fixpoint groups_text (fuel i : nat) (gap : nat * nat) (v : Z) : bytes :=
  match fuel with
  | S fuel' =>
      if (8 <=? i)%nat then []
      else if (i =? gap.1)%nat then
        [colon; colon] ++ if (8 <=? gap.2)%nat then [] else appendHex (group v gap.2) ++ groups_text fuel' (S gap.2) gap v
      else (if (0 <? i)%nat then [colon] else []) ++ appendHex (group v i) ++ groups_text fuel' (S i) gap v
  | O => []
  end.
Definition zone_text (zone : bytes) : bytes := match zone with [] => [] | _ => x25 :: zone end.

(** [Addr.String]. *)
Definition Addr_String (a : Addr) : bytes :=
  match a with
  | AddrZero => text "invalid IP"
  | Addr4 v => quad v
  | Addr6 v zone =>
      (if v / 2 ^ 32 =? 0xffff then text "::ffff:" ++ quad (v mod 2 ^ 32) else groups_text 8 0 (zero_gap v) v) ++
      zone_text zone
  end.

Definition prints_back (s : string) : bool := bool_decide ((Addr_String <$> ParseAddr (text s)) = Some (text s)).
Example Addr_String_examples :
  forallb prints_back
    ["10.0.255.1"; "::1"; "::"; "2001:db8::1"; "fe80::1%eth0"; "::ffff:1.2.3.4"; "1:0:0:2::3"; "1:2:3:4:5:6:7:8";
     "abcd:0:1:0:2:0:3:0"; "1::"; "0:1::"; "::1:0:0:0"] = true ∧
  (Addr_String <$> ParseAddr (text "1:0:0:0:2:0:0:0")) = Some (text "1::2:0:0:0").
Proof. split; vm_compute; reflexivity. Qed.

(** [netip.AddrPort]. *)
Record AddrPort := mkAddrPort { ap_addr : Addr; ap_port : Z }.
Definition IsValid (a : Addr) : bool := negb (bool_decide (a = AddrZero)).
Definition AddrPort_IsValid (ap : AddrPort) : bool := IsValid (ap_addr ap).

(** ** Classes of addresses ([net/netip]) *)

(** [Unmap]: an IPv4-mapped IPv6 address becomes the IPv4 address. *)
Definition Is4In6 (a : Addr) : bool := match a with Addr6 v _ => v / 2 ^ 32 =? 0xffff | _ => false end.
Definition Unmap (a : Addr) : Addr := match a with Addr6 v _ => if Is4In6 a then Addr4 (v mod 2 ^ 32) else a | _ => a end.

Definition IsLoopback (a : Addr) : bool :=
  match Unmap a with Addr4 v => v / 2 ^ 24 =? 127 | Addr6 v _ => v =? 1 | AddrZero => false end.
(** Compared with the two unspecified addresses: neither a zone nor a mapped
    address equals them. *)
Definition IsUnspecified (a : Addr) : bool := bool_decide (a = Addr4 0) || bool_decide (a = Addr6 0 []).
Definition IsMulticast (a : Addr) : bool :=
  match Unmap a with Addr4 v => v / 2 ^ 28 =? 0xe | Addr6 v _ => v / 2 ^ 120 =? 0xff | AddrZero => false end.
Definition IsLinkLocalUnicast (a : Addr) : bool :=
  match Unmap a with Addr4 v => v / 2 ^ 16 =? 0xa9fe | Addr6 v _ => v / 2 ^ 118 =? 0x3fa | AddrZero => false end.
Definition IsLinkLocalMulticast (a : Addr) : bool :=
  match Unmap a with
  | Addr4 v => v / 2 ^ 8 =? 0xe00000
  | Addr6 v _ => Z.land (v / 2 ^ 112) 0xff0f =? 0xff02
  | AddrZero => false
  end.

(** ** Hosts and ports *)

(** [net.JoinHostPort]. *)
Definition JoinHostPort (host port : bytes) : bytes :=
  if bool_decide (colon ∈ host) then [x5b] ++ host ++ [x5d; colon] ++ port else host ++ colon :: port.

Inductive addr_error : Type :=
  | MissingPort
  | TooManyColons
  | MissingBracket
  | UnexpectedBracket.

(** [net.SplitHostPort]; [j] and [k] are the positions before which no opening
    and no closing bracket can stand. *)
Definition SplitHostPort (hostport : bytes) : res addr_error (bytes * bytes) :=
  match LastIndexByte hostport colon with
  | None => Err MissingPort
  | Some i =>
      let finish host j k :=
        guard_err (bool_decide (x5b ∈ drop j hostport)) UnexpectedBracket;;
        guard_err (bool_decide (x5d ∈ drop k hostport)) UnexpectedBracket;;
        Ok (host, drop (S i) hostport) in
      if HasPrefix hostport [x5b] then
        match list_find (x5d =.) hostport with
        | None => Err MissingBracket
        | Some (e, _) =>
            if (S e =? length hostport)%nat then Err MissingPort
            else if (S e =? i)%nat then finish (drop 1 (take e hostport)) 1%nat (S e)
            else c ← index hostport (S e); Err (if bool_decide (c = colon) then TooManyColons else MissingPort)
        end
      else
        let host := take i hostport in
        guard_err (bool_decide (colon ∈ host)) TooManyColons;;
        finish host 0%nat 0%nat
  end.

(** [netip.ParseAddrPort]. *)
Definition ParseAddrPort (s : bytes) : option AddrPort :=
  i ← LastIndexByte s colon;
  let ip := take i s in
  let port := drop (S i) s in
  if bool_decide (ip = []) || bool_decide (port = []) then None
  else
    '(ip, v6) ← (if HasPrefix ip [x5b] then
                   if (length ip <? 2)%nat || negb (bool_decide (nth (length ip - 1) ip x00 = x5d)) then None
                   else Some (take (length ip - 2) (drop 1 ip), true)
                 else Some (ip, false));
    n ← ParseUint 16 port;
    a ← ParseAddr ip;
    if v6 && Is4 a || negb v6 && Is6 a then None else Some (mkAddrPort a n).

Example host_ports :
  SplitHostPort (text "a:1") = Ok (text "a", text "1") ∧ SplitHostPort (text "[::1]:1") = Ok (text "::1", text "1") ∧
  SplitHostPort (text ":1") = Ok ([], text "1") ∧ SplitHostPort (text "a") = Err MissingPort ∧
  SplitHostPort (text "::1:1") = Err TooManyColons ∧ SplitHostPort (text "[::1]") = Err MissingPort ∧
  SplitHostPort (text "[a]b:1") = Err MissingPort ∧ SplitHostPort (text "[a]:b:1") = Err TooManyColons ∧
  SplitHostPort (text "a]:1") = Err UnexpectedBracket ∧ SplitHostPort (text "[a:1") = Err MissingBracket ∧
  ParseAddrPort (text "10.0.0.1:53") = Some (mkAddrPort (Addr4 0x0A000001) 53) ∧
  ParseAddrPort (text "[::1%a]:53") = Some (mkAddrPort (Addr6 1 (text "a")) 53) ∧
  ParseAddrPort (text "::1:53") = None ∧ ParseAddrPort (text "[1.2.3.4]:1") = None ∧
  ParseAddrPort (text "1.2.3.4:65536") = None ∧ ParseAddrPort (text "1.2.3.4:") = None ∧ ParseAddrPort (text "[]:1") = None.
Proof. by vm_compute. Qed.

Lemma LastIndexByte_app h c p : c ∉ p → LastIndexByte (h ++ c :: p) c = Some (length h).
Proof.
  intros Hp. unfold LastIndexByte. rewrite reverse_app, reverse_cons, <-app_assoc.
  assert (list_find (c =.) (reverse p ++ [c] ++ reverse h) = Some (length p, c)) as ->.
  { rewrite list_find_app_r; [cbn; rewrite decide_True by done; cbn; by rewrite length_reverse|].
    apply list_find_None, list.Forall_forall. intros x Hx <-. by apply Hp, elem_of_reverse. }
  rewrite length_app. cbn [length]. f_equal. lia.
Qed.

Definition bracketless (s : bytes) : Prop := (x5b ∉ s) ∧ (x5d ∉ s).

Lemma Join_bracket host port :
  colon ∈ host → JoinHostPort host port = (x5b :: host ++ [x5d]) ++ colon :: port.
Proof.
  intros Hh. unfold JoinHostPort. rewrite bool_decide_eq_true_2 by done. cbn [app]. f_equal. by rewrite <-app_assoc.
Qed.

Lemma ParseAddrPort_Join host port ap :
  bracketless host → colon ∉ port → ParseAddrPort (JoinHostPort host port) = Some ap → ParseAddr host = Some (ap_addr ap).
Proof.
  intros [Ho Hc] Hp. unfold ParseAddrPort. destruct (decide (colon ∈ host)) as [Hh|Hh].
  - rewrite Join_bracket, LastIndexByte_app by done. cbn [mbind option_bind]. rewrite take_app_length.
    destruct (_ || _) eqn:He; [done|]. change (HasPrefix (x5b :: host ++ [x5d]) [x5b]) with true. cbn match.
    assert (length (x5b :: host ++ [x5d]) = S (S (length host))) as -> by (cbn; rewrite length_app; cbn; lia).
    cbn [drop Nat.sub]. rewrite drop_0, Nat.sub_0_r, take_app_length.
    match goal with |- context [if ?b then None else Some (_, true)] => destruct b; [done|] end. cbn [mbind option_bind].
    destruct (ParseUint 16 _); [|done]. cbn. destruct (ParseAddr host); [|done]. cbn. destruct (Is4 _); [done|]. by intros [= <-].
  - unfold JoinHostPort. rewrite bool_decide_eq_false_2 by done. rewrite LastIndexByte_app by done. cbn [mbind option_bind].
    rewrite take_app_length. destruct (_ || _) eqn:He; [done|].
    assert (HasPrefix host [x5b] = false) as ->.
    { destruct host as [|c host]; [done|]. apply HasPrefix_head. intros ->. apply Ho. by left. }
    cbn [mbind option_bind]. destruct (ParseUint 16 _); [|done]. cbn. destruct (ParseAddr host); [|done]. cbn.
    destruct (Is6 _); [done|]. by intros [= <-].
Qed.

(** What is joined splits again. *)
Lemma SplitHostPort_Join host port :
  bracketless host → bracketless port → colon ∉ port → SplitHostPort (JoinHostPort host port) = Ok (host, port).
Proof.
  intros [Ho Hc] [Po Pc] Hp. unfold SplitHostPort, JoinHostPort. case_bool_decide as Hh.
  - pose proof (Join_bracket host port Hh) as Hs. unfold JoinHostPort in Hs. rewrite bool_decide_eq_true_2 in Hs by done.
    rewrite Hs, LastIndexByte_app by done.
    assert (list_find (x5d =.) ((x5b :: host ++ [x5d]) ++ colon :: port) = Some (S (length host), x5d)) as Hf.
    { replace ((x5b :: host ++ [x5d]) ++ colon :: port) with ((x5b :: host) ++ x5d :: colon :: port)
        by (cbn [app]; f_equal; by rewrite <-app_assoc).
      rewrite list_find_app_r; [cbn; rewrite decide_True by done; done|].
      apply list_find_None, list.Forall_forall. intros x Hx <-. apply elem_of_cons in Hx as [|Hx]; [done|by apply Hc]. }
    change (HasPrefix ((x5b :: host ++ [x5d]) ++ colon :: port) [x5b]) with true. cbn match. rewrite Hf.
    assert (length (x5b :: host ++ [x5d]) = S (S (length host))) as Hl by (cbn; rewrite length_app; cbn; lia).
    rewrite (proj2 (Nat.eqb_neq _ _)) by (rewrite length_app, Hl; cbn; lia). rewrite Hl, Nat.eqb_refl.
    rewrite take_app_le by (rewrite Hl; lia). cbn [take drop]. rewrite take_app_length, <-Hl, <-(Nat.add_1_r (length _)).
    rewrite drop_app_length, drop_app_add. change (drop 1 ((x5b :: host ++ [x5d]) ++ colon :: port)) with ((host ++ [x5d]) ++ colon :: port).
    rewrite !bool_decide_eq_false_2; [done|clear Hs Hf Hl; set_solver..].
  - rewrite LastIndexByte_app by done.
    assert (HasPrefix (host ++ colon :: port) [x5b] = false) as ->.
    { destruct host as [|c host]; [by apply HasPrefix_head|]. apply HasPrefix_head. intros ->. apply Ho. by left. }
    rewrite take_app_length, (bool_decide_eq_false_2 (colon ∈ host)) by done. cbn [drop].
    rewrite <-(Nat.add_1_r (length _)), drop_app_add.
    rewrite !bool_decide_eq_false_2; [done|set_solver..].
Qed.


Lemma parse4_digit d s val digLen prev fields :
  0 ≤ d < 10 → ¬ (digLen = 1%nat ∧ val = 0) → val * 10 + d ≤ 255 →
  parse4 (z2b (48 + d) :: s) val digLen prev fields = parse4 s (val * 10 + d) (S digLen) false fields.
Proof.
  intros Hd Hz Hv. cbn [parse4]. rewrite dec_digit by done. rewrite !(proj2 (Z.leb_le _ _)) by lia. cbn [andb].
  replace (val * 10 + (48 + d) - 48) with (val * 10 + d) by lia.
  assert ((digLen =? 1)%nat && (val =? 0) = false) as ->; [|by rewrite (proj2 (Z.ltb_ge _ _)) by lia].
  apply andb_false_iff. destruct (Nat.eqb_spec digLen 1); [right; apply Z.eqb_neq; lia|by left].
Qed.

(** A field in decimal is read to its value. *)
Lemma parse4_dec n s prev fields :
  0 ≤ n ≤ 255 → ∃ k, parse4 (dec n ++ s) 0 0 prev fields = parse4 s n (S k) false fields.
Proof.
  intros Hn. unfold dec. cbn [dec_loop].
  pose proof (Z.div_mod n 10 ltac:(lia)). pose proof (Z.mod_pos_bound n 10 ltac:(lia)).
  destruct (Z.ltb_spec n 10).
  { exists O. cbn [app]. rewrite parse4_digit by lia. rewrite Z.mod_small by lia. done. }
  pose proof (Z.div_mod (n / 10) 10 ltac:(lia)). pose proof (Z.mod_pos_bound (n / 10) 10 ltac:(lia)).
  destruct (Z.ltb_spec (n / 10) 10).
  { exists 1%nat. cbn [app]. rewrite !parse4_digit by lia. f_equal. lia. }
  pose proof (Z.mod_pos_bound (n / 10 / 10) 10 ltac:(lia)).
  rewrite (proj2 (Z.ltb_lt (n / 10 / 10) 10)) by lia. exists 2%nat. cbn [app].
  rewrite (Z.mod_small (n / 10 / 10)) in * by lia.
  rewrite !parse4_digit by lia. f_equal. lia.
Qed.

Lemma parse4_dot s val digLen fields :
  s ≠ [] → (length fields < 3)%nat → parse4 (dot :: s) val digLen false fields = parse4 s 0 0 true (fields ++ [val]).
Proof.
  intros Hs Hf. cbn [parse4]. rewrite (bool_decide_eq_true_2 (dot = dot)) by done.
  rewrite (bool_decide_eq_false_2 (s = [])) by done. by rewrite (proj2 (Nat.eqb_neq _ 3)) by lia.
Qed.

Lemma dec_app_ne n s : dec n ++ s ≠ [].
Proof. intros [H _]%app_eq_nil. by apply dec_ne in H. Qed.

Lemma parseIPv4Fields_quad v :
  is_u32 v → parseIPv4Fields (quad v) = Some [v / 2 ^ 24; v / 2 ^ 16 mod 2 ^ 8; v / 2 ^ 8 mod 2 ^ 8; v mod 2 ^ 8].
Proof.
  intros Hv. unfold is_u32 in Hv. unfold parseIPv4Fields, quad. cbn [Join].
  assert (0 ≤ v / 2 ^ 24 ≤ 255) as H0.
  { split; [apply Z.div_pos; lia|]. apply Z.lt_succ_r, Z.div_lt_upper_bound; lia. }
  assert (∀ z, 0 ≤ z mod 2 ^ 8 ≤ 255) as Hm by (intros z; pose proof (Z.mod_pos_bound z (2 ^ 8) ltac:(lia)); lia).
  destruct (parse4_dec _ (dot :: dec (v / 2 ^ 16 mod 2 ^ 8) ++ dot :: dec (v / 2 ^ 8 mod 2 ^ 8) ++
    dot :: dec (v mod 2 ^ 8)) true [] H0) as [k0 ->].
  rewrite parse4_dot by (cbn; try lia; apply dec_app_ne).
  destruct (parse4_dec _ (dot :: dec (v / 2 ^ 8 mod 2 ^ 8) ++ dot :: dec (v mod 2 ^ 8)) true
    ([] ++ [v / 2 ^ 24]) (Hm (v / 2 ^ 16))) as [k1 ->].
  rewrite parse4_dot by (cbn; try lia; apply dec_app_ne).
  destruct (parse4_dec _ (dot :: dec (v mod 2 ^ 8)) true (([] ++ [v / 2 ^ 24]) ++ [v / 2 ^ 16 mod 2 ^ 8])
    (Hm (v / 2 ^ 8))) as [k2 ->].
  rewrite parse4_dot by (cbn; try lia; apply dec_ne).
  destruct (parse4_dec _ [] true ((([] ++ [v / 2 ^ 24]) ++ [v / 2 ^ 16 mod 2 ^ 8]) ++ [v / 2 ^ 8 mod 2 ^ 8])
    (Hm v)) as [k3 Hk]. rewrite app_nil_r in Hk. rewrite Hk. done.
Qed.

(** The four fields are the bytes of the address. *)
Lemma fields_be v :
  is_u32 v → z2b <$> [v / 2 ^ 24; v / 2 ^ 16 mod 2 ^ 8; v / 2 ^ 8 mod 2 ^ 8; v mod 2 ^ 8] = be_enc 4 v.
Proof.
  intros _. unfold be_enc. cbn [fmap list_fmap]. rewrite !Z.shiftr_div_pow2 by lia.
  replace (8 * Z.of_nat 3) with 24 by done. replace (8 * Z.of_nat 2) with 16 by done.
  replace (8 * Z.of_nat 1) with 8 by done. replace (8 * Z.of_nat 0) with 0 by done.
  change (2 ^ 8) with 256. rewrite !z2b_mod, Z.div_1_r. done.
Qed.

Lemma ParseAddr_loop_dec n s whole :
  ParseAddr_loop (dec n ++ dot :: s) whole = parseIPv4 whole.
Proof.
  pose proof (dec_chars n) as Hc. induction Hc as [|b t Hb _ IH]; cbn [app ParseAddr_loop].
  - by rewrite bool_decide_eq_true_2.
  - do 3 (rewrite bool_decide_eq_false_2 by (intros ->; by destruct Hb)). exact IH.
Qed.

Lemma ParseAddr_quad v : is_u32 v → ParseAddr (quad v) = Some (Addr4 v).
Proof.
  intros Hv. unfold ParseAddr. unfold quad at 1. cbn [Join]. rewrite ParseAddr_loop_dec.
  unfold parseIPv4. rewrite parseIPv4Fields_quad by done. cbn [mbind option_bind].
  rewrite fields_be by done. by rewrite be_dec_enc_small.
Qed.
