(* ===== verification/Wire.v ===== *)
(** The wire formats of [internal/proto] that frame every packet: opcodes
    ([opcodes.go]), control header, control payload, acknowledgement payload
    and data-channel header ([header.go]), the PING payload ([ping.go]).
    Marshalling functions return [bytes]; parsing functions return [res], with
    every slice expression of the source kept, so that "never panics" is a
    statement about the length checks. *)
From S2P Require Import Prelude.
Local Open Scope Z_scope.

(** Errors of the package, by the return statement that builds them. *)
Inductive proto_error : Type :=
  | ErrShortPacket (what : string)
  | ErrTooManyAcks (n : Z)
  | ErrZeroAcks
  | ErrNotDataV2 (op : Z)
  | ErrMissingZeroPrefix
  | ErrUnsupportedKeyMethod (m : Z)
  | ErrZeroLength (name : string)
  | ErrMissingNUL (name : string)
  | ErrStringTooLong (name : string) (n : Z)
  | ErrStringHasNUL (name : string) (off : nat).

(** ** opcodes.go *)

Definition PControlSoftResetV1 : Z := 3.
Definition PControlV1 : Z := 4.
Definition PAckV1 : Z := 5.
Definition PControlHardResetClientV2 : Z := 7.
Definition PControlHardResetServerV2 : Z := 8.
Definition PDataV2 : Z := 9.
Definition PControlHardResetClientV3 : Z := 10.
Definition PControlWKCV1 : Z := 11.

Definition IsControl (op : Z) : bool :=
  (op =? PControlSoftResetV1) || (op =? PControlV1) || (op =? PAckV1) ||
  (op =? PControlHardResetClientV2) || (op =? PControlHardResetServerV2) ||
  (op =? PControlHardResetClientV3) || (op =? PControlWKCV1).

Definition IsData (op : Z) : bool := op =? PDataV2.

Definition OpcodeString (op : Z) : string :=
  if op =? PControlSoftResetV1 then "P_CONTROL_SOFT_RESET_V1"
  else if op =? PControlV1 then "P_CONTROL_V1"
  else if op =? PAckV1 then "P_ACK_V1"
  else if op =? PControlHardResetClientV2 then "P_CONTROL_HARD_RESET_CLIENT_V2"
  else if op =? PControlHardResetServerV2 then "P_CONTROL_HARD_RESET_SERVER_V2"
  else if op =? PDataV2 then "P_DATA_V2"
  else if op =? PControlHardResetClientV3 then "P_CONTROL_HARD_RESET_CLIENT_V3"
  else if op =? PControlWKCV1 then "P_CONTROL_WKC_V1"
  else "UNKNOWN".

(** [byte(op)<<3 | (keyID & 0x07)]. *)
Definition PackOpcodeKID (op keyID : Z) : byte :=
  z2b (Z.lor (u8 (Z.shiftl op 3)) (Z.land keyID 7)).

Definition UnpackOpcodeKID (b : byte) : Z * Z :=
  (Z.shiftr (b2z b) 3, Z.land (b2z b) 7).

(** ** header.go *)

Definition MaxAcks : Z := 255.
Definition HeaderLen : nat := 9.
Definition DataV2HeaderLen : nat := 8.

Record ControlHeader := mkControlHeader {
  ch_Opcode : Z;
  ch_KeyID : Z;
  ch_SessionID : Z
}.

(** [AppendBinary] of a control header. *)
Definition ControlHeader_AppendBinary (h : ControlHeader) (dst : bytes) : bytes :=
  (dst ++ [PackOpcodeKID (ch_Opcode h) (ch_KeyID h)]) ++ be_enc 8 (ch_SessionID h).

Definition ParseControlHeader (pkt : bytes) : res proto_error (ControlHeader * bytes) :=
  _ ← guard_err (length pkt <? HeaderLen)%nat (ErrShortPacket "control header");
  b0 ← index pkt 0;
  let '(op, kid) := UnpackOpcodeKID b0 in
  sid ← slice pkt 1 9;
  rest ← slice pkt 9 (length pkt);
  Ok (mkControlHeader op kid (be_dec sid), rest).

Record ControlPayload := mkControlPayload {
  cp_Acks : list Z;
  cp_RemoteSessionID : Z;
  cp_MessagePID : Z;
  cp_Body : bytes
}.

(** The loop appending each acknowledged packet-id in four bytes. *)
Definition append_acks (out : bytes) (acks : list Z) : bytes :=
  foldl (λ out a, out ++ be_enc 4 a) out acks.

Definition MarshalControlPayload (cp : ControlPayload) : res proto_error bytes :=
  _ ← guard_err (MaxAcks <? zlen (cp_Acks cp)) (ErrTooManyAcks (zlen (cp_Acks cp)));
  let out := [z2b (zlen (cp_Acks cp))] in
  let out := append_acks out (cp_Acks cp) in
  let out := if 0 <? zlen (cp_Acks cp)
             then out ++ be_enc 8 (cp_RemoteSessionID cp) else out in
  let out := out ++ be_enc 4 (cp_MessagePID cp) in
  Ok (out ++ cp_Body cp).

(** The loop reading [n] packet-ids at [off]; also returns the new offset. *)
Fixpoint read_acks (n : nat) (data : bytes) (off : nat) : res proto_error (list Z * nat) :=
  match n with
  | O => Ok ([], off)
  | S n' =>
      b ← slice data off (off + 4);
      '(acks, off') ← read_acks n' data (off + 4);
      Ok (be_dec b :: acks, off')
  end.

Definition ParseControlPayload (data : bytes) : res proto_error ControlPayload :=
  _ ← guard_err (length data <? 1)%nat (ErrShortPacket "missing ack_count");
  b0 ← index data 0;
  let n := Z.to_nat (b2z b0) in
  let need := (1 + 4 * n + (if (0 <? n)%nat then 8 else 0) + 4)%nat in
  _ ← guard_err (length data <? need)%nat (ErrShortPacket "control payload truncated");
  '(acks, sid, off) ←
    (if (0 <? n)%nat then
       '(acks, off) ← read_acks n data 1;
       s ← slice data off (off + 8);
       Ok (acks, be_dec s, (off + 8)%nat)
     else Ok ([], 0, 1%nat));
  p ← slice data off (off + 4);
  let off := (off + 4)%nat in
  body ← (if (off <? length data)%nat then slice data off (length data) else Ok []);
  Ok (mkControlPayload acks sid (be_dec p) body).

Record AckPayload := mkAckPayload {
  ap_Acks : list Z;
  ap_RemoteSessionID : Z
}.

Definition MarshalAckPayload (ap : AckPayload) : res proto_error bytes :=
  _ ← guard_err (zlen (ap_Acks ap) =? 0) ErrZeroAcks;
  _ ← guard_err (MaxAcks <? zlen (ap_Acks ap)) (ErrTooManyAcks (zlen (ap_Acks ap)));
  let out := append_acks [z2b (zlen (ap_Acks ap))] (ap_Acks ap) in
  Ok (out ++ be_enc 8 (ap_RemoteSessionID ap)).

Definition ParseAckPayload (data : bytes) : res proto_error AckPayload :=
  _ ← guard_err (length data <? 1)%nat (ErrShortPacket "missing ack_count");
  b0 ← index data 0;
  let n := Z.to_nat (b2z b0) in
  _ ← guard_err (n =? 0)%nat ErrZeroAcks;
  let need := (1 + 4 * n + 8)%nat in
  _ ← guard_err (length data <? need)%nat (ErrShortPacket "ack payload truncated");
  '(acks, off) ← read_acks n data 1;
  s ← slice data off (off + 8);
  Ok (mkAckPayload acks (be_dec s)).

Record DataV2Header := mkDataV2Header {
  dh_KeyID : Z;
  dh_PeerID : Z;
  dh_PacketID : Z
}.

Definition DataV2Header_AppendBinary (h : DataV2Header) (dst : bytes) : bytes :=
  let dst := dst ++ [PackOpcodeKID PDataV2 (dh_KeyID h)] in
  let dst := dst ++ [z2b (Z.shiftr (dh_PeerID h) 16); z2b (Z.shiftr (dh_PeerID h) 8);
                     z2b (dh_PeerID h)] in
  dst ++ be_enc 4 (dh_PacketID h).

Definition ParseDataV2Header (pkt : bytes) : res proto_error (DataV2Header * bytes) :=
  _ ← guard_err (length pkt <? DataV2HeaderLen)%nat (ErrShortPacket "data v2 header");
  b0 ← index pkt 0;
  let '(op, kid) := UnpackOpcodeKID b0 in
  _ ← guard_err (negb (op =? PDataV2)) (ErrNotDataV2 op);
  b1 ← index pkt 1;
  b2 ← index pkt 2;
  b3 ← index pkt 3;
  let peer := Z.lor (Z.lor (Z.shiftl (b2z b1) 16) (Z.shiftl (b2z b2) 8)) (b2z b3) in
  p ← slice pkt 4 8;
  rest ← slice pkt 8 (length pkt);
  Ok (mkDataV2Header kid peer (be_dec p), rest).

(** ** ping.go *)

Definition PingMagic : bytes :=
  z2b <$> [0x2a; 0x18; 0x7b; 0xf3; 0x64; 0x1e; 0xb4; 0xcb;
           0x07; 0xed; 0x2d; 0x0a; 0x98; 0x1f; 0xc7; 0x48].

(** The comparison loop [for i := range PingMagic { if b[i] != PingMagic[i] ... }]. *)
Fixpoint ping_loop (b magic : bytes) : bool :=
  match magic, b with
  | [], _ => true
  | m :: magic', x :: b' => if bool_decide (x = m) then ping_loop b' magic' else false
  | _ :: _, [] => false
  end.

Definition IsPing (b : bytes) : bool :=
  if negb (length b =? length PingMagic)%nat then false else ping_loop b PingMagic.

(** ** Opcode byte *)

Lemma PackOpcodeKID_arith op kid :
  b2z (PackOpcodeKID op kid) = (op * 8 + kid mod 8) mod 256.
Proof.
  unfold PackOpcodeKID. rewrite b2z_z2b.
  change 7 with (8 - 1). rewrite (land_ones_mod _ 3) by done.
  unfold u8. rewrite Z.shiftl_mul_pow2 by done. change (2 ^ 3) with 8. change (2 ^ 8) with 256.
  replace (op * 8 mod 256) with (Z.shiftl (op mod 32) 3)
    by (rewrite Z.shiftl_mul_pow2 by done; change (2 ^ 3) with 8;
        change 256 with (32 * 8); rewrite Z.mul_mod_distr_r by lia; done).
  rewrite (lor_shiftl_add_w _ _ 3 8) by (try done; apply Z.mod_pos_bound; lia).
  rewrite <-(Z.mul_mod_distr_r op 32 8), Z.add_mod_idemp_l by lia. done.
Qed.

Lemma Unpack_Pack op kid :
  0 ≤ op < 32 → UnpackOpcodeKID (PackOpcodeKID op kid) = (op, kid mod 8).
Proof.
  intros Hop. unfold UnpackOpcodeKID. rewrite PackOpcodeKID_arith.
  change 7 with (8 - 1). rewrite (land_ones_mod _ 3), (shiftr_div _ 3 8) by done.
  pose proof (Z.mod_pos_bound kid 8 ltac:(lia)).
  rewrite (Z.mod_small (_ + _)) by lia. f_equal.
  - rewrite Z.div_add_l, (Z.div_small (kid mod 8)) by lia. lia.
  - rewrite Z.add_comm, Z.mod_add, Z.mod_mod by lia. done.
Qed.

Lemma Pack_Unpack b :
  let '(op, kid) := UnpackOpcodeKID b in
  PackOpcodeKID op kid = b ∧ 0 ≤ op < 32 ∧ 0 ≤ kid < 8.
Proof.
  pose proof (b2z_range b). unfold UnpackOpcodeKID.
  change 7 with (8 - 1). rewrite (shiftr_div _ 3 8) by done.
  rewrite (land_ones_mod _ 3) by done. split_and!.
  - apply b2z_inj. rewrite PackOpcodeKID_arith, Z.mod_mod by lia.
    rewrite (Z.mul_comm _ 8), <-Z.div_mod by lia. by apply Z.mod_small.
  - apply Z.div_pos; lia.
  - apply Z.div_lt_upper_bound; lia.
  - apply Z.mod_pos_bound; lia.
  - apply Z.mod_pos_bound; lia.
Qed.

(** ** The acknowledgement array *)

Definition encode_acks (acks : list Z) : bytes := concat (be_enc 4 <$> acks).
#[global] Arguments encode_acks : simpl never.

Lemma length_encode_acks acks : length (encode_acks acks) = (4 * length acks)%nat.
Proof.
  unfold encode_acks. induction acks as [|a acks IH]; [done|].
  cbn [fmap list_fmap concat]. rewrite length_app, length_be_enc.
  change (list_fmap _ _ (be_enc 4) acks) with (be_enc 4 <$> acks). rewrite IH. cbn; lia.
Qed.
#[export] Hint Rewrite length_encode_acks : wire_len.

Lemma append_acks_eq out acks : append_acks out acks = out ++ encode_acks acks.
Proof.
  unfold append_acks, encode_acks. revert out.
  induction acks as [|a acks IH]; intros out; cbn [foldl fmap list_fmap concat].
  - by rewrite app_nil_r.
  - rewrite IH. by rewrite <-app_assoc.
Qed.

Lemma is_u32_pow a : is_u32 a → 0 ≤ a < 256 ^ Z.of_nat 4.
Proof. done. Qed.
Lemma is_u64_pow a : is_u64 a → 0 ≤ a < 256 ^ Z.of_nat 8.
Proof. done. Qed.
#[export] Hint Resolve is_u32_pow is_u64_pow : core.

(** Reading back an encoded array found at the read offset. *)
Lemma read_acks_encode acks pre post :
  Forall is_u32 acks →
  read_acks (length acks) (pre ++ encode_acks acks ++ post) (length pre)
  = Ok (acks, (length pre + 4 * length acks)%nat).
Proof.
  intros Hacks. revert pre. induction Hacks as [|a acks Ha Hacks IH]; intros pre.
  - cbn. do 2 f_equal. lia.
  - unfold encode_acks. cbn [length read_acks fmap list_fmap concat].
    fold (encode_acks acks). rewrite <-app_assoc.
    rewrite (slice_app pre (be_enc 4 a)) by (bytes_len; done).
    bind.
    rewrite (app_assoc pre). replace (length pre + 4)%nat with (length (pre ++ be_enc 4 a))
      by bytes_len.
    rewrite IH. cbn. rewrite be_dec_enc_small by auto.
    do 2 f_equal. rewrite length_app, length_be_enc. lia.
Qed.

(** Every block of [4n] bytes is an encoded array of [n] packet-ids. *)
Lemma encode_acks_surj n l :
  length l = (4 * n)%nat →
  ∃ acks, length acks = n ∧ Forall is_u32 acks ∧ l = encode_acks acks.
Proof.
  revert l. induction n as [|n IH]; intros l Hl.
  - exists []. by destruct l.
  - destruct (split_at 4 l) as (l1 & l2 & -> & H1); [lia|].
    destruct (IH l2) as (acks & Hn & Hf & ->); [rewrite length_app in Hl; lia|].
    exists (be_dec l1 :: acks). split_and!; [cbn; lia| |].
    + constructor; [|done]. pose proof (be_dec_range l1) as Hr.
      unfold zlen in Hr. rewrite H1 in Hr. done.
    + unfold encode_acks. cbn. by rewrite be_enc_dec_len.
Qed.

Lemma be_dec_is_u32 l : length l = 4%nat → is_u32 (be_dec l).
Proof. intros H. pose proof (be_dec_range l) as Hr. unfold zlen in Hr. by rewrite H in Hr. Qed.
Lemma be_dec_is_u64 l : length l = 8%nat → is_u64 (be_dec l).
Proof. intros H. pose proof (be_dec_range l) as Hr. unfold zlen in Hr. by rewrite H in Hr. Qed.

Lemma zlen_byte {A} (l : list A) : zlen l ≤ 255 → Z.to_nat (b2z (z2b (zlen l))) = length l.
Proof. intros. rewrite b2z_z2b, Z.mod_small by (unfold zlen in *; lia). unfold zlen. lia. Qed.

Lemma byte_zlen {A} (l : list A) b : length l = Z.to_nat (b2z b) → z2b (zlen l) = b ∧ zlen l ≤ 255.
Proof.
  intros H. pose proof (b2z_range b). unfold zlen. rewrite H, Z2Nat.id by lia.
  split; [apply z2b_b2z|lia].
Qed.

(** ** Control payload *)

(** The Go types of the fields, and the session-id the parser leaves at zero
    when there is no acknowledgement to qualify. *)
Record cp_wf (cp : ControlPayload) : Prop := {
  cp_wf_acks : Forall is_u32 (cp_Acks cp);
  cp_wf_sid : is_u64 (cp_RemoteSessionID cp);
  cp_wf_nosid : cp_Acks cp = [] → cp_RemoteSessionID cp = 0;
  cp_wf_pid : is_u32 (cp_MessagePID cp)
}.

Definition cp_layout (cp : ControlPayload) : bytes :=
  [z2b (zlen (cp_Acks cp))] ++ encode_acks (cp_Acks cp) ++
  (if (0 <? length (cp_Acks cp))%nat then be_enc 8 (cp_RemoteSessionID cp) else []) ++
  be_enc 4 (cp_MessagePID cp) ++ cp_Body cp.

Lemma zlen_ltb {A} (l : list A) : (0 <? zlen l) = (0 <? length l)%nat.
Proof. unfold zlen. destruct l; done. Qed.

Lemma Marshal_control_layout cp d :
  MarshalControlPayload cp = Ok d ↔ zlen (cp_Acks cp) ≤ 255 ∧ d = cp_layout cp.
Proof.
  unfold MarshalControlPayload, guard_err, MaxAcks, cp_layout.
  rewrite append_acks_eq, zlen_ltb.
  destruct (Z.ltb_spec 255 (zlen (cp_Acks cp))); bind.
  - split; [done|lia].
  - assert (∀ x : bytes, Ok (E:=proto_error) x = Ok d ↔ zlen (cp_Acks cp) ≤ 255 ∧ d = x) as Hx
      by naive_solver.
    rewrite Hx. destruct (0 <? length (cp_Acks cp))%nat; by rewrite <-!app_assoc.
Qed.

(** The end of a control payload: packet-id, then the body if there is one. *)
Lemma parse_tail acks sid pre pid body off :
  off = length pre → is_u32 pid →
  (p ← slice (pre ++ be_enc 4 pid ++ body) off (off + 4);
   let off' := (off + 4)%nat in
   b ← (if (off' <? length (pre ++ be_enc 4 pid ++ body))%nat
        then slice (pre ++ be_enc 4 pid ++ body) off' (length (pre ++ be_enc 4 pid ++ body))
        else Ok []);
   Ok (E:=proto_error) (mkControlPayload acks sid (be_dec p) b))
  = Ok (mkControlPayload acks sid pid body).
Proof.
  intros -> Hp. rewrite (slice_app pre (be_enc 4 pid)) by bytes_len.
  bind. rewrite be_dec_enc_small by auto. rewrite app_assoc.
  case_match eqn:Hb.
  - rewrite (slice_to_end _ body) by bytes_len. done.
  - apply Nat.ltb_ge in Hb. bytes_len. destruct body; [done|cbn in Hb; lia].
Qed.

Lemma Parse_control_layout cp :
  cp_wf cp → zlen (cp_Acks cp) ≤ 255 → ParseControlPayload (cp_layout cp) = Ok cp.
Proof.
  intros [Ha Hs Hns Hp] Hlen. destruct cp as [acks sid pid body]; cbn in Ha, Hs, Hns, Hp, Hlen.
  unfold ParseControlPayload. set (d := cp_layout _).
  assert (length d = 1 + 4 * length acks + (if (0 <? length acks)%nat then 8 else 0) + 4
    + length body)%nat as Hd.
  { subst d. unfold cp_layout; cbn [cp_Acks cp_RemoteSessionID cp_MessagePID cp_Body].
    destruct (0 <? length acks)%nat; bytes_len. }
  pass.
  idx (z2b (zlen acks)).
  rewrite zlen_byte by done.
  pass.
  subst d. unfold cp_layout; cbn [cp_Acks cp_RemoteSessionID cp_MessagePID cp_Body].
  destruct (Nat.ltb_spec 0 (length acks)) as [Hpos|Hz].
  - rewrite (read_acks_encode acks [z2b (zlen acks)]) by done. bind.
    rewrite (app_assoc [_]), (slice_app _ (be_enc 8 sid)) by bytes_len.
    bind. rewrite be_dec_enc_small by auto.
    rewrite (app_assoc _ (be_enc 8 sid)). apply parse_tail; [bytes_len|done].
  - destruct acks; [|cbn in Hz; lia]. cbn [mbind res_bind encode_acks app fmap list_fmap concat].
    rewrite (Hns eq_refl). by apply (parse_tail [] 0 [z2b (zlen [])]).
Qed.

(** The length the parser requires, from the first byte. *)
Definition cp_need (d : bytes) : nat :=
  match d with
  | [] => 1
  | b0 :: _ => let n := Z.to_nat (b2z b0) in
               1 + 4 * n + (if (0 <? n)%nat then 8 else 0) + 4
  end.

Lemma control_layout_exists d :
  (cp_need d ≤ length d)%nat →
  ∃ cp, cp_wf cp ∧ zlen (cp_Acks cp) ≤ 255 ∧ d = cp_layout cp.
Proof.
  destruct d as [|b0 d]; [cbn; lia|]. unfold cp_need. intros Hn. cbn [length] in Hn.
  destruct (split_at (4 * Z.to_nat (b2z b0)) d) as (A & d1 & -> & HA); [lia|].
  apply encode_acks_surj in HA as (acks & Hlen & Hacks & ->).
  destruct (byte_zlen acks b0 Hlen) as [Hb0 H255].
  rewrite length_app, length_encode_acks in Hn.
  set (sl := (if (0 <? Z.to_nat (b2z b0))%nat then 8 else 0)%nat) in *.
  destruct (split_at sl d1) as (S & d2 & -> & HS); [lia|].
  rewrite length_app in Hn.
  destruct (split_at 4 d2) as (P & body & -> & HP); [lia|].
  exists (mkControlPayload acks (be_dec S) (be_dec P) body).
  unfold cp_layout; cbn [cp_Acks cp_RemoteSessionID cp_MessagePID cp_Body].
  rewrite Hb0, Hlen, (be_enc_dec_len 4) by done. subst sl.
  destruct (Nat.ltb_spec 0 (Z.to_nat (b2z b0))) as [Hpos|Hz].
  - rewrite be_enc_dec_len by done. split_and!; [|done|done].
    split; cbn; auto using be_dec_is_u32, be_dec_is_u64. intros ->. cbn in Hlen. lia.
  - destruct S; [|done]. split_and!; [|done|done].
    split; cbn; auto using be_dec_is_u32. done.
Qed.

Lemma Parse_control_short d :
  (length d < cp_need d)%nat → ∃ w, ParseControlPayload d = Err (ErrShortPacket w).
Proof.
  unfold ParseControlPayload. destruct d as [|b0 d]; cbn [cp_need]; intros H.
  - eexists. done.
  - pass.
    idx b0. unfold guard_err.
    destruct (Nat.ltb_spec (length (b0 :: d))
      (1 + 4 * Z.to_nat (b2z b0) + (if (0 <? Z.to_nat (b2z b0))%nat then 8 else 0) + 4));
      [|lia]. eexists; done.
Qed.

(** C29: the control payload codec is a bijection between well-formed payloads
    and the byte strings the parser accepts: parsing succeeds with [cp] exactly
    on the bytes marshalling produces for [cp], so decoding loses nothing and
    no two encodings of one payload are accepted. *)
Theorem control_payload_wire d cp :
  ParseControlPayload d = Ok cp ↔ cp_wf cp ∧ MarshalControlPayload cp = Ok d.
Proof.
  rewrite Marshal_control_layout. split.
  - intros Hp. destruct (decide (cp_need d ≤ length d)%nat) as [Hn|Hn].
    + apply control_layout_exists in Hn as (cp' & Hwf & Hlen & ->).
      rewrite Parse_control_layout in Hp by done. by simplify_eq.
    + destruct (Parse_control_short d) as [w Hw]; [lia|]. congruence.
  - intros (Hwf & Hlen & ->). by apply Parse_control_layout.
Qed.

Lemma ParseControlPayload_no_panic d : no_panic (ParseControlPayload d).
Proof.
  destruct (decide (cp_need d ≤ length d)%nat) as [Hn|Hn].
  - apply control_layout_exists in Hn as (cp & Hwf & Hlen & ->).
    by rewrite Parse_control_layout.
  - destruct (Parse_control_short d) as [w ->]; [lia|done].
Qed.

(** ** Acknowledgement payload *)

Record ap_wf (ap : AckPayload) : Prop := {
  ap_wf_acks : Forall is_u32 (ap_Acks ap);
  ap_wf_sid : is_u64 (ap_RemoteSessionID ap)
}.

Definition ap_layout (ap : AckPayload) : bytes :=
  [z2b (zlen (ap_Acks ap))] ++ encode_acks (ap_Acks ap) ++ be_enc 8 (ap_RemoteSessionID ap).

Lemma Marshal_ack_layout ap d :
  MarshalAckPayload ap = Ok d ↔
  ap_Acks ap ≠ [] ∧ zlen (ap_Acks ap) ≤ 255 ∧ d = ap_layout ap.
Proof.
  unfold MarshalAckPayload, guard_err, MaxAcks, ap_layout. rewrite append_acks_eq.
  assert ((zlen (ap_Acks ap) =? 0) = bool_decide (ap_Acks ap = [])) as ->.
  { unfold zlen. by destruct (ap_Acks ap). }
  case_bool_decide; cbn [mbind res_bind]; [naive_solver|].
  destruct (Z.ltb_spec 255 (zlen (ap_Acks ap))); bind.
  - split; [done|lia].
  - rewrite <-app_assoc. naive_solver.
Qed.

Lemma Parse_ack_layout ap tail :
  ap_wf ap → ap_Acks ap ≠ [] → zlen (ap_Acks ap) ≤ 255 →
  ParseAckPayload (ap_layout ap ++ tail) = Ok ap.
Proof.
  intros [Ha Hs] Hne Hlen. destruct ap as [acks sid]; cbn in Ha, Hs, Hne, Hlen.
  unfold ParseAckPayload, ap_layout; cbn [ap_Acks ap_RemoteSessionID]. rewrite <-!app_assoc.
  pass.
  idx (z2b (zlen acks)).
  rewrite zlen_byte by done.
  pass_by ltac:(by destruct acks).
  pass.
  rewrite (read_acks_encode acks [z2b (zlen acks)]) by done. bind.
  rewrite (app_assoc [_]), (slice_app _ (be_enc 8 sid)) by bytes_len.
  bind. by rewrite be_dec_enc_small by auto.
Qed.

Definition ap_need (d : bytes) : nat :=
  match d with [] => 1 | b0 :: _ => 1 + 4 * Z.to_nat (b2z b0) + 8 end.

Definition ap_count (d : bytes) : nat :=
  match d with [] => 0 | b0 :: _ => Z.to_nat (b2z b0) end.

Lemma ack_layout_exists d :
  (0 < ap_count d)%nat → (ap_need d ≤ length d)%nat →
  ∃ ap tail, ap_wf ap ∧ ap_Acks ap ≠ [] ∧ zlen (ap_Acks ap) ≤ 255 ∧ d = ap_layout ap ++ tail.
Proof.
  destruct d as [|b0 d]; [cbn; lia|]. unfold ap_need, ap_count. intros Hpos Hn.
  cbn [length] in Hn.
  destruct (split_at (4 * Z.to_nat (b2z b0)) d) as (A & d1 & -> & HA); [lia|].
  apply encode_acks_surj in HA as (acks & Hlen & Hacks & ->).
  destruct (byte_zlen acks b0 Hlen) as [Hb0 H255].
  rewrite length_app, length_encode_acks in Hn.
  destruct (split_at 8 d1) as (S & tail & -> & HS); [lia|].
  exists (mkAckPayload acks (be_dec S)), tail. unfold ap_layout; cbn [ap_Acks ap_RemoteSessionID].
  rewrite Hb0, be_enc_dec_len, <-!app_assoc by done. split_and!; [|by destruct acks; cbn in *; [lia|]|done|done].
  split; cbn; auto using be_dec_is_u64.
Qed.

Lemma Parse_ack_error d :
  ¬ ((0 < ap_count d)%nat ∧ (ap_need d ≤ length d)%nat) → ∃ e, ParseAckPayload d = Err e.
Proof.
  unfold ParseAckPayload. destruct d as [|b0 d]; cbn [ap_need ap_count]; intros H.
  { eexists; done. }
  pass.
  idx b0. unfold guard_err.
  destruct (Nat.eqb_spec (Z.to_nat (b2z b0)) 0); [eexists; done|]. bind.
  destruct (Nat.ltb_spec (length (b0 :: d)) (1 + 4 * Z.to_nat (b2z b0) + 8)); [|lia].
  eexists; done.
Qed.

(** An acknowledgement packet parses to [ap] exactly when it starts with
    the encoding of [ap]; trailing bytes are ignored and an empty
    acknowledgement is neither produced nor accepted. *)
Theorem ack_payload_wire d ap :
  ParseAckPayload d = Ok ap ↔
  ap_wf ap ∧ ∃ m tail, MarshalAckPayload ap = Ok m ∧ d = m ++ tail.
Proof.
  setoid_rewrite Marshal_ack_layout. split.
  - intros Hp. destruct (decide ((0 < ap_count d)%nat ∧ (ap_need d ≤ length d)%nat)) as [[H0 Hn]|Hn].
    + apply ack_layout_exists in Hn as (ap' & tail & Hwf & Hne & Hlen & ->); [|done].
      rewrite Parse_ack_layout in Hp by done. simplify_eq. eauto 10.
    + destruct (Parse_ack_error d) as [w Hw]; [done|]. congruence.
  - intros (Hwf & m & tail & (Hne & Hlen & ->) & ->). by apply Parse_ack_layout.
Qed.

Lemma ParseAckPayload_no_panic d : no_panic (ParseAckPayload d).
Proof.
  destruct (decide ((0 < ap_count d)%nat ∧ (ap_need d ≤ length d)%nat)) as [[H0 Hn]|Hn].
  - apply ack_layout_exists in Hn as (ap & tail & Hwf & Hne & Hlen & ->); [|done].
    by rewrite Parse_ack_layout.
  - destruct (Parse_ack_error d) as [w ->]; done.
Qed.

(** ** Packet headers *)

Record ch_wf (h : ControlHeader) : Prop := {
  ch_wf_op : 0 ≤ ch_Opcode h < 32;
  ch_wf_kid : 0 ≤ ch_KeyID h < 8;
  ch_wf_sid : is_u64 (ch_SessionID h)
}.

(** A control packet parses to header [h] and remainder [rest] exactly when it
    is the encoding of [h] followed by [rest]. *)
Lemma Parse_control_header pkt h rest :
  ParseControlHeader pkt = Ok (h, rest) ↔
  ch_wf h ∧ pkt = ControlHeader_AppendBinary h [] ++ rest.
Proof.
  split.
  - unfold ParseControlHeader, guard_err, HeaderLen.
    destruct (Nat.ltb_spec (length pkt) 9); [done|]. bind.
    destruct pkt as [|b0 pkt]; [done|]. idx b0. cbn [length] in *.
    destruct (split_at 8 pkt) as (S & r & -> & HS); [lia|].
    pose proof (Pack_Unpack b0) as Hpk. destruct (UnpackOpcodeKID b0) as [op kid].
    destruct Hpk as (<- & Hop & Hkid).
    rewrite (slice_app [PackOpcodeKID op kid] S r 1 9) by (cbn; lia). bind.
    rewrite (slice_to_end (PackOpcodeKID op kid :: S) r) by bytes_len. bind.
    intros [= <- <-]. split; [split; cbn; auto using be_dec_is_u64|].
    unfold ControlHeader_AppendBinary; cbn. by rewrite be_enc_dec_len.
  - intros ([Hop Hkid Hs] & ->). destruct h as [op kid sid]; cbn in Hop, Hkid, Hs.
    unfold ParseControlHeader, ControlHeader_AppendBinary, HeaderLen; cbn [ch_Opcode ch_KeyID ch_SessionID app].
    pass. idx (PackOpcodeKID op kid). rewrite Unpack_Pack, (Z.mod_small kid) by done.
    rewrite (slice_app [PackOpcodeKID op kid] (be_enc 8 sid) rest 1 9) by bytes_len. bind.
    rewrite (slice_to_end (PackOpcodeKID op kid :: be_enc 8 sid) rest) by bytes_len. bind.
    by rewrite be_dec_enc_small by auto.
Qed.

Lemma ParseControlHeader_no_panic pkt : no_panic (ParseControlHeader pkt).
Proof.
  unfold ParseControlHeader, guard_err, HeaderLen.
  destruct (Nat.ltb_spec (length pkt) 9); [done|]. bind.
  destruct pkt as [|b0 pkt]; [cbn in *; lia|]. idx b0. destruct (UnpackOpcodeKID b0).
  rewrite !slice_Ok by (cbn in *; lia). done.
Qed.

(** The three-byte peer-id field. *)
Definition peer_bytes (p : Z) : bytes :=
  [z2b (Z.shiftr p 16); z2b (Z.shiftr p 8); z2b p].
Definition peer_of (b1 b2 b3 : byte) : Z :=
  Z.lor (Z.lor (Z.shiftl (b2z b1) 16) (Z.shiftl (b2z b2) 8)) (b2z b3).

Lemma peer_bytes_be p : peer_bytes p = be_enc 3 p.
Proof. done. Qed.

Lemma length_peer_bytes p : length (peer_bytes p) = 3%nat.
Proof. done. Qed.
#[export] Hint Rewrite length_peer_bytes : wire_len.

Lemma peer_of_be b1 b2 b3 : peer_of b1 b2 b3 = be_dec [b1; b2; b3].
Proof.
  pose proof (b2z_range b1); pose proof (b2z_range b2); pose proof (b2z_range b3).
  unfold peer_of. rewrite (Z.shiftl_mul_pow2 (b2z b2)) by done.
  rewrite (lor_shiftl_add_w _ _ 16 65536) by (try done; lia).
  replace (b2z b1 * 65536 + b2z b2 * 2 ^ 8) with (Z.shiftl (b2z b1 * 256 + b2z b2) 8)
    by (rewrite Z.shiftl_mul_pow2 by done; lia).
  rewrite (lor_shiftl_add_w _ _ 8 256) by (try done; lia).
  unfold be_dec. cbn [foldl]. lia.
Qed.

Record dh_wf (h : DataV2Header) : Prop := {
  dh_wf_kid : 0 ≤ dh_KeyID h < 8;
  dh_wf_peer : is_u24 (dh_PeerID h);
  dh_wf_pid : is_u32 (dh_PacketID h)
}.

(** The same for data packets; any other opcode is rejected. *)
Lemma Parse_data_header pkt h rest :
  ParseDataV2Header pkt = Ok (h, rest) ↔
  dh_wf h ∧ pkt = DataV2Header_AppendBinary h [] ++ rest.
Proof.
  split.
  - unfold ParseDataV2Header, guard_err, DataV2HeaderLen.
    destruct (Nat.ltb_spec (length pkt) 8); [done|]. bind.
    destruct pkt as [|b0 [|b1 [|b2 [|b3 pkt]]]]; cbn [length] in *; try lia. idx b0. cbn [length] in *.
    destruct (split_at 4 pkt) as (P & r & -> & HP); [lia|].
    pose proof (Pack_Unpack b0) as Hpk. destruct (UnpackOpcodeKID b0) as [op kid].
    destruct Hpk as (<- & Hop & Hkid). destruct (Z.eqb_spec op PDataV2) as [->|]; [|done]. bind.
    idx b1. idx b2. idx b3.
    rewrite (slice_app [PackOpcodeKID PDataV2 kid; b1; b2; b3] P r 4 8) by (cbn; lia). bind.
    rewrite (slice_to_end (PackOpcodeKID PDataV2 kid :: b1 :: b2 :: b3 :: P) r) by bytes_len. bind.
    change (Z.lor _ (b2z b3)) with (peer_of b1 b2 b3). rewrite peer_of_be.
    intros [= <- <-]. split.
    + split; cbn; auto using be_dec_is_u32. apply (be_dec_range [b1; b2; b3]).
    + unfold DataV2Header_AppendBinary; cbn [dh_KeyID dh_PeerID dh_PacketID].
      fold (peer_bytes (be_dec [b1; b2; b3])).
      rewrite peer_bytes_be, (be_enc_dec_len 3), (be_enc_dec_len 4) by done. done.
  - intros ([Hkid Hpeer Hpid] & ->). destruct h as [kid peer pid]; cbn in Hkid, Hpeer, Hpid.
    unfold ParseDataV2Header, DataV2Header_AppendBinary, DataV2HeaderLen;
      cbn [dh_KeyID dh_PeerID dh_PacketID app].
    pass. idx (PackOpcodeKID PDataV2 kid). rewrite Unpack_Pack, (Z.mod_small kid) by done.
    pass. idx (z2b (Z.shiftr peer 16)). idx (z2b (Z.shiftr peer 8)). idx (z2b peer).
    rewrite (slice_app (PackOpcodeKID PDataV2 kid :: peer_bytes peer) (be_enc 4 pid) rest 4 8) by bytes_len. bind.
    rewrite (slice_to_end (PackOpcodeKID PDataV2 kid :: peer_bytes peer ++ be_enc 4 pid) rest) by bytes_len. bind.
    fold (peer_of (z2b (Z.shiftr peer 16)) (z2b (Z.shiftr peer 8)) (z2b peer)).
    rewrite peer_of_be. fold (peer_bytes peer). rewrite peer_bytes_be, !be_dec_enc_small by auto.
    done.
Qed.

Lemma ParseDataV2Header_no_panic pkt : no_panic (ParseDataV2Header pkt).
Proof.
  unfold ParseDataV2Header, guard_err, DataV2HeaderLen.
  destruct (Nat.ltb_spec (length pkt) 8); [done|]. bind.
  destruct pkt as [|b0 [|b1 [|b2 [|b3 pkt]]]]; cbn [length] in *; try lia. idx b0.
  destruct (UnpackOpcodeKID b0). case_match; [done|]. bind. idx b1. idx b2. idx b3.
  rewrite !slice_Ok by (cbn in *; lia). done.
Qed.

(** Both packet headers are unambiguous on the wire: a packet parses to
    header [h] and remainder [rest] exactly when it is the encoding of [h]
    followed by [rest]; the opcode and key-id share the first byte without
    interfering, and no header parser panics on any input. *)
Theorem packet_headers_wire pkt :
  (∀ h rest, ParseControlHeader pkt = Ok (h, rest) ↔
     ch_wf h ∧ pkt = ControlHeader_AppendBinary h [] ++ rest) ∧
  (∀ h rest, ParseDataV2Header pkt = Ok (h, rest) ↔
     dh_wf h ∧ pkt = DataV2Header_AppendBinary h [] ++ rest) ∧
  no_panic (ParseControlHeader pkt) ∧ no_panic (ParseDataV2Header pkt).
Proof.
  split_and!; intros; [apply Parse_control_header|apply Parse_data_header|
    apply ParseControlHeader_no_panic|apply ParseDataV2Header_no_panic].
Qed.

(** ** PING *)

Lemma ping_loop_eq m b : length b = length m → ping_loop b m = true ↔ b = m.
Proof.
  revert b. induction m as [|x m IH]; intros [|y b] Hl; cbn in *; try done.
  case_bool_decide; [|naive_solver]. rewrite IH by lia. naive_solver.
Qed.

Lemma IsPing_spec b : IsPing b = bool_decide (b = PingMagic).
Proof.
  apply Bool.eq_iff_eq_true. rewrite bool_decide_eq_true. unfold IsPing.
  destruct (Nat.eqb_spec (length b) (length PingMagic)); cbn [negb].
  - by apply ping_loop_eq.
  - naive_solver.
Qed.

(** ** Marshalling any value of the Go types

    The session-id field is a 64-bit word and is not transmitted when there is
    nothing to acknowledge. *)

Lemma be_enc_u64 z : be_enc 8 (u64 z) = be_enc 8 z.
Proof. unfold u64. by apply (be_enc_mod 8 8). Qed.

Definition cp_norm (cp : ControlPayload) : ControlPayload :=
  mkControlPayload (cp_Acks cp)
    (match cp_Acks cp with [] => 0 | _ => u64 (cp_RemoteSessionID cp) end)
    (cp_MessagePID cp) (cp_Body cp).

Lemma Marshal_control_norm cp b :
  Forall is_u32 (cp_Acks cp) → is_u32 (cp_MessagePID cp) →
  MarshalControlPayload cp = Ok b → ParseControlPayload b = Ok (cp_norm cp).
Proof.
  intros Ha Hp [Hlen ->]%Marshal_control_layout.
  assert (cp_layout cp = cp_layout (cp_norm cp)) as ->.
  { unfold cp_layout, cp_norm; cbn [cp_Acks cp_RemoteSessionID cp_MessagePID cp_Body].
    destruct (cp_Acks cp); [done|]. by rewrite be_enc_u64. }
  apply Parse_control_layout; [|done]. split; cbn; [done| | |done].
  - destruct (cp_Acks cp); [done|apply u64_range].
  - by intros ->.
Qed.

Definition ap_norm (ap : AckPayload) : AckPayload :=
  mkAckPayload (ap_Acks ap) (u64 (ap_RemoteSessionID ap)).

Lemma Marshal_ack_norm ap b :
  Forall is_u32 (ap_Acks ap) →
  MarshalAckPayload ap = Ok b → ParseAckPayload b = Ok (ap_norm ap).
Proof.
  intros Ha (Hne & Hlen & ->)%Marshal_ack_layout.
  assert (ap_layout ap = ap_layout (ap_norm ap)) as ->.
  { unfold ap_layout, ap_norm; cbn. by rewrite be_enc_u64. }
  rewrite <-(app_nil_r (ap_layout _)). apply Parse_ack_layout; [|done|done].
  split; cbn; [done|apply u64_range].
Qed.
