(* ===== verification/Replay.v ===== *)
(** Replay protection.  The abstract guard of a stream of packet-ids, its
    interface, and the two implementations of the code base: the multi-word
    sliding bitmap of [internal/data/replay.go] and the one-word bitmap of
    [internal/tlscrypt/v1.go] (repeated in [internal/tlsauth/tlsauth.go]). *)
From S2P Require Import Prelude.
Local Open Scope Z_scope.

(** ** Specification: the set of packet-ids accepted so far *)

Record spec_window := mkSpecWindow {
  sw_size : Z;
  sw_highest : Z;
  sw_seen : gset Z
}.

(** A packet-id is fresh when it is not 0, and is either above everything
    accepted, or less than [size] behind and not yet accepted. *)
Definition spec_fresh (s : spec_window) (pid : Z) : bool :=
  negb (pid =? 0) &&
  ((sw_highest s <? pid) ||
   ((sw_highest s - pid <? sw_size s) && bool_decide (pid ∉ sw_seen s))).

Definition spec_mark (s : spec_window) (pid : Z) : spec_window :=
  mkSpecWindow (sw_size s) (Z.max (sw_highest s) pid) ({[pid]} ∪ sw_seen s).

Definition spec_accept (s : spec_window) (pid : Z) : spec_window * bool :=
  if spec_fresh s pid then (spec_mark s pid, true) else (s, false).

Definition spec_init (size : Z) : spec_window := mkSpecWindow size 0 ∅.

Record spec_wf (s : spec_window) : Prop := {
  spec_wf_size : 0 < sw_size s;
  spec_wf_highest : is_u32 (sw_highest s);
  spec_wf_seen : ∀ p, p ∈ sw_seen s → 0 < p ≤ sw_highest s
}.

(** ** The interface a receiver relies on *)

Class ReplayGuard (W : Type) := {
  rg_Test : W → Z → bool;
  rg_Accept : W → Z → W * bool;
  (** the specification state an implementation state stands for *)
  rg_rel : W → spec_window → Prop;
  rg_rel_wf w s : rg_rel w s → spec_wf s;
  rg_Test_ok w s pid : rg_rel w s → is_u32 pid → rg_Test w pid = spec_fresh s pid;
  rg_Accept_ok w s pid :
    rg_rel w s → is_u32 pid →
    (rg_Accept w pid).2 = spec_fresh s pid ∧
    rg_rel (rg_Accept w pid).1 (spec_accept s pid).1
}.

(** [Accept] offered a sequence of packet-ids: the final state and the
    packet-ids it said yes to, in order. *)
Fixpoint accept_all {W} `{ReplayGuard W} (w : W) (pids : list Z) : W * list Z :=
  match pids with
  | [] => (w, [])
  | p :: ps =>
      let '(w1, ok) := rg_Accept w p in
      let '(w2, acc) := accept_all w1 ps in
      (w2, if ok then p :: acc else acc)
  end.

Fixpoint spec_accept_all (s : spec_window) (pids : list Z) : spec_window * list Z :=
  match pids with
  | [] => (s, [])
  | p :: ps =>
      let '(s1, ok) := spec_accept s p in
      let '(s2, acc) := spec_accept_all s1 ps in
      (s2, if ok then p :: acc else acc)
  end.

Section guard_facts.
Context {W : Type} `{ReplayGuard W}.

(** Simulation: an implementation run is a run of the specification. *)
Lemma accept_all_refines w s pids :
  rg_rel w s → Forall is_u32 pids →
  (accept_all w pids).2 = (spec_accept_all s pids).2 ∧
  rg_rel (accept_all w pids).1 (spec_accept_all s pids).1.
Proof.
  intros Hrel Hp. revert w s Hrel.
  induction Hp as [|p ps Hp Hps IH]; intros w s Hrel; cbn; [done|].
  destruct (rg_Accept_ok w s p Hrel Hp) as [Hok Hrel'].
  destruct (rg_Accept w p) as [w1 ok]; cbn in Hok, Hrel'.
  assert ((spec_accept s p).2 = ok) as Hok2 by (subst ok; unfold spec_accept; by case_match).
  destruct (spec_accept s p) as [s1 ok']; cbn in Hrel', Hok2. rewrite Hok2.
  specialize (IH w1 s1 Hrel') as [Heq Hr].
  destruct (accept_all w1 ps), (spec_accept_all s1 ps); cbn in *. by rewrite Heq.
Qed.

Lemma spec_fresh_seen s p : spec_wf s → p ∈ sw_seen s → spec_fresh s p = false.
Proof.
  intros [_ _ Hs] Hp. pose proof (Hs p Hp). unfold spec_fresh.
  rewrite (bool_decide_eq_false_2 (p ∉ _)) by set_solver.
  destruct (Z.ltb_spec (sw_highest s) p); [lia|]. by rewrite andb_false_r, andb_false_r.
Qed.

Lemma spec_accept_seen s p q : q ∈ sw_seen s → q ∈ sw_seen (spec_accept s p).1.
Proof. unfold spec_accept. case_match; cbn; set_solver. Qed.

Lemma spec_accept_self s p : spec_fresh s p = true → p ∈ sw_seen (spec_accept s p).1.
Proof. unfold spec_accept. intros ->; cbn. set_solver. Qed.

(** Nothing already accepted is accepted again, whatever comes between. *)
Lemma accept_all_fresh w s pids :
  rg_rel w s → Forall is_u32 pids →
  NoDup (accept_all w pids).2 ∧ (∀ p, p ∈ (accept_all w pids).2 → p ∉ sw_seen s).
Proof.
  intros Hrel Hp. revert w s Hrel.
  induction Hp as [|p ps Hp Hps IH]; intros w s Hrel; cbn.
  { split; [constructor|set_solver]. }
  destruct (rg_Accept_ok w s p Hrel Hp) as [Hok Hrel'].
  destruct (rg_Accept w p) as [w1 ok]; cbn in Hok, Hrel'.
  specialize (IH w1 _ Hrel') as [Hnd Hnew].
  destruct (accept_all w1 ps) as [w2 acc]; cbn in Hnd, Hnew. cbn.
  destruct ok; symmetry in Hok.
  - split.
    + constructor; [|done]. intros Hin. apply (Hnew p Hin). by apply spec_accept_self.
    + intros q [->|Hq]%elem_of_cons Hin.
      * apply (spec_fresh_seen s p) in Hin; [congruence|by eapply rg_rel_wf].
      * apply (Hnew q Hq). by apply spec_accept_seen.
  - split; [done|]. intros q Hq Hin. apply (Hnew q Hq). by apply spec_accept_seen.
Qed.

(** [Test] predicts [Accept] and a rejected packet-id changes nothing
    observable. *)
Lemma guard_Test_Accept w s p :
  rg_rel w s → is_u32 p → rg_Test w p = (rg_Accept w p).2.
Proof.
  intros Hr Hp. rewrite (rg_Test_ok w s) by done. by destruct (rg_Accept_ok w s p Hr Hp).
Qed.
End guard_facts.

(** ** data.ReplayWindow: a bitmap of several 64-bit words *)

Definition DefaultReplayWindow : Z := 1024.

Record ReplayWindow := mkReplayWindow {
  rw_highest : Z;          (* uint32 *)
  rw_bitmap : list Z;      (* []uint64 *)
  rw_size : Z              (* uint *)
}.

(** [bitmap[i]]; every index the code uses is in range, see [word_in_range]. *)
Definition word (bm : list Z) (i : Z) : Z := default 0 (bm !! Z.to_nat i).

Definition NewReplayWindow (size : Z) : ReplayWindow :=
  let size := if size =? 0 then DefaultReplayWindow else size in
  let nWords := u64 (size + 63) / 64 in
  mkReplayWindow 0 (replicate (Z.to_nat nWords) 0) size.

(** The loop body's value for word [i]. *)
Definition shifted_word (bm : list Z) (wordShift bitShift i : Z) : Z :=
  let src := i - wordShift in
  let v := if 0 <=? src then u64 (Z.shiftl (word bm src) bitShift) else 0 in
  if (0 <? bitShift) && (0 <=? src - 1)
  then Z.lor v (Z.shiftr (word bm (src - 1)) (64 - bitShift)) else v.

(** [for i := nWords - 1; i >= 0; i--], updating the slice in place. *)
Fixpoint shift_loop (n : nat) (bm : list Z) (wordShift bitShift : Z) : list Z :=
  match n with
  | O => bm
  | S i => shift_loop i (<[i := shifted_word bm wordShift bitShift (Z.of_nat i)]> bm)
                      wordShift bitShift
  end.

Definition shiftLeftLocked (w : ReplayWindow) (shift : Z) : list Z :=
  let nWords := length (rw_bitmap w) in
  if rw_size w <=? shift then replicate nWords 0
  else shift_loop nWords (rw_bitmap w) (shift / 64) (shift mod 64).

Definition Accept (w : ReplayWindow) (pid : Z) : ReplayWindow * bool :=
  if pid =? 0 then (w, false)
  else if rw_highest w <? pid then
    let shift := u32 (pid - rw_highest w) in
    let bm := shiftLeftLocked w shift in
    (mkReplayWindow pid (<[0%nat := Z.lor (word bm 0) 1]> bm) (rw_size w), true)
  else if u32 (rw_size w) <=? u32 (rw_highest w - pid) then (w, false)
  else
    let offset := u32 (rw_highest w - pid) in
    let mask := u64 (Z.shiftl 1 (offset mod 64)) in
    let idx := offset / 64 in
    if negb (Z.land (word (rw_bitmap w) idx) mask =? 0) then (w, false)
    else (mkReplayWindow (rw_highest w)
            (<[Z.to_nat idx := Z.lor (word (rw_bitmap w) idx) mask]> (rw_bitmap w))
            (rw_size w), true).

Definition Test (w : ReplayWindow) (pid : Z) : bool :=
  if pid =? 0 then false
  else if rw_highest w <? pid then true
  else if u32 (rw_size w) <=? u32 (rw_highest w - pid) then false
  else
    let offset := u32 (rw_highest w - pid) in
    Z.land (word (rw_bitmap w) (offset / 64)) (u64 (Z.shiftl 1 (offset mod 64))) =? 0.

Definition Highest (w : ReplayWindow) : Z := rw_highest w.

(** ** tlscrypt.pidWindow and tlsauth.pidWindow: one 64-bit word *)

Definition windowSize : Z := 64.

Record pidWindow := mkPidWindow {
  pw_highest : Z;   (* uint32 *)
  pw_bitmap : Z     (* uint64 *)
}.

Definition pid_init : pidWindow := mkPidWindow 0 0.

Definition pid_Accept (w : pidWindow) (pid : Z) : pidWindow * bool :=
  if pid =? 0 then (w, false)
  else if pw_highest w <? pid then
    let shift := u32 (pid - pw_highest w) in
    let bm := if windowSize <=? shift then 1
              else Z.lor (u64 (Z.shiftl (pw_bitmap w) shift)) 1 in
    (mkPidWindow pid bm, true)
  else if windowSize <=? u32 (pw_highest w - pid) then (w, false)
  else
    let offset := u32 (pw_highest w - pid) in
    let mask := u64 (Z.shiftl 1 offset) in
    if negb (Z.land (pw_bitmap w) mask =? 0) then (w, false)
    else (mkPidWindow (pw_highest w) (Z.lor (pw_bitmap w) mask), true).

Definition pid_Test (w : pidWindow) (pid : Z) : bool :=
  if pid =? 0 then false
  else if pw_highest w <? pid then true
  else if windowSize <=? u32 (pw_highest w - pid) then false
  else Z.land (pw_bitmap w) (u64 (Z.shiftl 1 (u32 (pw_highest w - pid)))) =? 0.

(** ** Words and bits *)

Lemma word_insert bm i x j :
  0 ≤ i < zlen bm → 0 ≤ j →
  word (<[Z.to_nat i := x]> bm) j = if decide (i = j) then x else word bm j.
Proof.
  intros Hi Hj. unfold word, zlen in *. case_decide as Heq.
  - subst. rewrite list_lookup_insert_eq by lia. done.
  - rewrite list_lookup_insert_ne by lia. done.
Qed.

Lemma word_bound bm i : Forall is_u64 bm → is_u64 (word bm i).
Proof.
  intros Hf. unfold word. destruct (bm !! Z.to_nat i) as [x|] eqn:E; cbn; [|done].
  by eapply Forall_lookup_1 in Hf.
Qed.

Lemma word_replicate n i : word (replicate n 0) i = 0.
Proof.
  unfold word. destruct (replicate n 0 !! Z.to_nat i) eqn:E; [|done].
  by apply lookup_replicate in E as [-> _].
Qed.

Lemma u64_testbit z i : Z.testbit (u64 z) i = (i <? 64) && Z.testbit z i.
Proof.
  unfold u64. destruct (Z.ltb_spec i 64).
  - by rewrite Z.mod_pow2_bits_low.
  - by rewrite Z.mod_pow2_bits_high by lia.
Qed.

Lemma is_u64_testbit z i : is_u64 z → 64 ≤ i → Z.testbit z i = false.
Proof.
  intros Hz Hi. rewrite <-(u64_small z Hz), u64_testbit.
  by destruct (Z.ltb_spec i 64); [lia|].
Qed.

Lemma is_u64_lor a b : is_u64 a → is_u64 b → is_u64 (Z.lor a b).
Proof.
  intros Ha Hb. rewrite <-(u64_small a Ha), <-(u64_small b Hb).
  replace (Z.lor (u64 a) (u64 b)) with (u64 (Z.lor a b)); [apply u64_range|].
  apply Z.bits_inj. intros i. rewrite Z.lor_spec, !u64_testbit, Z.lor_spec.
  by destruct (i <? 64).
Qed.

Lemma is_u64_shiftr a n : is_u64 a → 0 ≤ n → is_u64 (Z.shiftr a n).
Proof.
  unfold is_u64. intros Ha Hn. rewrite Z.shiftr_div_pow2 by done. split.
  - apply Z.div_pos; lia.
  - apply Z.div_lt_upper_bound; [lia|]. nia.
Qed.

(** The bit at distance [o] from the watermark. *)
Definition bit (bm : list Z) (o : Z) : bool := Z.testbit (word bm (o / 64)) (o mod 64).

Lemma mask_test x o :
  0 ≤ o < 64 → negb (Z.land x (u64 (Z.shiftl 1 o)) =? 0) = Z.testbit x o.
Proof.
  intros Ho. rewrite Z.shiftl_1_l, (u64_small (2 ^ o)).
  2: { unfold is_u64. split; [lia|]. apply Z.pow_lt_mono_r; lia. }
  rewrite <-Z.shiftl_1_l. apply bit_test. lia.
Qed.

Lemma mask_set x o i :
  0 ≤ o < 64 → Z.testbit (Z.lor x (u64 (Z.shiftl 1 o))) i = (o =? i) || Z.testbit x i.
Proof.
  intros Ho. rewrite Z.shiftl_1_l, (u64_small (2 ^ o)).
  2: { unfold is_u64. split; [lia|]. apply Z.pow_lt_mono_r; lia. }
  by rewrite Z.lor_spec, Z.pow2_bits_eqb, orb_comm by lia.
Qed.

(** ** The in-place shift computes the shift of the whole bitmap *)

Lemma length_shift_loop n bm ws bs : length (shift_loop n bm ws bs) = length bm.
Proof. revert bm. induction n; intros bm; cbn; [done|]. by rewrite IHn, length_insert. Qed.

Lemma shifted_word_ext bm1 bm2 ws bs i :
  0 ≤ ws → (∀ j, 0 ≤ j ≤ i → word bm1 j = word bm2 j) →
  shifted_word bm1 ws bs i = shifted_word bm2 ws bs i.
Proof.
  intros Hws Hext. unfold shifted_word.
  destruct (Z.leb_spec 0 (i - ws)); [|destruct (Z.leb_spec 0 (i - ws - 1)); [lia|]].
  - rewrite (Hext (i - ws)) by lia.
    destruct (Z.leb_spec 0 (i - ws - 1)); [by rewrite (Hext (i - ws - 1)) by lia|].
    by rewrite !andb_false_r.
  - by rewrite !andb_false_r.
Qed.

Lemma shift_loop_word n bm ws bs i :
  0 ≤ ws → (n ≤ length bm)%nat → 0 ≤ i →
  word (shift_loop n bm ws bs) i =
  if decide (i < Z.of_nat n) then shifted_word bm ws bs i else word bm i.
Proof.
  intros Hws Hn Hi. revert bm Hn. induction n as [|n IH]; intros bm Hn; cbn [shift_loop].
  { by case_decide; [lia|]. }
  rewrite IH by (rewrite length_insert; lia).
  replace (<[n:=_]> bm) with (<[Z.to_nat (Z.of_nat n) := shifted_word bm ws bs (Z.of_nat n)]> bm)
    by (by rewrite Nat2Z.id).
  assert (∀ j, 0 ≤ j → word (<[Z.to_nat (Z.of_nat n) := shifted_word bm ws bs (Z.of_nat n)]> bm) j
    = if decide (Z.of_nat n = j) then shifted_word bm ws bs (Z.of_nat n) else word bm j) as Hw.
  { intros j Hj. apply word_insert; unfold zlen; lia. }
  destruct (decide (i < Z.of_nat n)).
  - rewrite decide_True by lia. apply shifted_word_ext; [done|].
    intros j Hj. rewrite Hw by lia. by rewrite decide_False by lia.
  - rewrite Hw by done. destruct (decide (Z.of_nat n = i)) as [<-|].
    + by rewrite decide_True by lia.
    + by rewrite decide_False by lia.
Qed.

Lemma shifted_word_u64 bm ws bs i :
  Forall is_u64 bm → 0 ≤ bs < 64 → is_u64 (shifted_word bm ws bs i).
Proof.
  intros Hbm Hbs. unfold shifted_word.
  assert (is_u64 (if 0 <=? i - ws then u64 (Z.shiftl (word bm (i - ws)) bs) else 0)).
  { destruct (0 <=? i - ws); [apply u64_range|done]. }
  destruct ((0 <? bs) && (0 <=? i - ws - 1)); [|done]. apply is_u64_lor; [done|].
  apply is_u64_shiftr; [by apply word_bound|lia].
Qed.

(** A result bit comes from the source word when it is at or above [bitShift],
    and from the word below it otherwise. *)
Lemma shifted_word_testbit bm ws bs i r :
  Forall is_u64 bm → 0 ≤ bs < 64 → 0 ≤ r < 64 →
  Z.testbit (shifted_word bm ws bs i) r =
  if bs <=? r then (0 <=? i - ws) && Z.testbit (word bm (i - ws)) (r - bs)
  else (0 <=? i - ws - 1) && Z.testbit (word bm (i - ws - 1)) (r + 64 - bs).
Proof.
  intros Hbm Hbs Hr. unfold shifted_word.
  set (v := if 0 <=? i - ws then _ else 0).
  assert (Z.testbit v r = (bs <=? r) && ((0 <=? i - ws) && Z.testbit (word bm (i - ws)) (r - bs)))
    as Hv.
  { subst v. destruct (0 <=? i - ws); [|by rewrite Z.bits_0, andb_false_r].
    rewrite u64_testbit, Z.shiftl_spec by lia.
    destruct (Z.ltb_spec r 64); [|lia]. destruct (Z.leb_spec bs r); [done|].
    by rewrite Z.testbit_neg_r by lia. }
  destruct (Z.leb_spec bs r); cbn [andb] in Hv.
  - rewrite <-Hv. destruct ((0 <? bs) && (0 <=? i - ws - 1)); [|done]. rewrite Z.lor_spec, Z.shiftr_spec by lia.
    rewrite (is_u64_testbit (word bm _)) by (try apply word_bound; done || lia).
    apply orb_false_r.
  - destruct (Z.ltb_spec 0 bs); [|lia]. cbn [andb].
    destruct (0 <=? i - ws - 1); [|done].
    rewrite Z.lor_spec, Hv, Z.shiftr_spec by lia. cbn. f_equal. lia.
Qed.

Lemma split_pos q s : 0 ≤ s < 64 → (64 * q + s) / 64 = q ∧ (64 * q + s) mod 64 = s.
Proof.
  intros Hs. split; [symmetry; by eapply Z.div_unique_pos|symmetry; by eapply Z.mod_unique_pos].
Qed.

Lemma shifted_word_bit bm ws bs o :
  Forall is_u64 bm → 0 ≤ ws → 0 ≤ bs < 64 → 0 ≤ o →
  Z.testbit (shifted_word bm ws bs (o / 64)) (o mod 64) =
  (64 * ws + bs <=? o) && bit bm (o - (64 * ws + bs)).
Proof.
  intros Hbm Hws Hbs Ho.
  pose proof (Z.mod_pos_bound o 64 ltac:(lia)) as Hr.
  rewrite shifted_word_testbit by done. unfold bit.
  pose proof (Z.div_mod o 64 ltac:(lia)) as Hdm.
  set (i := o / 64) in *. set (r := o mod 64) in *. clearbody i r. subst o.
  destruct (Z.leb_spec bs r).
  - replace (64 * i + r - (64 * ws + bs)) with (64 * (i - ws) + (r - bs)) by lia.
    destruct (split_pos (i - ws) (r - bs)) as [-> ->]; [lia|].
    f_equal. apply Bool.eq_iff_eq_true. rewrite !Z.leb_le. lia.
  - replace (64 * i + r - (64 * ws + bs)) with (64 * (i - ws - 1) + (r + 64 - bs)) by lia.
    destruct (split_pos (i - ws - 1) (r + 64 - bs)) as [-> ->]; [lia|].
    f_equal. apply Bool.eq_iff_eq_true. rewrite !Z.leb_le. lia.
Qed.

(** Setting the bit at distance [o]. *)
Lemma bit_set bm o o' :
  0 ≤ o → o / 64 < zlen bm → 0 ≤ o' →
  bit (<[Z.to_nat (o / 64) := Z.lor (word bm (o / 64)) (u64 (Z.shiftl 1 (o mod 64)))]> bm) o' =
  (o =? o') || bit bm o'.
Proof.
  intros Ho Hlen Ho'. unfold bit.
  pose proof (Z.div_pos o 64 Ho ltac:(lia)). pose proof (Z.div_pos o' 64 Ho' ltac:(lia)).
  rewrite word_insert by lia.
  pose proof (Z.div_mod o 64 ltac:(lia)). pose proof (Z.div_mod o' 64 ltac:(lia)).
  pose proof (Z.mod_pos_bound o 64 ltac:(lia)). pose proof (Z.mod_pos_bound o' 64 ltac:(lia)).
  case_decide as Heq.
  - rewrite mask_set by lia. rewrite Heq. f_equal.
    apply Bool.eq_iff_eq_true. rewrite !Z.eqb_eq. lia.
  - destruct (Z.eqb_spec o o'); [|done]. subst. done.
Qed.

Lemma Forall_u64_insert bm i x : Forall is_u64 bm → is_u64 x → Forall is_u64 (<[i := x]> bm).
Proof. intros. by apply Forall_insert. Qed.

Lemma mask_u64 x o : is_u64 x → is_u64 (Z.lor x (u64 (Z.shiftl 1 o))).
Proof. intros. apply is_u64_lor; [done|apply u64_range]. Qed.

Lemma zlen_insert {A} (l : list A) i x : zlen (<[i := x]> l) = zlen l.
Proof. unfold zlen. by rewrite length_insert. Qed.

Lemma zlen_shiftLeft w shift : zlen (shiftLeftLocked w shift) = zlen (rw_bitmap w).
Proof.
  unfold shiftLeftLocked, zlen. case_match; [by rewrite length_replicate|].
  by rewrite length_shift_loop.
Qed.

(** ** ReplayWindow implements the guard *)

Record rw_rel (w : ReplayWindow) (s : spec_window) : Prop := {
  rw_rel_spec : spec_wf s;
  rw_rel_size : sw_size s = rw_size w;
  rw_rel_bound : sw_size s < 2 ^ 32;
  rw_rel_highest : sw_highest s = rw_highest w;
  rw_rel_len : zlen (rw_bitmap w) = (rw_size w + 63) / 64;
  rw_rel_words : Forall is_u64 (rw_bitmap w);
  rw_rel_bits o : 0 ≤ o < rw_size w →
    bit (rw_bitmap w) o = bool_decide (rw_highest w - o ∈ sw_seen s)
}.

(** The words addressed by an in-window distance exist. *)
Lemma word_in_range w s o :
  rw_rel w s → 0 ≤ o < rw_size w → 0 ≤ o / 64 < zlen (rw_bitmap w).
Proof.
  intros Hrel Ho. rewrite (rw_rel_len w s) by done.
  split; [apply Z.div_pos; lia|]. apply Z.div_lt_upper_bound; [lia|].
  pose proof (Z.div_mod (rw_size w + 63) 64 ltac:(lia)).
  pose proof (Z.mod_pos_bound (rw_size w + 63) 64 ltac:(lia)). lia.
Qed.

Lemma shiftLeft_bit w s shift o :
  rw_rel w s → 0 < shift → 0 ≤ o < rw_size w →
  bit (shiftLeftLocked w shift) o = (shift <=? o) && bit (rw_bitmap w) (o - shift).
Proof.
  intros Hrel Hs Ho. unfold shiftLeftLocked.
  destruct (Z.leb_spec (rw_size w) shift).
  { unfold bit at 1. rewrite word_replicate, Z.bits_0. by destruct (Z.leb_spec shift o); [lia|]. }
  pose proof (word_in_range w s o Hrel Ho) as Hw. unfold zlen in Hw.
  unfold bit at 1. rewrite shift_loop_word; [|apply Z.div_pos; lia|done|lia].
  rewrite decide_True by lia.
  rewrite shifted_word_bit; [|by eapply rw_rel_words|apply Z.div_pos; lia
                             |apply Z.mod_pos_bound; lia|lia].
  by rewrite <-Z.div_mod by lia.
Qed.

Lemma shiftLeft_words w s shift :
  rw_rel w s → 0 < shift → Forall is_u64 (shiftLeftLocked w shift).
Proof.
  intros Hrel Hs. unfold shiftLeftLocked. case_match; [by apply Forall_replicate|].
  apply Forall_lookup_2. intros i x Hx.
  pose proof (lookup_lt_Some _ _ _ Hx) as Hi. rewrite length_shift_loop in Hi.
  assert (x = word (shift_loop (length (rw_bitmap w)) (rw_bitmap w) (shift / 64) (shift mod 64))
                (Z.of_nat i)) as ->.
  { unfold word. by rewrite Nat2Z.id, Hx. }
  rewrite shift_loop_word, decide_True by (try apply Z.div_pos; lia).
  apply shifted_word_u64; [by eapply rw_rel_words|]. apply Z.mod_pos_bound. lia.
Qed.

Lemma spec_mark_wf s pid : spec_wf s → is_u32 pid → pid ≠ 0 → spec_wf (spec_mark s pid).
Proof.
  unfold is_u32. intros [Hz Hh Hs] Hp Hne. unfold is_u32 in Hh.
  split; cbn; unfold is_u32; [lia|lia|].
  intros p Hp'. apply elem_of_union in Hp' as [Hp'|Hp'].
  - apply elem_of_singleton in Hp' as ->. lia.
  - specialize (Hs p Hp'). lia.
Qed.

(** The fresh-above branch of the code tracks [spec_mark]. *)
Lemma rw_advance w s pid :
  rw_rel w s → is_u32 pid → rw_highest w < pid →
  rw_rel (Accept w pid).1 (spec_mark s pid).
Proof.
  intros Hrel Hp Hlt. pose proof Hrel as [Hwf Hsz Hbd Hhi Hlen Hwords Hbits].
  pose proof (spec_wf_highest s Hwf) as Hh. pose proof (spec_wf_size s Hwf) as Hsp.
  unfold is_u32 in *. unfold Accept.
  destruct (Z.eqb_spec pid 0); [lia|]. destruct (Z.ltb_spec (rw_highest w) pid); [|lia].
  rewrite u32_small by (unfold is_u32; lia). set (shift := pid - rw_highest w).
  assert (0 < shift) by lia. pose proof (word_in_range w s 0 Hrel ltac:(lia)) as Hw0.
  change (0 / 64) with 0 in Hw0.
  assert (is_u64 (word (shiftLeftLocked w shift) 0)) by (apply word_bound; by eapply shiftLeft_words).
  split; cbn.
  - by apply spec_mark_wf; [|unfold is_u32; lia|].
  - done.
  - done.
  - lia.
  - by rewrite zlen_insert, zlen_shiftLeft.
  - apply Forall_u64_insert; [by eapply shiftLeft_words|].
    by apply (mask_u64 _ 0).
  - intros o Ho. pose proof (bit_set (shiftLeftLocked w shift) 0 o) as Hbs.
    rewrite zlen_shiftLeft in Hbs. change (0 / 64) with 0 in Hbs. change (0 mod 64) with 0 in Hbs.
    change (u64 (Z.shiftl 1 0)) with 1 in Hbs. change (Z.to_nat 0) with 0%nat in Hbs.
    rewrite Hbs by lia. rewrite (shiftLeft_bit w s) by done.
    destruct (Z.eqb_spec 0 o) as [<-|]; cbn [orb].
    { symmetry. apply bool_decide_eq_true. set_solver by lia. }
    destruct (Z.leb_spec shift o); cbn [andb].
    + rewrite Hbits by lia. replace (rw_highest w - (o - shift)) with (pid - o) by lia.
      apply bool_decide_ext. rewrite elem_of_union, elem_of_singleton. split; [auto|].
      intros [?|?]; [lia|done].
    + symmetry. apply bool_decide_eq_false. rewrite elem_of_union, elem_of_singleton.
      intros [?|Hin]; [lia|]. apply (spec_wf_seen s Hwf) in Hin. lia.
Qed.

(** The already-below-the-watermark branch. *)
Lemma rw_below w s pid :
  rw_rel w s → is_u32 pid → pid ≤ rw_highest w →
  u32 (rw_highest w - pid) = rw_highest w - pid ∧ u32 (rw_size w) = rw_size w ∧
  spec_fresh s pid =
    negb (pid =? 0) && ((rw_highest w - pid <? rw_size w) &&
                        negb (bit (rw_bitmap w) (rw_highest w - pid))).
Proof.
  intros [Hwf Hsz Hbd Hhi Hlen Hwords Hbits] Hp Hle.
  pose proof (spec_wf_highest s Hwf) as Hh. pose proof (spec_wf_size s Hwf) as Hsp.
  unfold is_u32 in *. split_and!; [apply u32_small; unfold is_u32; lia..|].
  unfold spec_fresh. rewrite Hhi, Hsz. destruct (Z.ltb_spec (rw_highest w) pid); [lia|].
  cbn [orb]. destruct (Z.ltb_spec (rw_highest w - pid) (rw_size w)); [|done].
  rewrite Hbits by lia. rewrite <-bool_decide_not. by replace (rw_highest w - (rw_highest w - pid)) with pid by lia.
Qed.

Lemma rw_fill w s pid :
  rw_rel w s → is_u32 pid → 0 < pid ≤ rw_highest w → rw_highest w - pid < rw_size w →
  let o := rw_highest w - pid in
  rw_rel (mkReplayWindow (rw_highest w)
            (<[Z.to_nat (o / 64) := Z.lor (word (rw_bitmap w) (o / 64)) (u64 (Z.shiftl 1 (o mod 64)))]>
               (rw_bitmap w)) (rw_size w))
         (spec_mark s pid).
Proof.
  intros Hrel Hp Hle Hlt o. pose proof Hrel as [Hwf Hsz Hbd Hhi Hlen Hwords Hbits].
  pose proof (word_in_range w s o Hrel ltac:(lia)) as Hw.
  split; cbn; [apply spec_mark_wf; (done || lia)|done|done|lia|by rewrite zlen_insert| |].
  - apply Forall_u64_insert; [done|]. apply mask_u64. by apply word_bound.
  - intros o' Ho'. rewrite bit_set by lia. rewrite Hbits by done.
    destruct (Z.eqb_spec o o') as [<-|]; cbn [orb].
    + symmetry. apply bool_decide_eq_true. subst o. set_solver by lia.
    + apply bool_decide_ext. rewrite elem_of_union, elem_of_singleton. split; [auto|].
      intros [?|?]; [lia|done].
Qed.

Lemma rw_Test_ok w s pid : rw_rel w s → is_u32 pid → Test w pid = spec_fresh s pid.
Proof.
  intros Hrel Hp. unfold Test. destruct (Z.eqb_spec pid 0) as [->|Hne]; [done|].
  destruct (Z.ltb_spec (rw_highest w) pid) as [Hlt|Hge].
  - unfold spec_fresh. rewrite (rw_rel_highest w s) by done.
    destruct (Z.eqb_spec pid 0); [done|]. by destruct (Z.ltb_spec (rw_highest w) pid); [|lia].
  - destruct (rw_below w s pid Hrel Hp Hge) as (-> & -> & ->).
    destruct (Z.eqb_spec pid 0); [done|]. cbn [negb andb].
    destruct (Z.leb_spec (rw_size w) (rw_highest w - pid));
      destruct (Z.ltb_spec (rw_highest w - pid) (rw_size w)); try lia; try done; cbn [andb].
    unfold bit. rewrite <-mask_test by (apply Z.mod_pos_bound; lia). by rewrite negb_involutive.
Qed.

Lemma rw_Accept_ok w s pid :
  rw_rel w s → is_u32 pid →
  (Accept w pid).2 = spec_fresh s pid ∧ rw_rel (Accept w pid).1 (spec_accept s pid).1.
Proof.
  intros Hrel Hp. unfold spec_accept. rewrite <-(rw_Test_ok w s pid) by done.
  destruct (Z.ltb_spec (rw_highest w) pid) as [Hlt|Hge].
  - pose proof (rw_advance w s pid Hrel Hp Hlt) as Hadv. revert Hadv. unfold Accept, Test.
    pose proof (spec_wf_highest s (rw_rel_spec w s Hrel)) as Hh. unfold is_u32 in Hh.
    rewrite (rw_rel_highest w s Hrel) in Hh.
    destruct (Z.eqb_spec pid 0); [lia|]. by destruct (Z.ltb_spec (rw_highest w) pid); [|lia].
  - unfold Accept, Test. destruct (Z.eqb_spec pid 0); [done|].
    destruct (Z.ltb_spec (rw_highest w) pid); [lia|].
    destruct (rw_below w s pid Hrel Hp Hge) as (-> & -> & _).
    destruct (Z.leb_spec (rw_size w) (rw_highest w - pid)); [done|].
    destruct (Z.land _ _ =? 0); cbn; [|done]. split; [done|].
    unfold is_u32 in Hp. apply rw_fill; (done || lia).
Qed.

#[export] Instance ReplayWindow_guard : ReplayGuard ReplayWindow := {|
  rg_Test := Test;
  rg_Accept := Accept;
  rg_rel := rw_rel;
  rg_rel_wf := rw_rel_spec;
  rg_Test_ok := rw_Test_ok;
  rg_Accept_ok := rw_Accept_ok
|}.

Lemma NewReplayWindow_rel size :
  0 ≤ size < 2 ^ 32 →
  rw_rel (NewReplayWindow size) (spec_init (if size =? 0 then DefaultReplayWindow else size)).
Proof.
  intros Hs. unfold NewReplayWindow.
  set (n := if size =? 0 then DefaultReplayWindow else size).
  assert (0 < n < 2 ^ 32) as Hn by (subst n; destruct (Z.eqb_spec size 0); unfold DefaultReplayWindow; lia).
  rewrite u64_small by (unfold is_u64; lia).
  split; cbn.
  - split; cbn; unfold is_u32; [lia|lia|set_solver].
  - done.
  - lia.
  - done.
  - unfold zlen. rewrite length_replicate. rewrite Z2Nat.id; [done|]. apply Z.div_pos; lia.
  - by apply Forall_replicate.
  - intros o Ho. unfold bit. rewrite word_replicate, Z.bits_0. symmetry.
    apply bool_decide_eq_false. set_solver.
Qed.

(** ** pidWindow is the one-word instance *)

Definition to_rw (w : pidWindow) : ReplayWindow :=
  mkReplayWindow (pw_highest w) [pw_bitmap w] windowSize.

Definition pid_wf (w : pidWindow) : Prop := is_u32 (pw_highest w) ∧ is_u64 (pw_bitmap w).

Lemma small_div_mod o : 0 ≤ o < 64 → o / 64 = 0 ∧ o mod 64 = o.
Proof. intros. split; [by apply Z.div_small|by apply Z.mod_small]. Qed.

Lemma pid_Test_rw w pid : pid_Test w pid = Test (to_rw w) pid.
Proof.
  unfold pid_Test, Test, to_rw; cbn [rw_highest rw_size rw_bitmap].
  destruct (pid =? 0); [done|]. destruct (pw_highest w <? pid); [done|].
  change (u32 windowSize) with windowSize.
  destruct (Z.leb_spec windowSize (u32 (pw_highest w - pid))) as [|Hlt]; [done|].
  unfold windowSize in Hlt. pose proof (u32_range (pw_highest w - pid)) as [? _].
  destruct (small_div_mod (u32 (pw_highest w - pid))) as [-> ->]; [lia|]. done.
Qed.

Lemma pid_Accept_rw w pid :
  is_u32 pid → is_u32 (pw_highest w) →
  to_rw (pid_Accept w pid).1 = (Accept (to_rw w) pid).1 ∧
  (pid_Accept w pid).2 = (Accept (to_rw w) pid).2.
Proof.
  intros Hp Hh. unfold pid_Accept, Accept, shiftLeftLocked, to_rw; cbn [rw_highest rw_size rw_bitmap].
  destruct (pid =? 0); [done|].
  destruct (Z.ltb_spec (pw_highest w) pid) as [Hlt|Hge].
  - destruct (Z.leb_spec windowSize (u32 (pid - pw_highest w))) as [|Hw]; [done|].
    unfold windowSize in Hw. pose proof (u32_range (pid - pw_highest w)) as [? _].
    destruct (small_div_mod (u32 (pid - pw_highest w))) as [-> ->]; [lia|].
    cbn. unfold shifted_word. cbn. by rewrite andb_false_r.
  - change (u32 windowSize) with windowSize.
    destruct (Z.leb_spec windowSize (u32 (pw_highest w - pid))) as [|Hw]; [done|].
    unfold windowSize in Hw. pose proof (u32_range (pw_highest w - pid)) as [? _].
    destruct (small_div_mod (u32 (pw_highest w - pid))) as [-> ->]; [lia|].
    change (word [pw_bitmap w] 0) with (pw_bitmap w).
    by destruct (Z.land _ _ =? 0).
Qed.

Definition pid_rel (w : pidWindow) (s : spec_window) : Prop := rw_rel (to_rw w) s.

Lemma pid_rel_u32 w s : pid_rel w s → is_u32 (pw_highest w).
Proof.
  intros H. pose proof (spec_wf_highest s (rw_rel_spec _ _ H)) as Hh.
  by rewrite (rw_rel_highest _ _ H) in Hh.
Qed.

Lemma pid_Test_ok w s pid : pid_rel w s → is_u32 pid → pid_Test w pid = spec_fresh s pid.
Proof. intros. rewrite pid_Test_rw. by apply rw_Test_ok. Qed.

Lemma pid_Accept_ok w s pid :
  pid_rel w s → is_u32 pid →
  (pid_Accept w pid).2 = spec_fresh s pid ∧ pid_rel (pid_Accept w pid).1 (spec_accept s pid).1.
Proof.
  intros Hrel Hp. unfold pid_rel.
  destruct (pid_Accept_rw w pid Hp (pid_rel_u32 w s Hrel)) as [-> ->]. by apply rw_Accept_ok.
Qed.

#[export] Instance pidWindow_guard : ReplayGuard pidWindow := {|
  rg_Test := pid_Test;
  rg_Accept := pid_Accept;
  rg_rel := pid_rel;
  rg_rel_wf w s H := rw_rel_spec (to_rw w) s H;
  rg_Test_ok := pid_Test_ok;
  rg_Accept_ok := pid_Accept_ok
|}.

Lemma pid_init_rel : pid_rel pid_init (spec_init windowSize).
Proof. apply (NewReplayWindow_rel windowSize). done. Qed.

(** C27: the multi-word bitmap window of the data channel, for every size up to
    2^32-1, answers every sequence of packet-ids exactly as the set-based
    specification (the highest id seen and the set of accepted ids), from the
    empty window on. *)
Theorem replay_window_refines size pids :
  0 ≤ size < 2 ^ 32 → Forall is_u32 pids →
  (accept_all (NewReplayWindow size) pids).2 =
  (spec_accept_all (spec_init (if size =? 0 then DefaultReplayWindow else size)) pids).2.
Proof. intros Hs Hp. by apply accept_all_refines; [apply NewReplayWindow_rel|]. Qed.

Lemma replay_window_refines_witness :
  (accept_all (NewReplayWindow 70) [1; 65; 2; 2; 135; 66; 66; 65]).2 = [1; 65; 2; 135; 66] ∧
  (spec_accept_all (spec_init 70) [1; 65; 2; 2; 135; 66; 66; 65]).2 = [1; 65; 2; 135; 66].
Proof.
  assert ((accept_all (NewReplayWindow 70) [1; 65; 2; 2; 135; 66; 66; 65]).2
          = [1; 65; 2; 135; 66]) as H by (vm_compute; reflexivity).
  split; [exact H|].
  pose proof (replay_window_refines 70 [1; 65; 2; 2; 135; 66; 66; 65]) as Hr.
  rewrite H in Hr. symmetry. apply Hr; [lia|].
  repeat (constructor; [unfold is_u32; lia|]). constructor.
Defined.

(** C28: no packet-id is ever accepted twice, by the data-channel window of any
    size or by the control-channel window, in any order of arrival. *)
Theorem replay_never_twice size pids :
  0 ≤ size < 2 ^ 32 → Forall is_u32 pids →
  NoDup (accept_all (NewReplayWindow size) pids).2 ∧ NoDup (accept_all pid_init pids).2.
Proof.
  intros Hs Hp. split.
  - by eapply accept_all_fresh; [apply NewReplayWindow_rel|].
  - by eapply accept_all_fresh; [apply pid_init_rel|].
Qed.

Lemma replay_never_twice_witness :
  NoDup (accept_all (NewReplayWindow 128) [3; 200; 3; 140; 140; 200]).2 ∧
  NoDup (accept_all pid_init [3; 200; 3; 140; 140; 200]).2.
Proof.
  apply (replay_never_twice 128); [lia|].
  repeat (constructor; [unfold is_u32; lia|]). constructor.
Defined.

(** The one-word window of tls-crypt and tls-auth is the multi-word window
    of size 64: same answers and same state on every packet-id. *)
Theorem pidWindow_is_ReplayWindow w pid :
  pid_wf w → is_u32 pid →
  pid_Test w pid = Test (to_rw w) pid ∧
  to_rw (pid_Accept w pid).1 = (Accept (to_rw w) pid).1 ∧
  (pid_Accept w pid).2 = (Accept (to_rw w) pid).2.
Proof.
  intros [Hh _] Hp. split; [apply pid_Test_rw|]. by apply pid_Accept_rw.
Qed.

Lemma pidWindow_is_ReplayWindow_witness :
  pid_Test (mkPidWindow 70 5) 69 = true ∧
  to_rw (pid_Accept (mkPidWindow 70 5) 69).1 = (Accept (to_rw (mkPidWindow 70 5)) 69).1.
Proof.
  destruct (pidWindow_is_ReplayWindow (mkPidWindow 70 5) 69) as (H1 & H2 & _).
  - split; unfold is_u32, is_u64; cbn; lia.
  - unfold is_u32; lia.
  - split; [rewrite H1; vm_compute; reflexivity|exact H2].
Defined.
