(* ===== verification/Reliable.v ===== *)
(** The reliability layer of the control channel, [internal/reliable].  One
    [Layer] is a state record; every method is a function on it, with the
    reading of the clock as an argument ([now], nanoseconds) and the outbound Go
    channel as a bounded list.  Go's [range] over the retransmission map visits
    it in an unspecified order: [Tick] takes that order as an argument and the
    theorems hold for all of them.  Condition variables carry no state: a
    method that would wait returns a "blocked" result and is called again. *)
From S2P Require Import Prelude Wire.
Local Open Scope Z_scope.

Definition MaxAcksPerPacket : nat := 8.
Definition MaxQueueSize : nat := 12.
Definition MaxRxBuffer : Z := 64.
Definition MaxRetransmits : Z := 8.
Definition InitialRetransmit : Z := Second.
Definition MaxRetransmit : Z := 16 * Second.
Definition AckFlushDelay : Z := 20 * 1000000.
Definition FastRetransmitThreshold : Z := 3.
Definition TLSChunkSize : nat := 1200.

Inductive rel_error : Type :=
  | ErrClosed
  | ErrTooManyRetransmits
  | ErrQueueFull
  | ErrSessionIDMismatch
  | ErrBadHardResetOpcode
  | ErrEOF
  | ErrReadAborted (why : string).   (* an error recorded by CloseRead *)

Record OutPacket := mkOutPacket {
  op_Opcode : Z;
  op_KeyID : Z;
  op_SessionID : Z;
  op_Payload : ControlPayload;
  op_Ack : AckPayload
}.

Definition IsAck (o : OutPacket) : bool := op_Opcode o =? PAckV1.

Record InPacket := mkInPacket {
  ip_Opcode : Z;
  ip_KeyID : Z;
  ip_SessionID : Z;
  ip_Payload : ControlPayload;
  ip_Ack : AckPayload
}.

(** Zero values of the payload structs. *)
Definition zero_payload : ControlPayload := mkControlPayload [] 0 0 [].
Definition zero_ack : AckPayload := mkAckPayload [] 0.

Record pendingPkt := mkPendingPkt {
  pp_msgPID : Z;
  pp_opcode : Z;
  pp_body : bytes;
  pp_sentAt : Z;
  pp_attempts : Z;
  pp_higherACKs : Z
}.

Record Layer := mkLayer {
  l_LocalSessionID : Z;   (* cfg.LocalSessionID *)
  l_OutboundBuffer : nat;   (* capacity of the outbound channel *)
  l_keyID : Z;
  l_remoteSessionID : Z;
  l_remoteKnown : bool;
  l_nextTxPID : Z;
  l_txQueue : gmap Z pendingPkt;
  l_nextRxPID : Z;
  l_rxBuffer : gmap Z bytes;
  l_pendingAcks : list Z;
  l_pendingAckSet : gset Z;
  l_ackPendingSince : option Z;   (* None is the zero time *)
  l_readBuf : bytes;
  l_readClosed : bool;
  l_readErr : option rel_error;
  l_outbound : list OutPacket;   (* contents of the channel *)
  l_closed : bool
}.

(** Field updates. *)
Definition set_keyID (v : Z) (l : Layer) : Layer :=
  mkLayer (l_LocalSessionID l) (l_OutboundBuffer l) v (l_remoteSessionID l) (l_remoteKnown l) (l_nextTxPID l) (l_txQueue l) (l_nextRxPID l) (l_rxBuffer l) (l_pendingAcks l) (l_pendingAckSet l) (l_ackPendingSince l) (l_readBuf l) (l_readClosed l) (l_readErr l) (l_outbound l) (l_closed l).
Definition set_remoteSessionID (v : Z) (l : Layer) : Layer :=
  mkLayer (l_LocalSessionID l) (l_OutboundBuffer l) (l_keyID l) v (l_remoteKnown l) (l_nextTxPID l) (l_txQueue l) (l_nextRxPID l) (l_rxBuffer l) (l_pendingAcks l) (l_pendingAckSet l) (l_ackPendingSince l) (l_readBuf l) (l_readClosed l) (l_readErr l) (l_outbound l) (l_closed l).
Definition set_remoteKnown (v : bool) (l : Layer) : Layer :=
  mkLayer (l_LocalSessionID l) (l_OutboundBuffer l) (l_keyID l) (l_remoteSessionID l) v (l_nextTxPID l) (l_txQueue l) (l_nextRxPID l) (l_rxBuffer l) (l_pendingAcks l) (l_pendingAckSet l) (l_ackPendingSince l) (l_readBuf l) (l_readClosed l) (l_readErr l) (l_outbound l) (l_closed l).
Definition set_nextTxPID (v : Z) (l : Layer) : Layer :=
  mkLayer (l_LocalSessionID l) (l_OutboundBuffer l) (l_keyID l) (l_remoteSessionID l) (l_remoteKnown l) v (l_txQueue l) (l_nextRxPID l) (l_rxBuffer l) (l_pendingAcks l) (l_pendingAckSet l) (l_ackPendingSince l) (l_readBuf l) (l_readClosed l) (l_readErr l) (l_outbound l) (l_closed l).
Definition set_txQueue (v : gmap Z pendingPkt) (l : Layer) : Layer :=
  mkLayer (l_LocalSessionID l) (l_OutboundBuffer l) (l_keyID l) (l_remoteSessionID l) (l_remoteKnown l) (l_nextTxPID l) v (l_nextRxPID l) (l_rxBuffer l) (l_pendingAcks l) (l_pendingAckSet l) (l_ackPendingSince l) (l_readBuf l) (l_readClosed l) (l_readErr l) (l_outbound l) (l_closed l).
Definition set_nextRxPID (v : Z) (l : Layer) : Layer :=
  mkLayer (l_LocalSessionID l) (l_OutboundBuffer l) (l_keyID l) (l_remoteSessionID l) (l_remoteKnown l) (l_nextTxPID l) (l_txQueue l) v (l_rxBuffer l) (l_pendingAcks l) (l_pendingAckSet l) (l_ackPendingSince l) (l_readBuf l) (l_readClosed l) (l_readErr l) (l_outbound l) (l_closed l).
Definition set_rxBuffer (v : gmap Z bytes) (l : Layer) : Layer :=
  mkLayer (l_LocalSessionID l) (l_OutboundBuffer l) (l_keyID l) (l_remoteSessionID l) (l_remoteKnown l) (l_nextTxPID l) (l_txQueue l) (l_nextRxPID l) v (l_pendingAcks l) (l_pendingAckSet l) (l_ackPendingSince l) (l_readBuf l) (l_readClosed l) (l_readErr l) (l_outbound l) (l_closed l).
Definition set_pendingAcks (v : list Z) (l : Layer) : Layer :=
  mkLayer (l_LocalSessionID l) (l_OutboundBuffer l) (l_keyID l) (l_remoteSessionID l) (l_remoteKnown l) (l_nextTxPID l) (l_txQueue l) (l_nextRxPID l) (l_rxBuffer l) v (l_pendingAckSet l) (l_ackPendingSince l) (l_readBuf l) (l_readClosed l) (l_readErr l) (l_outbound l) (l_closed l).
Definition set_pendingAckSet (v : gset Z) (l : Layer) : Layer :=
  mkLayer (l_LocalSessionID l) (l_OutboundBuffer l) (l_keyID l) (l_remoteSessionID l) (l_remoteKnown l) (l_nextTxPID l) (l_txQueue l) (l_nextRxPID l) (l_rxBuffer l) (l_pendingAcks l) v (l_ackPendingSince l) (l_readBuf l) (l_readClosed l) (l_readErr l) (l_outbound l) (l_closed l).
Definition set_ackPendingSince (v : option Z) (l : Layer) : Layer :=
  mkLayer (l_LocalSessionID l) (l_OutboundBuffer l) (l_keyID l) (l_remoteSessionID l) (l_remoteKnown l) (l_nextTxPID l) (l_txQueue l) (l_nextRxPID l) (l_rxBuffer l) (l_pendingAcks l) (l_pendingAckSet l) v (l_readBuf l) (l_readClosed l) (l_readErr l) (l_outbound l) (l_closed l).
Definition set_readBuf (v : bytes) (l : Layer) : Layer :=
  mkLayer (l_LocalSessionID l) (l_OutboundBuffer l) (l_keyID l) (l_remoteSessionID l) (l_remoteKnown l) (l_nextTxPID l) (l_txQueue l) (l_nextRxPID l) (l_rxBuffer l) (l_pendingAcks l) (l_pendingAckSet l) (l_ackPendingSince l) v (l_readClosed l) (l_readErr l) (l_outbound l) (l_closed l).
Definition set_readClosed (v : bool) (l : Layer) : Layer :=
  mkLayer (l_LocalSessionID l) (l_OutboundBuffer l) (l_keyID l) (l_remoteSessionID l) (l_remoteKnown l) (l_nextTxPID l) (l_txQueue l) (l_nextRxPID l) (l_rxBuffer l) (l_pendingAcks l) (l_pendingAckSet l) (l_ackPendingSince l) (l_readBuf l) v (l_readErr l) (l_outbound l) (l_closed l).
Definition set_readErr (v : option rel_error) (l : Layer) : Layer :=
  mkLayer (l_LocalSessionID l) (l_OutboundBuffer l) (l_keyID l) (l_remoteSessionID l) (l_remoteKnown l) (l_nextTxPID l) (l_txQueue l) (l_nextRxPID l) (l_rxBuffer l) (l_pendingAcks l) (l_pendingAckSet l) (l_ackPendingSince l) (l_readBuf l) (l_readClosed l) v (l_outbound l) (l_closed l).
Definition set_outbound (v : list OutPacket) (l : Layer) : Layer :=
  mkLayer (l_LocalSessionID l) (l_OutboundBuffer l) (l_keyID l) (l_remoteSessionID l) (l_remoteKnown l) (l_nextTxPID l) (l_txQueue l) (l_nextRxPID l) (l_rxBuffer l) (l_pendingAcks l) (l_pendingAckSet l) (l_ackPendingSince l) (l_readBuf l) (l_readClosed l) (l_readErr l) v (l_closed l).
Definition set_closed (v : bool) (l : Layer) : Layer :=
  mkLayer (l_LocalSessionID l) (l_OutboundBuffer l) (l_keyID l) (l_remoteSessionID l) (l_remoteKnown l) (l_nextTxPID l) (l_txQueue l) (l_nextRxPID l) (l_rxBuffer l) (l_pendingAcks l) (l_pendingAckSet l) (l_ackPendingSince l) (l_readBuf l) (l_readClosed l) (l_readErr l) (l_outbound l) v.

Record Config := mkConfig {
  cfg_LocalSessionID : Z;
  cfg_InitialKeyID : Z;
  cfg_OutboundBuffer : Z
}.

Definition New (cfg : Config) : Layer :=
  let buffer := if cfg_OutboundBuffer cfg <=? 0 then 64 else cfg_OutboundBuffer cfg in
  mkLayer (cfg_LocalSessionID cfg) (Z.to_nat buffer) (cfg_InitialKeyID cfg) 0 false
          0 ∅ 0 ∅ [] ∅ None [] false None [] false.

Definition SetKeyID (k : Z) (l : Layer) : Layer := set_keyID k l.
Definition KeyID (l : Layer) : Z := l_keyID l.
Definition RemoteSessionID (l : Layer) : Z * bool := (l_remoteSessionID l, l_remoteKnown l).
Definition SetRemoteSessionID (sid : Z) (l : Layer) : Layer :=
  set_remoteKnown true (set_remoteSessionID sid l).

(** ** Outbound path *)

Definition drainAcksLocked (max : nat) (l : Layer) : list Z * Layer :=
  match l_pendingAcks l with
  | [] => ([], l)
  | _ =>
      let n := Nat.min (length (l_pendingAcks l)) max in
      let acks := take n (l_pendingAcks l) in
      let l := set_pendingAckSet (l_pendingAckSet l ∖ list_to_set acks) l in
      let l := set_pendingAcks (drop n (l_pendingAcks l)) l in
      (acks, match l_pendingAcks l with [] => set_ackPendingSince None l | _ => l end)
  end.

(** [select { case l.outbound <- out: default: ... }] of both emitters: enqueue
    if the channel has room, otherwise put the drained acks back in front. *)
Definition emit_or_restore (now : Z) (acks : list Z) (out : OutPacket) (l : Layer) : Layer :=
  if (length (l_outbound l) <? l_OutboundBuffer l)%nat
  then set_outbound (l_outbound l ++ [out]) l
  else
    let l := set_pendingAcks (acks ++ l_pendingAcks l) l in
    let l := set_pendingAckSet (l_pendingAckSet l ∪ list_to_set acks) l in
    match l_ackPendingSince l, l_pendingAcks l with
    | None, _ :: _ => set_ackPendingSince (Some now) l
    | _, _ => l
    end.

Definition emitLocked (now opcode msgPID : Z) (body : bytes) (l : Layer) : Layer :=
  let '(acks, l) := drainAcksLocked MaxAcksPerPacket l in
  let payload := mkControlPayload acks (l_remoteSessionID l) msgPID body in
  let out := mkOutPacket opcode (l_keyID l) (l_LocalSessionID l) payload zero_ack in
  emit_or_restore now acks out l.

(** Records a new packet in the retransmission queue and emits it once. *)
Definition enqueueAndEmitLocked (now opcode : Z) (body : bytes) (l : Layer)
  : Layer * option rel_error :=
  if (MaxQueueSize <=? size (l_txQueue l))%nat then (l, Some ErrQueueFull)
  else
    let pid := l_nextTxPID l in
    let l := set_nextTxPID (u32 (pid + 1)) l in
    let l := set_txQueue (<[pid := mkPendingPkt pid opcode body now 1 0]> (l_txQueue l)) l in
    (emitLocked now opcode pid body l, None).

Definition SendHardReset (now opcode : Z) (l : Layer) : Layer * option rel_error :=
  if l_closed l then (l, Some ErrClosed)
  else if negb (IsControl opcode) then (l, Some ErrBadHardResetOpcode)
  else enqueueAndEmitLocked now opcode [] l.

Definition SendSoftReset (now newKeyID : Z) (l : Layer) : Layer * option rel_error :=
  if l_closed l then (l, Some ErrClosed)
  else
    let prev := l_keyID l in
    let '(l, err) := enqueueAndEmitLocked now PControlSoftResetV1 [] (set_keyID newKeyID l) in
    (set_keyID prev l, err).

Definition emitStandaloneAckLocked (now : Z) (l : Layer) : Layer :=
  match l_pendingAcks l with
  | [] => l
  | _ =>
      if negb (l_remoteKnown l) then l
      else
        let '(acks, l) := drainAcksLocked MaxAcksPerPacket l in
        let out := mkOutPacket PAckV1 (l_keyID l) (l_LocalSessionID l) zero_payload
                     (mkAckPayload acks (l_remoteSessionID l)) in
        emit_or_restore now acks out l
  end.

(** ** Inbound path *)

Definition bump (acked : Z) (pid : Z) (pkt : pendingPkt) : option pendingPkt :=
  Some (if pid <? acked
        then mkPendingPkt (pp_msgPID pkt) (pp_opcode pkt) (pp_body pkt) (pp_sentAt pkt)
               (pp_attempts pkt) (pp_higherACKs pkt + 1)
        else pkt).

Definition bumpHigherACKsLocked (acked : Z) (l : Layer) : Layer :=
  set_txQueue (map_imap (bump acked) (l_txQueue l)) l.

(** The loop [for _, ack := range acks { delete(l.txQueue, ack); bump }]. *)
Definition process_acks (acks : list Z) (l : Layer) : Layer :=
  foldl (λ l ack, bumpHigherACKsLocked ack (set_txQueue (delete ack (l_txQueue l)) l)) l acks.

Definition addPendingAckLocked (now msgPID : Z) (l : Layer) : Layer :=
  if bool_decide (msgPID ∈ l_pendingAckSet l) then l
  else
    let l := set_pendingAckSet ({[msgPID]} ∪ l_pendingAckSet l) l in
    let l := set_pendingAcks (l_pendingAcks l ++ [msgPID]) l in
    match l_ackPendingSince l with
    | None => set_ackPendingSince (Some now) l
    | Some _ => l
    end.

Definition appendReadLocked (body : bytes) (l : Layer) : Layer :=
  match body with [] => l | _ => set_readBuf (l_readBuf l ++ body) l end.

(** The loop delivering contiguous buffered packets; one iteration per buffered
    entry is enough, see [drain_rx_done]. *)
Fixpoint drain_rx (fuel : nat) (l : Layer) : Layer :=
  match fuel with
  | O => l
  | S fuel' =>
      match l_rxBuffer l !! l_nextRxPID l with
      | None => l
      | Some body =>
          let l := set_rxBuffer (delete (l_nextRxPID l) (l_rxBuffer l)) l in
          let l := appendReadLocked body l in
          drain_rx fuel' (set_nextRxPID (u32 (l_nextRxPID l + 1)) l)
      end
  end.

(** Latching the peer's session-id, or checking it. *)
Definition latch_sid (sid : Z) (l : Layer) : option Layer :=
  if negb (l_remoteKnown l) then Some (SetRemoteSessionID sid l)
  else if sid =? l_remoteSessionID l then Some l else None.

Definition HandleInbound (now : Z) (i : InPacket) (l : Layer) : Layer * option rel_error :=
  if l_closed l then (l, Some ErrClosed)
  else
    match latch_sid (ip_SessionID i) l with
    | None => (l, Some ErrSessionIDMismatch)
    | Some l =>
        if ip_Opcode i =? PAckV1 then (process_acks (ap_Acks (ip_Ack i)) l, None)
        else
          let l := process_acks (cp_Acks (ip_Payload i)) l in
          let msgPID := cp_MessagePID (ip_Payload i) in
          let body := cp_Body (ip_Payload i) in
          if msgPID <? l_nextRxPID l then (addPendingAckLocked now msgPID l, None)
          else if bool_decide (is_Some (l_rxBuffer l !! msgPID))
          then (addPendingAckLocked now msgPID l, None)
          else if msgPID =? l_nextRxPID l then
            let l := appendReadLocked body l in
            let l := set_nextRxPID (u32 (l_nextRxPID l + 1)) l in
            let l := drain_rx (size (l_rxBuffer l)) l in
            (addPendingAckLocked now msgPID l, None)
          else if MaxRxBuffer <=? u32 (msgPID - l_nextRxPID l) then (l, None)
          else
            let l := set_rxBuffer (<[msgPID := body]> (l_rxBuffer l)) l in
            (addPendingAckLocked now msgPID l, None)
    end.

(** ** Read, Write, closing *)

Inductive read_result : Type :=
  | RBlocked
  | RData (b : bytes)
  | RErr (e : rel_error).

(** [Read(p)] with [len(p) = n]. *)
Definition Read (n : nat) (l : Layer) : Layer * read_result :=
  match l_readBuf l with
  | [] =>
      if l_closed l || l_readClosed l then
        (l, RErr (match l_readErr l with Some e => e | None => ErrEOF end))
      else (l, RBlocked)
  | _ =>
      let b := take n (l_readBuf l) in
      (set_readBuf (drop (length b) (l_readBuf l)) l, RData b)
  end.

Inductive write_result : Type :=
  | WBlockedRemote                        (* waiting for the peer's session-id *)
  | WBlockedQueue (p : bytes) (written : nat)   (* waiting for acks, [p] left *)
  | WDone (written : nat) (err : option rel_error).

(** The chunking loop; every iteration consumes at least one byte, so the
    length of the data is enough fuel, see [write_loop_outcome]. *)
Fixpoint write_loop (fuel : nat) (now : Z) (p : bytes) (written : nat) (l : Layer)
  : Layer * write_result :=
  match p, fuel with
  | [], _ => (l, WDone written None)
  | _, O => (l, WBlockedQueue p written)
  | _, S fuel' =>
      if l_closed l then
        (l, if (0 <? written)%nat then WDone written None else WDone 0 (Some ErrClosed))
      else if (MaxQueueSize <=? size (l_txQueue l))%nat then (l, WBlockedQueue p written)
      else
        let chunk := take TLSChunkSize p in
        match enqueueAndEmitLocked now PControlV1 chunk l with
        | (l, Some err) => (l, WDone written (Some err))
        | (l, None) =>
            write_loop fuel' now (drop TLSChunkSize p) (written + length chunk) l
        end
  end.

Definition Write (now : Z) (p : bytes) (l : Layer) : Layer * write_result :=
  if negb (l_remoteKnown l) && negb (l_closed l) && negb (l_readClosed l)
  then (l, WBlockedRemote)
  else if negb (l_remoteKnown l) && l_readClosed l && negb (l_closed l)
  then (l, WDone 0 (Some (match l_readErr l with Some e => e | None => ErrClosed end)))
  else write_loop (length p) now p 0 l.

Definition CloseRead (err : option rel_error) (l : Layer) : Layer :=
  let l := set_readClosed true l in
  match err with Some e => set_readErr (Some e) l | None => l end.

Definition Close (l : Layer) : Layer :=
  if l_closed l then l
  else
    let l := set_readClosed true (set_closed true l) in
    match l_readErr l with None => set_readErr (Some ErrEOF) l | Some _ => l end.

(** [Adapter.SetDeadline]: a deadline that has passed aborts the reader. *)
Definition SetDeadline (now : Z) (t : option Z) (l : Layer) : Layer :=
  match t with
  | Some t => if t <=? now then CloseRead (Some (ErrReadAborted "deadline exceeded")) l else l
  | None => l
  end.

(** ** Tick *)

Definition backoff (attempts : Z) : Z :=
  Z.min (Z.shiftl InitialRetransmit (Z.min (attempts - 1) 4)) MaxRetransmit.

Definition due (now : Z) (pkt : pendingPkt) : bool :=
  (FastRetransmitThreshold <=? pp_higherACKs pkt) ||
  (backoff (pp_attempts pkt) <=? now - pp_sentAt pkt).

(** The body of [for _, pkt := range l.txQueue]. *)
Definition tick_packet (now : Z) (pid : Z) (l : Layer) : Layer * option rel_error :=
  match l_txQueue l !! pid with
  | None => (l, None)
  | Some pkt =>
      if negb (due now pkt) then (l, None)
      else if MaxRetransmits <=? pp_attempts pkt then (l, Some ErrTooManyRetransmits)
      else
        let l := emitLocked now (pp_opcode pkt) (pp_msgPID pkt) (pp_body pkt) l in
        (set_txQueue (<[pid := mkPendingPkt (pp_msgPID pkt) (pp_opcode pkt) (pp_body pkt)
                                 now (pp_attempts pkt + 1) 0]> (l_txQueue l)) l, None)
  end.

Fixpoint tick_loop (now : Z) (order : list Z) (l : Layer) : Layer * option rel_error :=
  match order with
  | [] => (l, None)
  | pid :: order' =>
      match tick_packet now pid l with
      | (l, None) => tick_loop now order' l
      | (l, Some e) => (l, Some e)
      end
  end.

Definition Tick (now : Z) (order : list Z) (l : Layer) : Layer * option rel_error :=
  if l_closed l then (l, Some ErrClosed)
  else
    match tick_loop now order l with
    | (l, Some e) => (l, Some e)
    | (l, None) =>
        match l_pendingAcks l with
        | [] => (l, None)
        | _ =>
            if (MaxAcksPerPacket <=? length (l_pendingAcks l))%nat ||
               match l_ackPendingSince l with
               | Some since => AckFlushDelay <=? now - since
               | None => false
               end
            then (emitStandaloneAckLocked now l, None)
            else (l, None)
        end
    end.

(** A legal order of the map iteration: every key, once. *)
Definition tick_order (l : Layer) (order : list Z) : Prop :=
  order ≡ₚ (map_to_list (l_txQueue l)).*1.

Definition PendingAcks (l : Layer) : nat := length (l_pendingAcks l).
Definition QueueLen (l : Layer) : nat := size (l_txQueue l).
