(* ===== verification/ReliableFacts.v ===== *)
(** Facts about single operations of the reliability layer: what each leaves
    untouched, the bookkeeping of acknowledgements, the receive window, the
    retransmission schedule and the chunking of writes. *)
From S2P Require Import Prelude Wire Reliable.
Local Open Scope Z_scope.

(** Computing a field of an updated layer. *)
Ltac lay :=
  unfold set_keyID, set_remoteSessionID, set_remoteKnown, set_nextTxPID, set_txQueue,
    set_nextRxPID, set_rxBuffer, set_pendingAcks, set_pendingAckSet, set_ackPendingSince,
    set_readBuf, set_readClosed, set_readErr, set_outbound, set_closed in *;
  cbn [l_LocalSessionID l_OutboundBuffer l_keyID l_remoteSessionID l_remoteKnown l_nextTxPID
       l_txQueue l_nextRxPID l_rxBuffer l_pendingAcks l_pendingAckSet l_ackPendingSince
       l_readBuf l_readClosed l_readErr l_outbound l_closed] in *.

(** ** Frames *)

(** [l'] differs from [l] in the acknowledgement fields and the channel only. *)
Definition emit_frame (l l' : Layer) : Prop :=
  ∃ pa ps si ob,
    l' = set_outbound ob (set_ackPendingSince si (set_pendingAckSet ps (set_pendingAcks pa l))).

Lemma emit_frame_refl l : emit_frame l l.
Proof. unfold emit_frame. destruct l. by eexists _, _, _, _. Qed.

Lemma emit_frame_trans l1 l2 l3 : emit_frame l1 l2 → emit_frame l2 l3 → emit_frame l1 l3.
Proof.
  intros (pa & ps & si & ob & ->) (pa' & ps' & si' & ob' & ->).
  by exists pa', ps', si', ob'.
Qed.

Lemma drainAcks_frame n l : emit_frame l (drainAcksLocked n l).2.
Proof.
  unfold drainAcksLocked. destruct (l_pendingAcks l) as [|a pa] eqn:Hpa; cbn [snd].
  - apply emit_frame_refl.
  - destruct l; lay. subst. unfold emit_frame. destruct (drop _ _); by eexists _, _, _, _.
Qed.

Lemma restore_frame now acks out l : emit_frame l (emit_or_restore now acks out l).
Proof.
  unfold emit_or_restore. destruct l; lay. unfold emit_frame.
  destruct (length _ <? _)%nat; lay; [by eexists _, _, _, _|].
  destruct l_ackPendingSince, (acks ++ l_pendingAcks); by eexists _, _, _, _.
Qed.

Lemma emitLocked_frame now op pid b l : emit_frame l (emitLocked now op pid b l).
Proof.
  unfold emitLocked. pose proof (drainAcks_frame MaxAcksPerPacket l) as H.
  destruct (drainAcksLocked _ l). eapply emit_frame_trans; [exact H|apply restore_frame].
Qed.

Lemma emitStandaloneAck_frame now l : emit_frame l (emitStandaloneAckLocked now l).
Proof.
  unfold emitStandaloneAckLocked. destruct (l_pendingAcks l); [apply emit_frame_refl|].
  destruct (negb (l_remoteKnown l)); [apply emit_frame_refl|].
  pose proof (drainAcks_frame MaxAcksPerPacket l) as H.
  destruct (drainAcksLocked _ l). eapply emit_frame_trans; [exact H|apply restore_frame].
Qed.

(** The fields a frame preserves, as rewriting facts. *)
Lemma emit_frame_fields l l' : emit_frame l l' →
  l_LocalSessionID l' = l_LocalSessionID l ∧ l_OutboundBuffer l' = l_OutboundBuffer l ∧
  l_keyID l' = l_keyID l ∧ l_remoteSessionID l' = l_remoteSessionID l ∧
  l_remoteKnown l' = l_remoteKnown l ∧ l_nextTxPID l' = l_nextTxPID l ∧
  l_txQueue l' = l_txQueue l ∧ l_nextRxPID l' = l_nextRxPID l ∧ l_rxBuffer l' = l_rxBuffer l ∧
  l_readBuf l' = l_readBuf l ∧ l_readClosed l' = l_readClosed l ∧ l_readErr l' = l_readErr l ∧
  l_closed l' = l_closed l.
Proof. intros (pa & ps & si & ob & ->). by lay. Qed.

(** Transmission-side updates keep everything a receiver looks at. *)
Definition rx_same (l l' : Layer) : Prop :=
  l_remoteSessionID l' = l_remoteSessionID l ∧ l_remoteKnown l' = l_remoteKnown l ∧
  l_nextRxPID l' = l_nextRxPID l ∧ l_rxBuffer l' = l_rxBuffer l ∧ l_readBuf l' = l_readBuf l ∧
  l_closed l' = l_closed l.

Lemma rx_same_refl l : rx_same l l.
Proof. done. Qed.
Lemma rx_same_trans l1 l2 l3 : rx_same l1 l2 → rx_same l2 l3 → rx_same l1 l3.
Proof. unfold rx_same. intuition congruence. Qed.
Lemma emit_frame_rx l l' : emit_frame l l' → rx_same l l'.
Proof. intros H. apply emit_frame_fields in H. unfold rx_same. intuition. Qed.

Lemma enqueue_rx now op b l : rx_same l (enqueueAndEmitLocked now op b l).1.
Proof.
  unfold enqueueAndEmitLocked. case_match; [done|]. cbn [fst].
  eapply rx_same_trans; [|apply emit_frame_rx, emitLocked_frame]. done.
Qed.

Lemma tick_packet_rx now pid l : rx_same l (tick_packet now pid l).1.
Proof.
  unfold tick_packet. destruct (l_txQueue l !! pid); [|done].
  destruct (negb _); [done|]. destruct (_ <=? _); [done|]. cbn [fst].
  eapply rx_same_trans; [apply emit_frame_rx, emitLocked_frame|]. done.
Qed.

Lemma tick_loop_rx now order l : rx_same l (tick_loop now order l).1.
Proof.
  revert l. induction order as [|pid order IH]; intros l; cbn; [done|].
  pose proof (tick_packet_rx now pid l) as H. destruct (tick_packet now pid l) as [l1 [e|]]; [done|].
  eapply rx_same_trans; [exact H|apply IH].
Qed.

Lemma Tick_rx now order l : rx_same l (Tick now order l).1.
Proof.
  unfold Tick. destruct (l_closed l); [done|].
  pose proof (tick_loop_rx now order l) as H. destruct (tick_loop now order l) as [l1 [e|]]; [done|].
  destruct (l_pendingAcks l1); [done|]. case_match; [|done]. cbn [fst] in *.
  eapply rx_same_trans; [exact H|apply emit_frame_rx, emitStandaloneAck_frame].
Qed.

(** ** Processing acknowledgements *)

Lemma bump_lookup acked l pid :
  l_txQueue (bumpHigherACKsLocked acked l) !! pid = (l_txQueue l !! pid) ≫= bump acked pid.
Proof. unfold bumpHigherACKsLocked. lay. apply map_lookup_imap. Qed.

(** Same packet up to the fast-retransmit counter. *)
Definition pkt_same (p p' : pendingPkt) : Prop :=
  pp_msgPID p' = pp_msgPID p ∧ pp_opcode p' = pp_opcode p ∧ pp_body p' = pp_body p ∧
  pp_sentAt p' = pp_sentAt p ∧ pp_attempts p' = pp_attempts p ∧
  pp_higherACKs p ≤ pp_higherACKs p'.

Lemma pkt_same_refl p : pkt_same p p.
Proof. unfold pkt_same. split_and!; (done || lia). Qed.
Lemma pkt_same_trans p1 p2 p3 : pkt_same p1 p2 → pkt_same p2 p3 → pkt_same p1 p3.
Proof. unfold pkt_same. intuition (congruence || lia). Qed.

Lemma bump_same acked pid p p' : bump acked pid p = Some p' → pkt_same p p'.
Proof.
  unfold bump. intros [= <-]. destruct (pid <? acked); [|apply pkt_same_refl].
  unfold pkt_same; cbn. split_and!; (done || lia).
Qed.

(** Acknowledged packets leave the queue; the others stay, possibly with a
    higher fast-retransmit counter. *)
Lemma process_acks_spec acks l :
  ∃ q, process_acks acks l = set_txQueue q l ∧
    (∀ pid p', q !! pid = Some p' →
       (pid ∉ acks) ∧ ∃ p, l_txQueue l !! pid = Some p ∧ pkt_same p p') ∧
    (∀ pid p, l_txQueue l !! pid = Some p → pid ∉ acks →
       ∃ p', q !! pid = Some p' ∧ pkt_same p p').
Proof.
  unfold process_acks. revert l. induction acks as [|a acks IH]; intros l; cbn [foldl].
  - exists (l_txQueue l). split_and!; [by destruct l| |].
    + intros pid p' Hp. split; [set_solver|]. eauto using pkt_same_refl.
    + intros pid p Hp _. eauto using pkt_same_refl.
  - destruct (IH (bumpHigherACKsLocked a (set_txQueue (delete a (l_txQueue l)) l)))
      as (q & Heq & Hback & Hfwd).
    exists q. split_and!; [rewrite Heq; by unfold bumpHigherACKsLocked; lay| |].
    + intros pid p' Hq. destruct (Hback pid p' Hq) as (Hni & p1 & Hp1 & Hs1).
      rewrite bump_lookup in Hp1. lay. destruct (delete a (l_txQueue l) !! pid) as [p|] eqn:Hd;
        [|done]. apply lookup_delete_Some in Hd as [Hne Hp]. cbn in Hp1.
      split; [set_solver|]. exists p. split; [done|].
      eapply pkt_same_trans; [by eapply bump_same|done].
    + intros pid p Hp Hni. apply not_elem_of_cons in Hni as [Hne Hni].
      destruct (bump a pid p) as [p1|] eqn:Hb; [|done].
      destruct (Hfwd pid p1) as (p' & Hq & Hs); [|done|].
      { rewrite bump_lookup. lay. rewrite lookup_delete_ne, Hp by done. done. }
      exists p'. split; [done|]. eapply pkt_same_trans; [by eapply bump_same|done].
Qed.

(** ** The receive window *)

(** Everything buffered lies strictly inside the window above [nextRxPID]. *)
Record rx_window (l : Layer) : Prop := {
  rxw_next : is_u32 (l_nextRxPID l);
  rxw_buf pid b : l_rxBuffer l !! pid = Some b →
    l_nextRxPID l < pid < l_nextRxPID l + MaxRxBuffer ∧ pid < 2 ^ 32
}.

(** The loop invariant of [drain_rx]: as [rx_window], with the next packet
    possibly buffered. *)
Definition rx_draining (l : Layer) : Prop :=
  is_u32 (l_nextRxPID l) ∧
  ∀ pid b, l_rxBuffer l !! pid = Some b →
    l_nextRxPID l ≤ pid < l_nextRxPID l + MaxRxBuffer ∧ pid < 2 ^ 32.

(** Only the three receive fields change while delivering. *)
Definition rx_frame (l l' : Layer) : Prop :=
  ∃ nx bf rb, l' = set_nextRxPID nx (set_rxBuffer bf (set_readBuf rb l)).

Lemma rx_frame_refl l : rx_frame l l.
Proof. destruct l. by eexists _, _, _. Qed.
Lemma rx_frame_trans l1 l2 l3 : rx_frame l1 l2 → rx_frame l2 l3 → rx_frame l1 l3.
Proof. intros (? & ? & ? & ->) (nx & bf & rb & ->). by exists nx, bf, rb. Qed.

(** One delivery: the body of [nextRxPID] is read, the counter moves on. *)
Definition deliver (body : bytes) (l : Layer) : Layer :=
  let l := appendReadLocked body l in
  set_nextRxPID (u32 (l_nextRxPID l + 1)) l.

Lemma deliver_eq body l :
  deliver body l = set_nextRxPID (u32 (l_nextRxPID l + 1)) (set_readBuf (l_readBuf l ++ body) l).
Proof.
  unfold deliver, appendReadLocked. destruct body; [|by lay]. rewrite app_nil_r. by destruct l.
Qed.

Lemma drain_rx_S fuel l b :
  l_rxBuffer l !! l_nextRxPID l = Some b →
  drain_rx (S fuel) l =
  drain_rx fuel (deliver b (set_rxBuffer (delete (l_nextRxPID l) (l_rxBuffer l)) l)).
Proof. cbn. by intros ->. Qed.

Lemma deliver_draining b l :
  rx_draining l →
  rx_draining (deliver b (set_rxBuffer (delete (l_nextRxPID l) (l_rxBuffer l)) l)).
Proof.
  intros [Hn Hb]. unfold rx_draining. rewrite deliver_eq. lay.
  split; [apply u32_range|]. intros pid b' [Hne Hp]%lookup_delete_Some.
  specialize (Hb pid b' Hp). unfold is_u32 in Hn.
  rewrite u32_small by (unfold is_u32; lia). lia.
Qed.

(** Induction principle of the draining loop: a property that each delivery
    preserves holds at the end, where the next packet is not buffered. *)
Lemma drain_rx_ind (P : Layer → Prop) :
  (∀ l b, P l → l_rxBuffer l !! l_nextRxPID l = Some b →
     P (deliver b (set_rxBuffer (delete (l_nextRxPID l) (l_rxBuffer l)) l))) →
  ∀ fuel l, P l → (size (l_rxBuffer l) ≤ fuel)%nat →
  P (drain_rx fuel l) ∧ l_rxBuffer (drain_rx fuel l) !! l_nextRxPID (drain_rx fuel l) = None.
Proof.
  intros Hstep fuel. induction fuel as [|fuel IH]; intros l HP Hsz.
  - split; [done|]. cbn. assert (l_rxBuffer l = ∅) as -> by (apply map_size_empty_iff; lia). done.
  - destruct (l_rxBuffer l !! l_nextRxPID l) as [b|] eqn:Hb.
    + rewrite (drain_rx_S _ _ b) by done. apply IH; [by apply Hstep|].
      rewrite deliver_eq. lay.
      rewrite map_size_delete_Some by (by eexists). lia.
    + cbn. rewrite Hb. done.
Qed.

Lemma drain_rx_done l :
  rx_draining l →
  rx_window (drain_rx (size (l_rxBuffer l)) l).
Proof.
  intros Hl. destruct (drain_rx_ind rx_draining) with (fuel := size (l_rxBuffer l)) (l := l)
    as [[Hn Hb] Hnone]; [|done|done|].
  - intros l' b HP _. by apply deliver_draining.
  - split; [done|]. intros pid b Hp. destruct (Hb pid b Hp).
    assert (pid ≠ l_nextRxPID (drain_rx (size (l_rxBuffer l)) l)) by congruence. lia.
Qed.

Lemma drain_rx_frame fuel l : rx_frame l (drain_rx fuel l).
Proof.
  revert l. induction fuel as [|fuel IH]; intros l; [apply rx_frame_refl|].
  destruct (l_rxBuffer l !! l_nextRxPID l) as [b|] eqn:Hb.
  - rewrite (drain_rx_S _ _ b) by done. eapply rx_frame_trans; [|apply IH].
    rewrite deliver_eq. destruct l. by eexists _, _, _.
  - cbn. rewrite Hb. apply rx_frame_refl.
Qed.

(** ** The branches of [HandleInbound] *)

(** The state after the session-id check and the piggybacked acks. *)
Definition after_acks (i : InPacket) (l : Layer) : option Layer :=
  match latch_sid (ip_SessionID i) l with
  | None => None
  | Some l =>
      Some (process_acks (if ip_Opcode i =? PAckV1 then ap_Acks (ip_Ack i)
                          else cp_Acks (ip_Payload i)) l)
  end.

Inductive inbound (now : Z) (i : InPacket) (l : Layer) : Layer → option rel_error → Prop :=
  | in_closed : l_closed l = true → inbound now i l l (Some ErrClosed)
  | in_mismatch :
      l_closed l = false → l_remoteKnown l = true → ip_SessionID i ≠ l_remoteSessionID l →
      inbound now i l l (Some ErrSessionIDMismatch)
  | in_ack l1 :
      l_closed l = false → after_acks i l = Some l1 → ip_Opcode i = PAckV1 →
      inbound now i l l1 None
  | in_old l1 :
      l_closed l = false → after_acks i l = Some l1 → ip_Opcode i ≠ PAckV1 →
      cp_MessagePID (ip_Payload i) < l_nextRxPID l1 ∨
        is_Some (l_rxBuffer l1 !! cp_MessagePID (ip_Payload i)) →
      inbound now i l (addPendingAckLocked now (cp_MessagePID (ip_Payload i)) l1) None
  | in_order l1 :
      l_closed l = false → after_acks i l = Some l1 → ip_Opcode i ≠ PAckV1 →
      cp_MessagePID (ip_Payload i) = l_nextRxPID l1 →
      l_rxBuffer l1 !! l_nextRxPID l1 = None →
      let l2 := deliver (cp_Body (ip_Payload i)) l1 in
      inbound now i l
        (addPendingAckLocked now (l_nextRxPID l1) (drain_rx (size (l_rxBuffer l2)) l2)) None
  | in_beyond l1 :
      l_closed l = false → after_acks i l = Some l1 → ip_Opcode i ≠ PAckV1 →
      l_nextRxPID l1 < cp_MessagePID (ip_Payload i) →
      MaxRxBuffer ≤ u32 (cp_MessagePID (ip_Payload i) - l_nextRxPID l1) →
      inbound now i l l1 None
  | in_future l1 :
      l_closed l = false → after_acks i l = Some l1 → ip_Opcode i ≠ PAckV1 →
      l_nextRxPID l1 < cp_MessagePID (ip_Payload i) →
      l_rxBuffer l1 !! cp_MessagePID (ip_Payload i) = None →
      u32 (cp_MessagePID (ip_Payload i) - l_nextRxPID l1) < MaxRxBuffer →
      inbound now i l
        (addPendingAckLocked now (cp_MessagePID (ip_Payload i))
           (set_rxBuffer (<[cp_MessagePID (ip_Payload i) := cp_Body (ip_Payload i)]>
                            (l_rxBuffer l1)) l1)) None.

Lemma HandleInbound_cases now i l :
  inbound now i l (HandleInbound now i l).1 (HandleInbound now i l).2.
Proof.
  unfold HandleInbound. destruct (l_closed l) eqn:Hc; [by constructor|].
  destruct (latch_sid (ip_SessionID i) l) as [l0|] eqn:Hl.
  2: { unfold latch_sid in Hl. destruct (l_remoteKnown l) eqn:Hk; [|done]. cbn in Hl.
       destruct (Z.eqb_spec (ip_SessionID i) (l_remoteSessionID l)); [done|]. by constructor. }
  assert (after_acks i l = Some (process_acks (if ip_Opcode i =? PAckV1
    then ap_Acks (ip_Ack i) else cp_Acks (ip_Payload i)) l0)) as Ha.
  { unfold after_acks. by rewrite Hl. }
  destruct (Z.eqb_spec (ip_Opcode i) PAckV1) as [Hop|Hop]; cbn [fst snd].
  { by apply in_ack. }
  set (l1 := process_acks _ l0) in *.
  destruct (Z.ltb_spec (cp_MessagePID (ip_Payload i)) (l_nextRxPID l1)).
  { apply in_old; auto. }
  case_bool_decide as Hd; [apply in_old; auto|].
  destruct (Z.eqb_spec (cp_MessagePID (ip_Payload i)) (l_nextRxPID l1)) as [He|He].
  - rewrite He in *. cbn [fst snd].
    apply (in_order now i l l1); try done. by apply eq_None_not_Some.
  - destruct (Z.leb_spec MaxRxBuffer (u32 (cp_MessagePID (ip_Payload i) - l_nextRxPID l1))).
    + cbn [fst snd]. apply (in_beyond now i l l1); try done; lia.
    + cbn [fst snd]. apply (in_future now i l l1); try done; try lia. by apply eq_None_not_Some.
Qed.

(** ** Preservation of the receive window *)

Lemma rx_window_ext l l' :
  l_nextRxPID l' = l_nextRxPID l → l_rxBuffer l' = l_rxBuffer l → rx_window l → rx_window l'.
Proof. intros Hn Hb [H1 H2]. split; rewrite ?Hn, ?Hb; auto. Qed.

Lemma process_acks_rx acks l : rx_same l (process_acks acks l).
Proof. destruct (process_acks_spec acks l) as (q & -> & _). done. Qed.

(** Receive fields other than the session-id. *)
Definition rx_core (l l' : Layer) : Prop :=
  l_nextRxPID l' = l_nextRxPID l ∧ l_rxBuffer l' = l_rxBuffer l ∧ l_readBuf l' = l_readBuf l.

Lemma after_acks_core i l l1 : after_acks i l = Some l1 → rx_core l l1 ∧ l_remoteKnown l1 = true.
Proof.
  unfold after_acks, latch_sid. intros H. destruct (l_remoteKnown l) eqn:Hk; cbn in H.
  - destruct (_ =? _); [|done]. injection H as <-.
    pose proof (process_acks_rx (if ip_Opcode i =? PAckV1 then ap_Acks (ip_Ack i)
                                 else cp_Acks (ip_Payload i)) l) as Hr.
    unfold rx_same, rx_core in *. intuition congruence.
  - injection H as <-.
    pose proof (process_acks_rx (if ip_Opcode i =? PAckV1 then ap_Acks (ip_Ack i)
      else cp_Acks (ip_Payload i)) (SetRemoteSessionID (ip_SessionID i) l)) as Hr.
    unfold rx_same, rx_core in *. intuition congruence.
Qed.

Lemma addPendingAck_core now p l : rx_core l (addPendingAckLocked now p l).
Proof.
  unfold addPendingAckLocked. case_bool_decide; [done|]. lay.
  by destruct (l_ackPendingSince l).
Qed.

Lemma rx_core_window l l' : rx_core l l' → rx_window l → rx_window l'.
Proof. intros (Hn & Hb & _). by apply rx_window_ext. Qed.

Lemma deliver_window b l :
  rx_window l → rx_draining (deliver b l).
Proof.
  intros [Hn Hb]. rewrite deliver_eq. unfold rx_draining. lay. split; [apply u32_range|].
  intros pid b' Hp. specialize (Hb pid b' Hp). unfold is_u32 in Hn.
  rewrite u32_small by (unfold is_u32; lia). lia.
Qed.

Lemma HandleInbound_window now i l :
  is_u32 (cp_MessagePID (ip_Payload i)) → rx_window l → rx_window (HandleInbound now i l).1.
Proof.
  intros Hp Hw. unfold is_u32 in Hp.
  destruct (HandleInbound_cases now i l) as [|? ? ?|l1 ? Ha|l1 ? Ha|l1 ? Ha Hop He Hb l2|l1 ? Ha
    |l1 ? Ha Hop Hgt Hb Hin]; try done;
    apply after_acks_core in Ha as [Ha _]; apply (rx_core_window l l1) in Hw; try done;
    try (by eapply rx_core_window; [apply addPendingAck_core|]).
  - eapply rx_core_window; [apply addPendingAck_core|]. apply drain_rx_done.
    by apply deliver_window.
  - eapply rx_core_window; [apply addPendingAck_core|]. destruct Hw as [Hn Hw]. unfold is_u32 in Hn.
    rewrite u32_small in Hin by (unfold is_u32; lia).
    split; lay; [done|]. intros pid b [[<- <-]|[? Hl]]%lookup_insert_Some; [lia|by eapply Hw].
Qed.

(** The window bounds the buffer: at most 63 entries. *)
Lemma rx_window_size l : rx_window l → Z.of_nat (size (l_rxBuffer l)) < MaxRxBuffer.
Proof.
  intros [Hn Hw]. set (n := l_nextRxPID l) in *.
  assert (dom (l_rxBuffer l) ⊆ list_to_set (C := gset Z) (seqZ (n + 1) (MaxRxBuffer - 1))) as Hsub.
  { intros pid [b Hb]%elem_of_dom. apply elem_of_list_to_set, elem_of_seqZ.
    destruct (Hw pid b Hb). unfold MaxRxBuffer in *. lia. }
  apply subseteq_size in Hsub. rewrite size_dom in Hsub.
  rewrite size_list_to_set in Hsub by apply NoDup_seqZ. rewrite length_seqZ in Hsub.
  unfold MaxRxBuffer in *. lia.
Qed.

(** ** Acknowledgement bookkeeping *)

Record ack_inv (l : Layer) : Prop := {
  ai_nodup : NoDup (l_pendingAcks l);
  ai_set : l_pendingAckSet l = list_to_set (l_pendingAcks l);
  ai_since : is_Some (l_ackPendingSince l) ↔ l_pendingAcks l ≠ [];
  ai_remote : l_pendingAcks l ≠ [] → l_remoteKnown l = true
}.

(** The list and the set after draining: the first [n] acks are taken. *)
Lemma drainAcks_spec n l :
  ack_inv l →
  let r := drainAcksLocked n l in
  r.1 = take n (l_pendingAcks l) ∧ l_pendingAcks r.2 = drop n (l_pendingAcks l) ∧
  ack_inv r.2.
Proof.
  intros Hinv. pose proof Hinv as [Hnd Hset Hsince Hrem]. unfold drainAcksLocked.
  destruct (l_pendingAcks l) as [|a pa] eqn:Hpa; cbn [fst snd].
  { by rewrite take_nil, drop_nil. }
  rewrite <-Hpa in *.
  assert (take (length (l_pendingAcks l) `min` n) (l_pendingAcks l) = take n (l_pendingAcks l)) as Ht.
  { destruct (Nat.min_spec (length (l_pendingAcks l)) n) as [[? ->]|[? ->]]; [|done].
    by rewrite !take_ge by lia. }
  assert (drop (length (l_pendingAcks l) `min` n) (l_pendingAcks l) = drop n (l_pendingAcks l)) as Hd.
  { destruct (Nat.min_spec (length (l_pendingAcks l)) n) as [[? ->]|[? ->]]; [|done].
    by rewrite !drop_ge by lia. }
  lay. rewrite Ht, Hd. split; [done|].
  assert (NoDup (drop n (l_pendingAcks l))) as Hnd'.
  { rewrite <-(take_drop n (l_pendingAcks l)) in Hnd. by apply list.NoDup_app in Hnd as (_ & _ & ?). }
  assert (l_pendingAckSet l ∖ list_to_set (take n (l_pendingAcks l)) =
          list_to_set (C := gset Z) (drop n (l_pendingAcks l))) as Hs.
  { rewrite Hset. rewrite <-(take_drop n (l_pendingAcks l)) in Hnd |- * at 1.
    apply list.NoDup_app in Hnd as (_ & Hdis & _). rewrite list_to_set_app_L.
    apply set_eq. intros x. specialize (Hdis x). rewrite elem_of_difference, elem_of_union,
      !elem_of_list_to_set. naive_solver. }
  rewrite Hs. destruct (drop n (l_pendingAcks l)) as [|d ds] eqn:Hdr; lay.
  - split; [done|]. split; lay; try done; by constructor.
  - split; [done|]. split; lay; try done.
    + split; [done|]. intros _. apply Hsince. by rewrite Hpa.
    + intros _. apply Hrem. by rewrite Hpa.
Qed.

(** What both emitters do: drain up to eight acks, then either the packet is
    queued with them or everything is as before. *)
Definition emit_with (now : Z) (mk : list Z → OutPacket) (l : Layer) : Layer :=
  let '(acks, l1) := drainAcksLocked MaxAcksPerPacket l in
  emit_or_restore now acks (mk acks) l1.

Lemma emitLocked_with now op pid b l :
  emitLocked now op pid b l =
  emit_with now (λ acks, mkOutPacket op (l_keyID l) (l_LocalSessionID l)
    (mkControlPayload acks (l_remoteSessionID l) pid b) zero_ack) l.
Proof.
  unfold emitLocked, emit_with. pose proof (drainAcks_frame MaxAcksPerPacket l) as Hf.
  destruct (drainAcksLocked _ l) as [acks l1]. cbn [snd] in Hf.
  apply emit_frame_fields in Hf as (-> & _ & -> & -> & _). done.
Qed.

Definition emitted_or_kept (mk : list Z → OutPacket) (l l' : Layer) : Prop :=
  (length (l_outbound l) < l_OutboundBuffer l)%nat ∧
    l_outbound l' = l_outbound l ++ [mk (take MaxAcksPerPacket (l_pendingAcks l))] ∧
    l_pendingAcks l' = drop MaxAcksPerPacket (l_pendingAcks l) ∨
  (l_OutboundBuffer l ≤ length (l_outbound l))%nat ∧
    l_outbound l' = l_outbound l ∧ l_pendingAcks l' = l_pendingAcks l.

Lemma drainAcks_outbound n l : l_outbound (drainAcksLocked n l).2 = l_outbound l.
Proof.
  unfold drainAcksLocked. destruct (l_pendingAcks l); [done|]. cbn [snd].
  destruct l; lay. by destruct (drop _ _).
Qed.

Lemma emit_with_spec now mk l :
  ack_inv l → ack_inv (emit_with now mk l) ∧ emitted_or_kept mk l (emit_with now mk l).
Proof.
  intros Hinv. unfold emit_with, emitted_or_kept.
  pose proof (drainAcks_spec MaxAcksPerPacket l Hinv) as (Hacks & Hpa & Hinv1).
  pose proof (drainAcks_frame MaxAcksPerPacket l) as Hf.
  pose proof (drainAcks_outbound MaxAcksPerPacket l) as Hob.
  destruct (drainAcksLocked _ l) as [acks l1]. cbn [fst snd] in *.
  apply emit_frame_fields in Hf as (_ & Hbuf & _ & _ & Hrk & _).
  assert (acks ++ l_pendingAcks l1 = l_pendingAcks l) as Happ.
  { rewrite Hacks, Hpa. apply take_drop. }
  unfold emit_or_restore. rewrite Hob, Hbuf.
  destruct (Nat.ltb_spec (length (l_outbound l)) (l_OutboundBuffer l)).
  - lay. split; [by destruct Hinv1|]. left. by rewrite Hacks, Hpa.
  - lay. rewrite Happ, Hob.
    assert (l_pendingAckSet l1 ∪ list_to_set acks = list_to_set (C := gset Z) (l_pendingAcks l)) as Hs.
    { rewrite (ai_set l1 Hinv1), <-Happ, list_to_set_app_L. set_solver. }
    rewrite Hs. destruct Hinv as [Hnd Hset Hsince Hrem]. pose proof (ai_since l1 Hinv1) as Hs1.
    destruct (l_ackPendingSince l1) as [t|] eqn:Ht, (l_pendingAcks l) as [|a pa] eqn:Hpl; lay;
      (split; [split; lay; rewrite ?Hrk; try done|right; done]).
    by rewrite Hpa, drop_nil in Hs1.
Qed.

Lemma addPendingAck_inv now p l :
  ack_inv l → l_remoteKnown l = true →
  ack_inv (addPendingAckLocked now p l) ∧
  (∀ q, q ∈ l_pendingAcks (addPendingAckLocked now p l) ↔ q = p ∨ q ∈ l_pendingAcks l).
Proof.
  intros [Hnd Hset Hsince Hrem] Hk. unfold addPendingAckLocked. rewrite Hset.
  case_bool_decide as Hin; rewrite elem_of_list_to_set in Hin.
  - split; [by split|]. set_solver.
  - assert (NoDup (l_pendingAcks l ++ [p])).
    { apply list.NoDup_app. split_and!; [done| |apply NoDup_singleton]. set_solver. }
    assert (l_pendingAcks l ++ [p] ≠ []) as Hne by (by destruct (l_pendingAcks l)).
    assert ({[p]} ∪ list_to_set (l_pendingAcks l) = list_to_set (C := gset Z) (l_pendingAcks l ++ [p])) as Hs.
    { rewrite list_to_set_app_L. set_solver. }
    rewrite Hs. lay. destruct (l_ackPendingSince l) as [t|] eqn:Ht; lay.
    + split; [split; lay; rewrite ?Ht; try done|set_solver].
    + split; [split; lay; try done|set_solver].
Qed.

(** A deadline of the adapter aborts readers only: a writer that waits for room in
    the queue goes on waiting. *)
Lemma deadline_leaves_write now t p l :
  l_remoteKnown l = true → l_closed l = false → (MaxQueueSize ≤ size (l_txQueue l))%nat → p ≠ [] →
  (Write now p (SetDeadline now t l)).2 = WBlockedQueue p 0.
Proof.
  intros Hr Hc Hq Hp. assert (∀ l', l_remoteKnown l' = true → l_closed l' = false → l_txQueue l' = l_txQueue l →
    (Write now p l').2 = WBlockedQueue p 0) as H.
  { intros l' Hr' Hc' Hq'. unfold Write. rewrite Hr'. cbn [negb andb]. destruct p as [|c p]; [done|]. cbn [write_loop length].
    by rewrite Hc', Hq', (proj2 (Nat.leb_le _ _) Hq). }
  unfold SetDeadline. destruct t as [t|]; [destruct (t <=? now)|]; by apply H.
Qed.
