(* ===== verification/Stream.v ===== *)
(** The two halves of a layer's invariant, relative to what the peer queued,
    and that every operation of [internal/reliable] keeps them.  Packets cross
    the wire through the codec of [internal/proto].  [Channel.v] composes two
    layers over a lossy network with these lemmas. *)
From S2P Require Import Prelude Wire Reliable ReliableFacts.
Local Open Scope Z_scope.

(** ** Packets on the wire *)

(** What the peer's session hands to [HandleInbound] for an emitted packet:
    [writeLoop] marshals by opcode, [handleControlIn] parses by opcode. *)
Definition wire (o : OutPacket) : option InPacket :=
  if IsAck o then
    match MarshalAckPayload (op_Ack o) with
    | Ok b => match ParseAckPayload b with
              | Ok ap => Some (mkInPacket (op_Opcode o) (op_KeyID o) (op_SessionID o) zero_payload ap)
              | _ => None
              end
    | _ => None
    end
  else
    match MarshalControlPayload (op_Payload o) with
    | Ok b => match ParseControlPayload b with
              | Ok cp => Some (mkInPacket (op_Opcode o) (op_KeyID o) (op_SessionID o) cp zero_ack)
              | _ => None
              end
    | _ => None
    end.

Definition acks_of (o : OutPacket) : list Z :=
  if IsAck o then ap_Acks (op_Ack o) else cp_Acks (op_Payload o).

Definition in_acks (i : InPacket) : list Z :=
  if ip_Opcode i =? PAckV1 then ap_Acks (ip_Ack i) else cp_Acks (ip_Payload i).

Record packet_u32 (o : OutPacket) : Prop := {
  pu_acks : Forall is_u32 (acks_of o);
  pu_pid : IsAck o = false → is_u32 (cp_MessagePID (op_Payload o))
}.

(** The codec delivers acks, packet-id and body unchanged. *)
Lemma wire_spec o i :
  packet_u32 o → wire o = Some i →
  ip_Opcode i = op_Opcode o ∧ ip_SessionID i = op_SessionID o ∧ in_acks i = acks_of o ∧
  (IsAck o = false → cp_MessagePID (ip_Payload i) = cp_MessagePID (op_Payload o) ∧
                     cp_Body (ip_Payload i) = cp_Body (op_Payload o)).
Proof.
  intros [Ha Hp] Hw. unfold wire, in_acks, acks_of in *.
  destruct (IsAck o) eqn:Hack; unfold IsAck in Hack.
  - destruct (MarshalAckPayload (op_Ack o)) as [b| |] eqn:Hm; try done.
    apply Marshal_ack_norm in Hm as Hpar; [|done]. rewrite Hpar in Hw. simplify_eq. cbn.
    by rewrite Hack.
  - destruct (MarshalControlPayload (op_Payload o)) as [b| |] eqn:Hm; try done.
    apply Marshal_control_norm in Hm as Hpar; [|auto..]. rewrite Hpar in Hw. simplify_eq. cbn.
    by rewrite Hack.
Qed.

(** ** The two halves of a layer's invariant

    [hist] is the list of bodies a sender has queued, in packet-id order;
    [net] are the packets it has put on the network so far; [taken] is what
    TLS has read from the receiving layer. *)

Definition received (l : Layer) (p : Z) : Prop :=
  0 ≤ p ∧ (p < l_nextRxPID l ∨ is_Some (l_rxBuffer l !! p)).

Definition carries (hist : list bytes) (o : OutPacket) : Prop :=
  IsAck o = false →
  is_u32 (cp_MessagePID (op_Payload o)) ∧
  hist !! Z.to_nat (cp_MessagePID (op_Payload o)) = Some (cp_Body (op_Payload o)).

Record tx_ok (hist : list bytes) (net : list OutPacket) (l : Layer) : Prop := {
  tx_next : l_nextTxPID l = zlen hist;
  tx_queue pid pkt : l_txQueue l !! pid = Some pkt →
    is_u32 pid ∧ pp_msgPID pkt = pid ∧ hist !! Z.to_nat pid = Some (pp_body pkt);
  tx_out : Forall (carries hist) (l_outbound l ++ net)
}.

Record rx_ok (hist : list bytes) (taken : bytes) (net : list OutPacket) (l : Layer) : Prop := {
  rx_win : rx_window l;
  rx_ackinv : ack_inv l;
  rx_le : l_nextRxPID l ≤ zlen hist;
  rx_buf pid b : l_rxBuffer l !! pid = Some b → hist !! Z.to_nat pid = Some b;
  rx_stream : taken ++ l_readBuf l = concat (take (Z.to_nat (l_nextRxPID l)) hist);
  rx_acks p : p ∈ l_pendingAcks l → received l p;
  rx_net o p : o ∈ l_outbound l ++ net → p ∈ acks_of o → received l p
}.

Lemma received_u32 l p : rx_window l → received l p → is_u32 p.
Proof.
  intros [Hn Hb] [H0 [Hlt|[b Hp]]]; unfold is_u32 in *; [lia|]. destruct (Hb p b Hp). lia.
Qed.

Lemma received_same l l' p : rx_same l l' → received l p → received l' p.
Proof. intros (_ & _ & Hn & Hb & _). unfold received. by rewrite Hn, Hb. Qed.

Lemma carries_app hist b o : carries hist o → carries (hist ++ [b]) o.
Proof. intros H Ho. destruct (H Ho). split; [done|]. by apply lookup_app_l_Some. Qed.

Lemma tx_ok_app hist b net l : tx_ok hist net l → Forall (carries (hist ++ [b])) (l_outbound l ++ net).
Proof. intros [_ _ H]. eapply Forall_impl; [|exact H]. intros o. apply carries_app. Qed.

(** Operations that only move acknowledgements from the pending list into
    emitted packets keep the receiving half. *)
Lemma rx_ok_transfer hist taken net l l' :
  rx_same l l' → ack_inv l' →
  (∀ p, p ∈ l_pendingAcks l' → p ∈ l_pendingAcks l) →
  (∀ o p, o ∈ l_outbound l' → p ∈ acks_of o → o ∈ l_outbound l ∨ p ∈ l_pendingAcks l) →
  rx_ok hist taken net l → rx_ok hist taken net l'.
Proof.
  intros Hs Hinv Hpa Hob [Hw Hi Hle Hb Hst Ha Hn].
  pose proof Hs as (_ & _ & Hnx & Hbf & Hrb & _).
  split; rewrite ?Hnx, ?Hbf, ?Hrb; try done.
  - by apply (rx_window_ext l).
  - intros p Hp. apply (received_same l); auto.
  - intros o p [Ho|Ho]%elem_of_app Hp; apply (received_same l); try done.
    + destruct (Hob o p Ho Hp); [apply (Hn o); set_solver|auto].
    + apply (Hn o); set_solver.
Qed.

Section emit.
Variables (hist : list bytes) (net : list OutPacket).
Variable mk : list Z → OutPacket.
Hypothesis mk_acks : ∀ acks p, p ∈ acks_of (mk acks) → p ∈ acks.

Lemma emit_with_rx now taken l :
  rx_same l (emit_with now mk l) → rx_ok hist taken net l →
  rx_ok hist taken net (emit_with now mk l).
Proof.
  intros Hs Hrx. destruct (emit_with_spec now mk l (rx_ackinv _ _ _ _ Hrx)) as [Hinv Hem].
  eapply rx_ok_transfer; [done|done| | |done];
    destruct Hem as [(_ & Ho & Hp)|(_ & Ho & Hp)]; rewrite ?Ho, ?Hp; try (by auto).
  - intros p Hin. rewrite <-(take_drop MaxAcksPerPacket (l_pendingAcks l)). set_solver.
  - intros o p [Hin|Hin]%elem_of_app Hpo; [by left|right].
    apply list_elem_of_singleton in Hin as ->.
    apply mk_acks in Hpo. rewrite <-(take_drop MaxAcksPerPacket (l_pendingAcks l)). set_solver.
Qed.

Hypothesis mk_carries : ∀ acks, carries hist (mk acks).

Lemma emit_with_tx now l :
  ack_inv l → l_nextTxPID (emit_with now mk l) = l_nextTxPID l →
  l_txQueue (emit_with now mk l) = l_txQueue l →
  tx_ok hist net l → tx_ok hist net (emit_with now mk l).
Proof.
  intros Hinv Hnx Hq [Hn Hqu Hf]. split; rewrite ?Hnx, ?Hq; [done|done|].
  destruct (emit_with_spec now mk l Hinv) as [_ [(_ & -> & _)|(_ & -> & _)]]; [|done].
  rewrite <-app_assoc. rewrite !Forall_app in *. split; [apply Hf|].
  split; [by constructor|apply Hf].
Qed.
End emit.

(** ** Every operation keeps both halves *)

Lemma emitLocked_mk_acks op k s r pid b acks p :
  p ∈ acks_of (mkOutPacket op k s (mkControlPayload acks r pid b) zero_ack) → p ∈ acks.
Proof. unfold acks_of. by case_match; cbn; [set_solver|]. Qed.

Lemma emitLocked_rx hist taken net now op pid b l :
  rx_ok hist taken net l → rx_ok hist taken net (emitLocked now op pid b l).
Proof.
  intros H. pose proof (emit_frame_rx _ _ (emitLocked_frame now op pid b l)) as Hs.
  rewrite emitLocked_with in *. apply emit_with_rx; try done.
  intros acks p. apply emitLocked_mk_acks.
Qed.

Lemma emitLocked_tx hist net now op pid b l :
  ack_inv l → is_u32 pid → hist !! Z.to_nat pid = Some b →
  tx_ok hist net l → tx_ok hist net (emitLocked now op pid b l).
Proof.
  intros Hi Hp Hb H.
  destruct (emit_frame_fields _ _ (emitLocked_frame now op pid b l))
    as (_ & _ & _ & _ & _ & Hnx & Hq & _).
  rewrite emitLocked_with in *. by apply emit_with_tx.
Qed.

Lemma zlen_snoc {A} (l : list A) x : zlen (l ++ [x]) = zlen l + 1.
Proof. unfold zlen. rewrite length_app. cbn. lia. Qed.

Lemma hist_rx_mono hist b taken net l :
  rx_ok hist taken net l → rx_ok (hist ++ [b]) taken net l.
Proof.
  intros [Hw Hi Hle Hb Hst Ha Hn]. split; try done.
  - rewrite zlen_snoc. lia.
  - intros pid b' Hp. apply lookup_app_l_Some. by apply Hb.
  - rewrite Hst, take_app_le; [done|]. unfold zlen in Hle. lia.
Qed.

(** Queuing a body extends the history. *)
Lemma enqueue_tx hist net now op b l l' :
  ack_inv l → zlen hist + 1 < 2 ^ 32 → tx_ok hist net l →
  enqueueAndEmitLocked now op b l = (l', None) → tx_ok (hist ++ [b]) net l'.
Proof.
  intros Hi Hlen Htx He. unfold enqueueAndEmitLocked in He.
  destruct (MaxQueueSize <=? size (l_txQueue l))%nat; [done|]. injection He as <-.
  pose proof Htx as [Hn Hq Hf]. unfold zlen in *.
  assert (is_u32 (l_nextTxPID l)) as Hu by (unfold is_u32; lia).
  assert ((hist ++ [b]) !! Z.to_nat (l_nextTxPID l) = Some b) as Hb.
  { rewrite Hn, Nat2Z.id. rewrite lookup_app_r by lia. by rewrite Nat.sub_diag. }
  apply emitLocked_tx; [by destruct Hi|done|done|].
  split; lay.
  - unfold zlen. rewrite length_app, u32_small by (unfold is_u32; lia). cbn. lia.
  - intros pid pkt [[<- <-]|[Hne Hp]]%lookup_insert_Some; [done|].
    destruct (Hq pid pkt Hp) as (? & ? & ?). split_and!; try done. by apply lookup_app_l_Some.
  - by apply (tx_ok_app hist b net l).
Qed.

Lemma enqueue_rx_ok hist taken net now op b l :
  rx_ok hist taken net l → rx_ok hist taken net (enqueueAndEmitLocked now op b l).1.
Proof.
  intros H. unfold enqueueAndEmitLocked. case_match; [done|]. cbn [fst].
  apply emitLocked_rx. by destruct H as [[? ?] [? ? ? ?] ? ? ? ? ?].
Qed.

Lemma tick_packet_ok hist hist' taken net now pid l :
  tx_ok hist net l → rx_ok hist' taken net l →
  tx_ok hist net (tick_packet now pid l).1 ∧ rx_ok hist' taken net (tick_packet now pid l).1.
Proof.
  intros Htx Hrx. unfold tick_packet. destruct (l_txQueue l !! pid) as [pkt|] eqn:Hp; [|done].
  destruct (negb _); [done|]. destruct (_ <=? _); [done|]. cbn [fst].
  destruct (tx_queue _ _ _ Htx pid pkt Hp) as (Hu & Hm & Hb). rewrite Hm.
  pose proof (emitLocked_tx hist net now (pp_opcode pkt) pid (pp_body pkt) l
                (rx_ackinv _ _ _ _ Hrx) Hu Hb Htx) as [Hn Hq Hf].
  pose proof (emitLocked_rx hist' taken net now (pp_opcode pkt) pid (pp_body pkt) l Hrx) as Hrx'.
  split.
  - split; lay; [done| |done].
    intros pid' pkt' [[<- <-]|[Hne Hp']]%lookup_insert_Some; [done|by apply Hq].
  - by destruct Hrx' as [[? ?] [? ? ? ?] ? ? ? ? ?].
Qed.

Lemma tick_loop_ok hist hist' taken net now order l :
  tx_ok hist net l → rx_ok hist' taken net l →
  tx_ok hist net (tick_loop now order l).1 ∧ rx_ok hist' taken net (tick_loop now order l).1.
Proof.
  revert l. induction order as [|pid order IH]; intros l Htx Hrx; cbn; [done|].
  destruct (tick_packet_ok hist hist' taken net now pid l Htx Hrx) as [Ht Hr].
  destruct (tick_packet now pid l) as [l1 [e|]]; [done|]. by apply IH.
Qed.

Lemma standalone_with now l :
  l_pendingAcks l ≠ [] → l_remoteKnown l = true →
  emitStandaloneAckLocked now l =
  emit_with now (λ acks, mkOutPacket PAckV1 (l_keyID l) (l_LocalSessionID l) zero_payload
    (mkAckPayload acks (l_remoteSessionID l))) l.
Proof.
  intros Hne Hk. unfold emitStandaloneAckLocked, emit_with.
  pose proof (drainAcks_frame MaxAcksPerPacket l) as Hf.
  destruct (l_pendingAcks l) eqn:Hpa; [done|]. rewrite Hk. cbn [negb].
  destruct (drainAcksLocked _ l) as [acks l1]. cbn [snd] in Hf.
  apply emit_frame_fields in Hf as (-> & _ & -> & -> & _). done.
Qed.

Lemma standalone_ok hist hist' taken net now l :
  tx_ok hist net l → rx_ok hist' taken net l →
  tx_ok hist net (emitStandaloneAckLocked now l) ∧
  rx_ok hist' taken net (emitStandaloneAckLocked now l).
Proof.
  intros Htx Hrx. pose proof (emitStandaloneAck_frame now l) as Hf.
  destruct (l_pendingAcks l) as [|a pa] eqn:Hpa.
  { unfold emitStandaloneAckLocked. by rewrite Hpa. }
  assert (l_pendingAcks l ≠ []) as Hne by (by rewrite Hpa).
  pose proof (ai_remote l (rx_ackinv _ _ _ _ Hrx) Hne) as Hk.
  rewrite standalone_with in * by done.
  destruct (emit_frame_fields _ _ Hf) as (_ & _ & _ & _ & _ & Hnx & Hq & _). split.
  - apply emit_with_tx; try done. by eapply rx_ackinv.
  - apply emit_with_rx; try done. by apply emit_frame_rx.
Qed.

Lemma Tick_ok hist hist' taken net now order l :
  tx_ok hist net l → rx_ok hist' taken net l →
  tx_ok hist net (Tick now order l).1 ∧ rx_ok hist' taken net (Tick now order l).1.
Proof.
  intros Htx Hrx. unfold Tick. destruct (l_closed l); [done|].
  destruct (tick_loop_ok hist hist' taken net now order l Htx Hrx) as [Ht Hr].
  destruct (tick_loop now order l) as [l1 [e|]]; [done|]. cbn [fst] in Ht, Hr.
  destruct (l_pendingAcks l1); [done|]. case_match; [|done]. by apply standalone_ok.
Qed.

(** ** Inbound packets *)

(** The delivery invariant, inside the draining loop. *)
Record delivering (hist : list bytes) (taken : bytes) (l : Layer) : Prop := {
  dl_drain : rx_draining l;
  dl_le : l_nextRxPID l ≤ zlen hist;
  dl_buf pid b : l_rxBuffer l !! pid = Some b → hist !! Z.to_nat pid = Some b;
  dl_stream : taken ++ l_readBuf l = concat (take (Z.to_nat (l_nextRxPID l)) hist)
}.

(** Delivering the next body of the history. *)
Lemma deliver_delivering hist taken b l :
  zlen hist < 2 ^ 32 → delivering hist taken l →
  hist !! Z.to_nat (l_nextRxPID l) = Some b →
  let l' := deliver b (set_rxBuffer (delete (l_nextRxPID l) (l_rxBuffer l)) l) in
  delivering hist taken l' ∧ l_nextRxPID l' = l_nextRxPID l + 1 ∧
  (∀ p, received l p → received l' p).
Proof.
  intros Hlen [[Hn Hd] Hle Hb Hst] Hbody. cbn zeta.
  assert (l_nextRxPID l < zlen hist) as Hlt.
  { apply lookup_lt_Some in Hbody. unfold zlen, is_u32 in *. lia. }
  pose proof (deliver_draining b l (conj Hn Hd)) as Hdr.
  assert (u32 (l_nextRxPID l + 1) = l_nextRxPID l + 1) as Hu.
  { apply u32_small. unfold is_u32 in *. lia. }
  rewrite deliver_eq in *. lay. rewrite Hu in *. split_and!; [split| |]; lay.
  - done.
  - lia.
  - intros pid b' [_ Hp]%lookup_delete_Some. by apply Hb.
  - unfold is_u32 in Hn. rewrite app_assoc, Hst.
    replace (Z.to_nat (l_nextRxPID l + 1)) with (S (Z.to_nat (l_nextRxPID l))) by lia.
    by rewrite (take_S_r _ _ b), concat_app; cbn; rewrite ?app_nil_r.
  - done.
  - intros p [H0 [Hp|Hp]]; split; lay; [done|lia|done|].
    destruct (decide (p = l_nextRxPID l)) as [->|Hne]; [lia|].
    right. by rewrite lookup_delete_ne.
Qed.

(** Delivering [b] in order and then everything contiguous. *)
Lemma in_order_delivers hist taken b l :
  zlen hist < 2 ^ 32 → rx_window l → delivering hist taken l →
  hist !! Z.to_nat (l_nextRxPID l) = Some b → l_rxBuffer l !! l_nextRxPID l = None →
  let l' := drain_rx (size (l_rxBuffer (deliver b l))) (deliver b l) in
  delivering hist taken l' ∧ rx_window l' ∧ l_nextRxPID l < l_nextRxPID l' ∧
  (∀ p, received l p → received l' p).
Proof.
  intros Hlen Hw Hdl Hb Hnone. cbn zeta.
  assert (deliver b l = deliver b (set_rxBuffer (delete (l_nextRxPID l) (l_rxBuffer l)) l)) as Hdel.
  { rewrite delete_id by done. by destruct l. }
  destruct (deliver_delivering hist taken b l Hlen Hdl Hb) as (Hd1 & Hn1 & Hr1).
  rewrite <-Hdel in *.
  set (P := λ l', delivering hist taken l' ∧ l_nextRxPID l < l_nextRxPID l' ∧
                  ∀ p, received l p → received l' p).
  destruct (drain_rx_ind P) with (fuel := size (l_rxBuffer (deliver b l))) (l := deliver b l)
    as [(H1 & H2 & H3) _]; [|split_and!; [done|lia|done]|done|].
  - intros l1 b1 (HP1 & HP2 & HP3) Hb1.
    destruct (deliver_delivering hist taken b1 l1 Hlen HP1) as (? & ? & ?).
    { by eapply dl_buf. }
    split_and!; [done|lia|auto].
  - split_and!; try done. apply drain_rx_done. by apply deliver_window.
Qed.

(** Fields of the sending half. *)
Definition tx_same (l l' : Layer) : Prop :=
  l_nextTxPID l' = l_nextTxPID l ∧ l_txQueue l' = l_txQueue l ∧ l_outbound l' = l_outbound l.

Lemma tx_same_trans l1 l2 l3 : tx_same l1 l2 → tx_same l2 l3 → tx_same l1 l3.
Proof. unfold tx_same. intuition congruence. Qed.

Lemma addPendingAck_tx now p l : tx_same l (addPendingAckLocked now p l).
Proof.
  unfold addPendingAckLocked. case_bool_decide; [done|]. lay. by destruct (l_ackPendingSince l).
Qed.

Lemma in_order_tx b l :
  tx_same l (drain_rx (size (l_rxBuffer (deliver b l))) (deliver b l)).
Proof.
  destruct (drain_rx_frame (size (l_rxBuffer (deliver b l))) (deliver b l)) as (? & ? & ? & ->).
  rewrite deliver_eq. done.
Qed.

(** The queue after an inbound packet: acknowledged entries are gone, the
    others stay with the same body. *)
Definition queue_acked (acks : list Z) (l l' : Layer) : Prop :=
  l_nextTxPID l' = l_nextTxPID l ∧ l_outbound l' = l_outbound l ∧
  (∀ pid p', l_txQueue l' !! pid = Some p' → ∃ p, l_txQueue l !! pid = Some p ∧ pkt_same p p') ∧
  (∀ pid p, l_txQueue l !! pid = Some p → (pid ∉ acks) → is_Some (l_txQueue l' !! pid)).

Lemma after_acks_queue i l l1 : after_acks i l = Some l1 → queue_acked (in_acks i) l l1.
Proof.
  unfold after_acks. intros H.
  assert (∃ l0, tx_same l l0 ∧ l1 = process_acks (in_acks i) l0) as (l0 & (Hn & Hq & Ho) & ->).
  { unfold latch_sid in H. destruct (negb (l_remoteKnown l)); [|destruct (_ =? _); [|done]];
      injection H as <-; eexists; (split; [|reflexivity]); done. }
  destruct (process_acks_spec (in_acks i) l0) as (q & -> & Hback & Hfwd). rewrite Hq in *.
  split_and!; lay; try done.
  - intros pid p' Hp. by destruct (Hback pid p' Hp) as (_ & ?).
  - intros pid p Hp Hni. destruct (Hfwd pid p Hp Hni) as (p' & ? & _). by eexists.
Qed.

Lemma queue_acked_same acks l l1 l2 : queue_acked acks l l1 → tx_same l1 l2 → queue_acked acks l l2.
Proof. unfold queue_acked. intros (? & ? & ? & ?) (-> & -> & ->). done. Qed.

Lemma HandleInbound_queue now i l :
  (HandleInbound now i l).1 = l ∨ queue_acked (in_acks i) l (HandleInbound now i l).1.
Proof.
  destruct (HandleInbound_cases now i l) as [|? ? ?|l1 ? Ha|l1 ? Ha|l1 ? Ha Hop He Hb l2|l1 ? Ha
    |l1 ? Ha Hop Hgt Hb Hin]; auto; apply after_acks_queue in Ha; right; try done;
    (eapply queue_acked_same; [exact Ha|]); try apply addPendingAck_tx.
  - eapply tx_same_trans; [apply in_order_tx|apply addPendingAck_tx].
  - eapply tx_same_trans; [|apply addPendingAck_tx]. done.
Qed.

Lemma HandleInbound_tx hist net now i l :
  tx_ok hist net l → tx_ok hist net (HandleInbound now i l).1.
Proof.
  intros [Hn Hq Hf]. destruct (HandleInbound_queue now i l) as [->|(Hn' & Ho & Hback & _)]; [done|].
  split; rewrite ?Hn', ?Ho; try done.
  intros pid p' Hp. destruct (Hback pid p' Hp) as (p & Hp0 & Hm & _ & -> & _).
  rewrite Hm. by apply Hq.
Qed.

(** Fields of the acknowledgement bookkeeping. *)
Definition ack_same (l l' : Layer) : Prop :=
  l_pendingAcks l' = l_pendingAcks l ∧ l_pendingAckSet l' = l_pendingAckSet l ∧
  l_ackPendingSince l' = l_ackPendingSince l ∧ l_outbound l' = l_outbound l ∧
  (l_remoteKnown l = true → l_remoteKnown l' = true).

Lemma ack_same_inv l l' : ack_same l l' → ack_inv l → ack_inv l'.
Proof. intros (Hp & Hs & Ht & _ & Hk) [? ? ? ?]. split; rewrite ?Hp, ?Hs, ?Ht; auto. Qed.

(** A step of the receive buffer that keeps everything received so far. *)
Lemma rx_ok_step hist taken net l l' :
  rx_ok hist taken net l → ack_same l l' → delivering hist taken l' → rx_window l' →
  (∀ p, received l p → received l' p) → rx_ok hist taken net l'.
Proof.
  intros [Hw Hi Hle Hb Hst Ha Hn] Hs [Hd Hle' Hb' Hst'] Hw' Hm.
  pose proof Hs as (Hp & _ & _ & Ho & _). split; rewrite ?Hp, ?Ho; eauto.
  by eapply ack_same_inv.
Qed.

Lemma rx_window_draining l : rx_window l → rx_draining l.
Proof. intros [H1 H2]. split; [done|]. intros pid b Hp. destruct (H2 pid b Hp). lia. Qed.

Lemma rx_ok_delivering hist taken net l : rx_ok hist taken net l → delivering hist taken l.
Proof. intros [Hw ? ? ? ? ? ?]. split; try done. by apply rx_window_draining. Qed.

Lemma after_acks_same i l l1 : after_acks i l = Some l1 → ack_same l l1.
Proof.
  unfold after_acks. intros H. destruct (latch_sid (ip_SessionID i) l) as [l0|] eqn:Hl; [|done].
  assert (ack_same l l0) as Hs.
  { unfold latch_sid in Hl. destruct (negb (l_remoteKnown l)); [|destruct (_ =? _); [|done]];
      injection Hl as <-; done. }
  injection H as <-. destruct (process_acks_spec (if ip_Opcode i =? PAckV1
    then ap_Acks (ip_Ack i) else cp_Acks (ip_Payload i)) l0) as (q & -> & _). done.
Qed.

Lemma rx_core_received l l' p : rx_core l l' → received l p → received l' p.
Proof. intros (Hn & Hb & _). unfold received. by rewrite Hn, Hb. Qed.

Lemma after_acks_rx hist taken net i l l1 :
  after_acks i l = Some l1 → rx_ok hist taken net l → rx_ok hist taken net l1.
Proof.
  intros Ha Hrx. pose proof (after_acks_same i l l1 Ha) as Hs.
  apply after_acks_core in Ha as [Hc _]. eapply rx_ok_step; try done.
  - apply rx_ok_delivering in Hrx as [Hd Hle Hb Hst]. destruct Hc as (Hn & Hbf & Hrb).
    split; unfold rx_draining in *; rewrite ?Hn, ?Hbf, ?Hrb; auto.
  - eapply rx_core_window; [done|apply Hrx].
  - intros p. by apply rx_core_received.
Qed.

Lemma addPendingAck_rx hist taken net now p l :
  l_remoteKnown l = true → received l p →
  rx_ok hist taken net l → rx_ok hist taken net (addPendingAckLocked now p l).
Proof.
  intros Hk Hp [Hw Hi Hle Hb Hst Ha Hn].
  destruct (addPendingAck_inv now p l Hi Hk) as [Hi' Hin].
  pose proof (addPendingAck_core now p l) as Hc. pose proof Hc as (Hnx & Hbf & Hrb).
  destruct (addPendingAck_tx now p l) as (_ & _ & Ho).
  split; rewrite ?Hnx, ?Hbf, ?Hrb, ?Ho; try done.
  - by eapply rx_core_window.
  - intros q Hq. apply (rx_core_received l); [done|]. apply Hin in Hq as [->|Hq]; auto.
  - intros o q Hoin Hq. apply (rx_core_received l); eauto.
Qed.

Lemma in_order_ack_same b l :
  ack_same l (drain_rx (size (l_rxBuffer (deliver b l))) (deliver b l)).
Proof.
  destruct (drain_rx_frame (size (l_rxBuffer (deliver b l))) (deliver b l)) as (? & ? & ? & ->).
  rewrite deliver_eq. done.
Qed.

(** What an inbound packet may claim: its body is the one queued under its
    packet-id. *)
Definition honest (hist : list bytes) (i : InPacket) : Prop :=
  ip_Opcode i ≠ PAckV1 →
  is_u32 (cp_MessagePID (ip_Payload i)) ∧
  hist !! Z.to_nat (cp_MessagePID (ip_Payload i)) = Some (cp_Body (ip_Payload i)).

Lemma in_future_rx hist taken net l pid b :
  is_u32 pid → hist !! Z.to_nat pid = Some b → l_nextRxPID l < pid →
  l_rxBuffer l !! pid = None → u32 (pid - l_nextRxPID l) < MaxRxBuffer →
  rx_ok hist taken net l →
  let l' := set_rxBuffer (<[pid := b]> (l_rxBuffer l)) l in
  rx_ok hist taken net l' ∧ (∀ p, received l p → received l' p) ∧ received l' pid.
Proof.
  intros Hu Hh Hlt Hno Hwin Hrx. cbn zeta.
  assert (∀ p, received l p → received (set_rxBuffer (<[pid := b]> (l_rxBuffer l)) l) p) as Hm.
  { intros p [H0 [Hp|[b' Hp]]]; (split; [done|]); lay; [by left|right].
    rewrite lookup_insert_ne by congruence. by eexists. }
  destruct (rx_win _ _ _ _ Hrx) as [Hn Hw]. unfold is_u32 in *.
  rewrite u32_small in Hwin by (unfold is_u32; lia).
  assert (rx_window (set_rxBuffer (<[pid := b]> (l_rxBuffer l)) l)) as Hw'.
  { split; lay; [done|]. intros p b' [[<- <-]|[? Hl]]%lookup_insert_Some; [lia|by eapply Hw]. }
  split_and!; [|done|].
  - eapply rx_ok_step; try done. destruct Hrx as [_ _ Hle Hb Hst _ _].
    split; lay; [by apply rx_window_draining|done| |done].
    intros p b' [[<- <-]|[? Hl]]%lookup_insert_Some; [done|by apply Hb].
  - split; [lia|right]. lay. rewrite lookup_insert_eq. by eexists.
Qed.

(** An honest packet keeps the receiving half, and nothing received is lost. *)
Lemma HandleInbound_rx hist taken net now i l :
  zlen hist < 2 ^ 32 → honest hist i → rx_ok hist taken net l →
  rx_ok hist taken net (HandleInbound now i l).1 ∧
  (∀ p, received l p → received (HandleInbound now i l).1 p).
Proof.
  intros Hlen Hhon Hrx.
  destruct (HandleInbound_cases now i l) as [|? ? ?|l1 ? Ha|l1 ? Ha Hop Hold|l1 ? Ha Hop He Hb l2|l1 ? Ha
    |l1 ? Ha Hop Hgt Hb Hin]; try (by split; [|auto]);
    pose proof (after_acks_rx hist taken net i l l1 Ha Hrx) as Hrx1;
    apply after_acks_core in Ha as [Hc Hk];
    try (destruct (Hhon Hop) as [Hu Hh]);
    try (split; [done|]; intros q; by apply rx_core_received).
  - assert (received l1 (cp_MessagePID (ip_Payload i))) as Hr.
    { destruct Hold as [Hold|Hold]; (split; [unfold is_u32 in Hu; lia|]); auto. }
    split; [by apply addPendingAck_rx|]. intros q Hq.
    eapply rx_core_received; [apply addPendingAck_core|]. by eapply rx_core_received.
  - rewrite He in Hh. subst l2.
    destruct (in_order_delivers hist taken (cp_Body (ip_Payload i)) l1) as (Hdl & Hw & Hlt & Hm);
      [done|apply Hrx1|by eapply rx_ok_delivering|done|done|].
    pose proof (in_order_ack_same (cp_Body (ip_Payload i)) l1) as Hs.
    set (l3 := drain_rx _ _) in *. split.
    + apply addPendingAck_rx.
      * by apply Hs.
      * destruct (rx_win _ _ _ _ Hrx1) as [Hn _]. unfold is_u32 in Hn. split; [lia|by left].
      * by eapply rx_ok_step.
    + intros q Hq. eapply rx_core_received; [apply addPendingAck_core|].
      apply Hm. by eapply rx_core_received.
  - destruct (in_future_rx hist taken net l1 (cp_MessagePID (ip_Payload i))
      (cp_Body (ip_Payload i))) as (Hr2 & Hm & Hrec); try done.
    split; [by apply addPendingAck_rx|].
    intros q Hq. eapply rx_core_received; [apply addPendingAck_core|].
    apply Hm. by eapply rx_core_received.
Qed.
