(* ===== verification/Channel.v ===== *)
(** Two layers connected by a network that loses, reorders and repeats
    packets.  Each endpoint runs the operations of [internal/reliable] in any
    order; packets cross the wire through the codec of [internal/proto].  The
    theorems state what the layer promises to TLS: each side reads a prefix of
    what the other side queued, nothing is acknowledged before it has been
    received, and an empty retransmission queue means everything was received. *)
From S2P Require Import Prelude Wire Reliable ReliableFacts Stream.
Local Open Scope Z_scope.

(** ** An endpoint: a layer and what has happened to it *)

Record Endpoint := mkEndpoint {
  ep_layer : Layer;
  ep_hist : list bytes;      (* bodies queued, in packet-id order *)
  ep_taken : bytes;          (* bytes TLS has read *)
  ep_net : list OutPacket    (* packets put on the network *)
}.

Definition with_layer (l : Layer) (e : Endpoint) : Endpoint :=
  mkEndpoint l (ep_hist e) (ep_taken e) (ep_net e).
Definition queued (l : Layer) (b : bytes) (e : Endpoint) : Endpoint :=
  mkEndpoint l (ep_hist e ++ [b]) (ep_taken e) (ep_net e).

(** One call on the layer of [e].  [Write] queues its chunks one at a time,
    releasing the lock while the queue is full: it is a sequence of
    [es_chunk] steps, see [Write_outcome].  A packet that leaves the outbound
    channel joins [ep_net] and may be delivered any number of times, or never. *)
Inductive ep_step (peer : Endpoint) (e : Endpoint) : Endpoint → Prop :=
  | es_hard now op l' :
      SendHardReset now op (ep_layer e) = (l', None) → ep_step peer e (queued l' [] e)
  | es_soft now k l' :
      SendSoftReset now k (ep_layer e) = (l', None) → ep_step peer e (queued l' [] e)
  | es_chunk now chunk l' :
      l_closed (ep_layer e) = false →
      enqueueAndEmitLocked now PControlV1 chunk (ep_layer e) = (l', None) →
      ep_step peer e (queued l' chunk e)
  | es_inbound now o i :
      o ∈ ep_net peer → wire o = Some i →
      ep_step peer e (with_layer (HandleInbound now i (ep_layer e)).1 e)
  | es_tick now order :
      tick_order (ep_layer e) order →
      ep_step peer e (with_layer (Tick now order (ep_layer e)).1 e)
  | es_read n l' b :
      Read n (ep_layer e) = (l', RData b) →
      ep_step peer e (mkEndpoint l' (ep_hist e) (ep_taken e ++ b) (ep_net e))
  | es_transmit o rest :
      l_outbound (ep_layer e) = o :: rest →
      ep_step peer e (mkEndpoint (set_outbound rest (ep_layer e)) (ep_hist e) (ep_taken e)
                        (ep_net e ++ [o]))
  | es_setkey k : ep_step peer e (with_layer (SetKeyID k (ep_layer e)) e)
  | es_setremote sid : ep_step peer e (with_layer (SetRemoteSessionID sid (ep_layer e)) e)
  | es_closeread err : ep_step peer e (with_layer (CloseRead err (ep_layer e)) e)
  | es_close : ep_step peer e (with_layer (Close (ep_layer e)) e).

Definition ep_init (cfg : Config) : Endpoint := mkEndpoint (New cfg) [] [] [].

(** Both directions at once: the first component moves, or the second. *)
Definition Channel : Type := Endpoint * Endpoint.
Inductive ch_step : Channel → Channel → Prop :=
  | ch_left a b a' : ep_step b a a' → ch_step (a, b) (a', b)
  | ch_right a b b' : ep_step a b b' → ch_step (a, b) (a, b').

Definition reachable (ca cb : Config) (c : Channel) : Prop :=
  rtc ch_step (ep_init ca, ep_init cb) c.

(** Packet-ids do not wrap: fewer than 2^32 packets queued. *)
Definition bounded (c : Channel) : Prop :=
  zlen (ep_hist c.1) < 2 ^ 32 ∧ zlen (ep_hist c.2) < 2 ^ 32.

(** ** The invariant *)

Record side (e peer : Endpoint) : Prop := {
  sd_tx : tx_ok (ep_hist e) (ep_net e) (ep_layer e);
  sd_rx : rx_ok (ep_hist peer) (ep_taken e) (ep_net e) (ep_layer e);
  sd_noloss pid : 0 ≤ pid < zlen (ep_hist e) →
    is_Some (l_txQueue (ep_layer e) !! pid) ∨ received (ep_layer peer) pid
}.

Definition sides (e peer : Endpoint) : Prop := side e peer ∧ side peer e.

(** A step that queues nothing: it keeps the halves, loses nothing received,
    and every entry it drops from the queue was received by the peer. *)
Lemma sides_update e peer l' taken' net' :
  sides e peer →
  tx_ok (ep_hist e) net' l' → rx_ok (ep_hist peer) taken' net' l' →
  (∀ p, received (ep_layer e) p → received l' p) →
  (∀ p, is_Some (l_txQueue (ep_layer e) !! p) →
        is_Some (l_txQueue l' !! p) ∨ received (ep_layer peer) p) →
  sides (mkEndpoint l' (ep_hist e) taken' net') peer.
Proof.
  intros [[Ht Hr Hnl] [Ht' Hr' Hnl']] Htx Hrx Hm Hq. split; split; cbn; try done.
  - intros p Hp. destruct (Hnl p Hp) as [Hs|?]; [by apply Hq|by right].
  - intros p Hp. destruct (Hnl' p Hp) as [?|?]; [by left|right; auto].
Qed.

(** Queuing one body. *)
Lemma sides_enqueue e peer now op b l' :
  zlen (ep_hist e) + 1 < 2 ^ 32 → sides e peer →
  enqueueAndEmitLocked now op b (ep_layer e) = (l', None) →
  sides (queued l' b e) peer.
Proof.
  intros Hlen [[Ht Hr Hnl] [Ht' Hr' Hnl']] He.
  pose proof (enqueue_tx _ _ _ _ _ _ _ (rx_ackinv _ _ _ _ Hr) Hlen Ht He) as Htx.
  pose proof (enqueue_rx_ok _ _ _ now op b _ Hr) as Hrx. rewrite He in Hrx. cbn in Hrx.
  pose proof (enqueue_rx now op b (ep_layer e)) as Hs. rewrite He in Hs. cbn in Hs.
  assert (∀ p, p = l_nextTxPID (ep_layer e) ∨ is_Some (l_txQueue (ep_layer e) !! p) →
    is_Some (l_txQueue l' !! p)) as Hq.
  { unfold enqueueAndEmitLocked in He. case_match; [done|]. injection He as <-. intros p Hp.
    edestruct emit_frame_fields as (_ & _ & _ & _ & _ & _ & -> & _); [apply emitLocked_frame|].
    lay. rewrite lookup_insert_is_Some. destruct (decide (l_nextTxPID (ep_layer e) = p)); [by left|].
    right. split; [done|]. destruct Hp; [congruence|done]. }
  split; split; cbn; try done.
  - intros p Hp. rewrite zlen_snoc in Hp.
    destruct (decide (p = zlen (ep_hist e))) as [->|].
    + left. apply Hq. left. symmetry. apply Ht.
    + destruct (Hnl p) as [?|?]; [lia| |by right]. left. apply Hq. by right.
  - by apply hist_rx_mono.
  - intros p Hp. destruct (Hnl' p Hp) as [?|?]; [by left|right]. by eapply received_same.
Qed.

(** Fields that only concern key-ids, session-ids and closing. *)
Definition control_only (l l' : Layer) : Prop :=
  tx_same l l' ∧ rx_core l l' ∧ ack_same l l'.

Lemma control_only_sides e peer l' :
  sides e peer → control_only (ep_layer e) l' → sides (with_layer l' e) peer.
Proof.
  intros HS ((Hn & Hq & Ho) & Hc & Ha). pose proof HS as [[[Hn0 Hq0 Hf] Hr _] _].
  apply sides_update; try done.
  - split; rewrite ?Hn, ?Hq, ?Ho; done.
  - eapply rx_ok_step; [done|done| | |intros p; by apply rx_core_received].
    + apply rx_ok_delivering in Hr as [Hd Hle Hb Hst]. destruct Hc as (Hnx & Hbf & Hrb).
      split; unfold rx_draining in *; rewrite ?Hnx, ?Hbf, ?Hrb; auto.
    + eapply rx_core_window; [done|apply Hr].
  - intros p. by apply rx_core_received.
  - intros p Hp. left. by rewrite Hq.
Qed.

Lemma setkey_control k l : control_only l (SetKeyID k l).
Proof. done. Qed.
Lemma setremote_control sid l : control_only l (SetRemoteSessionID sid l).
Proof. done. Qed.
Lemma closeread_control err l : control_only l (CloseRead err l).
Proof. by destruct err. Qed.
Lemma close_control l : control_only l (Close l).
Proof. unfold Close. destruct (l_closed l); [done|]. lay. by destruct (l_readErr l). Qed.

(** [SendSoftReset] is an enqueue between two changes of the key-id. *)
Lemma soft_reset_sides e peer now k l' :
  zlen (ep_hist e) + 1 < 2 ^ 32 → sides e peer →
  SendSoftReset now k (ep_layer e) = (l', None) → sides (queued l' [] e) peer.
Proof.
  intros Hlen HS Hs. unfold SendSoftReset in Hs. destruct (l_closed (ep_layer e)); [done|].
  destruct (enqueueAndEmitLocked now PControlSoftResetV1 [] (set_keyID k (ep_layer e)))
    as [l1 err] eqn:He. injection Hs as <- ->.
  apply (control_only_sides (queued l1 [] e)); [|done].
  apply (sides_enqueue (with_layer (set_keyID k (ep_layer e)) e) peer now PControlSoftResetV1);
    [done| |done].
  by apply control_only_sides.
Qed.

Lemma hard_reset_sides e peer now op l' :
  zlen (ep_hist e) + 1 < 2 ^ 32 → sides e peer →
  SendHardReset now op (ep_layer e) = (l', None) → sides (queued l' [] e) peer.
Proof.
  intros Hlen HS Hs. unfold SendHardReset in Hs. do 2 (case_match; [done|]).
  by eapply sides_enqueue.
Qed.

(** Every packet on the network carries 32-bit ids. *)
Lemma net_u32 e peer o : side e peer → o ∈ ep_net e → packet_u32 o.
Proof.
  intros [[_ _ Hf] Hr _] Ho. split.
  - apply list.Forall_forall. intros p Hp. eapply received_u32; [apply Hr|].
    eapply rx_net; [exact Hr| |exact Hp]. set_solver.
  - intros Ha. rewrite list.Forall_forall in Hf. apply Hf; [|done]. set_solver.
Qed.

Lemma net_honest e peer o i :
  side e peer → o ∈ ep_net e → wire o = Some i →
  honest (ep_hist e) i ∧ ∀ p, p ∈ in_acks i → received (ep_layer e) p.
Proof.
  intros Hs Ho Hw. pose proof (net_u32 e peer o Hs Ho) as Hu.
  apply wire_spec in Hw as (Hop & _ & Hacks & Hbody); [|done]. split.
  - intros Hne. assert (IsAck o = false) as Ha.
    { unfold IsAck. rewrite <-Hop. by apply Z.eqb_neq. }
    destruct (Hbody Ha) as [-> ->]. destruct Hs as [[_ _ Hf] _ _].
    rewrite list.Forall_forall in Hf. apply Hf; [set_solver|done].
  - intros p Hp. rewrite Hacks in Hp. eapply rx_net; [apply Hs| |exact Hp]. set_solver.
Qed.

Lemma inbound_sides e peer now o i :
  zlen (ep_hist peer) < 2 ^ 32 → sides e peer → o ∈ ep_net peer → wire o = Some i →
  sides (with_layer (HandleInbound now i (ep_layer e)).1 e) peer.
Proof.
  intros Hlen HS Ho Hw. pose proof HS as [[Ht Hr Hnl] Hpeer].
  destruct (net_honest peer e o i Hpeer Ho Hw) as [Hh Hacks].
  destruct (HandleInbound_rx _ _ _ now i _ Hlen Hh Hr) as [Hr' Hm].
  apply sides_update; try done.
  - by apply HandleInbound_tx.
  - intros p [pk Hp]. destruct (HandleInbound_queue now i (ep_layer e)) as [->|(_ & _ & _ & Hf)].
    + left. by eexists.
    + destruct (decide (p ∈ in_acks i)); [right; auto|left; by eapply Hf].
Qed.

(** [Tick] keeps the keys of the queue. *)
Lemma tick_loop_keys now order l p :
  is_Some (l_txQueue l !! p) → is_Some (l_txQueue (tick_loop now order l).1 !! p).
Proof.
  revert l. induction order as [|pid order IH]; intros l Hp; cbn; [done|].
  assert (is_Some (l_txQueue (tick_packet now pid l).1 !! p)) as Hp1.
  { unfold tick_packet. destruct (l_txQueue l !! pid) as [pkt|] eqn:Hq; [|done].
    destruct (negb _); [done|]. destruct (_ <=? _); [done|]. cbn [fst]. lay.
    edestruct emit_frame_fields as (_ & _ & _ & _ & _ & _ & Heq & _);
      [apply (emitLocked_frame now (pp_opcode pkt) (pp_msgPID pkt) (pp_body pkt) l)|].
    rewrite Heq, lookup_insert_is_Some. destruct (decide (pid = p)); auto. }
  destruct (tick_packet now pid l) as [l1 [e|]]; [done|]. by apply IH.
Qed.

Lemma Tick_keys now order l p :
  is_Some (l_txQueue l !! p) → is_Some (l_txQueue (Tick now order l).1 !! p).
Proof.
  intros Hp. unfold Tick. destruct (l_closed l); [done|].
  pose proof (tick_loop_keys now order l p Hp) as H.
  destruct (tick_loop now order l) as [l1 [e|]]; [done|]. cbn [fst] in H.
  destruct (l_pendingAcks l1); [done|]. case_match; [|done]. cbn [fst].
  edestruct emit_frame_fields as (_ & _ & _ & _ & _ & _ & -> & _); [apply emitStandaloneAck_frame|done].
Qed.

Lemma tick_sides e peer now order :
  sides e peer → sides (with_layer (Tick now order (ep_layer e)).1 e) peer.
Proof.
  intros HS. pose proof HS as [[Ht Hr _] _].
  destruct (Tick_ok _ _ _ _ now order _ Ht Hr) as [Ht' Hr'].
  apply sides_update; try done.
  - intros p. apply received_same, Tick_rx.
  - intros p Hp. left. by apply Tick_keys.
Qed.

Lemma read_sides e peer n l' b :
  sides e peer → Read n (ep_layer e) = (l', RData b) →
  sides (mkEndpoint l' (ep_hist e) (ep_taken e ++ b) (ep_net e)) peer.
Proof.
  intros HS Hrd. pose proof HS as [[Ht Hr _] _]. unfold Read in Hrd.
  destruct (l_readBuf (ep_layer e)) as [|x rb] eqn:Hrb; [by case_match|].
  rewrite <-Hrb in Hrd. injection Hrd as <- <-.
  apply sides_update; try done.
  - destruct Ht. by split.
  - destruct Hr as [[? ?] [? ? ? ?] ? ? Hst ? ?]. split; try done.
    lay. rewrite <-Hst, <-app_assoc. f_equal.
    rewrite length_take. destruct (Nat.min_spec n (length (l_readBuf (ep_layer e)))) as [[? ->]|[? ->]].
    + apply take_drop.
    + by rewrite take_ge, drop_all, app_nil_r by lia.
  - auto.
Qed.

Lemma transmit_sides e peer o rest :
  sides e peer → l_outbound (ep_layer e) = o :: rest →
  sides (mkEndpoint (set_outbound rest (ep_layer e)) (ep_hist e) (ep_taken e) (ep_net e ++ [o])) peer.
Proof.
  intros HS Ho. pose proof HS as [[[Hn Hq Hf] [Hw [? ? ? ?] ? ? ? ? Hnet] _] _]. rewrite Ho in *.
  apply sides_update; try done; [| |auto].
  - split; try done. lay. eapply list.Forall_forall. intros o' Ho'.
    rewrite list.Forall_forall in Hf. apply Hf. set_solver.
  - split; try done; [by destruct Hw|]. lay. intros o' p Ho'. apply (Hnet o' p). set_solver.
Qed.

(** ** Every reachable channel satisfies the invariant *)

Lemma ep_step_hist peer e e' : ep_step peer e e' → zlen (ep_hist e) ≤ zlen (ep_hist e').
Proof. destruct 1; cbn; rewrite ?zlen_snoc; lia. Qed.

Lemma ep_step_sides peer e e' :
  ep_step peer e e' → zlen (ep_hist e') < 2 ^ 32 → zlen (ep_hist peer) < 2 ^ 32 →
  sides e peer → sides e' peer.
Proof.
  destruct 1; cbn; rewrite ?zlen_snoc; intros Hlen Hpeer HS.
  - by eapply hard_reset_sides.
  - by eapply soft_reset_sides.
  - by eapply sides_enqueue.
  - by eapply inbound_sides.
  - by apply tick_sides.
  - by eapply read_sides.
  - by apply transmit_sides.
  - apply control_only_sides; [done|apply setkey_control].
  - apply control_only_sides; [done|apply setremote_control].
  - apply control_only_sides; [done|apply closeread_control].
  - apply control_only_sides; [done|apply close_control].
Qed.

Lemma init_side ca cb : side (ep_init ca) (ep_init cb).
Proof.
  split; [split|split|]; cbn; try done.
  - split; cbn; try done. apply NoDup_nil_2.
  - set_solver.
  - set_solver.
  - unfold zlen. cbn. lia.
Qed.

Lemma ch_step_sides c c' :
  ch_step c c' → bounded c' → bounded c ∧ (sides c.1 c.2 → sides c'.1 c'.2).
Proof.
  intros Hs [H1 H2]. destruct Hs as [a b a' Hs|a b b' Hs]; cbn in *;
    pose proof (ep_step_hist _ _ _ Hs); (split; [split; cbn; lia|]).
  - intros. eapply ep_step_sides; try done. 
  - intros [? ?]. cut (sides b' a); [by intros [? ?]|]. by eapply ep_step_sides.
Qed.

Definition swap (c : Channel) : Channel := (c.2, c.1).

Lemma reachable_sym ca cb c : reachable ca cb c → reachable cb ca (swap c).
Proof.
  unfold reachable. revert c. refine (rtc_ind_r (λ c, rtc ch_step _ (swap c)) _ _ _).
  - apply rtc_refl.
  - intros c c' _ Hstep IH. eapply rtc_r; [exact IH|]. destruct Hstep; by constructor.
Qed.

Lemma reachable_sides ca cb c : reachable ca cb c → bounded c → sides c.1 c.2.
Proof.
  unfold reachable. revert c. refine (rtc_ind_r (λ c, bounded c → sides c.1 c.2) _ _ _).
  - intros _. split; apply init_side.
  - intros c c' _ Hstep IH Hb. destruct (ch_step_sides _ _ Hstep Hb) as [Hb0 Hs]. auto.
Qed.

(** ** What the channel promises *)

(** All queued bytes reached the reading side once nothing is left to send. *)
Lemma side_drained e peer :
  side e peer → side peer e → l_txQueue (ep_layer e) = ∅ →
  l_nextRxPID (ep_layer peer) = zlen (ep_hist e).
Proof.
  intros [_ _ Hnl] [_ [[Hu Hw] _ Hle _ _ _ _] _] Hq. unfold is_u32 in Hu.
  destruct (decide (l_nextRxPID (ep_layer peer) = zlen (ep_hist e))) as [|Hne]; [done|].
  destruct (Hnl (l_nextRxPID (ep_layer peer))) as [Hs|[_ [?|[b Hb]]]]; [lia| |lia|].
  - rewrite Hq, lookup_empty in Hs. by destruct Hs.
  - destruct (Hw _ _ Hb). lia.
Qed.

(** C1: for every run of two layers over a network that loses, reorders and
    repeats packets, the bytes one side has read, followed by the bytes waiting
    in its buffer, are a prefix of the bytes the other side queued: nothing is
    lost in the middle, repeated or out of order. *)
Theorem stream_is_prefix ca cb c :
  reachable ca cb c → bounded c →
  (ep_taken c.2 ++ l_readBuf (ep_layer c.2)) `prefix_of` concat (ep_hist c.1) ∧
  (ep_taken c.1 ++ l_readBuf (ep_layer c.1)) `prefix_of` concat (ep_hist c.2).
Proof.
  intros Hr Hb. destruct (reachable_sides _ _ _ Hr Hb) as [[_ H1 _] [_ H2 _]].
  destruct H1 as [_ _ _ _ -> _ _], H2 as [_ _ _ _ -> _ _]. split; eexists;
    by rewrite <-concat_app, take_drop.
Qed.

(** Every packet-id acknowledged in a packet a side has emitted, in an ack
    packet or piggybacked, is one it has received: delivered to TLS or held in
    its reorder buffer, with the body the peer queued under that id. *)
Theorem acks_are_earned ca cb c o p :
  reachable ca cb c → bounded c →
  o ∈ l_outbound (ep_layer c.1) ++ ep_net c.1 → p ∈ acks_of o →
  0 ≤ p < zlen (ep_hist c.2) ∧
  (p < l_nextRxPID (ep_layer c.1) ∨
   l_rxBuffer (ep_layer c.1) !! p = ep_hist c.2 !! Z.to_nat p).
Proof.
  intros Hr Hb Ho Hp. destruct (reachable_sides _ _ _ Hr Hb) as [[_ Hrx _] _].
  destruct (rx_net _ _ _ _ Hrx o p Ho Hp) as [H0 Hrec]. destruct Hrec as [Hlt|[b Hbuf]].
  - pose proof (rx_le _ _ _ _ Hrx). split; [lia|by left].
  - pose proof (rx_buf _ _ _ _ Hrx p b Hbuf) as Hh. rewrite Hh, Hbuf.
    apply lookup_lt_Some in Hh. split; [unfold zlen; lia|by right].
Qed.

(** C2: a packet leaves the retransmission queue only after the peer received
    it: every queued packet-id is still in the queue or was received, and when
    the queue is empty the peer has the whole stream. *)
Theorem no_packet_lost ca cb c :
  reachable ca cb c → bounded c →
  (∀ pid, 0 ≤ pid < zlen (ep_hist c.1) →
     is_Some (l_txQueue (ep_layer c.1) !! pid) ∨ received (ep_layer c.2) pid) ∧
  (l_txQueue (ep_layer c.1) = ∅ →
     ep_taken c.2 ++ l_readBuf (ep_layer c.2) = concat (ep_hist c.1)).
Proof.
  intros Hr Hb. destruct (reachable_sides _ _ _ Hr Hb) as [H1 H2].
  split; [apply H1|]. intros Hq. pose proof (side_drained _ _ H1 H2 Hq) as Hn.
  destruct H2 as [_ [_ _ _ _ -> _ _] _]. rewrite Hn. unfold zlen.
  by rewrite Nat2Z.id, firstn_all.
Qed.

(** ** A run: one chunk, its delivery, and the acknowledgement *)

Module Demo.
Definition cfg (sid : Z) : Config := mkConfig sid 0 0.
Definition chunk_step (b : bytes) (e : Endpoint) : Endpoint :=
  queued (enqueueAndEmitLocked 0 PControlV1 b (ep_layer e)).1 b e.
Definition send_step (e : Endpoint) : Endpoint :=
  match l_outbound (ep_layer e) with
  | [] => e
  | o :: rest => mkEndpoint (set_outbound rest (ep_layer e)) (ep_hist e) (ep_taken e) (ep_net e ++ [o])
  end.
Definition recv_step (from e : Endpoint) : Endpoint :=
  match list.last (ep_net from) ≫= wire with
  | Some i => with_layer (HandleInbound 0 i (ep_layer e)).1 e
  | None => e
  end.
Definition tick_step (e : Endpoint) : Endpoint := with_layer (Tick AckFlushDelay [] (ep_layer e)).1 e.
Definition read_step (e : Endpoint) : Endpoint :=
  match Read 2 (ep_layer e) with
  | (l, RData b) => mkEndpoint l (ep_hist e) (ep_taken e ++ b) (ep_net e)
  | _ => e
  end.

Lemma send_step_ok peer e : l_outbound (ep_layer e) ≠ [] → ep_step peer e (send_step e).
Proof.
  unfold send_step. destruct (l_outbound (ep_layer e)) eqn:Ho; [done|]. intros _.
  by apply es_transmit.
Qed.
Lemma recv_step_ok from e :
  is_Some (list.last (ep_net from) ≫= wire) → ep_step from e (recv_step from e).
Proof.
  unfold recv_step. destruct (list.last (ep_net from)) as [o|] eqn:Hl; [|by intros []].
  cbn. destruct (wire o) as [i|] eqn:Hw; [|by intros []]. intros _.
  eapply es_inbound; [|done]. by apply last_Some_elem_of.
Qed.

Lemma read_step_ok peer e b : (Read 2 (ep_layer e)).2 = RData b → ep_step peer e (read_step e).
Proof.
  unfold read_step. destruct (Read 2 (ep_layer e)) as [l r] eqn:Hr. cbn. intros ->.
  by eapply es_read.
Qed.

Definition a1 := chunk_step [x41; x42; x43] (ep_init (cfg 1)).
Definition a2 := send_step a1.
Definition b1 := recv_step a2 (ep_init (cfg 2)).
Definition b2 := tick_step b1.
Definition b3 := send_step b2.
Definition a3 := recv_step b3 a2.
Definition b4 := read_step b3.

Lemma run : reachable (cfg 1) (cfg 2) (a3, b4).
Proof.
  apply (rtc_l _ _ (a1, ep_init (cfg 2))).
  { apply ch_left, (es_chunk _ _ 0 [x41; x42; x43]); by vm_compute. }
  apply (rtc_l _ _ (a2, ep_init (cfg 2))). { apply ch_left, send_step_ok. by vm_compute. }
  apply (rtc_l _ _ (a2, b1)). { apply ch_right, recv_step_ok. vm_compute. by eexists. }
  apply (rtc_l _ _ (a2, b2)). { apply ch_right, es_tick. by vm_compute. }
  apply (rtc_l _ _ (a2, b3)). { apply ch_right, send_step_ok. by vm_compute. }
  apply (rtc_l _ _ (a3, b3)). { apply ch_left, recv_step_ok. vm_compute. by eexists. }
  apply rtc_once, ch_right, (read_step_ok _ _ [x41; x42]). by vm_compute.
Qed.

Lemma run_bounded : bounded (a3, b4).
Proof. by vm_compute. Qed.

(** The same run with the sides exchanged. *)
Lemma run_swap : reachable (cfg 2) (cfg 1) (b4, a3).
Proof. apply (reachable_sym _ _ _ run). Qed.
Lemma bounded_swap : bounded (b4, a3).
Proof. by vm_compute. Qed.
End Demo.

Lemma stream_is_prefix_witness :
  ep_taken Demo.b4 = [x41; x42] ∧
  (ep_taken Demo.b4 ++ l_readBuf (ep_layer Demo.b4)) `prefix_of` concat (ep_hist Demo.a3).
Proof.
  split; [by vm_compute|]. exact (proj1 (stream_is_prefix _ _ _ Demo.run Demo.run_bounded)).
Defined.

Lemma acks_are_earned_witness :
  ∃ o, o ∈ ep_net Demo.b4 ∧ acks_of o = [0] ∧
    (0 ≤ 0 < zlen (ep_hist Demo.a3) ∧
     (0 < l_nextRxPID (ep_layer Demo.b4) ∨
      l_rxBuffer (ep_layer Demo.b4) !! 0 = ep_hist Demo.a3 !! Z.to_nat 0)).
Proof.
  destruct (list.last (ep_net Demo.b4)) as [o|] eqn:Ho; [|by vm_compute in Ho].
  apply last_Some_elem_of in Ho as Hin. exists o.
  assert (acks_of o = [0]) as Ha by (vm_compute in Ho; by injection Ho as <-).
  split; [done|]. split; [done|]. split.
  - by vm_compute.
  - refine (proj2 (acks_are_earned _ _ (Demo.b4, Demo.a3) o 0 Demo.run_swap Demo.bounded_swap _ _)).
    + apply elem_of_app. right. exact Hin.
    + rewrite Ha. left.
Defined.

Lemma no_packet_lost_witness :
  l_txQueue (ep_layer Demo.a3) = ∅ ∧
  ep_taken Demo.b4 ++ l_readBuf (ep_layer Demo.b4) = concat (ep_hist Demo.a3).
Proof.
  split; [by vm_compute|].
  refine (proj2 (no_packet_lost _ _ _ Demo.run Demo.run_bounded) _). by vm_compute.
Defined.
