(* ===== verification/LayerSafety.v ===== *)
(** What one reliability layer guarantees whatever the peer sends: bounded
    buffers and emitted packets the codec accepts, over every sequence of
    calls; then the outcome of [Write], the retransmission schedule of [Tick]
    and the behaviour of a closed layer. *)
From S2P Require Import Prelude Wire Reliable ReliableFacts Stream.
Local Open Scope Z_scope.

(** ** Calls by an arbitrary environment *)

Definition in_range (i : InPacket) : Prop := is_u32 (cp_MessagePID (ip_Payload i)).

Inductive layer_step (l : Layer) : Layer → Prop :=
  | ls_hard now op : op ≠ PAckV1 → layer_step l (SendHardReset now op l).1
  | ls_soft now k : layer_step l (SendSoftReset now k l).1
  | ls_write now p : layer_step l (Write now p l).1
  | ls_inbound now i : in_range i → layer_step l (HandleInbound now i l).1
  | ls_tick now order : tick_order l order → layer_step l (Tick now order l).1
  | ls_read n : layer_step l (Read n l).1
  | ls_transmit o rest : l_outbound l = o :: rest → layer_step l (set_outbound rest l)
  | ls_setkey k : layer_step l (SetKeyID k l)
  | ls_setremote sid : layer_step l (SetRemoteSessionID sid l)
  | ls_deadline now t : layer_step l (SetDeadline now t l)
  | ls_closeread err : layer_step l (CloseRead err l)
  | ls_close : layer_step l (Close l).

(** An emitted packet the codec accepts: at most eight 32-bit acks, and at
    least one in an acknowledgement packet. *)
Record sendable (o : OutPacket) : Prop := {
  sb_u32 : packet_u32 o;
  sb_acks : (length (acks_of o) ≤ MaxAcksPerPacket)%nat;
  sb_ack : IsAck o = true → ap_Acks (op_Ack o) ≠ []
}.

Lemma sendable_wire o : sendable o → is_Some (wire o).
Proof.
  intros [[Ha Hp] Hlen Hne]. unfold wire, acks_of, MaxAcksPerPacket in *.
  destruct (IsAck o).
  - assert (MarshalAckPayload (op_Ack o) = Ok (ap_layout (op_Ack o))) as Hm.
    { apply Marshal_ack_layout. unfold zlen. split_and!; [auto|lia|done]. }
    rewrite Hm, (Marshal_ack_norm _ _ Ha Hm). by eexists.
  - assert (MarshalControlPayload (op_Payload o) = Ok (cp_layout (op_Payload o))) as Hm.
    { apply Marshal_control_layout. unfold zlen. split; [lia|done]. }
    rewrite Hm, (Marshal_control_norm _ _ Ha (Hp eq_refl) Hm). by eexists.
Qed.

Record layer_wf (l : Layer) : Prop := {
  lw_rx : rx_window l;
  lw_ack : ack_inv l;
  lw_acks : Forall is_u32 (l_pendingAcks l);
  lw_next : is_u32 (l_nextTxPID l);
  lw_queue : (size (l_txQueue l) ≤ MaxQueueSize)%nat;
  lw_pkts pid pkt : l_txQueue l !! pid = Some pkt →
    is_u32 pid ∧ pp_msgPID pkt = pid ∧ pp_opcode pkt ≠ PAckV1;
  lw_out : (length (l_outbound l) ≤ l_OutboundBuffer l)%nat;
  lw_send : Forall sendable (l_outbound l)
}.

(** Emitting a packet built from the first eight acks. *)
Lemma emit_with_wf now mk l :
  emit_frame l (emit_with now mk l) →
  (∀ acks, Forall is_u32 acks → (length acks ≤ MaxAcksPerPacket)%nat →
     (acks = [] → l_pendingAcks l = []) → sendable (mk acks)) →
  layer_wf l → layer_wf (emit_with now mk l).
Proof.
  intros Hf Hmk [Hrx Hack Hpa Hnx Hq Hpk Hout Hs].
  destruct (emit_with_spec now mk l Hack) as [Hack' Hcase].
  apply emit_frame_fields in Hf as (_ & Hbuf & _ & _ & _ & Hnx' & Hq' & Hrn & Hrb & _).
  assert (sendable (mk (take MaxAcksPerPacket (l_pendingAcks l)))) as Hsend.
  { apply Hmk; [by apply Forall_take|rewrite length_take; lia|].
    by destruct (l_pendingAcks l). }
  split; rewrite ?Hnx', ?Hq', ?Hbuf; try done; [by apply (rx_window_ext l)|..];
    destruct Hcase as [(Hr & Ho & Hp)|(Hr & Ho & Hp)]; rewrite ?Ho, ?Hp; try done.
  - by apply Forall_drop.
  - rewrite length_app. cbn. lia.
  - apply Forall_app. split; [done|by constructor].
Qed.

Lemma control_sendable op kid sid rsid pid body acks :
  op ≠ PAckV1 → is_u32 pid → Forall is_u32 acks → (length acks ≤ MaxAcksPerPacket)%nat →
  sendable (mkOutPacket op kid sid (mkControlPayload acks rsid pid body) zero_ack).
Proof.
  intros Hop Hp Ha Hl. assert (IsAck (mkOutPacket op kid sid (mkControlPayload acks rsid pid body)
    zero_ack) = false) as Hi by by apply Z.eqb_neq.
  split; [split|..]; unfold acks_of; rewrite ?Hi; done.
Qed.

Lemma emitLocked_wf now op pid b l :
  op ≠ PAckV1 → is_u32 pid → layer_wf l → layer_wf (emitLocked now op pid b l).
Proof.
  intros Hop Hp Hl. pose proof (emitLocked_frame now op pid b l) as Hf.
  rewrite emitLocked_with in *. apply emit_with_wf; [done| |done].
  intros acks Ha Hlen _. by apply control_sendable.
Qed.

Lemma standalone_wf now l : layer_wf l → layer_wf (emitStandaloneAckLocked now l).
Proof.
  intros Hl. pose proof (emitStandaloneAck_frame now l) as Hf.
  destruct (decide (l_pendingAcks l = [])) as [Hpa|Hpa].
  { unfold emitStandaloneAckLocked. by rewrite Hpa. }
  rewrite standalone_with in * by (try done; by apply (ai_remote l (lw_ack l Hl))).
  apply emit_with_wf; [done| |done]. intros acks Ha Hlen Hne.
  split; [split|..]; cbn; try done. intros _ ->. by apply Hpa, Hne.
Qed.

(** Changing the queue and its counter. *)
Lemma queue_wf l q nx :
  layer_wf l → is_u32 nx → (size q ≤ MaxQueueSize)%nat →
  (∀ pid pkt, q !! pid = Some pkt → is_u32 pid ∧ pp_msgPID pkt = pid ∧ pp_opcode pkt ≠ PAckV1) →
  layer_wf (set_txQueue q (set_nextTxPID nx l)).
Proof. intros [[? ?] [? ? ? ?] ? ? ? ? ? ?] ? ? ?. by split. Qed.

Lemma enqueue_wf now op b l :
  op ≠ PAckV1 → layer_wf l → layer_wf (enqueueAndEmitLocked now op b l).1.
Proof.
  intros Hop Hl. unfold enqueueAndEmitLocked.
  destruct (Nat.leb_spec MaxQueueSize (size (l_txQueue l))) as [|Hlt]; [done|]. cbn [fst].
  pose proof (lw_next l Hl). apply emitLocked_wf; [done|done|].
  lay. apply (queue_wf l (<[_ := _]> (l_txQueue l)) (u32 (l_nextTxPID l + 1))); [done| | |].
  - apply u32_range.
  - rewrite map_size_insert. destruct (l_txQueue l !! _); cbn [id]; lia.
  - intros pid pkt [[<- <-]|[_ Hp]]%lookup_insert_Some; [done|by apply (lw_pkts l Hl)].
Qed.

Lemma tick_packet_wf now pid l : layer_wf l → layer_wf (tick_packet now pid l).1.
Proof.
  intros Hl. unfold tick_packet. destruct (l_txQueue l !! pid) as [pkt|] eqn:Hp; [|done].
  destruct (negb _); [done|]. destruct (_ <=? _); [done|]. cbn [fst].
  destruct (lw_pkts l Hl pid pkt Hp) as (Hu & Hm & Hop). rewrite Hm.
  pose proof (emitLocked_wf now (pp_opcode pkt) pid (pp_body pkt) l Hop Hu Hl) as Hl'.
  destruct (emit_frame_fields _ _ (emitLocked_frame now (pp_opcode pkt) pid (pp_body pkt) l))
    as (_ & _ & _ & _ & _ & _ & Hq & _).
  set (l' := emitLocked _ _ _ _ _) in *.
  pose proof (queue_wf l' (<[pid := mkPendingPkt pid (pp_opcode pkt) (pp_body pkt) now
    (pp_attempts pkt + 1) 0]> (l_txQueue l')) (l_nextTxPID l') Hl' (lw_next l' Hl')) as Hres.
  unfold set_nextTxPID in Hres. lay. apply Hres.
  - rewrite map_size_insert_Some by (rewrite Hq; by eexists). apply (lw_queue l' Hl').
  - intros pid' pkt' [[<- <-]|[_ Hp']]%lookup_insert_Some; [done|by apply (lw_pkts l' Hl')].
Qed.

Lemma tick_loop_wf now order l : layer_wf l → layer_wf (tick_loop now order l).1.
Proof.
  revert l. induction order as [|pid order IH]; intros l Hl; cbn; [done|].
  pose proof (tick_packet_wf now pid l Hl) as Hl1.
  destruct (tick_packet now pid l) as [l1 [e|]]; [done|]. by apply IH.
Qed.

Lemma Tick_wf now order l : layer_wf l → layer_wf (Tick now order l).1.
Proof.
  intros Hl. unfold Tick. destruct (l_closed l); [done|].
  pose proof (tick_loop_wf now order l Hl) as Hl1.
  destruct (tick_loop now order l) as [l1 [e|]]; [done|]. cbn [fst] in Hl1.
  destruct (l_pendingAcks l1); [done|]. case_match; [|done]. by apply standalone_wf.
Qed.

Lemma write_loop_wf fuel now p w l : layer_wf l → layer_wf (write_loop fuel now p w l).1.
Proof.
  revert p w l. induction fuel as [|fuel IH]; intros [|x p] w l Hl; cbn [write_loop]; try done.
  destruct (l_closed l); [by destruct (0 <? w)%nat|]. destruct (_ <=? _)%nat; [done|].
  pose proof (enqueue_wf now PControlV1 (take TLSChunkSize (x :: p)) l ltac:(done) Hl) as Hl1.
  destruct (enqueueAndEmitLocked _ _ _ _) as [l1 [e|]]; [done|]. by apply IH.
Qed.

Lemma Write_wf now p l : layer_wf l → layer_wf (Write now p l).1.
Proof.
  intros Hl. unfold Write. do 2 (case_match; [done|]). by apply write_loop_wf.
Qed.

(** ** Inbound packets of an arbitrary peer *)

(** The acknowledgement state after an inbound packet. *)
Definition acks_after (p : Z) (l l' : Layer) : Prop :=
  ack_inv l' ∧ (∀ q, q ∈ l_pendingAcks l' → q = p ∨ q ∈ l_pendingAcks l).

Lemma acks_after_add now p l l1 :
  ack_inv l → ack_same l l1 → l_remoteKnown l1 = true →
  acks_after p l (addPendingAckLocked now p l1).
Proof.
  intros Hi Hs Hk. destruct (addPendingAck_inv now p l1) as [Hi' Hin]; [by eapply ack_same_inv|done|].
  split; [done|]. intros q Hq. apply Hin in Hq. destruct Hs as (Hp & _). by rewrite Hp in Hq.
Qed.

Lemma acks_after_same p l l1 : ack_inv l → ack_same l l1 → acks_after p l l1.
Proof.
  intros Hi Hs. split; [by eapply ack_same_inv|]. destruct Hs as (-> & _). auto.
Qed.

Lemma ack_same_trans l1 l2 l3 : ack_same l1 l2 → ack_same l2 l3 → ack_same l1 l3.
Proof. unfold ack_same. intuition congruence. Qed.

Lemma HandleInbound_acks now i l :
  ack_inv l → acks_after (cp_MessagePID (ip_Payload i)) l (HandleInbound now i l).1.
Proof.
  intros Hi.
  destruct (HandleInbound_cases now i l) as [|? ? ?|l1 ? Ha|l1 ? Ha|l1 ? Ha Hop He Hb l2|l1 ? Ha
    |l1 ? Ha Hop Hgt Hb Hin]; try (by apply acks_after_same);
    pose proof (after_acks_same i l l1 Ha) as Hs; apply after_acks_core in Ha as [_ Hk];
    try (by apply acks_after_same); try (by apply acks_after_add).
  rewrite <-He. pose proof (in_order_ack_same (cp_Body (ip_Payload i)) l1) as Hs2.
  apply acks_after_add; [done|by eapply ack_same_trans|by apply Hs2].
Qed.

Lemma HandleInbound_buffer now i l :
  l_OutboundBuffer (HandleInbound now i l).1 = l_OutboundBuffer l.
Proof.
  assert (∀ l1, after_acks i l = Some l1 → l_OutboundBuffer l1 = l_OutboundBuffer l) as Ha'.
  { intros l1. unfold after_acks, latch_sid. intros H.
    destruct (negb (l_remoteKnown l)); [|destruct (_ =? _); [|done]]; injection H as <-;
      by match goal with |- l_OutboundBuffer (process_acks ?a ?l0) = _ =>
           destruct (process_acks_spec a l0) as (q & -> & _) end. }
  assert (∀ p l1, l_OutboundBuffer (addPendingAckLocked now p l1) = l_OutboundBuffer l1) as Hadd.
  { intros p l1. unfold addPendingAckLocked. case_bool_decide; [done|]. lay.
    by destruct (l_ackPendingSince l1). }
  destruct (HandleInbound_cases now i l) as [|? ? ?|l1 ? Ha|l1 ? Ha|l1 ? Ha Hop He Hb l2|l1 ? Ha
    |l1 ? Ha Hop Hgt Hb Hin]; rewrite ?Hadd; try done; try (by apply Ha').
  - subst l2. destruct (drain_rx_frame (size (l_rxBuffer (deliver (cp_Body (ip_Payload i)) l1)))
      (deliver (cp_Body (ip_Payload i)) l1)) as (? & ? & ? & ->). rewrite deliver_eq. lay. by apply Ha'.
  - lay. by apply Ha'.
Qed.

Lemma HandleInbound_wf now i l : in_range i → layer_wf l → layer_wf (HandleInbound now i l).1.
Proof.
  intros Hi Hl. pose proof (HandleInbound_window now i l Hi (lw_rx l Hl)) as Hrx.
  destruct (HandleInbound_acks now i l (lw_ack l Hl)) as [Hack Hin].
  pose proof (HandleInbound_buffer now i l) as Hbuf.
  pose proof (HandleInbound_queue now i l) as Hq.
  set (l' := (HandleInbound now i l).1) in *.
  destruct Hq as [->|(Hnx & Ho & Hback & _)]; [done|].
  destruct Hl as [_ _ Hpa Hn Hqs Hpk Hout Hs].
  split; rewrite ?Hnx, ?Ho, ?Hbuf; try done.
  - apply list.Forall_forall. intros q Hq. rewrite list.Forall_forall in Hpa.
    destruct (Hin q Hq) as [->|?]; auto.
  - etrans; [|exact Hqs]. rewrite <-!(size_dom (D := gset Z)). apply subseteq_size.
    intros pid [p' Hp']%elem_of_dom. destruct (Hback pid p' Hp') as (p & Hp & _).
    apply elem_of_dom. by eexists.
  - intros pid p' Hp'. destruct (Hback pid p' Hp') as (p & Hp & -> & -> & _). by apply Hpk.
Qed.

(** ** All calls *)

(** Calls that only change key-ids, session-ids, the read buffer or closing. *)
Lemma SendSoftReset_wf now k l : layer_wf l → layer_wf (SendSoftReset now k l).1.
Proof.
  intros Hl. unfold SendSoftReset. destruct (l_closed l); [done|].
  assert (layer_wf (set_keyID k l)) as Hl0 by (destruct Hl as [[? ?] [? ? ? ?] ? ? ? ? ? ?]; by split).
  pose proof (enqueue_wf now PControlSoftResetV1 [] _ ltac:(done) Hl0) as Hl1.
  destruct (enqueueAndEmitLocked _ _ _ _) as [l1 err]. cbn [fst] in *.
  destruct Hl1 as [[? ?] [? ? ? ?] ? ? ? ? ? ?]; by split.
Qed.

Lemma layer_step_wf l l' : layer_step l l' → layer_wf l → layer_wf l'.
Proof.
  assert (∀ err l, layer_wf l → layer_wf (CloseRead err l)) as Hcr.
  { intros err l0 [[? ?] [? ? ? ?] ? ? ? ? ? ?]. destruct err; (split; try done; by split). }
  destruct 1 as [now op Hop|now k|now p|now i Hi|now order|n|o rest Ho|k|sid|now t|err|]; intros Hl.
  - unfold SendHardReset. do 2 (case_match; [done|]). by apply enqueue_wf.
  - by apply SendSoftReset_wf.
  - by apply Write_wf.
  - by apply HandleInbound_wf.
  - by apply Tick_wf.
  - unfold Read. destruct (l_readBuf l); [by destruct (l_closed l || l_readClosed l)|].
    destruct Hl as [[? ?] [? ? ? ?] ? ? ? ? ? ?]; by split.
  - destruct Hl as [[? ?] [? ? ? ?] ? ? ? ? Hout Hs]. rewrite Ho in *. apply list.Forall_cons in Hs as [_ Hs].
    cbn in Hout. split; try done. lay. lia.
  - destruct Hl as [[? ?] [? ? ? ?] ? ? ? ? ? ?]; by split.
  - destruct Hl as [[? ?] [? ? ? ?] ? ? ? ? ? ?]; by split.
  - unfold SetDeadline. destruct t; [|done]. destruct (_ <=? _); [by apply Hcr|done].
  - by apply Hcr.
  - unfold Close. destruct (l_closed l); [done|]. lay. destruct Hl as [[? ?] [? ? ? ?] ? ? ? ? ? ?].
    destruct (l_readErr l); by split.
Qed.

Lemma New_wf cfg : layer_wf (New cfg).
Proof.
  split; cbn; try done; try (unfold is_u32; lia).
  - split; cbn; try done. apply NoDup_nil_2.
  - unfold MaxQueueSize. rewrite map_size_empty. lia.
Qed.



(** ** [Write] *)

(** Successful calls of [enqueueAndEmitLocked] for a list of chunks. *)
Inductive enqueues (now : Z) : Layer → list bytes → Layer → Prop :=
  | enq_nil l : enqueues now l [] l
  | enq_cons l l1 l2 c cs :
      enqueueAndEmitLocked now PControlV1 c l = (l1, None) → enqueues now l1 cs l2 →
      enqueues now l (c :: cs) l2.

(** All chunks are full except possibly the last one. *)
Definition chunked (cs : list bytes) : Prop :=
  Forall (λ c, (0 < length c ≤ TLSChunkSize)%nat) cs ∧
  ∀ i c, cs !! i = Some c → (S i < length cs)%nat → length c = TLSChunkSize.

Lemma chunked_cons x p cs rest :
  chunked cs → drop TLSChunkSize (x :: p) = concat cs ++ rest →
  chunked (take TLSChunkSize (x :: p) :: cs).
Proof.
  intros [Hf Hfull] Hd. split.
  - constructor; [|done]. rewrite length_take. unfold TLSChunkSize. cbn [length]. lia.
  - intros [|i] c Hc Hi; [|apply (Hfull i); [done|cbn in Hi; lia]].
    apply (inj Some) in Hc as <-. destruct cs as [|c0 cs]; [cbn in Hi; lia|].
    apply (f_equal length) in Hd. rewrite length_drop in Hd. cbn [concat] in Hd.
    rewrite !length_app in Hd. apply Forall_inv in Hf. rewrite length_take. lia.
Qed.

Lemma write_loop_outcome fuel now p w l l' r :
  (length p ≤ fuel)%nat → l_closed l = false →
  write_loop fuel now p w l = (l', r) →
  ∃ cs rest, p = concat cs ++ rest ∧ chunked cs ∧ enqueues now l cs l' ∧
    (r = WDone (w + length p) None ∧ rest = [] ∨
     r = WBlockedQueue rest (w + length (concat cs)) ∧ rest ≠ [] ∧
       (MaxQueueSize ≤ size (l_txQueue l'))%nat).
Proof.
  revert p w l. induction fuel as [|fuel IH]; intros [|x p] w l Hf Hc; cbn [write_loop];
    try (cbn in Hf; lia).
  1,2: intros [= <- <-]; exists [], []; cbn; rewrite Nat.add_0_r; (split_and!; [done| |constructor|by left]);
    (split; [constructor|done]).
  rewrite Hc. destruct (Nat.leb_spec MaxQueueSize (size (l_txQueue l))) as [Hq|Hq].
  { intros [= <- <-]. exists [], (x :: p). cbn [concat app length]. rewrite Nat.add_0_r.
    split_and!; [done| |constructor|right; done]. split; [constructor|done]. }
  destruct (enqueueAndEmitLocked now PControlV1 (take TLSChunkSize (x :: p)) l) as [l1 err] eqn:He.
  assert (err = None) as ->.
  { unfold enqueueAndEmitLocked in He. apply Nat.leb_gt in Hq. rewrite Hq in He. congruence. }
  intros Hw. apply IH in Hw as (cs & rest & Hd & Hck & Hen & Hout).
  - exists (take TLSChunkSize (x :: p) :: cs), rest. cbn [concat]. rewrite <-app_assoc, <-Hd, take_drop.
    split_and!; [done|by eapply chunked_cons|by econstructor|].
    assert (length (take TLSChunkSize (x :: p)) + length (drop TLSChunkSize (x :: p)) = length (x :: p))%nat
      by (rewrite <-length_app, take_drop; done).
    rewrite length_app. destruct Hout as [[-> ->]|(-> & ? & ?)]; [left|right]; (split; [f_equal; lia|done]).
  - rewrite length_drop. unfold TLSChunkSize. cbn in *. lia.
  - pose proof (enqueue_rx now PControlV1 (take TLSChunkSize (x :: p)) l) as Hs. rewrite He in Hs.
    destruct Hs as (_ & _ & _ & _ & _ & Hcl). cbn in Hcl. congruence.
Qed.

(** On an open layer that knows its peer, [Write] cuts the data into
    consecutive non-empty chunks of at most 1200 bytes (all full but the last)
    and queues them in order; it returns having written everything, or waits
    with exactly the unwritten rest because the queue holds 12 packets. *)
Theorem Write_outcome now p l l' r :
  l_closed l = false → l_remoteKnown l = true → Write now p l = (l', r) →
  ∃ cs rest, p = concat cs ++ rest ∧ chunked cs ∧ enqueues now l cs l' ∧
    (r = WDone (length p) None ∧ rest = [] ∨
     r = WBlockedQueue rest (length (concat cs)) ∧ rest ≠ [] ∧
       (MaxQueueSize ≤ size (l_txQueue l'))%nat).
Proof.
  intros Hc Hk. unfold Write. rewrite Hk, Hc. cbn [negb andb].
  apply write_loop_outcome; [done|done].
Qed.

Lemma Write_outcome_witness :
  let l := SetRemoteSessionID 2 (New (mkConfig 1 0 0)) in
  ∃ cs rest, replicate 1201 x00 = concat cs ++ rest ∧ chunked cs ∧
    enqueues 0 l cs (Write 0 (replicate 1201 x00) l).1 ∧
    (WDone 1201 None = WDone (length (replicate 1201 x00)) None ∧ rest = [] ∨
     WDone 1201 None = WBlockedQueue rest (length (concat cs)) ∧ rest ≠ [] ∧
       (MaxQueueSize ≤ size (l_txQueue (Write 0 (replicate 1201 x00) l).1))%nat).
Proof.
  cbn zeta. apply (Write_outcome 0 (replicate 1201 x00) (SetRemoteSessionID 2 (New (mkConfig 1 0 0)))
    (Write 0 (replicate 1201 x00) (SetRemoteSessionID 2 (New (mkConfig 1 0 0)))).1
    (WDone 1201 None)); by vm_compute.
Defined.

(** ** [Tick] *)

(** What [Tick] does to one entry of the queue. *)
Definition tick_pkt (now : Z) (pkt : pendingPkt) : pendingPkt :=
  if due now pkt
  then mkPendingPkt (pp_msgPID pkt) (pp_opcode pkt) (pp_body pkt) now (pp_attempts pkt + 1) 0
  else pkt.

(** An entry on which [Tick] gives up. *)
Definition exhausted (now : Z) (pkt : pendingPkt) : bool :=
  due now pkt && (MaxRetransmits <=? pp_attempts pkt).

(** What a retransmission puts on the wire. *)
Definition resend (now : Z) (q : gmap Z pendingPkt) (pid : Z) : option (Z * Z * bytes) :=
  pkt ← q !! pid;
  if due now pkt then Some (pp_opcode pkt, pp_msgPID pkt, pp_body pkt) else None.

Definition sent_of (o : OutPacket) : Z * Z * bytes :=
  (op_Opcode o, cp_MessagePID (op_Payload o), cp_Body (op_Payload o)).

Lemma emitLocked_outbound now op pid b l :
  (length (l_outbound l) < l_OutboundBuffer l)%nat →
  ∃ o, l_outbound (emitLocked now op pid b l) = l_outbound l ++ [o] ∧ sent_of o = (op, pid, b).
Proof.
  intros Hroom. unfold emitLocked.
  pose proof (drainAcks_outbound MaxAcksPerPacket l) as Ho.
  pose proof (drainAcks_frame MaxAcksPerPacket l) as Hf.
  destruct (drainAcksLocked _ l) as [acks l1]. cbn [snd] in *.
  apply emit_frame_fields in Hf as (_ & Hbuf & _).
  unfold emit_or_restore. rewrite Ho, Hbuf.
  apply Nat.ltb_lt in Hroom. rewrite Hroom. lay. by eexists.
Qed.

(** One entry: an error exactly when it is exhausted; otherwise it is updated,
    the others stay, and it is sent if it was due. *)
Lemma tick_packet_spec now pid l :
  let r := tick_packet now pid l in
  r.2 = (match l_txQueue l !! pid with
         | Some pkt => if exhausted now pkt then Some ErrTooManyRetransmits else None
         | None => None end) ∧
  (r.2 = None →
     (∀ p, l_txQueue r.1 !! p =
        if decide (p = pid) then tick_pkt now <$> l_txQueue l !! p else l_txQueue l !! p) ∧
     l_OutboundBuffer r.1 = l_OutboundBuffer l ∧
     ((length (l_outbound l) < l_OutboundBuffer l)%nat →
      ∃ sent, l_outbound r.1 = l_outbound l ++ sent ∧
              sent_of <$> sent = omap (resend now (l_txQueue l)) [pid])).
Proof.
  unfold tick_packet, exhausted, resend, tick_pkt. cbn [omap list_omap].
  destruct (l_txQueue l !! pid) as [pkt|] eqn:Hp; cbn [mbind option_bind fst snd].
  2: { split; [done|]. intros _. split_and!; [|done|].
       - intros p. case_decide as Hd; [|done]. subst. by rewrite Hp.
       - intros _. exists []. by rewrite app_nil_r. }
  destruct (due now pkt) eqn:Hd; cbn [negb andb].
  2: { split; [done|]. intros _. split_and!; [|done|].
       - intros p. case_decide as He; [|done]. subst. rewrite Hp. cbn. by rewrite Hd.
       - intros _. exists []. by rewrite app_nil_r. }
  destruct (MaxRetransmits <=? pp_attempts pkt); cbn [fst snd]; [done|].
  destruct (emit_frame_fields _ _ (emitLocked_frame now (pp_opcode pkt) (pp_msgPID pkt) (pp_body pkt) l))
    as (_ & Hbuf & _ & _ & _ & _ & Hq & _).
  split; [done|]. intros _. lay. rewrite Hq. split_and!; [|done|].
  - intros p. case_decide as He; [subst; rewrite lookup_insert_eq, Hp; cbn; by rewrite Hd|].
    by rewrite lookup_insert_ne.
  - intros Hroom. destruct (emitLocked_outbound now (pp_opcode pkt) (pp_msgPID pkt) (pp_body pkt) l Hroom)
      as (o & -> & Ho). exists [o]. cbn. by rewrite Ho.
Qed.

Definition stuck (now : Z) (q : gmap Z pendingPkt) (pid : Z) : Prop :=
  ∃ pkt, q !! pid = Some pkt ∧ exhausted now pkt = true.

Lemma tick_loop_spec now order l :
  NoDup order →
  let r := tick_loop now order l in
  (r.2 = None ∧ Forall (λ pid, ¬ stuck now (l_txQueue l) pid) order ∨
   r.2 = Some ErrTooManyRetransmits ∧ Exists (stuck now (l_txQueue l)) order) ∧
  (r.2 = None →
     (∀ p, l_txQueue r.1 !! p =
        if decide (p ∈ order) then tick_pkt now <$> l_txQueue l !! p else l_txQueue l !! p) ∧
     ((length (l_outbound l) + length order ≤ l_OutboundBuffer l)%nat →
      ∃ sent, l_outbound r.1 = l_outbound l ++ sent ∧
              sent_of <$> sent = omap (resend now (l_txQueue l)) order)).
Proof.
  revert l. induction order as [|pid order IH]; intros l Hnd.
  { cbn. split; [by left|]. intros _. split; [done|]. intros _. exists []. by rewrite app_nil_r. }
  apply list.NoDup_cons in Hnd as [Hni Hnd]. cbn [tick_loop].
  destruct (tick_packet_spec now pid l) as [Herr Hok].
  destruct (tick_packet now pid l) as [l1 [e|]]; cbn [fst snd] in Herr, Hok |- *.
  { destruct (l_txQueue l !! pid) as [pkt|] eqn:Hp; [|done].
    destruct (exhausted now pkt) eqn:Hx; [|done]. injection Herr as ->.
    split; [|done]. right. split; [done|]. left. by exists pkt. }
  destruct (Hok eq_refl) as (Hq & Hbuf & Hsent). destruct (IH l1 Hnd) as [Hst Hres].
  assert (∀ p, p ∈ order → l_txQueue l1 !! p = l_txQueue l !! p) as Hsame.
  { intros p Hp. rewrite Hq. case_decide; [set_solver|done]. }
  assert (∀ p, p ∈ order → stuck now (l_txQueue l1) p ↔ stuck now (l_txQueue l) p) as Hss.
  { intros p Hp. unfold stuck. by rewrite Hsame. }
  assert (¬ stuck now (l_txQueue l) pid) as Hns.
  { intros (pkt & Hp & Hx). rewrite Hp, Hx in Herr. done. }
  set (r := tick_loop now order l1) in *. split.
  - destruct Hst as [[Hr Hf]|[Hr He]]; [left|right]; (split; [done|]).
    + constructor; [done|]. rewrite list.Forall_forall in *. intros p Hp Hs.
      apply (Hf p Hp). by apply Hss.
    + right. rewrite list.Exists_exists in *. destruct He as (p & Hp & Hs). exists p.
      split; [done|]. by apply Hss.
  - intros Hr. destruct (Hres Hr) as [Hq' Hsent']. split.
    + intros p. rewrite Hq', Hq. repeat case_decide; try done; set_solver.
    + cbn [length]. intros Hroom. destruct Hsent as (s1 & Ho1 & Hs1); [lia|].
      assert (length s1 ≤ 1)%nat as Hl1.
      { rewrite <-(length_fmap sent_of), Hs1. cbn. by destruct (resend _ _ _); cbn; lia. }
      destruct Hsent' as (s2 & Ho2 & Hs2); [rewrite Ho1, length_app, Hbuf; lia|].
      exists (s1 ++ s2). rewrite Ho2, Ho1, <-app_assoc, fmap_app, Hs1, Hs2. split; [done|].
      change (pid :: order) with ([pid] ++ order). rewrite omap_app. f_equal.
      apply list_omap_ext. apply Forall2_same_length_lookup_2; [done|].
      intros i x y Hx Hy. simplify_eq. unfold resend. rewrite Hsame; [done|].
      by eapply list_elem_of_lookup_2.
Qed.

Lemma tick_order_nodup l order : tick_order l order → NoDup order.
Proof. unfold tick_order. intros ->. apply NoDup_fst_map_to_list. Qed.

Lemma tick_order_elem l order pid : tick_order l order → pid ∈ order ↔ is_Some (l_txQueue l !! pid).
Proof.
  unfold tick_order. intros ->. rewrite list_elem_of_fmap. split.
  - intros ([p pkt] & -> & Hp%elem_of_map_to_list). by eexists.
  - intros [pkt Hp]. exists (pid, pkt). split; [done|]. by apply elem_of_map_to_list.
Qed.

Lemma standalone_outbound now l :
  ∃ acks, l_outbound (emitStandaloneAckLocked now l) = l_outbound l ++ acks ∧
          Forall (λ o, IsAck o = true) acks.
Proof.
  unfold emitStandaloneAckLocked.
  assert (∃ acks, l_outbound l = l_outbound l ++ acks ∧ Forall (λ o, IsAck o = true) acks) as Hnone
    by (exists []; by rewrite app_nil_r).
  destruct (l_pendingAcks l); [done|]. destruct (negb _); [done|].
  pose proof (drainAcks_outbound MaxAcksPerPacket l) as Ho.
  destruct (drainAcksLocked _ l) as [acks l1]. cbn [snd] in Ho. unfold emit_or_restore.
  destruct (_ <? _)%nat; lay; rewrite Ho.
  - eexists. split; [done|]. by constructor.
  - destruct (l_ackPendingSince l1), (acks ++ l_pendingAcks l1); lay; rewrite ?Ho; exact Hnone.
Qed.

(** On an open layer, [Tick] fails exactly when some queued packet is due
    after its eighth transmission; otherwise it retransmits exactly the due
    packets (backoff elapsed, or three later packets acknowledged) with their
    opcode, packet-id and body, restarts their timers, leaves the others
    untouched, and adds at most standalone acknowledgements. *)
Theorem Tick_schedule now order l :
  l_closed l = false → tick_order l order →
  let r := Tick now order l in
  (r.2 = None ∧ (∀ pid, ¬ stuck now (l_txQueue l) pid) ∨
   r.2 = Some ErrTooManyRetransmits ∧ ∃ pid, stuck now (l_txQueue l) pid) ∧
  (r.2 = None →
   l_txQueue r.1 = tick_pkt now <$> l_txQueue l ∧
   ((length (l_outbound l) + size (l_txQueue l) ≤ l_OutboundBuffer l)%nat →
    ∃ sent acks, l_outbound r.1 = l_outbound l ++ sent ++ acks ∧
      sent_of <$> sent = omap (resend now (l_txQueue l)) order ∧
      Forall (λ o, IsAck o = true) acks)).
Proof.
  intros Hc Hord. unfold Tick. rewrite Hc.
  destruct (tick_loop_spec now order l (tick_order_nodup _ _ Hord)) as [Hst Hres].
  assert (length order = size (l_txQueue l)) as Hlen.
  { unfold tick_order in Hord. rewrite Hord, length_fmap. apply length_map_to_list. }
  destruct (tick_loop now order l) as [l1 err]. cbn [fst snd] in Hst, Hres |- *.
  destruct Hst as [[-> Hf]|[-> He]]; cbn [fst snd].
  2: { split; [|done]. right. split; [done|]. apply list.Exists_exists in He as (p & _ & ?).
       by exists p. }
  destruct (Hres eq_refl) as [Hq Hsent]. clear Hres.
  assert (l_txQueue l1 = tick_pkt now <$> l_txQueue l) as Hq1.
  { apply map_eq. intros p. rewrite Hq, lookup_fmap. case_decide as Hin; [done|].
    rewrite (tick_order_elem l order p Hord) in Hin. apply eq_None_not_Some in Hin. by rewrite Hin. }
  assert (∀ pid, ¬ stuck now (l_txQueue l) pid) as Hns.
  { intros p Hs. rewrite list.Forall_forall in Hf. apply (Hf p); [|done].
    apply (tick_order_elem l order p Hord). destruct Hs as (pkt & Hp & _). by eexists. }
  assert (∀ r : Layer * option rel_error,
    r = (l1, None) ∨ r = (emitStandaloneAckLocked now l1, None) →
    (r.2 = None ∧ (∀ pid, ¬ stuck now (l_txQueue l) pid) ∨
     r.2 = Some ErrTooManyRetransmits ∧ ∃ pid, stuck now (l_txQueue l) pid) ∧
    (r.2 = None →
     l_txQueue r.1 = tick_pkt now <$> l_txQueue l ∧
     ((length (l_outbound l) + size (l_txQueue l) ≤ l_OutboundBuffer l)%nat →
      ∃ sent acks, l_outbound r.1 = l_outbound l ++ sent ++ acks ∧
        sent_of <$> sent = omap (resend now (l_txQueue l)) order ∧
        Forall (λ o, IsAck o = true) acks))) as Hfin.
  { intros r [->| ->]; cbn [fst snd]; (split; [by left|]); intros _.
    - split; [done|]. intros Hroom. destruct Hsent as (s & Ho & Hs); [lia|].
      exists s, []. by rewrite app_nil_r.
    - edestruct emit_frame_fields as (_ & _ & _ & _ & _ & _ & -> & _); [apply emitStandaloneAck_frame|].
      split; [done|]. intros Hroom. destruct Hsent as (s & Ho & Hs); [lia|].
      destruct (standalone_outbound now l1) as (a & -> & Ha). exists s, a.
      by rewrite Ho, <-app_assoc. }
  apply Hfin. destruct (l_pendingAcks l1); [by left|]. case_match; [by right|by left].
Qed.

Lemma Tick_schedule_witness :
  let l := (SendHardReset 0 PControlHardResetClientV2 (New (mkConfig 1 0 0))).1 in
  (Tick Second [0] l).2 = None ∧
  l_txQueue (Tick Second [0] l).1 = tick_pkt Second <$> l_txQueue l.
Proof.
  cbn zeta. split; [by vm_compute|].
  refine (proj1 (proj2 (Tick_schedule Second [0] (SendHardReset 0 PControlHardResetClientV2
    (New (mkConfig 1 0 0))).1 _ _) _)); by vm_compute.
Defined.

(** ** The retransmission budget *)

(** Total backoff of the first [n] transmissions: 1, 2, 4, 8, then 16 s each. *)
Fixpoint backoff_sum (n : nat) : Z :=
  match n with O => 0 | S n' => backoff_sum n' + backoff (Z.of_nat n) end.

Lemma backoff_sum_le k : (1 ≤ k ≤ 8)%nat → backoff_sum (k - 1) + backoff (Z.of_nat k) ≤ 79 * Second.
Proof. intros Hk. do 9 (destruct k as [|k]; [vm_compute; (done || lia)|]). lia. Qed.

Lemma backoff_pos k : (1 ≤ k ≤ 8)%nat → 0 < backoff (Z.of_nat k).
Proof. intros Hk. do 9 (destruct k as [|k]; [vm_compute; (done || lia)|]). lia. Qed.

Definition fresh_pkt (t0 : Z) (pkt : pendingPkt) : Prop :=
  pp_attempts pkt = 1 ∧ pp_sentAt pkt = t0 ∧ pp_higherACKs pkt = 0.

(** The life of a layer from [l0] on as long as the packet [pid] is in its queue: ticks
    that succeed, at most [d] apart, the last at the time of the index; packets of the
    peer, which may acknowledge any other packet; and any other call that leaves this
    entry of the queue alone. *)
Inductive unacked (pid d t0 : Z) (l0 : Layer) : Z → Layer → Prop :=
  | un_start : unacked pid d t0 l0 t0 l0
  | un_tick t l now order :
      unacked pid d t0 l0 t l → t ≤ now ≤ t + d → tick_order l order → (Tick now order l).2 = None →
      unacked pid d t0 l0 now (Tick now order l).1
  | un_inbound t l now i :
      unacked pid d t0 l0 t l → is_Some (l_txQueue (HandleInbound now i l).1 !! pid) →
      unacked pid d t0 l0 t (HandleInbound now i l).1
  | un_call t l l' :
      unacked pid d t0 l0 t l → layer_step l l' → l_txQueue l' !! pid = l_txQueue l !! pid →
      unacked pid d t0 l0 t l'.

(** A packet after [k] transmissions: the last was no later than the backoffs and the
    ticks allow, and the last tick, at [t], did not find it due by its timer. *)
Record aged (d t0 : Z) (k : nat) (t : Z) (pkt : pendingPkt) : Prop := {
  ag_pos : (1 ≤ k ≤ 8)%nat;
  ag_attempts : pp_attempts pkt = Z.of_nat k;
  ag_sent : pp_sentAt pkt ≤ t0 + backoff_sum (k - 1) + Z.of_nat (k - 1) * d;
  ag_tick : t - pp_sentAt pkt < backoff (Z.of_nat k)
}.

Lemma aged_same d t0 k t p p' : pkt_same p p' → aged d t0 k t p → aged d t0 k t p'.
Proof. intros (_ & _ & _ & Hs & Ha & _) []. by split; rewrite ?Hs, ?Ha. Qed.

(** A tick that does not give up on it. *)
Lemma aged_tick d t0 k t now pkt :
  0 ≤ d → aged d t0 k t pkt → t ≤ now ≤ t + d → exhausted now pkt = false →
  ∃ k', aged d t0 k' now (tick_pkt now pkt).
Proof.
  intros Hd [Hk Ha Hs Ht] Hnow. unfold exhausted, tick_pkt, due. rewrite Ha.
  destruct ((FastRetransmitThreshold <=? pp_higherACKs pkt) || _) eqn:Hdue; cbn [andb].
  - unfold MaxRetransmits. intros Hmax%Z.leb_gt. exists (S k). split; cbn [pp_attempts pp_sentAt]; [lia|lia| |].
    + replace (S k - 1)%nat with (S (k - 1)) by lia. cbn [backoff_sum]. replace (S (k - 1)) with k by lia. nia.
    + rewrite Z.sub_diag. apply backoff_pos. lia.
  - intros _. apply orb_false_iff in Hdue as [_ Hb%Z.leb_gt]. exists k. by split.
Qed.

(** What a tick that succeeds does to the entry. *)
Lemma Tick_entry now order l pid pkt :
  tick_order l order → (Tick now order l).2 = None → l_txQueue l !! pid = Some pkt →
  exhausted now pkt = false ∧ l_txQueue (Tick now order l).1 !! pid = Some (tick_pkt now pkt).
Proof.
  intros Ho Hr Hp. assert (l_closed l = false) as Hc.
  { unfold Tick in Hr. by destruct (l_closed l). }
  destruct (Tick_schedule now order l Hc Ho) as [Hst Hq]. cbv zeta in *. destruct (Hq Hr) as [-> _]. split.
  - destruct Hst as [[_ Hno]|[He _]]; [|congruence]. apply not_true_is_false. intros Hx. apply (Hno pid). by exists pkt.
  - by rewrite lookup_fmap, Hp.
Qed.

Lemma unacked_aged pid d t0 l0 t l pkt0 :
  0 ≤ d → l_txQueue l0 !! pid = Some pkt0 → fresh_pkt t0 pkt0 → unacked pid d t0 l0 t l →
  ∃ k pkt, l_txQueue l !! pid = Some pkt ∧ aged d t0 k t pkt.
Proof.
  intros Hd Hp (Ha & Hs & _) H.
  induction H as [|t l now order _ (k & pkt & Hq & Hag) Hnow Ho Hr|t l now i _ (k & pkt & Hq & Hag) [pkt' Hq']|t l l' _ (k & pkt & Hq & Hag) _ He].
  - exists 1%nat, pkt0. split; [done|]. split; rewrite ?Ha, ?Hs, ?Z.sub_diag; [lia|done|cbn; lia|done].
  - destruct (Tick_entry _ _ _ _ _ Ho Hr Hq) as [Hx ->]. destruct (aged_tick _ _ _ _ now _ Hd Hag Hnow Hx) as [k' ?].
    by exists k', (tick_pkt now pkt).
  - exists k, pkt'. split; [done|]. destruct (HandleInbound_queue now i l) as [He|(_ & _ & Hback & _)].
    + rewrite He, Hq in Hq'. by injection Hq' as <-.
    + destruct (Hback _ _ Hq') as (p & Hp' & Hsame). rewrite Hq in Hp'. injection Hp' as <-. by eapply aged_same.
  - exists k, pkt. by rewrite He.
Qed.

(** A due packet is sent again and counted, or the layer gives up. *)
Lemma Tick_due now order l pid pkt :
  tick_order l order → l_closed l = false → l_txQueue l !! pid = Some pkt → due now pkt = true →
  if MaxRetransmits <=? pp_attempts pkt then (Tick now order l).2 = Some ErrTooManyRetransmits
  else (Tick now order l).2 = None →
    l_txQueue (Tick now order l).1 !! pid =
      Some (mkPendingPkt (pp_msgPID pkt) (pp_opcode pkt) (pp_body pkt) now (pp_attempts pkt + 1) 0) ∧
    ((length (l_outbound l) + size (l_txQueue l) ≤ l_OutboundBuffer l)%nat →
     ∃ o, o ∈ drop (length (l_outbound l)) (l_outbound (Tick now order l).1) ∧
          sent_of o = (pp_opcode pkt, pp_msgPID pkt, pp_body pkt)).
Proof.
  intros Ho Hc Hp Hd. destruct (Tick_schedule now order l Hc Ho) as [Hst Hq]. cbv zeta in *.
  destruct (MaxRetransmits <=? pp_attempts pkt) eqn:Hm.
  - destruct Hst as [[_ Hno]|[He _]]; [|done]. destruct (Hno pid). exists pkt. split; [done|]. unfold exhausted. by rewrite Hd, Hm.
  - intros Hr. destruct (Hq Hr) as [-> Hsent]. split; [rewrite lookup_fmap, Hp; cbn; unfold tick_pkt; by rewrite Hd|].
    intros Hroom. destruct (Hsent Hroom) as (sent & acks & -> & Hs & _). rewrite drop_app_length.
    assert ((pp_opcode pkt, pp_msgPID pkt, pp_body pkt) ∈ sent_of <$> sent) as (o & He & Hin)%list_elem_of_fmap.
    { rewrite Hs. apply list_elem_of_omap. exists pid. split; [apply (tick_order_elem l order pid Ho); by eexists|].
      unfold resend. rewrite Hp. cbn. by rewrite Hd. }
    exists o. split; [apply elem_of_app; by left|done].
Qed.

(** C31: a packet that is not acknowledged is sent again whenever it is due, but not
    for ever.  Let a packet be sent at [t0], whatever the peer acknowledges or sends and
    whatever else is called, and let ticks be at most [d] apart.  As long as it is in
    the queue it was sent [MaxRetransmits] times at most, and when a tick finds it due, by
    its timer or because three later packets were acknowledged, the tick either fails,
    when that many transmissions were made, or sends it again and counts that.  So ticks
    cannot go on succeeding: none does from 79 seconds (the sum of the backoffs) plus
    [7 d] after [t0] on. *)
Theorem retransmit_budget pid d t0 l0 t l pkt0 :
  0 ≤ d → l_txQueue l0 !! pid = Some pkt0 → fresh_pkt t0 pkt0 → unacked pid d t0 l0 t l →
  t < t0 + 79 * Second + 7 * d ∧
  ∃ pkt, l_txQueue l !! pid = Some pkt ∧ 1 ≤ pp_attempts pkt ≤ MaxRetransmits ∧
    ∀ now order, tick_order l order → l_closed l = false → due now pkt = true →
      if MaxRetransmits <=? pp_attempts pkt then (Tick now order l).2 = Some ErrTooManyRetransmits
      else (Tick now order l).2 = None →
        l_txQueue (Tick now order l).1 !! pid =
          Some (mkPendingPkt (pp_msgPID pkt) (pp_opcode pkt) (pp_body pkt) now (pp_attempts pkt + 1) 0) ∧
        ((length (l_outbound l) + size (l_txQueue l) ≤ l_OutboundBuffer l)%nat →
         ∃ o, o ∈ drop (length (l_outbound l)) (l_outbound (Tick now order l).1) ∧
              sent_of o = (pp_opcode pkt, pp_msgPID pkt, pp_body pkt)).
Proof.
  intros Hd Hp Hf H. destruct (unacked_aged _ _ _ _ _ _ _ Hd Hp Hf H) as (k & pkt & Hq & [Hk Ha Hs Ht]). split.
  - pose proof (backoff_sum_le k Hk). nia.
  - exists pkt. split; [done|]. split; [unfold MaxRetransmits; lia|]. intros now order Ho Hc Hdue. by apply Tick_due.
Qed.

(** A layer that nobody answers, ticked at the given times. *)
Fixpoint ticked (ts : list Z) (l : Layer) : Layer * option rel_error :=
  match ts with
  | [] => (l, None)
  | t :: ts => match Tick t ((map_to_list (l_txQueue l)).*1) l with (l, None) => ticked ts l | r => r end
  end.
Definition one_sent : Layer := (SendHardReset 0 PControlHardResetClientV2 (New (mkConfig 1 0 0))).1.

Lemma retransmit_budget_witness :
  let l := (Tick Second [0] one_sent).1 in
  (Tick Second [0] one_sent).2 = None ∧ length (l_outbound l) = 2%nat ∧ Second < 0 + 79 * Second + 7 * (2 * Second).
Proof.
  cbv zeta. split; [by vm_compute|]. split; [by vm_compute|].
  refine (proj1 (retransmit_budget 0 (2 * Second) 0 one_sent Second (Tick Second [0] one_sent).1
    (mkPendingPkt 0 PControlHardResetClientV2 [] 0 1 0) _ _ _ _)); [done|by vm_compute|by split|].
  apply (un_tick _ _ _ _ 0); [apply un_start|done|by vm_compute|by vm_compute].
Defined.

(** Unanswered, a packet is sent eight times, seven of them again, and given up after
    79 seconds; when later packets are acknowledged all the time, after eight ticks. *)
Example budget_unanswered :
  let ts := [Second; 3 * Second; 7 * Second; 15 * Second; 31 * Second; 47 * Second; 63 * Second] in
  (ticked (ts ++ [79 * Second - 1]) one_sent).2 = None ∧ length (l_outbound (ticked ts one_sent).1) = 8%nat ∧
  (ticked (ts ++ [79 * Second]) one_sent).2 = Some ErrTooManyRetransmits.
Proof. by vm_compute. Qed.

Example budget_fast :
  let run := foldl (λ '(l, e) t, match e with None => Tick t [0] (process_acks [1; 2; 3] l) | _ => (l, e) end) (one_sent, None) in
  (run [1; 2; 3; 4; 5; 6; 7]).2 = None ∧ (run [1; 2; 3; 4; 5; 6; 7; 8]).2 = Some ErrTooManyRetransmits.
Proof. by vm_compute. Qed.

(** ** A closed layer *)

(** What reading from a layer that will receive nothing more may return. *)
Definition read_drains (l : Layer) (n : nat) : Prop :=
  match (Read n l).2 with
  | RBlocked => False
  | RData b => b ++ l_readBuf (Read n l).1 = l_readBuf l
  | RErr _ => l_readBuf l = []
  end.

(** Once closed, a layer refuses every call that would send, receive or
    retransmit, without changing; reading drains what was received in order and
    then reports the stored error, and never blocks. *)
Theorem closed_layer_inert l :
  l_closed l = true →
  (∀ now op, SendHardReset now op l = (l, Some ErrClosed)) ∧
  (∀ now k, SendSoftReset now k l = (l, Some ErrClosed)) ∧
  (∀ now x p, Write now (x :: p) l = (l, WDone 0 (Some ErrClosed))) ∧
  (∀ now i, HandleInbound now i l = (l, Some ErrClosed)) ∧
  (∀ now order, Tick now order l = (l, Some ErrClosed)) ∧
  (∀ n, read_drains l n).
Proof.
  intros Hc. unfold read_drains, SendHardReset, SendSoftReset, Write, HandleInbound, Tick, Read. rewrite Hc.
  split_and!; try done.
  - intros now x p. rewrite !andb_false_r. cbn [length write_loop Nat.ltb Nat.leb]. by rewrite Hc.
  - intros n. destruct (l_readBuf l) as [|x rb] eqn:Hrb; [done|]. cbn [fst snd]. lay.
    rewrite length_take. destruct (Nat.min_spec n (length (x :: rb))) as [[? ->]|[? ->]].
    + apply take_drop.
    + by rewrite take_ge, drop_all, app_nil_r by lia.
Qed.

Lemma closed_layer_inert_witness :
  let l := Close (New (mkConfig 1 0 0)) in
  l_closed l = true ∧ SendHardReset 0 PControlHardResetClientV2 l = (l, Some ErrClosed).
Proof.
  cbn zeta. split; [done|].
  apply (proj1 (closed_layer_inert (Close (New (mkConfig 1 0 0))) eq_refl)).
Defined.
