(* ===== verification/KeyMethod2.v ===== *)
(** The messages exchanged inside the TLS control channel: KEY_METHOD 2
    ([proto/keymethod2.go] for byte slices, [control/messages.go] for streams),
    NUL-terminated text messages ([control/messages.go]) and the peer-info block
    ([proto/peerinfo.go]).  Go strings are byte sequences: they are [bytes].  A
    stream is the bytes still to come; [io.ReadFull] takes a prefix of it or
    fails when it is too short. *)
From stdpp Require Import pretty sorting.
From S2P Require Import Prelude Wire.
Local Open Scope Z_scope.

Definition PreMasterLen : nat := 48.
Definition RandomLen : nat := 32.

Record KeyMethod2 := mkKeyMethod2 {
  km_IsServer : bool;
  km_PreMaster : bytes;   (* [48]byte *)
  km_Random1 : bytes;     (* [32]byte *)
  km_Random2 : bytes;
  km_Options : bytes;
  km_Username : bytes;
  km_Password : bytes;
  km_AuthUserPass : bool;
  km_PeerInfo : bytes
}.

Definition zeros (n : nat) : bytes := replicate n x00.

(** ** Marshalling *)

(** The loop of [validateString]: the offset of the first NUL, from [i] on. *)
Fixpoint find_nul (i : nat) (s : bytes) : option nat :=
  match s with
  | [] => None
  | b :: s => if bool_decide (b = x00) then Some i else find_nul (S i) s
  end.

Definition validateString (s : bytes) (name : string) : res proto_error unit :=
  guard_err (65535 <? zlen s + 1) (ErrStringTooLong name (zlen s));;
  match find_nul 0 s with Some i => Err (ErrStringHasNUL name i) | None => Ok tt end.

Definition appendLengthPrefixed (out s : bytes) : bytes :=
  let totalLen := zlen s + 1 in
  out ++ be_enc 2 (u16 totalLen) ++ s ++ [x00].

Definition appendEmptyString (out : bytes) : bytes := out ++ [x00; x00].

Definition MarshalKeyMethod2 (km : KeyMethod2) : res proto_error bytes :=
  validateString (km_Options km) "options";;
  (if km_AuthUserPass km
   then validateString (km_Username km) "username";; validateString (km_Password km) "password"
   else Ok tt);;
  validateString (km_PeerInfo km) "peer_info";;
  let out := [x00; x00; x00; x00] ++ [x02] in
  let out := if km_IsServer km then out else out ++ km_PreMaster km in
  let out := out ++ km_Random1 km in
  let out := out ++ km_Random2 km in
  let out := appendLengthPrefixed out (km_Options km) in
  let out := if km_AuthUserPass km
             then appendLengthPrefixed (appendLengthPrefixed out (km_Username km)) (km_Password km)
             else appendEmptyString (appendEmptyString out) in
  Ok (appendLengthPrefixed out (km_PeerInfo km)).

(** ** Parsing a slice *)

Definition readLengthOrEmpty (data : bytes) (off : nat) (name : string)
  : res proto_error (bytes * nat) :=
  guard_err (length data <? off + 2)%nat (ErrShortPacket name);;
  l ← slice data off (off + 2);
  let n := Z.to_nat (be_dec l) in
  let off := (off + 2)%nat in
  if (n =? 0)%nat then Ok ([], off)
  else
    guard_err (length data <? off + n)%nat (ErrShortPacket name);;
    last ← index data (off + n - 1);
    guard_err (negb (bool_decide (last = x00))) (ErrMissingNUL name);;
    s ← slice data off (off + n - 1);
    Ok (s, (off + n)%nat).

Definition readLengthPrefixed (data : bytes) (off : nat) (name : string)
  : res proto_error (bytes * nat) :=
  guard_err (length data <? off + 2)%nat (ErrShortPacket name);;
  l ← slice data off (off + 2);
  let n := Z.to_nat (be_dec l) in
  let off := (off + 2)%nat in
  guard_err (n =? 0)%nat (ErrZeroLength name);;
  guard_err (length data <? off + n)%nat (ErrShortPacket name);;
  last ← index data (off + n - 1);
  guard_err (negb (bool_decide (last = x00))) (ErrMissingNUL name);;
  s ← slice data off (off + n - 1);
  Ok (s, (off + n)%nat).

Definition ParseKeyMethod2 (data : bytes) (isServer authUserPass : bool)
  : res proto_error KeyMethod2 :=
  guard_err (length data <? 5)%nat (ErrShortPacket "key_method 2 prefix");;
  d0 ← index data 0; d1 ← index data 1; d2 ← index data 2; d3 ← index data 3;
  guard_err (negb (bool_decide (d0 = x00)) || negb (bool_decide (d1 = x00)) ||
             negb (bool_decide (d2 = x00)) || negb (bool_decide (d3 = x00)))
    ErrMissingZeroPrefix;;
  m ← index data 4;
  guard_err (negb (bool_decide (m = x02))) (ErrUnsupportedKeyMethod (b2z m));;
  let off := 5%nat in
  pm ← (if isServer then Ok (zeros PreMasterLen)
        else guard_err (length data <? off + PreMasterLen)%nat (ErrShortPacket "pre_master");;
             slice data off (off + PreMasterLen));
  let off := if isServer then off else (off + PreMasterLen)%nat in
  guard_err (length data <? off + RandomLen * 2)%nat (ErrShortPacket "random1/random2");;
  r1 ← slice data off (off + RandomLen);
  let off := (off + RandomLen)%nat in
  r2 ← slice data off (off + RandomLen);
  let off := (off + RandomLen)%nat in
  '(options, off) ← readLengthPrefixed data off "options";
  '(username, off) ← readLengthOrEmpty data off "username";
  '(password, off) ← readLengthOrEmpty data off "password";
  '(peerinfo, _) ← readLengthOrEmpty data off "peer_info";
  Ok (mkKeyMethod2 isServer pm r1 r2 options username password authUserPass peerinfo).

(** ** Reading from a stream *)

Inductive ctl_error : Type :=
  | ErrRead (what : string)          (* the error of [io.ReadFull] *)
  | CtlMissingZeroPrefix
  | CtlUnsupportedKeyMethod (m : Z)
  | CtlLengthExceeds (name : string) (n : Z)
  | CtlMissingNUL (name : string)
  | CtlMessageTooLong.

Definition MaxControlMessageLen : Z := 16384.

Definition ReadFull (n : nat) (what : string) (r : bytes) : res ctl_error (bytes * bytes) :=
  if (length r <? n)%nat then Err (ErrRead what) else Ok (take n r, drop n r).

Definition readLengthString (name : string) (r : bytes) : res ctl_error (bytes * bytes) :=
  '(lenBuf, r) ← ReadFull 2 name r;
  let n := be_dec lenBuf in
  if n =? 0 then Ok ([], r)
  else
    guard_err (MaxControlMessageLen <? n) (CtlLengthExceeds name n);;
    '(body, r) ← ReadFull (Z.to_nat n) name r;
    last ← index body (Z.to_nat n - 1);
    guard_err (negb (bool_decide (last = x00))) (CtlMissingNUL name);;
    s ← slice body 0 (Z.to_nat n - 1);
    Ok (s, r).

Definition ReadKeyMethod2 (serverSide authUserPass : bool) (r : bytes)
  : res ctl_error (KeyMethod2 * bytes) :=
  '(prefix, r) ← ReadFull 5 "km2 prefix" r;
  p0 ← index prefix 0; p1 ← index prefix 1; p2 ← index prefix 2; p3 ← index prefix 3;
  guard_err (negb (Z.lor (Z.lor (Z.lor (b2z p0) (b2z p1)) (b2z p2)) (b2z p3) =? 0))
    CtlMissingZeroPrefix;;
  m ← index prefix 4;
  guard_err (negb (bool_decide (m = x02))) (CtlUnsupportedKeyMethod (b2z m));;
  '(pm, r) ← (if serverSide then Ok (zeros PreMasterLen, r) else ReadFull PreMasterLen "pre_master" r);
  '(r1, r) ← ReadFull RandomLen "random1" r;
  '(r2, r) ← ReadFull RandomLen "random2" r;
  '(options, r) ← readLengthString "options" r;
  '(username, r) ← readLengthString "username" r;
  '(password, r) ← readLengthString "password" r;
  '(peerinfo, r) ← readLengthString "peer_info" r;
  Ok (mkKeyMethod2 serverSide pm r1 r2 options username password authUserPass peerinfo, r).

(** ** Text messages *)

(** Both loops of [ReadControlMessage] (buffered and byte by byte). *)
Fixpoint read_message_loop (buf r : bytes) : res ctl_error (bytes * bytes) :=
  if MaxControlMessageLen <? zlen buf then Err CtlMessageTooLong
  else
    match r with
    | [] => Err (ErrRead "message")
    | b :: r => if bool_decide (b = x00) then Ok (buf, r) else read_message_loop (buf ++ [b]) r
    end.

Definition ReadControlMessage (r : bytes) : res ctl_error (bytes * bytes) :=
  read_message_loop [] r.

(** What the writer receives, in order. *)
Definition WriteControlMessage (s : bytes) : bytes := s ++ [x00].

(** ** Length-prefixed fields

    [field s e] : [e] is an encoding of the string [s] on the wire, either a
    zero length (for the empty string) or the length, the bytes and a NUL. *)

Inductive field : bytes → bytes → Prop :=
  | field_absent : field [] [x00; x00]
  | field_string s : zlen s + 1 ≤ 65535 → field s (be_enc 2 (zlen s + 1) ++ s ++ [x00]).

Lemma be_enc2_small z : 0 ≤ z ≤ 65535 → be_dec (be_enc 2 z) = z.
Proof. intros. apply be_dec_enc_small. lia. Qed.

(** Every field starts with two bytes whose value decides which case it is. *)
Lemma field_cases d :
  (2 ≤ length d)%nat →
  let n := be_dec (take 2 d) in
  let m := Z.to_nat n in
  n = 0 ∧ d = [x00; x00] ++ drop 2 d ∨
  0 < n ∧ (length d < 2 + m)%nat ∨
  0 < n ∧ (2 + m ≤ length d)%nat ∧ ∃ s last rest,
    d = be_enc 2 (zlen s + 1) ++ s ++ [last] ++ rest ∧ m = S (length s) ∧ zlen s + 1 ≤ 65535.
Proof.
  intros Hd. destruct (split_at 2 d Hd) as (l & r & -> & Hl). cbn zeta.
  rewrite take_app_length' by done. rewrite drop_app_length' by done.
  pose proof (be_dec_range l) as Hr. unfold zlen in Hr. rewrite Hl in Hr.
  destruct (decide (be_dec l = 0)) as [H0|H0]; [left|right].
  { split; [done|]. f_equal. by rewrite <-(be_enc_dec_len 2 l), H0. }
  rewrite length_app, Hl.
  destruct (decide (length r < Z.to_nat (be_dec l))%nat); [left|right]; (split; [lia|]); [lia|].
  split; [lia|].
  destruct (split_at (Z.to_nat (be_dec l) - 1) r) as (s & r' & -> & Hs); [lia|].
  rewrite length_app in *. destruct r' as [|x rest]; [cbn in *; lia|].
  exists s, x, rest. unfold zlen.
  replace (Z.of_nat (length s) + 1) with (be_dec l) by lia.
  rewrite (be_enc_dec_len 2) by done. split_and!; [done|lia|lia].
Qed.

Lemma field_length s e : field s e → (2 ≤ length e)%nat.
Proof. destruct 1; bytes_len. Qed.

(** The three readers, on a field that is there. *)
Section read_field.
Variables (pre s e rest : bytes) (name : string).
Hypothesis Hf : field s e.

Lemma OrEmpty_ok :
  readLengthOrEmpty (pre ++ e ++ rest) (length pre) name = Ok (s, length pre + length e)%nat.
Proof.
  unfold readLengthOrEmpty. destruct Hf as [|str Hlen].
  - pass. rewrite (slice_app pre [x00; x00] rest) by done. bind. done.
  - unfold zlen in *. pass. rewrite <-!app_assoc.
    rewrite (slice_app pre (be_enc 2 _)) by bytes_len. bind.
    rewrite be_enc2_small by lia.
    destruct (Nat.eqb_spec (Z.to_nat (Z.of_nat (length str) + 1)) 0); [lia|].
    pass.
    rewrite (index_Ok _ _ x00).
    2: { rewrite (app_assoc pre), lookup_app_r by bytes_len.
         rewrite lookup_app_r by bytes_len. bytes_len.
         by replace (_ - _ - _)%nat with 0%nat by lia. }
    bind. pass. rewrite (app_assoc pre), (slice_app _ str) by bytes_len. bind.
    do 2 f_equal. bytes_len.
Qed.

Lemma Prefixed_ok :
  e ≠ [x00; x00] →
  readLengthPrefixed (pre ++ e ++ rest) (length pre) name = Ok (s, length pre + length e)%nat.
Proof.
  intros Hne. pose proof OrEmpty_ok as Hoe. unfold readLengthOrEmpty, readLengthPrefixed in *.
  destruct Hf as [|str Hlen]; [done|].
  revert Hoe. unfold zlen in *. pass. rewrite <-!app_assoc.
  rewrite (slice_app pre (be_enc 2 _)) by bytes_len. bind. rewrite be_enc2_small by lia.
  destruct (Nat.eqb_spec (Z.to_nat (Z.of_nat (length str) + 1)) 0); [lia|].
  pass. done.
Qed.

Lemma String_ok :
  zlen s < MaxControlMessageLen → readLengthString name (e ++ rest) = Ok (s, rest).
Proof.
  unfold readLengthString, ReadFull, MaxControlMessageLen. intros Hmax.
  destruct (Nat.ltb_spec (length (e ++ rest)) 2) as [Hs|_].
  { pose proof (field_length s e Hf). rewrite length_app in Hs. lia. }
  bind. destruct Hf as [|str Hlen]; [done|].
  unfold zlen in *. rewrite <-!app_assoc.
  rewrite take_app_length', drop_app_length' by bytes_len. rewrite be_enc2_small by lia.
  destruct (Z.eqb_spec (Z.of_nat (length str) + 1) 0); [lia|]. pass.
  destruct (Nat.ltb_spec (length (str ++ [x00] ++ rest)) (Z.to_nat (Z.of_nat (length str) + 1)));
    [bytes_len|].
  bind. rewrite app_assoc, take_app_length', drop_app_length' by bytes_len.
  rewrite (index_Ok _ _ x00).
  2: { rewrite lookup_app_r by lia. by replace (_ - _ - _)%nat with 0%nat by lia. }
  bind. pass. rewrite (slice_app [] str [x00]) by (cbn; lia). done.
Qed.
End read_field.

(** What the readers do when there is no field: [short] is the length check of
    the source. *)
Lemma OrEmpty_fields pre d name :
  (∃ s e rest, d = e ++ rest ∧ field s e) ∨
  ∃ err, readLengthOrEmpty (pre ++ d) (length pre) name = Err err.
Proof.
  unfold readLengthOrEmpty. destruct (decide (2 ≤ length d)%nat) as [Hd|Hd].
  2: { right. eexists. rewrite guard_fail; [done|]. apply Nat.ltb_lt. bytes_len. }
  destruct (field_cases d Hd) as [[_ He]|[[Hn Hs]|(Hn & Hs & s & x & rest & He & Hm & Hl)]].
  - left. exists [], [x00; x00], (drop 2 d). split; [done|constructor].
  - right. pass. rewrite <-(take_drop 2 d), (slice_app pre (take 2 d)) by bytes_len. bind.
    rewrite take_drop. destruct (Nat.eqb_spec (Z.to_nat (be_dec (take 2 d))) 0); [lia|].
    eexists. rewrite guard_fail; [done|]. apply Nat.ltb_lt. bytes_len.
  - destruct (decide (x = x00)) as [->|Hx].
    { left. exists s, (be_enc 2 (zlen s + 1) ++ s ++ [x00]), rest.
      split; [by rewrite He, <-!app_assoc|by constructor]. }
    right. clear Hn Hs Hm. subst d. unfold zlen in *. pass.
    rewrite (slice_app pre (be_enc 2 _)) by bytes_len. bind. rewrite be_enc2_small by lia.
    destruct (Nat.eqb_spec (Z.to_nat (Z.of_nat (length s) + 1)) 0); [lia|].
    pass. rewrite (index_Ok _ _ x).
    2: { rewrite (app_assoc pre), lookup_app_r by bytes_len. rewrite lookup_app_r by bytes_len.
         bytes_len. by replace (_ - _ - _)%nat with 0%nat by lia. }
    bind. eexists. rewrite guard_fail; [done|]. by rewrite bool_decide_eq_false_2.
Qed.

Lemma OrEmpty_inv pre d name s off :
  readLengthOrEmpty (pre ++ d) (length pre) name = Ok (s, off) →
  ∃ e rest, d = e ++ rest ∧ field s e ∧ off = (length pre + length e)%nat.
Proof.
  intros H. destruct (OrEmpty_fields pre d name) as [(s' & e & rest & -> & Hf)|[err He]]; [|congruence].
  rewrite (OrEmpty_ok pre s' e rest name Hf) in H. simplify_eq. eauto.
Qed.

(** The slice reader that insists on a NUL agrees with the other one, except
    that it rejects a zero length. *)
Lemma Prefixed_inv pre d name s off :
  readLengthPrefixed (pre ++ d) (length pre) name = Ok (s, off) →
  ∃ e rest, d = e ++ rest ∧ field s e ∧ e ≠ [x00; x00] ∧ off = (length pre + length e)%nat.
Proof.
  intros H. assert (readLengthOrEmpty (pre ++ d) (length pre) name = Ok (s, off)) as Ho.
  { revert H. unfold readLengthPrefixed, readLengthOrEmpty.
    destruct (guard_err _ _); [|done|done]. bind.
    destruct (slice _ _ _) as [l| |]; [|done|done]. bind.
    destruct (Z.to_nat (be_dec l) =? 0)%nat; done. }
  destruct (OrEmpty_inv pre d name s off Ho) as (e & rest & -> & Hf & ->).
  exists e, rest. split_and!; try done. intros ->. revert H. unfold readLengthPrefixed.
  pass. rewrite (slice_app pre [x00; x00]) by bytes_len. bind. done.
Qed.

Lemma String_inv d name s r :
  readLengthString name d = Ok (s, r) →
  ∃ e, d = e ++ r ∧ field s e ∧ zlen s < MaxControlMessageLen.
Proof.
  unfold readLengthString, ReadFull, MaxControlMessageLen.
  destruct (Nat.ltb_spec (length d) 2) as [|Hd]; [done|]. bind.
  destruct (field_cases d Hd) as [[Hn He]|[[Hn Hs]|(Hn & Hs & str & x & rest & He & Hm & Hl)]].
  - rewrite Hn. cbn. intros [= <- <-]. exists [x00; x00]. split_and!; [done|constructor|done].
  - destruct (Z.eqb_spec (be_dec (take 2 d)) 0); [lia|].
    destruct (Z.ltb_spec 16384 (be_dec (take 2 d))); [done|]. rewrite guard_pass by done. bind.
    rewrite length_drop. destruct (Nat.ltb_spec (length d - 2) (Z.to_nat (be_dec (take 2 d)))); [done|lia].
  - destruct (Z.eqb_spec (be_dec (take 2 d)) 0); [lia|].
    destruct (Z.ltb_spec 16384 (be_dec (take 2 d))); [done|]. rewrite guard_pass by done. bind.
    rewrite length_drop, Hm. destruct (Nat.ltb_spec (length d - 2) (S (length str))); [done|]. bind.
    assert (drop 2 d = str ++ [x] ++ rest) as Hdr.
    { rewrite He, drop_app_length' by bytes_len. done. }
    rewrite Hdr, app_assoc, take_app_length', drop_app_length' by bytes_len.
    rewrite (index_Ok _ _ x).
    2: { rewrite lookup_app_r by lia. by replace (_ - _ - _)%nat with 0%nat by lia. }
    bind. unfold guard_err. case_bool_decide as Hx; [|done]. cbn [negb]. bind. subst x.
    rewrite (slice_app [] str [x00]) by (cbn; lia). bind. intros [= <- <-].
    exists (be_enc 2 (zlen str + 1) ++ str ++ [x00]). split_and!; [by rewrite He, <-!app_assoc|by constructor|].
    unfold zlen. lia.
Qed.

(** ** Whole messages *)

(** The Go array types, and what a parser puts in the fields it does not read. *)
Record km_wf (isServer auth : bool) (km : KeyMethod2) : Prop := {
  kw_server : km_IsServer km = isServer;
  kw_auth : km_AuthUserPass km = auth;
  kw_pm : length (km_PreMaster km) = PreMasterLen;
  kw_pm0 : isServer = true → km_PreMaster km = zeros PreMasterLen;
  kw_r1 : length (km_Random1 km) = RandomLen;
  kw_r2 : length (km_Random2 km) = RandomLen
}.

Definition km_prefix : bytes := [x00; x00; x00; x00; x02].
Definition km_head (km : KeyMethod2) : bytes :=
  km_prefix ++ (if km_IsServer km then [] else km_PreMaster km) ++ km_Random1 km ++ km_Random2 km.
Definition head_len (isServer : bool) : nat := (5 + (if isServer then 0 else 48) + 64)%nat.

Record km_fields (km : KeyMethod2) (e1 e2 e3 e4 : bytes) : Prop := {
  kf_options : field (km_Options km) e1;
  kf_username : field (km_Username km) e2;
  kf_password : field (km_Password km) e3;
  kf_peerinfo : field (km_PeerInfo km) e4
}.

Lemma length_km_head isServer auth km :
  km_wf isServer auth km → length (km_head km) = head_len isServer.
Proof.
  intros [Hs _ Hp _ H1 H2]. unfold km_head, head_len, PreMasterLen, RandomLen in *. rewrite Hs.
  unfold km_prefix. destruct isServer; bytes_len.
Qed.

(** Every long enough buffer splits into a header and the fields. *)
Lemma head_split (isServer auth : bool) d :
  (head_len isServer ≤ length d)%nat →
  ∃ p pm r1 r2 rest, d = p ++ (if isServer then [] else pm) ++ r1 ++ r2 ++ rest ∧
    length p = 5%nat ∧ length pm = PreMasterLen ∧ (isServer = true → pm = zeros PreMasterLen) ∧
    length r1 = RandomLen ∧ length r2 = RandomLen.
Proof.
  unfold head_len, RandomLen, PreMasterLen. intros H.
  destruct (split_at 5 d) as (p & d1 & -> & Hp); [destruct isServer; lia|]. rewrite length_app in H.
  assert (∃ pm d2, d1 = (if isServer then [] else pm) ++ d2 ∧ length pm = 48%nat ∧
    (isServer = true → pm = zeros 48) ∧ (64 ≤ length d2)%nat) as (pm & d2 & -> & Hpm & Hz & Hd2).
  { destruct isServer.
    - exists (zeros 48), d1. split_and!; [done|done|done|lia].
    - destruct (split_at 48 d1) as (pm & d2 & -> & ?); [lia|]. rewrite length_app in H.
      exists pm, d2. split_and!; [done|done|done|lia]. }
  destruct (split_at 32 d2) as (r1 & d3 & -> & H1); [lia|]. rewrite length_app in Hd2.
  destruct (split_at 32 d3) as (r2 & rest & -> & H2); [lia|].
  exists p, pm, r1, r2, rest. split_and!; done.
Qed.

(** The four fields of a parsed message. *)
Definition parse_fields (isServer auth : bool) (pm r1 r2 : bytes) (data : bytes) (off : nat)
  : res proto_error KeyMethod2 :=
  '(options, off) ← readLengthPrefixed data off "options";
  '(username, off) ← readLengthOrEmpty data off "username";
  '(password, off) ← readLengthOrEmpty data off "password";
  '(peerinfo, _) ← readLengthOrEmpty data off "peer_info";
  Ok (mkKeyMethod2 isServer pm r1 r2 options username password auth peerinfo).

Definition prefix_error (p : bytes) : proto_error :=
  match p with
  | [d0; d1; d2; d3; m] =>
      if bool_decide ([d0; d1; d2; d3] = [x00; x00; x00; x00])
      then ErrUnsupportedKeyMethod (b2z m) else ErrMissingZeroPrefix
  | _ => ErrMissingZeroPrefix
  end.

Lemma Parse_head (isServer auth : bool) p pm r1 r2 rest :
  length p = 5%nat → length pm = PreMasterLen → (isServer = true → pm = zeros PreMasterLen) →
  length r1 = RandomLen → length r2 = RandomLen →
  let d := p ++ (if isServer then [] else pm) ++ r1 ++ r2 ++ rest in
  ParseKeyMethod2 d isServer auth =
  if bool_decide (p = km_prefix)
  then parse_fields isServer auth pm r1 r2 d (head_len isServer)
  else Err (prefix_error p).
Proof.
  intros Hp Hpm Hz H1 H2 d. unfold RandomLen, PreMasterLen in *.
  destruct p as [|d0 [|d1 [|d2 [|d3 [|m [|? ?]]]]]]; cbn [length] in Hp; try lia. clear Hp.
  assert (length d = head_len isServer + length rest)%nat as Hd.
  { subst d. unfold head_len. destruct isServer; bytes_len; rewrite ?Hpm, ?H1, ?H2; lia. }
  unfold ParseKeyMethod2, RandomLen, PreMasterLen.
  pass_by ltac:(apply Nat.ltb_ge; unfold head_len in Hd; destruct isServer; lia).
  idx d0. idx d1. idx d2. idx d3.
  destruct (decide ([d0; d1; d2; d3; m] = km_prefix)) as [Hpre|Hpre];
    [rewrite (bool_decide_eq_true_2 _ Hpre)|rewrite (bool_decide_eq_false_2 _ Hpre)]; cycle 1.
  { unfold prefix_error. destruct (decide ([d0; d1; d2; d3] = [x00; x00; x00; x00])) as [H4|H4].
    - rewrite (bool_decide_eq_true_2 _ H4). injection H4 as -> -> -> ->. pass. idx m.
      rewrite (guard_fail (negb (bool_decide (m = x02)))); [done|].
      rewrite bool_decide_eq_false_2; [done|]. by intros ->.
    - rewrite (bool_decide_eq_false_2 _ H4).
      assert (negb (bool_decide (d0 = x00)) || negb (bool_decide (d1 = x00)) ||
        negb (bool_decide (d2 = x00)) || negb (bool_decide (d3 = x00)) = true) as Hb.
      { repeat case_bool_decide; try done. congruence. }
      rewrite (guard_fail _ _ Hb). done. }
  injection Hpre as -> -> -> -> ->. pass. idx x02. pass.
  subst d. unfold head_len, parse_fields in *. fold km_prefix in *. destruct isServer.
  - bind. rewrite (Hz eq_refl), app_nil_l in *. pass_by ltac:(apply Nat.ltb_ge; lia).
    rewrite (slice_app km_prefix r1 (r2 ++ rest) 5 (5 + 32)) by (cbn; lia). bind.
    rewrite (app_assoc km_prefix).
    rewrite (slice_app (km_prefix ++ r1) r2 rest (5 + 32) (5 + 32 + 32)) by (rewrite ?length_app; cbn; lia). bind. done.
  - pass_by ltac:(apply Nat.ltb_ge; lia).
    rewrite (slice_app km_prefix pm (r1 ++ r2 ++ rest) 5 (5 + 48)) by (cbn; lia). bind.
    pass_by ltac:(apply Nat.ltb_ge; lia).
    rewrite (app_assoc km_prefix).
    rewrite (slice_app (km_prefix ++ pm) r1 (r2 ++ rest) (5 + 48) (5 + 48 + 32)) by (rewrite ?length_app; cbn; lia). bind.
    rewrite (app_assoc _ r1).
    rewrite (slice_app ((km_prefix ++ pm) ++ r1) r2 rest (5 + 48 + 32) (5 + 48 + 32 + 32)) by (rewrite ?length_app; cbn; lia). bind. done.
Qed.

(** The parser accepts exactly a header followed by four fields, the first of
    them present. *)
Lemma parse_fields_spec (isServer auth : bool) pm r1 r2 pre rest km :
  parse_fields isServer auth pm r1 r2 (pre ++ rest) (length pre) = Ok km ↔
  ∃ e1 e2 e3 e4 tail, rest = e1 ++ e2 ++ e3 ++ e4 ++ tail ∧ km_fields km e1 e2 e3 e4 ∧
    e1 ≠ [x00; x00] ∧
    km = mkKeyMethod2 isServer pm r1 r2 (km_Options km) (km_Username km) (km_Password km) auth
           (km_PeerInfo km).
Proof.
  unfold parse_fields. split.
  - intros ([o o1] & H1 & H)%bind_Ok. apply Prefixed_inv in H1 as (e1 & r1' & -> & F1 & Hne & ->).
    apply bind_Ok in H as ([u o2] & H2 & H).
    rewrite app_assoc, <-length_app in H2. rewrite app_assoc in H.
    apply OrEmpty_inv in H2 as (e2 & r2' & -> & F2 & ->).
    apply bind_Ok in H as ([p o3] & H3 & H). rewrite app_assoc, <-length_app in H3. rewrite app_assoc in H.
    apply OrEmpty_inv in H3 as (e3 & r3' & -> & F3 & ->).
    apply bind_Ok in H as ([i o4] & H4 & [= <-]). rewrite app_assoc, <-length_app in H4.
    apply OrEmpty_inv in H4 as (e4 & tail & -> & F4 & ->).
    exists e1, e2, e3, e4, tail. split_and!; [|by constructor|done|done]. done.
  - intros (e1 & e2 & e3 & e4 & tail & -> & [F1 F2 F3 F4] & Hne & Hkm).
    rewrite (Prefixed_ok pre _ e1 _ _ F1 Hne). bind.
    rewrite <-length_app, (app_assoc pre e1).
    rewrite (OrEmpty_ok (pre ++ e1) _ e2 _ _ F2). bind.
    rewrite <-length_app, (app_assoc _ e2).
    rewrite (OrEmpty_ok ((pre ++ e1) ++ e2) _ e3 _ _ F3). bind.
    rewrite <-length_app, (app_assoc _ e3).
    rewrite (OrEmpty_ok (((pre ++ e1) ++ e2) ++ e3) _ e4 _ _ F4). bind. by rewrite <-Hkm.
Qed.

Lemma Parse_short (isServer auth : bool) d :
  (length d < head_len isServer)%nat → ∃ e, ParseKeyMethod2 d isServer auth = Err e.
Proof.
  unfold head_len, ParseKeyMethod2, PreMasterLen, RandomLen. intros H.
  destruct (Nat.ltb_spec (length d) 5) as [|H5]; [by eexists|]. cbn [guard_err]. bind.
  destruct d as [|d0 [|d1 [|d2 [|d3 [|m d]]]]]; cbn [length] in H5; try lia.
  idx d0. idx d1. idx d2. idx d3. destruct (_ || _); [by eexists|]. cbn [guard_err]. bind.
  idx m. destruct (negb _); [by eexists|]. cbn [guard_err]. bind.
  destruct isServer; bind.
  - eexists. rewrite guard_fail; [done|]. apply Nat.ltb_lt. lia.
  - destruct (Nat.ltb_spec (length (d0 :: d1 :: d2 :: d3 :: m :: d)) (5 + 48)); [by eexists|].
    cbn [guard_err]. bind. rewrite (slice_Ok _ 5 (5 + 48)) by lia. bind.
    eexists. rewrite guard_fail; [done|]. apply Nat.ltb_lt. lia.
Qed.

Lemma Parse_spec (isServer auth : bool) d km :
  ParseKeyMethod2 d isServer auth = Ok km ↔
  km_wf isServer auth km ∧ ∃ e1 e2 e3 e4 tail,
    d = km_head km ++ e1 ++ e2 ++ e3 ++ e4 ++ tail ∧ km_fields km e1 e2 e3 e4 ∧ e1 ≠ [x00; x00].
Proof.
  split.
  - intros H. destruct (decide (head_len isServer ≤ length d)%nat) as [Hl|Hl].
    2: { destruct (Parse_short isServer auth d) as [e He]; [lia|congruence]. }
    destruct (head_split isServer auth d Hl) as (p & pm & r1 & r2 & rest & -> & Hp & Hpm & Hz & H1 & H2).
    rewrite Parse_head in H by done. case_bool_decide as Hpre; [|done]. subst p.
    set (pre := km_prefix ++ (if isServer then [] else pm) ++ r1 ++ r2).
    assert (length pre = head_len isServer) as Hlen.
    { subst pre. unfold head_len, km_prefix, PreMasterLen, RandomLen in *.
      destruct isServer; bytes_len. }
    assert (∀ x, km_prefix ++ (if isServer then [] else pm) ++ r1 ++ r2 ++ x = pre ++ x) as Hpe.
    { intros x. subst pre. by rewrite <-!app_assoc. }
    rewrite Hpe, <-Hlen in H.
    apply parse_fields_spec in H as (e1 & e2 & e3 & e4 & tail & -> & Hf & Hne & Hkm).
    split; [rewrite Hkm; by split|]. exists e1, e2, e3, e4, tail. split_and!; [|done|done].
    rewrite Hpe. f_equal. unfold km_head. by rewrite Hkm.
  - intros ([Hs Ha Hpm Hz H1 H2] & e1 & e2 & e3 & e4 & tail & -> & Hf & Hne).
    unfold km_head. rewrite Hs, <-!app_assoc. rewrite Parse_head by done.
    rewrite bool_decide_eq_true_2 by done.
    assert (length (km_head km) = head_len isServer) as Hlen by by eapply length_km_head.
    assert (∀ x, km_prefix ++ (if isServer then [] else km_PreMaster km) ++ km_Random1 km ++
      km_Random2 km ++ x = km_head km ++ x) as Hpe.
    { intros x. unfold km_head. by rewrite Hs, <-!app_assoc. }
    rewrite Hpe, <-Hlen. apply parse_fields_spec. exists e1, e2, e3, e4, tail.
    split_and!; try done. destruct km; cbn in *. congruence.
Qed.

(** ** The stream reader *)

Record km_short (km : KeyMethod2) : Prop := {
  ks_options : zlen (km_Options km) < MaxControlMessageLen;
  ks_username : zlen (km_Username km) < MaxControlMessageLen;
  ks_password : zlen (km_Password km) < MaxControlMessageLen;
  ks_peerinfo : zlen (km_PeerInfo km) < MaxControlMessageLen
}.

Lemma ReadFull_app n what l r :
  length l = n → ReadFull n what (l ++ r) = Ok (l, r).
Proof.
  intros Hl. unfold ReadFull. destruct (Nat.ltb_spec (length (l ++ r)) n); [bytes_len|].
  by rewrite take_app_length', drop_app_length'.
Qed.

Lemma ReadFull_inv n what d l r :
  ReadFull n what d = Ok (l, r) → d = l ++ r ∧ length l = n.
Proof.
  unfold ReadFull. destruct (Nat.ltb_spec (length d) n); [done|]. intros [= <- <-].
  rewrite take_drop, length_take. split; [done|lia].
Qed.

Lemma lor_zero a b : 0 ≤ a → 0 ≤ b → Z.lor a b = 0 → a = 0 ∧ b = 0.
Proof. intros ? ? H. by apply Z.lor_eq_0_iff in H. Qed.

Lemma prefix_or p0 p1 p2 p3 :
  Z.lor (Z.lor (Z.lor (b2z p0) (b2z p1)) (b2z p2)) (b2z p3) = 0 ↔
  p0 = x00 ∧ p1 = x00 ∧ p2 = x00 ∧ p3 = x00.
Proof.
  rewrite !Z.lor_eq_0_iff. assert (∀ p, b2z p = 0 ↔ p = x00) as Hz.
  { intros p. split; [|by intros ->]. intros H. by apply b2z_inj. }
  rewrite !Hz. naive_solver.
Qed.

Lemma Read_spec (isServer auth : bool) d km r :
  ReadKeyMethod2 isServer auth d = Ok (km, r) ↔
  km_wf isServer auth km ∧ km_short km ∧ ∃ e1 e2 e3 e4,
    d = km_head km ++ e1 ++ e2 ++ e3 ++ e4 ++ r ∧ km_fields km e1 e2 e3 e4.
Proof.
  unfold ReadKeyMethod2. split.
  - intros ([p r0] & [-> Hp]%ReadFull_inv & H)%bind_Ok.
    destruct p as [|p0 [|p1 [|p2 [|p3 [|m [|? ?]]]]]]; cbn [length] in Hp; try lia.
    revert H. idx p0. idx p1. idx p2. idx p3. unfold guard_err.
    destruct (Z.eqb_spec (Z.lor (Z.lor (Z.lor (b2z p0) (b2z p1)) (b2z p2)) (b2z p3)) 0) as [Hz|]; [|done].
    apply prefix_or in Hz as (-> & -> & -> & ->). cbn [negb]. bind. idx m.
    case_bool_decide as Hm; [|done]. subst m. cbn [negb]. bind.
    intros ([pm r1] & Hpm & H)%bind_Ok.
    assert (r0 = (if isServer then [] else pm) ++ r1 ∧ length pm = PreMasterLen ∧
            (isServer = true → pm = zeros PreMasterLen)) as (-> & Hl & Hz).
    { destruct isServer; [by injection Hpm as <- <-|]. by apply ReadFull_inv in Hpm as [-> ?]. }
    clear Hpm. apply bind_Ok in H as ([a1 r2] & [-> H1]%ReadFull_inv & H).
    apply bind_Ok in H as ([a2 r3] & [-> H2]%ReadFull_inv & H).
    apply bind_Ok in H as ([o r4] & (e1 & -> & F1 & S1)%String_inv & H).
    apply bind_Ok in H as ([u r5] & (e2 & -> & F2 & S2)%String_inv & H).
    apply bind_Ok in H as ([q r6] & (e3 & -> & F3 & S3)%String_inv & H).
    apply bind_Ok in H as ([i r7] & (e4 & -> & F4 & S4)%String_inv & [= <- <-]).
    split_and!; [by split|by split|]. exists e1, e2, e3, e4. unfold km_head; cbn.
    rewrite <-!app_assoc. split; [done|by split].
  - intros ([Hs Ha Hpm Hz H1 H2] & [S1 S2 S3 S4] & e1 & e2 & e3 & e4 & -> & [F1 F2 F3 F4]).
    unfold km_head. rewrite Hs, <-!app_assoc. rewrite (ReadFull_app 5 _ km_prefix) by done. bind.
    unfold km_prefix. idx x00. idx x00. idx x00. idx x00. pass. idx x02. pass.
    assert (∀ x, (if isServer then Ok (zeros PreMasterLen, (if isServer then [] else km_PreMaster km) ++ x)
      else ReadFull PreMasterLen "pre_master" ((if isServer then [] else km_PreMaster km) ++ x))
      = Ok (km_PreMaster km, x)) as ->.
    { intros x. destruct isServer; [by rewrite Hz|]. by apply ReadFull_app. }
    bind. rewrite (ReadFull_app _ _ _ _ H1). bind. rewrite (ReadFull_app _ _ _ _ H2). bind.
    rewrite (String_ok _ _ _ _ F1 S1). bind. rewrite (String_ok _ _ _ _ F2 S2). bind.
    rewrite (String_ok _ _ _ _ F3 S3). bind. rewrite (String_ok _ _ _ _ F4 S4). bind.
    by destruct km; cbn in *; subst.
Qed.

(** ** The encoder *)

Lemma find_nul_None i s : find_nul i s = None ↔ x00 ∉ s.
Proof.
  revert i. induction s as [|b s IH]; intros i; cbn; [set_solver|].
  case_bool_decide; [subst; set_solver|]. rewrite IH. set_solver.
Qed.

Lemma validateString_Ok s name :
  validateString s name = Ok tt ↔ zlen s + 1 ≤ 65535 ∧ x00 ∉ s.
Proof.
  unfold validateString, guard_err. destruct (Z.ltb_spec 65535 (zlen s + 1)); bind.
  - split; [done|lia].
  - destruct (find_nul 0 s) eqn:Hf.
    + split; [done|]. intros [_ Hn]. apply (find_nul_None 0) in Hn. congruence.
    + apply find_nul_None in Hf. done.
Qed.

Definition enc_string (s : bytes) : bytes := be_enc 2 (zlen s + 1) ++ s ++ [x00].

Lemma append_field out s :
  zlen s + 1 ≤ 65535 → appendLengthPrefixed out s = out ++ enc_string s.
Proof.
  intros Hs. unfold appendLengthPrefixed, enc_string, u16. by rewrite (be_enc_mod 2 2).
Qed.

Lemma enc_string_ne s : zlen s + 1 ≤ 65535 → enc_string s ≠ [x00; x00].
Proof.
  unfold enc_string. intros Hs He. apply (f_equal length) in He. bytes_len.
Qed.

(** What the encoder accepts: strings that fit with their NUL and contain none. *)
Definition sendable_string (s : bytes) : Prop := zlen s + 1 ≤ 65535 ∧ x00 ∉ s.
Definition km_sendable (km : KeyMethod2) : Prop :=
  sendable_string (km_Options km) ∧
  (km_AuthUserPass km = true → sendable_string (km_Username km) ∧ sendable_string (km_Password km)) ∧
  sendable_string (km_PeerInfo km).

(** Without credentials two absent fields are written. *)
Definition km_layout (km : KeyMethod2) : bytes :=
  km_head km ++ enc_string (km_Options km) ++
  (if km_AuthUserPass km then enc_string (km_Username km) else [x00; x00]) ++
  (if km_AuthUserPass km then enc_string (km_Password km) else [x00; x00]) ++
  enc_string (km_PeerInfo km).

Lemma validate_cases s name :
  sendable_string s ∧ validateString s name = Ok tt ∨
  ¬ sendable_string s ∧ ∃ e, validateString s name = Err e.
Proof.
  pose proof (validateString_Ok s name) as Hv. unfold sendable_string.
  destruct (validateString s name) as [[]|e|] eqn:He; [left|right|].
  - split; [by apply Hv|done].
  - split; [|by eexists]. intros H. apply Hv in H. done.
  - exfalso. revert He. unfold validateString. destruct (guard_err _ _) eqn:Hg; bind; try done.
    + by destruct (find_nul 0 s).
    + unfold guard_err in Hg. by destruct (65535 <? zlen s + 1).
Qed.

Lemma Marshal_cases km :
  km_sendable km ∧ MarshalKeyMethod2 km = Ok (km_layout km) ∨
  ¬ km_sendable km ∧ ∃ e, MarshalKeyMethod2 km = Err e.
Proof.
  unfold MarshalKeyMethod2, km_sendable, km_layout, km_head.
  destruct (validate_cases (km_Options km) "options") as [[Ho ->]|[Ho [e ->]]]; bind;
    [|right; split; [tauto|by eexists]].
  destruct (km_AuthUserPass km); bind.
  - destruct (validate_cases (km_Username km) "username") as [[Hu ->]|[Hu [e ->]]]; bind;
      [|right; split; [tauto|by eexists]].
    destruct (validate_cases (km_Password km) "password") as [[Hp ->]|[Hp [e ->]]]; bind;
      [|right; split; [tauto|by eexists]].
    destruct (validate_cases (km_PeerInfo km) "peer_info") as [[Hi ->]|[Hi [e ->]]]; bind;
      [|right; split; [tauto|by eexists]].
    left. split; [tauto|]. rewrite !append_field by (apply Ho || apply Hu || apply Hp || apply Hi).
    f_equal. destruct (km_IsServer km); by rewrite <-!app_assoc.
  - destruct (validate_cases (km_PeerInfo km) "peer_info") as [[Hi ->]|[Hi [e ->]]]; bind;
      [|right; split; [tauto|by eexists]].
    left. split; [by intuition|]. rewrite !append_field by (apply Ho || apply Hi).
    unfold appendEmptyString. f_equal. destruct (km_IsServer km); by rewrite <-!app_assoc.
Qed.

(** A message as the client builds it: without credentials there are none. *)
Record km_plain (km : KeyMethod2) : Prop := {
  kp_wf : km_wf (km_IsServer km) (km_AuthUserPass km) km;
  kp_nocred : km_AuthUserPass km = false → km_Username km = [] ∧ km_Password km = []
}.

Lemma km_layout_fields km :
  km_plain km → km_sendable km →
  ∃ e2 e3, km_layout km = km_head km ++ enc_string (km_Options km) ++ e2 ++ e3 ++
                          enc_string (km_PeerInfo km) ∧
    km_fields km (enc_string (km_Options km)) e2 e3 (enc_string (km_PeerInfo km)).
Proof.
  intros [_ Hn] ((Ho & _) & Hup & (Hi & _)). unfold km_layout. eexists _, _. split; [done|].
  destruct (km_AuthUserPass km).
  - destruct (Hup eq_refl) as [[Hu _] [Hp _]]. split; by constructor.
  - destruct (Hn eq_refl) as [Hu Hp]. split; rewrite ?Hu, ?Hp; by constructor.
Qed.

(** What is marshalled is read back from the stream, leaving what follows. *)
Lemma Marshal_Read km tail :
  km_plain km → km_sendable km → km_short km →
  ∃ d, MarshalKeyMethod2 km = Ok d ∧ ReadKeyMethod2 (km_IsServer km) (km_AuthUserPass km) (d ++ tail) = Ok (km, tail).
Proof.
  intros Hpl Hs Hsh. destruct (Marshal_cases km) as [[_ ->]|[Hn _]]; [|done]. eexists. split; [done|].
  destruct (km_layout_fields km Hpl Hs) as (e2 & e3 & -> & Hf). rewrite <-!app_assoc.
  apply Read_spec. split; [apply Hpl|]. split; [done|]. eexists _, _, _, _. by split.
Qed.

(** A KEY_METHOD 2 message survives the wire: marshalling succeeds exactly
    when every string it sends has no NUL and at most 65534 bytes, and then both
    readers give back the message, whatever follows it; the stream reader also
    leaves exactly what follows, for strings below its 16 KiB cap. *)
Theorem keymethod2_roundtrip km tail :
  km_plain km →
  (km_sendable km ↔ ∃ d, MarshalKeyMethod2 km = Ok d) ∧
  ∀ d, MarshalKeyMethod2 km = Ok d →
    ParseKeyMethod2 (d ++ tail) (km_IsServer km) (km_AuthUserPass km) = Ok km ∧
    (km_short km →
     ReadKeyMethod2 (km_IsServer km) (km_AuthUserPass km) (d ++ tail) = Ok (km, tail)).
Proof.
  intros Hpl. destruct (Marshal_cases km) as [[Hs ->]|[Hs [e ->]]]; [|naive_solver].
  split; [naive_solver|]. intros d [= <-].
  destruct (km_layout_fields km Hpl Hs) as (e2 & e3 & -> & Hf). rewrite <-!app_assoc.
  split; [apply Parse_spec|intros Hsh; apply Read_spec]; (split; [apply Hpl|]).
  - eexists _, _, _, _, _. split_and!; [done|done|]. apply enc_string_ne, Hs.
  - split; [done|]. eexists _, _, _, _. split; done.
Qed.

Definition sample_km : KeyMethod2 :=
  mkKeyMethod2 false (replicate 48 x07) (replicate 32 x01) (replicate 32 x02) [x56; x34]
    [x75] [x70; x77] true [].

Lemma keymethod2_roundtrip_witness :
  ∃ d, MarshalKeyMethod2 sample_km = Ok d ∧
    ReadKeyMethod2 false true (d ++ [x2a]) = Ok (sample_km, [x2a]).
Proof.
  eexists. split; [by vm_compute|].
  refine (proj2 (proj2 (keymethod2_roundtrip sample_km [x2a] _) _ _) _).
  - by split; [split; vm_compute|].
  - by vm_compute.
  - by split; vm_compute.
Defined.

(** Options of length zero are what the two readers disagree on. *)
Lemma Parse_absent_options (isServer auth : bool) km rest :
  km_wf isServer auth km →
  ParseKeyMethod2 (km_head km ++ [x00; x00] ++ rest) isServer auth = Err (ErrZeroLength "options").
Proof.
  intros Hw. pose proof (length_km_head _ _ _ Hw) as Hlen. destruct Hw as [Hs Ha Hpm Hz H1 H2].
  assert (∀ x, km_head km ++ x = km_prefix ++ (if isServer then [] else km_PreMaster km) ++
    km_Random1 km ++ km_Random2 km ++ x) as Hpe.
  { intros x. unfold km_head. by rewrite Hs, <-!app_assoc. }
  rewrite Hpe, Parse_head by done. rewrite bool_decide_eq_true_2 by done.
  rewrite <-Hpe, <-Hlen. unfold parse_fields, readLengthPrefixed. pass.
  rewrite (slice_app (km_head km) [x00; x00]) by done. bind. done.
Qed.

(** The slice parser and the stream reader agree: what the parser accepts
    the reader accepts with the same result, up to its 16 KiB cap; what the
    reader accepts the parser accepts, except that it insists on a non-empty
    options field. *)
Theorem keymethod2_readers_agree isServer auth d km :
  (ParseKeyMethod2 d isServer auth = Ok km → km_short km →
     ∃ r, ReadKeyMethod2 isServer auth d = Ok (km, r)) ∧
  (∀ r, ReadKeyMethod2 isServer auth d = Ok (km, r) →
     ParseKeyMethod2 d isServer auth = Ok km ∨
     ParseKeyMethod2 d isServer auth = Err (ErrZeroLength "options")).
Proof.
  split.
  - intros (Hw & e1 & e2 & e3 & e4 & r & Hd & Hf & _)%Parse_spec Hs. exists r. apply Read_spec.
    split_and!; [done|done|]. by exists e1, e2, e3, e4.
  - intros r (Hw & _ & e1 & e2 & e3 & e4 & Hd & Hf)%Read_spec.
    destruct (decide (e1 = [x00; x00])) as [->|Hne].
    + right. rewrite Hd. by apply Parse_absent_options.
    + left. apply Parse_spec. split; [done|]. by exists e1, e2, e3, e4, r.
Qed.

Lemma keymethod2_readers_agree_witness :
  ∃ d, ParseKeyMethod2 d false true = Ok sample_km ∧
    ∃ r, ReadKeyMethod2 false true d = Ok (sample_km, r).
Proof.
  exists (km_layout sample_km).
  assert (ParseKeyMethod2 (km_layout sample_km) false true = Ok sample_km) as H by (by vm_compute).
  split; [exact H|]. apply (proj1 (keymethod2_readers_agree _ _ _ _) H). by split; vm_compute.
Defined.

(** ** Text messages *)

Lemma read_message_loop_app buf s rest :
  x00 ∉ s → zlen buf + zlen s ≤ MaxControlMessageLen →
  read_message_loop buf (s ++ x00 :: rest) = Ok (buf ++ s, rest).
Proof.
  revert buf. induction s as [|b s IH]; intros buf Hn Hl; cbn [app read_message_loop].
  - destruct (Z.ltb_spec MaxControlMessageLen (zlen buf)); [unfold zlen in *; cbn in *; lia|].
    by rewrite bool_decide_eq_true_2, app_nil_r.
  - destruct (Z.ltb_spec MaxControlMessageLen (zlen buf)); [unfold zlen in *; cbn in *; lia|].
    rewrite bool_decide_eq_false_2 by set_solver.
    rewrite IH; [by rewrite <-app_assoc|set_solver|]. unfold zlen in *. rewrite length_app. cbn in *. lia.
Qed.

Lemma read_message_loop_inv buf r s rest :
  read_message_loop buf r = Ok (s, rest) →
  ∃ t, s = buf ++ t ∧ r = t ++ x00 :: rest ∧ (x00 ∉ t) ∧ zlen s ≤ MaxControlMessageLen.
Proof.
  revert buf. induction r as [|b r IH]; intros buf; cbn [read_message_loop];
    destruct (Z.ltb_spec MaxControlMessageLen (zlen buf)); try done.
  case_bool_decide as Hb.
  - subst. intros [= <- <-]. exists []. rewrite app_nil_r. split_and!; [done|done|set_solver|lia].
  - intros (t & -> & -> & Hn & Hl)%IH. exists (b :: t). rewrite <-app_assoc in *.
    split_and!; [done|done|set_solver|done].
Qed.

(** Reading [k] messages from a stream. *)
Fixpoint read_messages (k : nat) (r : bytes) : res ctl_error (list bytes * bytes) :=
  match k with
  | O => Ok ([], r)
  | S k => '(s, r) ← ReadControlMessage r; '(ss, r) ← read_messages k r; Ok (s :: ss, r)
  end.

(** A message is read exactly from its bytes and a NUL. *)
Lemma ReadControlMessage_iff r s rest :
  ReadControlMessage r = Ok (s, rest) ↔
    r = WriteControlMessage s ++ rest ∧ (x00 ∉ s) ∧ zlen s ≤ MaxControlMessageLen.
Proof.
  unfold ReadControlMessage, WriteControlMessage. split.
  - intros (t & -> & -> & Hn & Hl)%read_message_loop_inv. rewrite <-app_assoc. done.
  - intros (-> & Hn & Hl). rewrite <-app_assoc. cbn. by rewrite read_message_loop_app.
Qed.

(** The text messages of the control channel are framed by their NUL: a
    read succeeds with [s] and leaves [rest] exactly when the stream is what
    writing [s] sends followed by [rest], for a NUL-free [s] of at most 16384
    bytes; so a sequence of such messages is read back message by message. *)
Theorem control_messages_framed msgs rest :
  (∀ r s, ReadControlMessage r = Ok (s, rest) ↔
     r = WriteControlMessage s ++ rest ∧ (x00 ∉ s) ∧ zlen s ≤ MaxControlMessageLen) ∧
  (Forall (λ s, (x00 ∉ s) ∧ zlen s ≤ MaxControlMessageLen) msgs →
   read_messages (length msgs) (concat (WriteControlMessage <$> msgs) ++ rest) = Ok (msgs, rest)).
Proof.
  split; [intros; apply ReadControlMessage_iff|]. induction 1 as [|s msgs [Hn Hl] _ IH]; [done|].
  cbn [length fmap list_fmap concat read_messages]. rewrite <-app_assoc.
  rewrite (proj2 (ReadControlMessage_iff _ _ _)) by (split_and!; done). bind.
  change (list_fmap _ _ WriteControlMessage msgs) with (WriteControlMessage <$> msgs).
  by rewrite IH.
Qed.

Lemma control_messages_framed_witness :
  read_messages 2 (concat (WriteControlMessage <$> [[x41; x42]; []]) ++ [x43]) =
  Ok ([[x41; x42]; []], [x43]).
Proof.
  apply (proj2 (control_messages_framed [[x41; x42]; []] [x43])).
  repeat constructor; try set_solver; by vm_compute.
Defined.

(** ** Peer-info *)

Definition PeerInfo : Type := gmap string string.

Definition peerinfo_Set (key value : string) (pi : PeerInfo) : PeerInfo := <[key := value]> pi.

(** [fmt.Sprintf("%d", n)]. *)
Definition Sprintf_d (n : Z) : string := pretty n.

Definition NewPeerInfo (version platform : string) (ivProto : Z) (ciphers : string) (mtu : Z)
  : PeerInfo :=
  let pi := ∅ in
  let pi := peerinfo_Set "IV_VER" version pi in
  let pi := peerinfo_Set "IV_PLAT" platform pi in
  let pi := peerinfo_Set "IV_PROTO" (Sprintf_d ivProto) pi in
  let pi := peerinfo_Set "IV_NCP" "2" pi in
  let pi := peerinfo_Set "IV_CIPHERS" ciphers pi in
  peerinfo_Set "IV_MTU" (Sprintf_d mtu) pi.

Definition IVProtoDataV2 : Z := Z.shiftl 1 1.
Definition IVProtoRequestPush : Z := Z.shiftl 1 2.
Definition IVProtoTLSKeyExport : Z := Z.shiftl 1 3.
Definition IVProtoCCExitNotify : Z := Z.shiftl 1 7.
Definition DefaultClientIVProto : Z :=
  Z.lor (Z.lor (Z.lor IVProtoDataV2 IVProtoRequestPush) IVProtoTLSKeyExport) IVProtoCCExitNotify.

(** [runtime.GOOS] is an argument. *)
Definition DefaultPeerInfo (goos ciphers : string) : PeerInfo :=
  NewPeerInfo "2.6.0" goos DefaultClientIVProto ciphers 1500.

(** Byte-wise order of [sort.Strings]. *)
Fixpoint string_leb (a b : string) : bool :=
  match a, b with
  | EmptyString, _ => true
  | String _ _, EmptyString => false
  | String x a, String y b =>
      (Ascii.N_of_ascii x <? Ascii.N_of_ascii y)%N ||
      ((Ascii.N_of_ascii x =? Ascii.N_of_ascii y)%N && string_leb a b)
  end.

Definition newline : string := String (Ascii.ascii_of_nat 10) "".

Definition peerinfo_line (pi : PeerInfo) (k : string) : string :=
  k +:+ "=" +:+ default "" (pi !! k) +:+ newline.

Definition peerinfo_Encode (pi : PeerInfo) : string :=
  let keys := merge_sort (λ a b, Is_true (string_leb a b)) (map_to_list pi).*1 in
  foldl (λ b k, b +:+ peerinfo_line pi k) "" keys.

Example DefaultPeerInfo_Encode :
  peerinfo_Encode (DefaultPeerInfo "linux" "AES-256-GCM") =
  "IV_CIPHERS=AES-256-GCM" +:+ newline +:+ "IV_MTU=1500" +:+ newline +:+ "IV_NCP=2" +:+ newline +:+
  "IV_PLAT=linux" +:+ newline +:+ "IV_PROTO=142" +:+ newline +:+ "IV_VER=2.6.0" +:+ newline.
Proof. vm_compute. reflexivity. Qed.
