(* ===== verification/DataChannel.v ===== *)
(** The data channel, [internal/data]: the AEAD wrapper ([aead.go]) and the
    per-key-id slot ([slot.go]), on top of the replay window of [Replay.v].  The
    ciphers themselves ([crypto/cipher], [x/crypto/chacha20poly1305]) are a
    class, with the documented laws as a second class.  [Open] reorders the
    packet in place before decrypting: the buffer it leaves is part of its
    result.  Packets are values here; the pooled buffers they live in are [Buffers]. *)
From S2P Require Import Prelude Wire Replay.
Local Open Scope Z_scope.

(** ** The ciphers *)

Class Aead := {
  aead_key : Type;   (* a keyed cipher.AEAD *)
  aead_new : string → bytes → option aead_key;   (* aes.NewCipher + NewGCM, chacha20poly1305.New *)
  aead_Seal : aead_key → bytes → bytes → bytes → bytes;   (* nonce, plaintext, additional data *)
  aead_Open : aead_key → bytes → bytes → bytes → option bytes   (* nonce, ciphertext, additional data *)
}.

Definition NonceLen : nat := 12.
Definition TagLen : nat := 16.
Definition ImplicitIVLen : nat := 8.

(** The tag is appended to a ciphertext as long as the plaintext, and opening
    succeeds exactly on what sealing produces. *)
Class AeadLaws (C : Aead) := {
  aead_Seal_length k n p a : length (aead_Seal k n p a) = (length p + TagLen)%nat;
  aead_Open_iff k n c a p : aead_Open k n c a = Some p ↔ c = aead_Seal k n p a
}.

Inductive data_error : Type :=
  | ErrKeyLength (cipher : string) (have : nat)
  | ErrUnsupportedAEAD (cipher : string)
  | ErrCipher                       (* the error of the cipher's constructor *)
  | ErrPeerIDRange (peer : Z)
  | ErrPacketIDExhausted
  | ErrSealLength (n : nat)
  | ErrHeader (e : proto_error)
  | ErrKeyMismatch (kid : Z)
  | ErrPeerMismatch (peer : Z)
  | ErrNoTag (n : nat)
  | ErrReplay (pid : Z)
  | ErrDataShort
  | ErrOpen.

Section aead.
Context `{C : Aead}.

Definition check_key (cipher : string) (want : nat) (key : bytes) : res data_error aead_key :=
  guard_err (negb (length key =? want)%nat) (ErrKeyLength cipher (length key));;
  match aead_new cipher key with Some a => Ok a | None => Err ErrCipher end.

Definition NewAEAD (cipherName : string) (key : bytes) : res data_error aead_key :=
  if bool_decide (cipherName = "AES-256-GCM") then check_key cipherName 32 key
  else if bool_decide (cipherName = "AES-128-GCM") then check_key cipherName 16 key
  else if bool_decide (cipherName = "CHACHA20-POLY1305") then check_key cipherName 32 key
  else Err (ErrUnsupportedAEAD cipherName).

Definition makeNonce (packetID : Z) (implicitIV : bytes) : bytes := be_enc 4 packetID ++ implicitIV.

Definition makeAAD (opcodeKID : byte) (peerID packetID : Z) : bytes :=
  [opcodeKID; z2b (Z.shiftr peerID 16); z2b (Z.shiftr peerID 8); z2b peerID] ++ be_enc 4 packetID.

Definition aead_open (a : aead_key) (nonce ciphertext aad : bytes) : res data_error bytes :=
  guard_err (length ciphertext <? TagLen)%nat ErrDataShort;;
  match aead_Open a nonce ciphertext aad with Some p => Ok p | None => Err ErrOpen end.

(** ** Slots *)

Definition PacketIDRekeyThreshold : Z := Z.shiftl 1 31.

Record Slot := mkSlot {
  s_KeyID : Z;
  s_PeerID : Z;
  s_sendAEAD : aead_key;
  s_sendIV : bytes;      (* [8]byte *)
  s_sendPID : Z;         (* atomic.Uint32 *)
  s_recvAEAD : aead_key;
  s_recvIV : bytes;
  s_recvWin : ReplayWindow
}.

Definition set_sendPID (pid : Z) (s : Slot) : Slot :=
  mkSlot (s_KeyID s) (s_PeerID s) (s_sendAEAD s) (s_sendIV s) pid (s_recvAEAD s) (s_recvIV s) (s_recvWin s).
Definition set_recvWin (w : ReplayWindow) (s : Slot) : Slot :=
  mkSlot (s_KeyID s) (s_PeerID s) (s_sendAEAD s) (s_sendIV s) (s_sendPID s) (s_recvAEAD s) (s_recvIV s) w.

Record SlotConfig := mkSlotConfig {
  sc_KeyID : Z;
  sc_PeerID : Z;
  sc_Cipher : string;
  sc_SendKey : bytes;
  sc_SendIV : bytes;
  sc_RecvKey : bytes;
  sc_RecvIV : bytes;
  sc_ReplaySize : Z
}.

Definition NewSlot (cfg : SlotConfig) : res data_error Slot :=
  guard_err (negb (Z.ldiff (sc_PeerID cfg) 0x00FFFFFF =? 0)) (ErrPeerIDRange (sc_PeerID cfg));;
  sa ← NewAEAD (sc_Cipher cfg) (sc_SendKey cfg);
  ra ← NewAEAD (sc_Cipher cfg) (sc_RecvKey cfg);
  Ok (mkSlot (sc_KeyID cfg) (sc_PeerID cfg) sa (sc_SendIV cfg) 0 ra (sc_RecvIV cfg)
        (NewReplayWindow (sc_ReplaySize cfg))).

(** [Seal]: the counter advances whatever the outcome.  The working buffer is
    header, tag slot and the output of the cipher; the tag moves into its slot. *)
Definition Seal (plaintext : bytes) (s : Slot) : Slot * res data_error bytes :=
  let pid := u32 (s_sendPID s + 1) in
  let s := set_sendPID pid s in
  (s,
   guard_err (PacketIDRekeyThreshold <=? pid) ErrPacketIDExhausted;;
   let opcodeKID := PackOpcodeKID PDataV2 (s_KeyID s) in
   let nonce := makeNonce pid (s_sendIV s) in
   let aad := makeAAD opcodeKID (s_PeerID s) pid in
   let hdr := [opcodeKID; z2b (Z.shiftr (s_PeerID s) 16); z2b (Z.shiftr (s_PeerID s) 8);
               z2b (s_PeerID s)] ++ be_enc 4 pid in
   let sealed := aead_Seal (s_sendAEAD s) nonce plaintext aad in
   guard_err (negb (length sealed =? length plaintext + TagLen)%nat) (ErrSealLength (length sealed));;
   tag ← slice sealed (length plaintext) (length plaintext + TagLen);
   ct ← slice sealed 0 (length plaintext);
   Ok (hdr ++ tag ++ ct)).

(** The tag moves from the front of the body to its end. *)
Definition reorder (body : bytes) : bytes := drop TagLen body ++ take TagLen body.

(** [Open]: the slot, the packet buffer and the result. *)
Definition Open (packet : bytes) (s : Slot) : Slot * bytes * res data_error bytes :=
  match ParseDataV2Header packet with
  | Err e => (s, packet, Err (ErrHeader e))
  | Panic => (s, packet, Panic)
  | Ok (hdr, body) =>
      if negb (dh_KeyID hdr =? s_KeyID s) then (s, packet, Err (ErrKeyMismatch (dh_KeyID hdr)))
      else if negb (dh_PeerID hdr =? s_PeerID s) then (s, packet, Err (ErrPeerMismatch (dh_PeerID hdr)))
      else if (length body <? TagLen)%nat then (s, packet, Err (ErrNoTag (length body)))
      else if negb (Test (s_recvWin s) (dh_PacketID hdr)) then (s, packet, Err (ErrReplay (dh_PacketID hdr)))
      else
        let body := reorder body in
        let packet := take DataV2HeaderLen packet ++ body in
        match index packet 0 with
        | Ok opcodeKID =>
            let nonce := makeNonce (dh_PacketID hdr) (s_recvIV s) in
            let aad := makeAAD opcodeKID (dh_PeerID hdr) (dh_PacketID hdr) in
            match aead_open (s_recvAEAD s) nonce body aad with
            | Ok plaintext =>
                let '(w, ok) := Accept (s_recvWin s) (dh_PacketID hdr) in
                (set_recvWin w s, packet,
                 if ok then Ok plaintext else Err (ErrReplay (dh_PacketID hdr)))
            | Err e => (s, packet, Err e)
            | Panic => (s, packet, Panic)
            end
        | Err e => (s, packet, Err e)
        | Panic => (s, packet, Panic)
        end
  end.

(** [OpenInto] appends the plaintext to [dst]; checks and accounting as [Open]. *)
Definition OpenInto (dst packet : bytes) (s : Slot) : Slot * bytes * res data_error bytes :=
  let '(s, packet, r) := Open packet s in
  (s, packet, match r with Ok p => Ok (dst ++ p) | Err e => Err e | Panic => Panic end).

Definition SendPID (s : Slot) : Z := s_sendPID s.

(** No input makes the two operations of a slot panic, whatever its state. *)
Lemma Seal_no_panic p s : no_panic (Seal p s).2.
Proof.
  unfold Seal. cbn [snd]. apply no_panic_guard. intros _. apply no_panic_guard.
  intros Hl%negb_false_iff%Nat.eqb_eq. safe lia.
Qed.

Lemma Open_no_panic pkt s : no_panic (Open pkt s).2.
Proof.
  unfold Open. pose proof (ParseDataV2Header_no_panic pkt) as Hh.
  destruct (ParseDataV2Header pkt) as [[hdr body]|e|] eqn:Hp; [|done|done].
  do 2 (destruct (negb _); [done|]). destruct (_ <? _)%nat; [done|]. destruct (negb _); [done|].
  assert (0 < length pkt)%nat as Hl.
  { destruct pkt; [by vm_compute in Hp|cbn; lia]. }
  destruct pkt as [|b pkt]; [cbn in Hl; lia|]. cbn [take DataV2HeaderLen app].
  rewrite (index_Ok _ 0 b) by done. unfold aead_open, guard_err.
  destruct (_ <? _)%nat; [done|]. bind. destruct (aead_Open _ _ _ _); [|done].
  by destruct (Accept _ _) as [? []].
Qed.

Lemma OpenInto_no_panic dst pkt s : no_panic (OpenInto dst pkt s).2.
Proof.
  unfold OpenInto. pose proof (Open_no_panic pkt s) as H. destruct (Open pkt s) as [[s' buf] r]. by destruct r.
Qed.
End aead.

(** ** What a packet is *)

Section packets.
Context `{C : Aead} `{L : !AeadLaws C}.

(** The packet carrying [plaintext] under [pid]: header, tag, ciphertext. *)
Definition data_packet (key : aead_key) (iv : bytes) (kid peer pid : Z) (plaintext : bytes) : bytes :=
  let hdr := DataV2Header_AppendBinary (mkDataV2Header kid peer pid) [] in
  let sealed := aead_Seal key (makeNonce pid iv) plaintext hdr in
  hdr ++ drop (length plaintext) sealed ++ take (length plaintext) sealed.

(** The Go types of a slot, and a replay window in a reachable state. *)
Record slot_wf (s : Slot) (w : spec_window) : Prop := {
  sl_kid : 0 ≤ s_KeyID s < 8;
  sl_peer : is_u24 (s_PeerID s);
  sl_pid : is_u32 (s_sendPID s);
  sl_win : rg_rel (s_recvWin s) w
}.

Definition recv_packet (s : Slot) (pid : Z) (plaintext : bytes) : bytes :=
  data_packet (s_recvAEAD s) (s_recvIV s) (s_KeyID s) (s_PeerID s) pid plaintext.
Definition send_packet (s : Slot) (pid : Z) (plaintext : bytes) : bytes :=
  data_packet (s_sendAEAD s) (s_sendIV s) (s_KeyID s) (s_PeerID s) pid plaintext.

Lemma aad_header kid peer pid :
  makeAAD (PackOpcodeKID PDataV2 kid) peer pid =
  DataV2Header_AppendBinary (mkDataV2Header kid peer pid) [].
Proof. done. Qed.

Lemma Seal_spec p s :
  Seal p s = (set_sendPID (u32 (s_sendPID s + 1)) s,
    if PacketIDRekeyThreshold <=? u32 (s_sendPID s + 1) then Err ErrPacketIDExhausted
    else Ok (send_packet s (u32 (s_sendPID s + 1)) p)).
Proof.
  unfold Seal, guard_err. set (pid := u32 (s_sendPID s + 1)).
  cbn [set_sendPID s_KeyID s_PeerID s_sendAEAD s_sendIV].
  destruct (PacketIDRekeyThreshold <=? pid); [done|]. bind. rewrite aead_Seal_length.
  rewrite Nat.eqb_refl. cbn [negb]. bind.
  rewrite (slice_Ok _ (length p)) by (rewrite aead_Seal_length; lia). bind.
  rewrite (slice_Ok _ 0) by (rewrite aead_Seal_length; lia). bind.
  rewrite Nat.sub_0_r, drop_0, (take_ge (drop _ _)); [done|].
  rewrite length_drop, aead_Seal_length. lia.
Qed.

(** The in-place reordering undoes the layout of the sender, and only that. *)
Lemma reorder_iff body sealed n :
  length sealed = (n + TagLen)%nat → (TagLen ≤ length body)%nat →
  reorder body = sealed ↔ body = drop n sealed ++ take n sealed.
Proof.
  intros Hs Hb. unfold reorder. split.
  - intros <-. rewrite length_app, length_drop, length_take in Hs.
    rewrite drop_app_length', take_app_length' by (rewrite length_drop; lia). by rewrite take_drop.
  - intros ->. rewrite drop_app_length', take_app_length' by (rewrite length_drop; lia). apply take_drop.
Qed.

Lemma length_data_header h : length (DataV2Header_AppendBinary h []) = DataV2HeaderLen.
Proof. done. Qed.

Lemma recv_packet_parse s w pid p :
  slot_wf s w → is_u32 pid →
  let sealed := aead_Seal (s_recvAEAD s) (makeNonce pid (s_recvIV s)) p
    (DataV2Header_AppendBinary (mkDataV2Header (s_KeyID s) (s_PeerID s) pid) []) in
  ParseDataV2Header (recv_packet s pid p) =
  Ok (mkDataV2Header (s_KeyID s) (s_PeerID s) pid,
      drop (length p) sealed ++ take (length p) sealed).
Proof. intros [Hk Hp _ _] Hpid. apply Parse_data_header. by split. Qed.

(** Decrypting the reordered body succeeds exactly on the sender's layout. *)
Lemma open_body_iff k iv h body p :
  (TagLen ≤ length body)%nat →
  let hdr := DataV2Header_AppendBinary h [] in
  aead_open k (makeNonce (dh_PacketID h) iv) (reorder body) hdr = Ok p ↔
  hdr ++ body = data_packet k iv (dh_KeyID h) (dh_PeerID h) (dh_PacketID h) p.
Proof.
  intros Hb. cbn zeta. unfold aead_open, data_packet, guard_err.
  set (hdr := DataV2Header_AppendBinary h []).
  replace (DataV2Header_AppendBinary (mkDataV2Header _ _ _) []) with hdr by by destruct h.
  assert (length (reorder body) = length body) as Hl.
  { unfold reorder. rewrite length_app, length_drop, length_take. lia. }
  rewrite Hl. destruct (Nat.ltb_spec (length body) TagLen); [lia|]. bind.
  rewrite (inj_iff (app hdr)).
  rewrite <-reorder_iff by (try done; apply aead_Seal_length).
  rewrite <-aead_Open_iff. destruct (aead_Open _ _ _ _); naive_solver.
Qed.

(** Every packet is either accepted, as the packet of a fresh packet-id that
    the key's holder produces, or rejected without a trace in the slot. *)
Inductive open_result (s : Slot) (w : spec_window) (pkt : bytes)
  : Slot * bytes * res data_error bytes → Prop :=
  | open_accepted pid p buf :
      is_u32 pid → spec_fresh w pid = true → pkt = recv_packet s pid p →
      open_result s w pkt (set_recvWin (Accept (s_recvWin s) pid).1 s, buf, Ok p)
  | open_rejected e buf :
      (∀ pid p, is_u32 pid → spec_fresh w pid = true → pkt ≠ recv_packet s pid p) →
      open_result s w pkt (s, buf, Err e).

Lemma Open_cases s w pkt : slot_wf s w → open_result s w pkt (Open pkt s).
Proof.
  intros Hs. unfold Open.
  assert (∀ pid p, is_u32 pid → spec_fresh w pid = true → pkt = recv_packet s pid p →
    ∃ body, ParseDataV2Header pkt = Ok (mkDataV2Header (s_KeyID s) (s_PeerID s) pid, body) ∧
      (TagLen ≤ length body)%nat ∧ Test (s_recvWin s) pid = true) as Hgood.
  { intros pid p Hpid Hfr ->. rewrite (recv_packet_parse s w) by done. eexists. split; [done|].
    rewrite length_app, length_drop, length_take, aead_Seal_length. split; [lia|].
    rewrite <-Hfr. exact (rg_Test_ok (s_recvWin s) w pid (sl_win s w Hs) Hpid). }
  pose proof (ParseDataV2Header_no_panic pkt) as Hnp.
  destruct (ParseDataV2Header pkt) as [[hdr body]|e|] eqn:Hpar; [| |done].
  2: { apply open_rejected. intros pid p Hpid Hfr Heq.
       destruct (Hgood pid p Hpid Hfr Heq) as (? & ? & _). congruence. }
  assert (∀ e buf, (∀ pid p, is_u32 pid → hdr = mkDataV2Header (s_KeyID s) (s_PeerID s) pid →
      (TagLen ≤ length body)%nat → Test (s_recvWin s) pid = true → pkt ≠ recv_packet s pid p) →
    open_result s w pkt (s, buf, Err e)) as Hrej.
  { intros e buf H. apply open_rejected. intros pid p Hpid Hfr Heq.
    destruct (Hgood pid p Hpid Hfr Heq) as (body' & [= -> ->] & Hl & Ht). by eapply H. }
  clear Hgood. destruct (Z.eqb_spec (dh_KeyID hdr) (s_KeyID s)) as [Hk|]; cbn [negb];
    [|apply Hrej; intros pid p _ ->; done].
  destruct (Z.eqb_spec (dh_PeerID hdr) (s_PeerID s)) as [Hp|]; cbn [negb];
    [|apply Hrej; intros pid p _ ->; done].
  destruct (Nat.ltb_spec (length body) TagLen) as [|Hb]; [apply Hrej; intros; lia|].
  destruct (Test (s_recvWin s) (dh_PacketID hdr)) eqn:Ht; cbn [negb];
    [|apply Hrej; intros pid p _ ->; cbn in Ht; congruence].
  apply Parse_data_header in Hpar as [[_ _ Hpid] ->].
  rewrite take_app_length' by done.
  rewrite (index_Ok _ 0 (PackOpcodeKID PDataV2 (s_KeyID s))) by (by rewrite <-Hk).
  rewrite Hp, aad_header.
  assert (hdr = mkDataV2Header (s_KeyID s) (s_PeerID s) (dh_PacketID hdr)) as Hhdr
    by (destruct hdr; cbn in *; congruence).
  rewrite <-Hhdr.
  pose proof (λ p, open_body_iff (s_recvAEAD s) (s_recvIV s) hdr body p Hb) as Hiff. cbn zeta in Hiff.
  destruct (aead_open _ _ _ _) as [p|e|] eqn:Ho.
  - pose proof (proj1 (Hiff p) eq_refl) as Hpkt. rewrite Hk, Hp in Hpkt.
    destruct (rg_Accept_ok (s_recvWin s) w (dh_PacketID hdr) (sl_win s w Hs) Hpid) as [Hacc _].
    pose proof (rg_Test_ok (s_recvWin s) w (dh_PacketID hdr) (sl_win s w Hs) Hpid) as Htest.
    cbn [rg_Accept rg_Test ReplayWindow_guard] in Hacc, Htest. rewrite Ht in Htest.
    destruct (Accept (s_recvWin s) (dh_PacketID hdr)) as [w' ok] eqn:Hw. cbn [snd] in Hacc.
    rewrite Hacc, <-Htest.
    replace w' with (Accept (s_recvWin s) (dh_PacketID hdr)).1 by by rewrite Hw.
    apply open_accepted; [done|by rewrite <-Htest|exact Hpkt].
  - apply Hrej. intros pid p Hu Heq _ _ Hpkt.
    assert (Err e = Ok p); [|done]. apply Hiff. rewrite Hpkt.
    unfold recv_packet. rewrite Heq. done.
  - unfold aead_open, guard_err in Ho. destruct (_ <? _)%nat; [done|]. cbn in Ho.
    by destruct (aead_Open _ _ _ _).
Qed.

(** ** Sequences of packets *)

(** Opening a sequence of packets: the ones accepted, with their plaintexts. *)
Fixpoint open_all (pkts : list bytes) (s : Slot) : Slot * list (bytes * bytes) :=
  match pkts with
  | [] => (s, [])
  | pkt :: pkts =>
      match Open pkt s with
      | (s, _, Ok p) => let '(s, acc) := open_all pkts s in (s, (pkt, p) :: acc)
      | (s, _, _) => open_all pkts s
      end
  end.

(** Sealing a sequence of plaintexts. *)
Fixpoint seal_all (pts : list bytes) (s : Slot) : Slot * list (res data_error bytes) :=
  match pts with
  | [] => (s, [])
  | p :: pts =>
      let '(s, r) := Seal p s in
      let '(s, rs) := seal_all pts s in (s, r :: rs)
  end.

Lemma slot_wf_accept s w pid :
  slot_wf s w → is_u32 pid → slot_wf (set_recvWin (Accept (s_recvWin s) pid).1 s) (spec_accept w pid).1.
Proof.
  intros [? ? ? Hw] Hp. split; try done.
  exact (proj2 (rg_Accept_ok (s_recvWin s) w pid Hw Hp)).
Qed.

Lemma open_all_spec pkts s w :
  slot_wf s w →
  ∃ pids, NoDup pids ∧ (∀ pid, pid ∈ pids → is_u32 pid ∧ pid ∉ sw_seen w) ∧
    Forall2 (λ pid x, x.1 = recv_packet s pid x.2) pids (open_all pkts s).2.
Proof.
  revert s w. induction pkts as [|pkt pkts IH]; intros s w Hs; cbn [open_all].
  { exists []. split_and!; [apply NoDup_nil_2|set_solver|constructor]. }
  destruct (Open_cases s w pkt Hs) as [pid p buf Hu Hfr ->|e buf _]; [|by apply IH].
  destruct (IH _ _ (slot_wf_accept s w pid Hs Hu)) as (pids & Hnd & Hin & Hall).
  destruct (open_all pkts _) as [s' acc]. cbn [snd] in *.
  exists (pid :: pids). split_and!.
  - apply list.NoDup_cons. split; [|done]. intros Hp. destruct (Hin pid Hp) as [_ Hns].
    by apply Hns, spec_accept_self.
  - intros q [->|Hq]%elem_of_cons.
    + split; [done|]. intros Hseen. apply (spec_fresh_seen w pid) in Hseen; [congruence|].
      exact (rg_rel_wf (s_recvWin s) w (sl_win s w Hs)).
    + destruct (Hin q Hq) as [? Hns]. split; [done|]. intros Hseen.
      by apply Hns, spec_accept_seen.
  - constructor; [done|]. exact Hall.
Qed.

Lemma NewSlot_wf cfg s :
  0 ≤ sc_KeyID cfg < 8 → is_u32 (sc_PeerID cfg) → 0 ≤ sc_ReplaySize cfg < 2 ^ 32 →
  NewSlot cfg = Ok s →
  slot_wf s (spec_init (if sc_ReplaySize cfg =? 0 then DefaultReplayWindow else sc_ReplaySize cfg)).
Proof.
  intros Hk Hu Hr H. unfold NewSlot in H. apply bind_Ok in H as ([] & Hg & H).
  unfold guard_err in Hg. destruct (Z.eqb_spec (Z.ldiff (sc_PeerID cfg) 0xFFFFFF) 0) as [Hd|]; [|done].
  apply bind_Ok in H as (sa & _ & H). apply bind_Ok in H as (ra & _ & [= <-]).
  split; cbn; [done| |unfold is_u32; lia|by apply NewReplayWindow_rel].
  assert (sc_PeerID cfg = Z.land (sc_PeerID cfg) (Z.ones 24)) as ->.
  { change 0xFFFFFF with (Z.ones 24) in Hd. apply Z.bits_inj'. intros i Hi.
    apply (f_equal (λ z, Z.testbit z i)) in Hd. rewrite Z.ldiff_spec, Z.bits_0 in Hd.
    rewrite Z.land_spec. destruct (Z.testbit (sc_PeerID cfg) i), (Z.testbit (Z.ones 24) i); done. }
  unfold is_u24. rewrite Z.land_ones by done. apply Z.mod_pos_bound. lia.
Qed.

(** C32: whatever packets arrive, in any order and number, the ones a slot
    accepts are exactly packets its peer's key produces for the plaintexts
    returned, with pairwise distinct packet-ids: nothing is forged, altered or
    replayed. *)
Theorem accepted_packets_authentic cfg s pkts :
  0 ≤ sc_KeyID cfg < 8 → is_u32 (sc_PeerID cfg) → 0 ≤ sc_ReplaySize cfg < 2 ^ 32 →
  NewSlot cfg = Ok s →
  ∃ pids, NoDup pids ∧ Forall is_u32 pids ∧
    Forall2 (λ pid x, x.1 = recv_packet s pid x.2) pids (open_all pkts s).2.
Proof.
  intros Hk Hu Hr Hn. destruct (open_all_spec pkts s _ (NewSlot_wf cfg s Hk Hu Hr Hn))
    as (pids & Hnd & Hin & Hall).
  exists pids. split_and!; [done| |done]. apply list.Forall_forall. intros p Hp. by apply Hin.
Qed.

(** A rejected packet leaves the slot as it was, replay window included;
    a packet is accepted exactly when it is the one of a fresh packet-id, and
    then only the window changes, to remember that packet-id. *)
Theorem Open_all_or_nothing s w pkt :
  slot_wf s w →
  match Open pkt s with
  | (s', _, Ok p) => ∃ pid, is_u32 pid ∧ spec_fresh w pid = true ∧ pkt = recv_packet s pid p ∧
      s' = set_recvWin (Accept (s_recvWin s) pid).1 s ∧ slot_wf s' (spec_mark w pid)
  | (s', _, Err _) => s' = s ∧
      ∀ pid p, is_u32 pid → spec_fresh w pid = true → pkt ≠ recv_packet s pid p
  | (_, _, Panic) => False
  end.
Proof.
  intros Hs. destruct (Open_cases s w pkt Hs) as [pid p buf Hu Hfr ->|e buf Hno]; [|done].
  exists pid. split_and!; try done. pose proof (slot_wf_accept s w pid Hs Hu) as Hw.
  unfold spec_accept in Hw. by rewrite Hfr in Hw.
Qed.

(** A receiver with the sender's key material. *)
Record paired (tx rx : Slot) : Prop := {
  pr_key : s_recvAEAD rx = s_sendAEAD tx;
  pr_iv : s_recvIV rx = s_sendIV tx;
  pr_kid : s_KeyID rx = s_KeyID tx;
  pr_peer : s_PeerID rx = s_PeerID tx
}.

Lemma paired_packet tx rx pid p : paired tx rx → send_packet tx pid p = recv_packet rx pid p.
Proof. intros [Hk Hi Hd Hp]. unfold send_packet, recv_packet. by rewrite Hk, Hi, Hd, Hp. Qed.

(** The packet-id and plaintext of a sealed packet can be read off it. *)
Lemma recv_packet_inj s w pid1 p1 pid2 p2 :
  slot_wf s w → is_u32 pid1 → is_u32 pid2 →
  recv_packet s pid1 p1 = recv_packet s pid2 p2 → pid1 = pid2 ∧ p1 = p2.
Proof.
  intros Hs H1 H2 Heq.
  pose proof (recv_packet_parse s w pid1 p1 Hs H1) as Hp1.
  pose proof (recv_packet_parse s w pid2 p2 Hs H2) as Hp2. cbn zeta in *.
  rewrite Heq, Hp2 in Hp1. injection Hp1 as Hpid Hbody. subst pid2. split; [done|].
  set (hdr := DataV2Header_AppendBinary _ []) in *.
  assert (∀ p, aead_Open (s_recvAEAD s) (makeNonce pid1 (s_recvIV s))
    (reorder (drop (length p) (aead_Seal (s_recvAEAD s) (makeNonce pid1 (s_recvIV s)) p hdr) ++
              take (length p) (aead_Seal (s_recvAEAD s) (makeNonce pid1 (s_recvIV s)) p hdr))) hdr = Some p)
    as Hopen.
  { intros p. apply aead_Open_iff. eapply reorder_iff; [apply aead_Seal_length| |done].
    rewrite length_app, length_drop, length_take, aead_Seal_length. lia. }
  pose proof (Hopen p1) as Ho1. pose proof (Hopen p2) as Ho2.
  rewrite Hbody in Ho2. congruence.
Qed.

(** A packet a slot seals is opened by the peer's slot to the same
    plaintext exactly when its packet-id is fresh there: never seen, and newer
    than anything seen or within the replay window of it. *)
Theorem seal_open_roundtrip tx rx w p pkt :
  paired tx rx → slot_wf rx w → (Seal p tx).2 = Ok pkt →
  (spec_fresh w (SendPID (Seal p tx).1) = true ↔ (Open pkt rx).2 = Ok p) ∧
  length pkt = (DataV2HeaderLen + TagLen + length p)%nat.
Proof.
  intros Hp Hw. rewrite Seal_spec. cbn [fst snd]. unfold SendPID. cbn [s_sendPID set_sendPID].
  set (pid := u32 (s_sendPID tx + 1)). destruct (_ <=? _); [done|]. intros [= <-].
  rewrite (paired_packet tx rx) by done. split.
  - destruct (Open_cases rx w (recv_packet rx pid p) Hw) as [pid' p' buf Hu Hfr Heq|e buf Hno].
    + apply (recv_packet_inj rx w) in Heq as [<- <-]; [|done|apply u32_range|done]. done.
    + split; [|done]. intros Hfr. by destruct (Hno pid p (u32_range _) Hfr).
  - unfold recv_packet, data_packet. rewrite length_app, length_data_header, length_app, length_drop,
      length_take, aead_Seal_length. lia.
Qed.

(** Everything sealed is delivered in order when the network keeps order:
    opening the packets of a fresh sender one after the other gives back the
    plaintexts, for every number of packets below the rekey threshold. *)
Theorem in_order_delivery tx rx w pts :
  paired tx rx → slot_wf tx w → slot_wf rx w → s_sendPID tx = sw_highest w →
  s_sendPID tx + zlen pts < PacketIDRekeyThreshold →
  ∃ pkts, (seal_all pts tx).2 = Ok <$> pkts ∧ (open_all pkts rx).2 = zip pkts pts.
Proof.
  intros Hp Htx Hrx Hh Hlen.
  assert (sw_highest w ≤ s_sendPID tx) as Hle by lia. clear Hh.
  assert (0 ≤ s_sendPID tx) as H0 by apply Htx. clear Htx.
  revert tx rx w Hp Hrx Hle Hlen H0. induction pts as [|p pts IH]; intros tx rx w Hp Hrx Hle Hlen H0.
  { by exists []. }
  unfold zlen in Hlen. cbn [length] in Hlen.
  assert (PacketIDRekeyThreshold = 2 ^ 31) as Hth by done. rewrite Hth in *.
  assert (u32 (s_sendPID tx + 1) = s_sendPID tx + 1) as Hpid by (apply u32_small; unfold is_u32; lia).
  cbn [seal_all]. rewrite Seal_spec, Hpid, Hth.
  destruct (Z.leb_spec (2 ^ 31) (s_sendPID tx + 1)); [lia|].
  rewrite (paired_packet tx rx) by done. set (pid := s_sendPID tx + 1) in *.
  assert (is_u32 pid) as Hu by (unfold is_u32; lia).
  pose proof (spec_wf_highest w (rg_rel_wf (s_recvWin rx) w (sl_win rx w Hrx))) as Hhi. unfold is_u32 in Hhi.
  assert (spec_fresh w pid = true) as Hfr.
  { unfold spec_fresh. apply andb_true_iff. split; [apply negb_true_iff, Z.eqb_neq; lia|].
    apply orb_true_iff. left. apply Z.ltb_lt. lia. }
  destruct (IH (set_sendPID pid tx) (set_recvWin (Accept (s_recvWin rx) pid).1 rx)
    (spec_accept w pid).1) as (pkts & Hsealed & Hopened).
  - by destruct Hp; split.
  - by apply slot_wf_accept.
  - unfold spec_accept. rewrite Hfr. cbn. lia.
  - cbn. unfold zlen. lia.
  - cbn. lia.
  - exists (recv_packet rx pid p :: pkts).
    destruct (seal_all pts _) as [s' rs]. cbn [snd] in *. subst rs. split; [done|].
    cbn [open_all zip].
    destruct (Open_cases rx w (recv_packet rx pid p) Hrx) as [pid' p' buf Hu' Hfr' Heq|e buf Hno].
    2: { by destruct (Hno pid p Hu Hfr). }
    apply (recv_packet_inj rx w) in Heq as [<- <-]; [|done..].
    destruct (open_all pkts _) as [s'' acc]. cbn [snd] in *. by rewrite Hopened.
Qed.

(** ** Nonces *)

Lemma makeNonce_inj iv pid1 pid2 :
  is_u32 pid1 → is_u32 pid2 → makeNonce pid1 iv = makeNonce pid2 iv → pid1 = pid2.
Proof.
  intros H1 H2 H. unfold makeNonce in H. apply app_inj_1 in H as [H _]; [|done].
  rewrite <-(be_dec_enc_small 4 pid1), <-(be_dec_enc_small 4 pid2) by done. by rewrite H.
Qed.

Lemma seal_all_lookup pts s i r :
  0 ≤ s_sendPID s → s_sendPID s + zlen pts < 2 ^ 32 → (seal_all pts s).2 !! i = Some r →
  ∃ p, pts !! i = Some p ∧
    let pid := s_sendPID s + Z.of_nat i + 1 in
    r = if PacketIDRekeyThreshold <=? pid then Err ErrPacketIDExhausted else Ok (send_packet s pid p).
Proof.
  revert s i. induction pts as [|p pts IH]; intros s i H0 Hlen; [done|].
  unfold zlen in *. cbn [length] in Hlen. cbn [seal_all]. rewrite Seal_spec.
  assert (u32 (s_sendPID s + 1) = s_sendPID s + 1) as Hpid by (apply u32_small; unfold is_u32; lia).
  rewrite Hpid. destruct (seal_all pts _) as [s' rs] eqn:He. cbn [snd].
  destruct i as [|i]; cbn.
  - intros [= <-]. exists p. split; [done|]. by rewrite Z.add_0_r.
  - intros Hr. destruct (IH (set_sendPID (s_sendPID s + 1) s) i) as (q & Hq & ->).
    + cbn. lia.
    + cbn. lia.
    + by rewrite He.
    + exists q. split; [done|]. cbn [s_sendPID set_sendPID].
      by replace (s_sendPID s + 1 + Z.of_nat i + 1) with (s_sendPID s + Z.of_nat (S i) + 1) by lia.
Qed.

(** Below 2^32 calls, the packets a slot seals all use different nonces,
    and from the rekey threshold 2^31 on it refuses to seal. *)
Theorem seal_nonces_unique pts s i j pkt1 pkt2 :
  0 ≤ s_sendPID s → s_sendPID s + zlen pts < 2 ^ 32 → i ≠ j →
  (seal_all pts s).2 !! i = Some (Ok pkt1) → (seal_all pts s).2 !! j = Some (Ok pkt2) →
  ∃ pid1 pid2 p1 p2, pkt1 = send_packet s pid1 p1 ∧ pkt2 = send_packet s pid2 p2 ∧
    makeNonce pid1 (s_sendIV s) ≠ makeNonce pid2 (s_sendIV s) ∧
    pid1 < PacketIDRekeyThreshold ∧ pid2 < PacketIDRekeyThreshold.
Proof.
  intros H0 Hlen Hij Hi Hj.
  assert (∀ k r, (seal_all pts s).2 !! k = Some r → (k < length pts)%nat) as Hk.
  { intros k r Hr. destruct (seal_all_lookup pts s k r H0 Hlen Hr) as (p & Hp & _).
    by apply lookup_lt_Some in Hp. }
  pose proof (Hk _ _ Hi) as Hik. pose proof (Hk _ _ Hj) as Hjk. unfold zlen in *.
  apply seal_all_lookup in Hi as (p1 & _ & H1); [|done..].
  apply seal_all_lookup in Hj as (p2 & _ & H2); [|done..]. cbn zeta in *.
  destruct (Z.leb_spec PacketIDRekeyThreshold (s_sendPID s + Z.of_nat i + 1)); [done|].
  destruct (Z.leb_spec PacketIDRekeyThreshold (s_sendPID s + Z.of_nat j + 1)); [done|].
  injection H1 as ->. injection H2 as ->. eexists _, _, _, _. split_and!; [done|done| |done|done].
  intros Hn%makeNonce_inj; unfold is_u32; lia.
Qed.

(** The packet-id of the [i]-th of a sequence of calls. *)
Definition nth_pid (s : Slot) (i : nat) : Z := u32 (s_sendPID s + Z.of_nat i + 1).

Lemma u32_add_l a b : u32 (u32 a + b) = u32 (a + b).
Proof. unfold u32. by rewrite Zplus_mod_idemp_l. Qed.

Lemma seal_all_counter pts : ∀ s,
  is_u32 (s_sendPID s) → s_sendPID (seal_all pts s).1 = u32 (s_sendPID s + zlen pts).
Proof.
  induction pts as [|p pts IH]; intros s Hs; [by unfold zlen; cbn; rewrite Z.add_0_r, u32_small|].
  cbn [seal_all]. rewrite Seal_spec. pose proof (IH (set_sendPID (u32 (s_sendPID s + 1)) s) (u32_range _)) as H.
  destruct (seal_all pts _) as [s' rs]. cbn [fst s_sendPID set_sendPID] in *. rewrite H, u32_add_l. unfold zlen. cbn [length].
  f_equal. lia.
Qed.

Lemma seal_all_results pts : ∀ s i,
  (seal_all pts s).2 !! i =
    (λ p, if PacketIDRekeyThreshold <=? nth_pid s i then Err ErrPacketIDExhausted else Ok (send_packet s (nth_pid s i) p)) <$> pts !! i.
Proof.
  induction pts as [|p pts IH]; intros s i; [done|]. cbn [seal_all]. rewrite Seal_spec.
  pose proof (IH (set_sendPID (u32 (s_sendPID s + 1)) s)) as H.
  destruct (seal_all pts _) as [s' rs]. cbn [snd] in *. destruct i as [|i].
  - cbn. unfold nth_pid. cbn. by rewrite Z.add_0_r.
  - cbn. rewrite H. assert (nth_pid (set_sendPID (u32 (s_sendPID s + 1)) s) i = nth_pid s (S i)) as ->; [|done].
    unfold nth_pid. cbn [s_sendPID set_sendPID]. rewrite <-Z.add_assoc, u32_add_l. f_equal. lia.
Qed.

Lemma nth_pid_inj s i j : nth_pid s i = nth_pid s j ↔ Z.of_nat i mod 2 ^ 32 = Z.of_nat j mod 2 ^ 32.
Proof. unfold nth_pid, u32. Z.div_mod_to_equations. lia. Qed.

(** C34: the packet-id counter over any number of calls of [Seal].  Every call
    advances it by one modulo 2^32, those that are refused too; call number [i]
    is refused exactly when its packet-id is from the rekey threshold 2^31 on, and
    otherwise seals its plaintext under that packet-id; and two calls use the same
    nonce exactly when they are a multiple of 2^32 calls apart. *)
Theorem seal_counter_wraps pts s :
  is_u32 (s_sendPID s) →
  s_sendPID (seal_all pts s).1 = u32 (s_sendPID s + zlen pts) ∧
  (∀ i, (seal_all pts s).2 !! i =
     (λ p, let pid := u32 (s_sendPID s + Z.of_nat i + 1) in
        if 2 ^ 31 <=? pid then Err ErrPacketIDExhausted else Ok (send_packet s pid p)) <$> pts !! i) ∧
  (∀ i j, makeNonce (u32 (s_sendPID s + Z.of_nat i + 1)) (s_sendIV s) = makeNonce (u32 (s_sendPID s + Z.of_nat j + 1)) (s_sendIV s) ↔
     Z.of_nat i mod 2 ^ 32 = Z.of_nat j mod 2 ^ 32).
Proof.
  intros Hs. split_and!; [by apply seal_all_counter|apply seal_all_results|]. intros i j. rewrite <-(nth_pid_inj s). split.
  - intros H%makeNonce_inj; [done|apply u32_range..].
  - unfold nth_pid. by intros ->.
Qed.
End packets.

(** ** An instance of the interface *)

(** A cipher with the laws: the tag is a checksum of key, nonce, additional
    data and plaintext. *)
Definition toy_tag (k n p a : bytes) : bytes := be_enc 16 (be_dec (k ++ n ++ a ++ p) + zlen p).

#[export] Instance toy_aead : Aead := {|
  aead_key := bytes;
  aead_new _ k := Some k;
  aead_Seal k n p a := (bxor x5a <$> p) ++ toy_tag k n p a;
  aead_Open k n c a :=
    let p := bxor x5a <$> take (length c - TagLen) c in
    if bool_decide (c = (bxor x5a <$> p) ++ toy_tag k n p a) then Some p else None
|}.

Lemma bxor_involutive b x : bxor b (bxor b x) = x.
Proof.
  apply b2z_inj. rewrite !b2z_bxor, <-Z.lxor_assoc, Z.lxor_nilpotent. apply Z.lxor_0_l.
Qed.

Lemma toy_decrypt k n p a :
  bxor x5a <$> take (length ((bxor x5a <$> p) ++ toy_tag k n p a) - TagLen)
                 ((bxor x5a <$> p) ++ toy_tag k n p a) = p.
Proof.
  rewrite length_app, length_fmap. unfold toy_tag. rewrite length_be_enc, Nat.add_sub.
  rewrite take_app_length' by (by rewrite length_fmap).
  rewrite <-list_fmap_compose. rewrite <-(list_fmap_id p) at 2.
  apply list_fmap_ext. intros i x _. apply bxor_involutive.
Qed.

#[export] Instance toy_laws : AeadLaws toy_aead.
Proof.
  split.
  - intros k n p a. cbn. rewrite length_app, length_fmap. done.
  - intros k n c a p. cbn. split.
    + case_bool_decide as Hc; [|done]. by intros [= <-].
    + intros ->. rewrite toy_decrypt. by rewrite bool_decide_eq_true_2.
Qed.

Module Sample.
Definition key : bytes := replicate 32 x11.
Definition iv : bytes := replicate 8 x22.
Definition slot : Slot := mkSlot 1 5 key iv 0 key iv (NewReplayWindow 0).
Definition cfg : SlotConfig := mkSlotConfig 1 5 "AES-256-GCM" key iv key iv 0.
Lemma made : NewSlot cfg = Ok slot.
Proof. reflexivity. Qed.
Lemma wf : slot_wf slot (spec_init DefaultReplayWindow).
Proof. apply (NewSlot_wf cfg slot); [done|done|done|apply made]. Qed.
Lemma self_paired : paired slot slot.
Proof. done. Qed.
Definition pkt (n : nat) (p : bytes) : bytes := send_packet slot (Z.of_nat n) p.
End Sample.

Lemma accepted_packets_authentic_witness :
  (open_all [Sample.pkt 2 [x41]; Sample.pkt 2 [x41]; Sample.pkt 1 [x42]] Sample.slot).2.*2 = [[x41]; [x42]] ∧
  ∃ pids, NoDup pids ∧ Forall is_u32 pids ∧
    Forall2 (λ pid x, x.1 = recv_packet Sample.slot pid x.2) pids
      (open_all [Sample.pkt 2 [x41]; Sample.pkt 2 [x41]; Sample.pkt 1 [x42]] Sample.slot).2.
Proof.
  split; [by vm_compute|]. apply (accepted_packets_authentic Sample.cfg); [done|done|done|].
  exact Sample.made.
Defined.

Lemma Open_all_or_nothing_witness :
  (Open (Sample.pkt 3 [x41]) Sample.slot).2 = Ok [x41] ∧
  match Open (Sample.pkt 3 [x41]) Sample.slot with
  | (s', _, Ok p) => ∃ pid, is_u32 pid ∧ spec_fresh (spec_init DefaultReplayWindow) pid = true ∧
      Sample.pkt 3 [x41] = recv_packet Sample.slot pid p ∧
      s' = set_recvWin (Accept (s_recvWin Sample.slot) pid).1 Sample.slot ∧
      slot_wf s' (spec_mark (spec_init DefaultReplayWindow) pid)
  | (s', _, Err _) => s' = Sample.slot ∧
      ∀ pid p, is_u32 pid → spec_fresh (spec_init DefaultReplayWindow) pid = true →
        Sample.pkt 3 [x41] ≠ recv_packet Sample.slot pid p
  | (_, _, Panic) => False
  end.
Proof.
  split; [vm_compute; reflexivity|].
  exact (Open_all_or_nothing Sample.slot _ (Sample.pkt 3 [x41]) Sample.wf).
Defined.

Lemma seal_open_roundtrip_witness :
  (Seal [x41; x42] Sample.slot).2 = Ok (Sample.pkt 1 [x41; x42]) ∧
  (Open (Sample.pkt 1 [x41; x42]) Sample.slot).2 = Ok [x41; x42].
Proof.
  assert ((Seal [x41; x42] Sample.slot).2 = Ok (Sample.pkt 1 [x41; x42])) as H
    by (vm_compute; reflexivity).
  split; [exact H|].
  refine (proj1 (proj1 (seal_open_roundtrip Sample.slot Sample.slot _ [x41; x42] _
    Sample.self_paired Sample.wf H)) _).
  vm_compute. reflexivity.
Defined.

Lemma in_order_delivery_witness :
  ∃ pkts, (seal_all [[x41]; []; [x43]] Sample.slot).2 = Ok <$> pkts ∧
    (open_all pkts Sample.slot).2 = zip pkts [[x41]; []; [x43]].
Proof.
  apply (in_order_delivery Sample.slot Sample.slot _ [[x41]; []; [x43]] Sample.self_paired Sample.wf Sample.wf);
    vm_compute; reflexivity.
Defined.

Lemma seal_nonces_unique_witness :
  ∃ pid1 pid2 p1 p2, Sample.pkt 1 [x41] = send_packet Sample.slot pid1 p1 ∧
    Sample.pkt 2 [x41] = send_packet Sample.slot pid2 p2 ∧
    makeNonce pid1 (s_sendIV Sample.slot) ≠ makeNonce pid2 (s_sendIV Sample.slot) ∧
    pid1 < PacketIDRekeyThreshold ∧ pid2 < PacketIDRekeyThreshold.
Proof.
  apply (seal_nonces_unique [[x41]; [x41]] Sample.slot 0 1); vm_compute; (done || reflexivity).
Defined.

(** The first call is refused and moves the counter to its end; the next are sealed
    under the packet-ids 0 and 1, which were used before. *)
Lemma seal_counter_wraps_witness :
  let s := set_sendPID (2 ^ 32 - 2) Sample.slot in
  (seal_all [[x41]; [x42]; [x43]] s).2 !! 0%nat = Some (Err ErrPacketIDExhausted) ∧
  (seal_all [[x41]; [x42]; [x43]] s).2 !! 1%nat = Some (Ok (send_packet s 0 [x42])) ∧
  (seal_all [[x41]; [x42]; [x43]] s).2 !! 2%nat = Some (Ok (send_packet s 1 [x43])) ∧
  s_sendPID (seal_all [[x41]; [x42]; [x43]] s).1 = 1.
Proof.
  cbn zeta. destruct (seal_counter_wraps [[x41]; [x42]; [x43]] (set_sendPID (2 ^ 32 - 2) Sample.slot)) as (H1 & H2 & _).
  { done. }
  split_and!; [exact (H2 0%nat)|exact (H2 1%nat)|exact (H2 2%nat)|exact H1].
Defined.
