(* ===== verification/ControlWrap.v ===== *)
(** The session's [controlWrapper] interface: what tls-crypt and tls-auth
    promise to the control channel, as a class, and what follows from it for
    any implementation.  The primitives both are built from ([crypto/hmac],
    [crypto/aes] in counter mode) are a second class with their documented
    properties. *)
From S2P Require Import Prelude Wire Replay.
Local Open Scope Z_scope.

(** ** Primitives *)

Inductive Digest : Type := SHA1 | SHA256 | SHA512.

Definition digest_size (d : Digest) : nat :=
  match d with SHA1 => 20 | SHA256 => 32 | SHA512 => 64 end.

Class Primitives := {
  hmac : Digest → bytes → bytes → bytes;          (* key, message *)
  aes_ctr : bytes → bytes → nat → bytes           (* key, IV: the first [n] bytes of key stream *)
}.

Class PrimitiveLaws (P : Primitives) := {
  length_hmac d k m : length (hmac d k m) = digest_size d;
  length_aes_ctr k iv n : length (aes_ctr k iv n) = n
}.

(** [XORKeyStream]. *)
Definition XORKeyStream `{Primitives} (key iv src : bytes) : bytes :=
  xor_bytes src (aes_ctr key iv (length src)).

Lemma length_XORKeyStream `{PrimitiveLaws} key iv src :
  length (XORKeyStream key iv src) = length src.
Proof. unfold XORKeyStream. apply length_xor_bytes. by rewrite length_aes_ctr. Qed.

Lemma XORKeyStream_cancel `{PrimitiveLaws} key iv src :
  XORKeyStream key iv (XORKeyStream key iv src) = src.
Proof.
  unfold XORKeyStream at 1. rewrite length_XORKeyStream. unfold XORKeyStream.
  apply xor_bytes_cancel. by rewrite length_aes_ctr.
Qed.

(** Decrypting to [p] and encrypting [p] are the same relation. *)
Lemma XORKeyStream_iff `{PrimitiveLaws} key iv c p :
  XORKeyStream key iv c = p ↔ c = XORKeyStream key iv p.
Proof. split; intros <- || intros ->; [symmetry|]; apply XORKeyStream_cancel. Qed.

(** ** The interface *)

Inductive wrap_error : Type :=
  | ErrWrapShort (n : nat)
  | ErrWrapReplay (pid : Z)
  | ErrAuthFailed.

(** What a wrapped packet carries in clear or under authentication. *)
Record wrapped := mkWrapped {
  wr_opcodeKID : byte;
  wr_sessionID : Z;
  wr_packetID : Z;
  wr_netTime : Z;
  wr_plain : bytes
}.

Record wrapped_wf (x : wrapped) : Prop := {
  wrw_sid : is_u64 (wr_sessionID x);
  wrw_pid : is_u32 (wr_packetID x);
  wrw_time : is_u32 (wr_netTime x)
}.

Class ControlWrapper (W : Type) := {
  (** [Wrap] with the clock as an argument *)
  cw_Wrap : Z → byte → Z → bytes → W → W * bytes;
  cw_Unwrap : bytes → W → W * res wrap_error (byte * Z * Z * bytes);
  (** the replay window of the receiving side *)
  cw_window : W → pidWindow;
  cw_set_window : pidWindow → W → W;
  (** the packet that the peer's key makes of [x] *)
  cw_packet : W → wrapped → bytes;
  (** what the constructor establishes *)
  cw_ok : W → Prop;
  cw_window_set w v : cw_window (cw_set_window v w) = v;
  (** the opcode byte travels first, in clear *)
  cw_packet_opcode w x : ∃ rest, cw_packet w x = wr_opcodeKID x :: rest;
  cw_packet_set w v x : cw_packet (cw_set_window v w) x = cw_packet w x;
  (** a packet is accepted exactly when it is the one of a fresh packet-id, and
      then only the window changes; otherwise nothing changes *)
  cw_Unwrap_accept w s x :
    cw_ok w → pid_rel (cw_window w) s → wrapped_wf x → spec_fresh s (wr_packetID x) = true →
    cw_Unwrap (cw_packet w x) w =
      (cw_set_window (pid_Accept (cw_window w) (wr_packetID x)).1 w,
       Ok (wr_opcodeKID x, wr_sessionID x, wr_packetID x, wr_plain x));
  cw_Unwrap_inv pkt w s w' r :
    pid_rel (cw_window w) s → cw_Unwrap pkt w = (w', r) →
    match r with
    | Ok (op, sid, pid, plain) =>
        ∃ x, wrapped_wf x ∧ pkt = cw_packet w x ∧
          (op, sid, pid, plain) = (wr_opcodeKID x, wr_sessionID x, wr_packetID x, wr_plain x) ∧
          spec_fresh s pid = true ∧ w' = cw_set_window (pid_Accept (cw_window w) pid).1 w
    | Err _ => w' = w
    | Panic => False
    end;
  (** no input makes it panic, whatever the state of the wrapper *)
  cw_Unwrap_safe pkt w : no_panic (cw_Unwrap pkt w).2
}.

(** ** Any sequence of packets *)

Section any_wrapper.
Context `{CW : ControlWrapper W}.

(** Unwrapping a sequence: the packets accepted, with their contents. *)
Fixpoint unwrap_all (pkts : list bytes) (w : W) : W * list (bytes * (byte * Z * Z * bytes)) :=
  match pkts with
  | [] => (w, [])
  | pkt :: pkts =>
      match cw_Unwrap pkt w with
      | (w, Ok v) => let '(w, acc) := unwrap_all pkts w in (w, (pkt, v) :: acc)
      | (w, _) => unwrap_all pkts w
      end
  end.

(** What is known of an accepted packet. *)
Definition authentic (w : W) (pid : Z) (r : bytes * (byte * Z * Z * bytes)) : Prop :=
  ∃ x, wrapped_wf x ∧ wr_packetID x = pid ∧ r.1 = cw_packet w x ∧
       r.2 = (wr_opcodeKID x, wr_sessionID x, wr_packetID x, wr_plain x).

Lemma unwrap_all_spec pkts w s :
  pid_rel (cw_window w) s →
  ∃ pids, NoDup pids ∧ (∀ p, p ∈ pids → is_u32 p ∧ p ∉ sw_seen s) ∧
    Forall2 (authentic w) pids (unwrap_all pkts w).2.
Proof.
  revert w s. induction pkts as [|pkt pkts IH]; intros w s Hs; cbn [unwrap_all].
  { exists []. split_and!; [apply NoDup_nil_2|set_solver|constructor]. }
  destruct (cw_Unwrap pkt w) as [w' r] eqn:Hu. apply (cw_Unwrap_inv pkt w s) in Hu; [|done].
  destruct r as [[[[op sid] pid] plain]|e|]; [|subst w'; by apply IH|done].
  destruct Hu as (x & Hx & -> & [= -> -> -> ->] & Hfr & ->). pose proof (wrw_pid x Hx) as Hp.
  destruct (pid_Accept_ok (cw_window w) s (wr_packetID x) Hs Hp) as [_ Hs'].
  destruct (IH (cw_set_window (pid_Accept (cw_window w) (wr_packetID x)).1 w)
    (spec_accept s (wr_packetID x)).1) as (pids & Hnd & Hin & Hall); [by rewrite cw_window_set|].
  destruct (unwrap_all pkts _) as [w'' acc]. cbn [snd] in *.
  exists (wr_packetID x :: pids). split_and!.
  - apply list.NoDup_cons. split; [|done]. intros Hx'. destruct (Hin _ Hx') as [_ Hns].
    by apply Hns, spec_accept_self.
  - intros q [->|Hq]%elem_of_cons.
    + split; [done|]. intros Hseen. apply (spec_fresh_seen s) in Hseen; [congruence|].
      exact (rg_rel_wf (cw_window w) s Hs).
    + destruct (Hin q Hq) as [? Hns]. split; [done|]. intros Hseen. by apply Hns, spec_accept_seen.
  - constructor; [by exists x|]. eapply list.Forall2_impl; [exact Hall|].
    intros q v (y & Hy & Hyp & Hpk & Hv). exists y. by rewrite cw_packet_set in Hpk.
Qed.
End any_wrapper.

(** ** An instance of the primitives *)

#[export] Instance toy_primitives : Primitives := {|
  hmac d k m := be_enc (digest_size d) (be_dec (k ++ m) + 7 * zlen m);
  aes_ctr k iv n := replicate n (List.last k x5a)
|}.

#[export] Instance toy_primitive_laws : PrimitiveLaws toy_primitives.
Proof. split; intros; cbn; [apply length_be_enc|apply length_replicate]. Qed.
