(* ===== verification/TlsCrypt.v ===== *)
(** [internal/tlscrypt]: static keys ([keys.go]), the tls-crypt packet
    protection ([v1.go]) and the wrapped client keys of tls-crypt-v2 ([v2.go]).
    [Unwrap] is an instance of the session's wrapper interface. *)
From S2P Require Import Prelude Wire Replay ControlWrap.
Local Open Scope Z_scope.

(** ** keys.go *)

Definition StaticKeyLen : nat := 256.

(** [type Direction int]: any integer. *)
Definition DirectionNormal : Z := 0.
Definition DirectionInverse : Z := 1.

Definition hmacKeyLen : nat := 32.
Definition cipherKeyLen : nat := 32.
Definition slotLen : nat := 64.

Record Keys := mkKeys {
  k_SendHMAC : bytes;   (* [32]byte *)
  k_SendCipher : bytes;
  k_RecvHMAC : bytes;
  k_RecvCipher : bytes
}.

(** [raw[off : off+n]] of a 256-byte array, within bounds. *)
Definition sub (raw : bytes) (off n : nat) : bytes := take n (drop off raw).

Definition DeriveKeys (raw : bytes) (dir : Z) : Keys :=
  let cipher0Off := 0%nat in
  let hmac0Off := slotLen in
  let cipher1Off := (2 * slotLen)%nat in
  let hmac1Off := (3 * slotLen)%nat in
  if dir =? DirectionInverse then
    mkKeys (sub raw hmac1Off hmacKeyLen) (sub raw cipher1Off cipherKeyLen)
           (sub raw hmac0Off hmacKeyLen) (sub raw cipher0Off cipherKeyLen)
  else
    mkKeys (sub raw hmac0Off hmacKeyLen) (sub raw cipher0Off cipherKeyLen)
           (sub raw hmac1Off hmacKeyLen) (sub raw cipher1Off cipherKeyLen).

Inductive key_error : Type :=
  | ErrNoEnvelope
  | ErrNoEndMarker
  | ErrKeyBody.   (* wrong number of hex characters, or not hex *)

(** [strings.Index]. *)
Fixpoint strings_Index_from (i : nat) (s sub : bytes) : option nat :=
  if bool_decide (sub = take (length sub) s) then Some i
  else match s with [] => None | _ :: s => strings_Index_from (S i) s sub end.
Definition strings_Index (s sub : bytes) : option nat := strings_Index_from 0 s sub.

Definition ascii_bytes (s : string) : bytes := String.list_byte_of_string s.

Fixpoint findMarker_words (data : bytes) (prefix suffix : string) (words : list string)
  : option (nat * nat) :=
  match words with
  | [] => None
  | word :: words =>
      let marker := ascii_bytes (prefix +:+ word +:+ suffix) in
      match strings_Index data marker with
      | Some i => Some (i, length marker)
      | None => findMarker_words data prefix suffix words
      end
  end.

Definition findMarker (data : bytes) (prefix suffix : string) : option (nat * nat) :=
  findMarker_words data prefix suffix ["Key"; "key"].

(** The characters dropped by the [strings.Map] of [ParseStaticKey]. *)
Definition is_space (b : byte) : bool :=
  bool_decide (b = x20) || bool_decide (b = x09) || bool_decide (b = x0d) || bool_decide (b = x0a).

Definition hex_value (b : byte) : option Z :=
  let c := b2z b in
  if (48 <=? c) && (c <=? 57) then Some (c - 48)
  else if (97 <=? c) && (c <=? 102) then Some (c - 97 + 10)
  else if (65 <=? c) && (c <=? 70) then Some (c - 65 + 10)
  else None.

(** [hex.DecodeString] of an even number of characters. *)
Fixpoint hex_DecodeString (s : bytes) : option bytes :=
  match s with
  | [] => Some []
  | a :: b :: s =>
      x ← hex_value a; y ← hex_value b; r ← hex_DecodeString s;
      Some (z2b (Z.lor (Z.shiftl x 4) y) :: r)
  | _ => None
  end.

(** A body with bytes outside ASCII fails in Go too, whatever [strings.Map]
    makes of them: none of them is whitespace or a hex digit. *)
Definition ParseStaticKey (data : bytes) : res key_error bytes :=
  match findMarker data "-----BEGIN OpenVPN Static " " V1-----" with
  | None => if (length data =? StaticKeyLen)%nat then Ok data else Err ErrNoEnvelope
  | Some (bi, beginLen) =>
      match findMarker data "-----END OpenVPN Static " " V1-----" with
      | None => Err ErrNoEndMarker
      | Some (ei, _) =>
          guard_err (ei <? bi)%nat ErrNoEndMarker;;
          body ← slice data (bi + beginLen) ei;
          let body := filter (λ b, is_space b = false) body in
          guard_err (negb (length body =? StaticKeyLen * 2)%nat) ErrKeyBody;;
          match hex_DecodeString body with Some decoded => Ok decoded | None => Err ErrKeyBody end
      end
  end.

(** ** v1.go *)

Definition hmacLen : nat := 32.
Definition pidLen : nat := 8.
Definition wrapPrefixLen : nat := pidLen + hmacLen.
Definition HeaderLen : nat := 1 + 8.
Definition MinWrappedLen : nat := HeaderLen + wrapPrefixLen.
Definition BlockSize : nat := 16.

Section tlscrypt.
Context `{P : Primitives}.

Record Wrapper := mkWrapper {
  w_keys : Keys;
  w_sendPID : Z;              (* atomic.Uint32 *)
  w_recvWin : pidWindow;
  w_firstWrapTrailer : bytes   (* nil and empty are not distinguished by the code *)
}.

Definition set_recvWin (v : pidWindow) (w : Wrapper) : Wrapper :=
  mkWrapper (w_keys w) (w_sendPID w) v (w_firstWrapTrailer w).

(** The AES key is 32 bytes: [aes.NewCipher] does not fail. *)
Definition New (rawKey : bytes) (dir : Z) : Wrapper :=
  mkWrapper (DeriveKeys rawKey dir) 0 pid_init [].

Definition SetFirstWrapTrailer (b : bytes) (w : Wrapper) : Wrapper :=
  mkWrapper (w_keys w) (w_sendPID w) (w_recvWin w) b.

(** The first 17 bytes of a packet: what is authenticated but not encrypted. *)
Definition wrap_header (opcodeKID : byte) (sessionID pid netTime : Z) : bytes :=
  [opcodeKID] ++ be_enc 8 sessionID ++ be_enc 4 pid ++ be_enc 4 netTime.

(** [now] is [time.Now().Unix()]. *)
Definition Wrap (now : Z) (opcodeKID : byte) (sessionID : Z) (plaintext : bytes) (w : Wrapper)
  : Wrapper * bytes :=
  let pid := u32 (w_sendPID w + 1) in
  let netTime := u32 now in
  let trailer := w_firstWrapTrailer w in
  let out := wrap_header opcodeKID sessionID pid netTime in
  let tag := hmac SHA256 (k_SendHMAC (w_keys w)) (out ++ plaintext) in
  let cipherSlot := XORKeyStream (k_SendCipher (w_keys w)) (take BlockSize tag) plaintext in
  (mkWrapper (w_keys w) pid (w_recvWin w) [], out ++ tag ++ cipherSlot ++ trailer).

Definition Unwrap (packet : bytes) (w : Wrapper) : Wrapper * res wrap_error (byte * Z * Z * bytes) :=
  let checked :=
    guard_err (length packet <? MinWrappedLen)%nat (ErrWrapShort (length packet));;
    opcodeKID ← index packet 0;
    sid ← slice packet 1 9;
    pid ← slice packet 9 13;
    gotHMAC ← slice packet 17 (17 + hmacLen);
    cipherText ← slice packet (17 + hmacLen) (length packet);
    iv ← slice gotHMAC 0 BlockSize;
    let plain := XORKeyStream (k_RecvCipher (w_keys w)) iv cipherText in
    guard_err (negb (pid_Test (w_recvWin w) (be_dec pid))) (ErrWrapReplay (be_dec pid));;
    ad ← slice packet 0 17;
    let expectedHMAC := hmac SHA256 (k_RecvHMAC (w_keys w)) (ad ++ plain) in
    guard_err (negb (bool_decide (gotHMAC = expectedHMAC))) ErrAuthFailed;;
    Ok (opcodeKID, be_dec sid, be_dec pid, plain) in
  match checked with
  | Ok (opcodeKID, sid, pid, plain) =>
      let '(win, accepted) := pid_Accept (w_recvWin w) pid in
      (set_recvWin win w,
       if accepted then Ok (opcodeKID, sid, pid, plain) else Err (ErrWrapReplay pid))
  | Err e => (w, Err e)
  | Panic => (w, Panic)
  end.

Definition SendPID (w : Wrapper) : Z := w_sendPID w.

(** ** v2.go *)

Definition V2BundlePEMType : string := "OpenVPN tls-crypt-v2 client key".
Definition V2TagLen : nat := 32.
Definition V2LenLen : nat := 2.
Definition V2MinWKcLen : nat := V2TagLen + StaticKeyLen + V2LenLen.

Inductive v2_error : Type :=
  | ErrWKcTooLarge (n : nat)
  | ErrWKcShort (n : nat)
  | ErrWKcLength
  | ErrWKcPlaintext
  | ErrWKcAuth
  | ErrNoPEM
  | ErrPEMType (t : string)
  | ErrBundleShort (n : nat)
  | ErrBundleLength (declared : Z) (actual : nat).

Record V2Bundle := mkV2Bundle {
  vb_Kc : bytes;
  vb_WKc : bytes
}.

Definition WrapWKc (kc metadata ka ke : bytes) : res v2_error bytes :=
  let plaintextLen := (StaticKeyLen + length metadata)%nat in
  let wkcLen := (V2TagLen + plaintextLen + V2LenLen)%nat in
  guard_err (0xFFFF <? Z.of_nat wkcLen) (ErrWKcTooLarge wkcLen);;
  let lenBuf := be_enc 2 (u16 (Z.of_nat wkcLen)) in
  let t := hmac SHA256 ka (lenBuf ++ kc ++ metadata) in
  iv ← slice t 0 BlockSize;
  let ct := XORKeyStream ke iv (kc ++ metadata) in
  Ok (t ++ ct ++ lenBuf).

Definition UnwrapWKc (wkc ka ke : bytes) : res v2_error (bytes * bytes) :=
  guard_err (length wkc <? V2MinWKcLen)%nat (ErrWKcShort (length wkc));;
  lenBuf ← slice wkc (length wkc - V2LenLen) (length wkc);
  guard_err (negb (be_dec lenBuf =? zlen wkc)) ErrWKcLength;;
  tag ← slice wkc 0 V2TagLen;
  ct ← slice wkc V2TagLen (length wkc - V2LenLen);
  guard_err (length ct <? StaticKeyLen)%nat ErrWKcPlaintext;;
  iv ← slice tag 0 BlockSize;
  let plain := XORKeyStream ke iv ct in
  let expected := hmac SHA256 ka (lenBuf ++ plain) in
  guard_err (negb (bool_decide (tag = expected))) ErrWKcAuth;;
  kc ← slice plain 0 StaticKeyLen;
  meta ← slice plain StaticKeyLen (length plain);
  Ok (kc, meta).

(** [pem.Decode] and [pem.EncodeToMemory]: block type and bytes. *)
Variable pem_Decode : bytes → option (string * bytes).
Variable pem_Encode : string → bytes → bytes.

Definition ParseClientBundleV2 (data : bytes) : res v2_error V2Bundle :=
  match pem_Decode data with
  | None => Err ErrNoPEM
  | Some (typ, body) =>
      guard_err (negb (bool_decide (typ = V2BundlePEMType))) (ErrPEMType typ);;
      guard_err (length body <? StaticKeyLen + V2MinWKcLen)%nat (ErrBundleShort (length body));;
      kc ← slice body 0 StaticKeyLen;
      wkc ← slice body StaticKeyLen (length body);
      lenBuf ← slice wkc (length wkc - V2LenLen) (length wkc);
      guard_err (negb (be_dec lenBuf =? zlen wkc)) (ErrBundleLength (be_dec lenBuf) (length wkc));;
      Ok (mkV2Bundle kc wkc)
  end.

Definition EncodeClientBundleV2 (kc wkc : bytes) : bytes :=
  pem_Encode V2BundlePEMType (kc ++ wkc).
End tlscrypt.

(** ** The packet protection is a wrapper *)

Section wrapper.
Context `{P : Primitives} `{PL : !PrimitiveLaws P}.

Lemma length_wrap_header op sid pid t : length (wrap_header op sid pid t) = 17%nat.
Proof. unfold wrap_header. bytes_len. Qed.

(** The packet that the holder of the sending keys makes of [x]. *)
Definition crypt_packet (cipher hkey : bytes) (x : wrapped) : bytes :=
  let out := wrap_header (wr_opcodeKID x) (wr_sessionID x) (wr_packetID x) (wr_netTime x) in
  let tag := hmac SHA256 hkey (out ++ wr_plain x) in
  out ++ tag ++ XORKeyStream cipher (take BlockSize tag) (wr_plain x).

(** [Unwrap] on a packet cut at its field boundaries. *)
Lemma Unwrap_eq op sid pid t tag ct w :
  is_u64 sid → is_u32 pid → length tag = hmacLen →
  let plain := XORKeyStream (k_RecvCipher (w_keys w)) (take BlockSize tag) ct in
  let r := Unwrap (wrap_header op sid pid t ++ tag ++ ct) w in
  if negb (pid_Test (w_recvWin w) pid) then r = (w, Err (ErrWrapReplay pid))
  else if bool_decide (tag = hmac SHA256 (k_RecvHMAC (w_keys w)) (wrap_header op sid pid t ++ plain))
  then r = (set_recvWin (pid_Accept (w_recvWin w) pid).1 w,
            if (pid_Accept (w_recvWin w) pid).2 then Ok (op, sid, pid, plain)
            else Err (ErrWrapReplay pid))
  else r = (w, Err ErrAuthFailed).
Proof.
  intros Hsid Hpid Htag plain r. subst r. unfold Unwrap, MinWrappedLen, wrapPrefixLen, hmacLen, pidLen, HeaderLen in *.
  assert (length (wrap_header op sid pid t ++ tag ++ ct) = 49 + length ct)%nat as Hlen.
  { rewrite !length_app, length_wrap_header. lia. }
  rewrite Hlen. pass_by ltac:(apply Nat.ltb_ge; lia).
  rewrite (index_Ok _ 0 op) by done. bind.
  assert (wrap_header op sid pid t ++ tag ++ ct =
    [op] ++ be_enc 8 sid ++ (be_enc 4 pid ++ be_enc 4 t ++ tag ++ ct)) as Hs1
    by (unfold wrap_header; by rewrite <-!app_assoc).
  assert (wrap_header op sid pid t ++ tag ++ ct =
    ([op] ++ be_enc 8 sid) ++ be_enc 4 pid ++ (be_enc 4 t ++ tag ++ ct)) as Hs2
    by (unfold wrap_header; by rewrite <-!app_assoc).
  assert (slice (E:=wrap_error) (wrap_header op sid pid t ++ tag ++ ct) 1 9 = Ok (be_enc 8 sid)) as ->
    by (rewrite Hs1; apply slice_app; bytes_len). bind.
  assert (slice (E:=wrap_error) (wrap_header op sid pid t ++ tag ++ ct) 9 13 = Ok (be_enc 4 pid)) as ->
    by (rewrite Hs2; apply slice_app; bytes_len). bind.
  rewrite (slice_app (wrap_header op sid pid t) tag ct 17 (17 + 32)) by (rewrite length_wrap_header; lia). bind.
  rewrite app_assoc, (slice_to_end (wrap_header op sid pid t ++ tag) ct (17 + 32) (49 + length ct))
    by (rewrite length_app, length_wrap_header; lia). bind.
  rewrite (slice_Ok tag 0 BlockSize) by (unfold BlockSize; lia). bind.
  rewrite !be_dec_enc_small by auto. rewrite Nat.sub_0_r, drop_0. fold plain.
  destruct (pid_Test (w_recvWin w) pid); cbn [negb]; [|by rewrite guard_fail].
  pass. rewrite <-app_assoc, (slice_app [] (wrap_header op sid pid t) (tag ++ ct) 0 17)
    by (rewrite ?length_wrap_header; done). bind.
  case_bool_decide; cbn [negb]; [|by rewrite guard_fail]. pass.
  by destruct (pid_Accept (w_recvWin w) pid).
Qed.

(** Every long enough packet has those boundaries. *)
Lemma crypt_split pkt :
  (MinWrappedLen ≤ length pkt)%nat →
  ∃ op sid pid t tag ct, is_u64 sid ∧ is_u32 pid ∧ is_u32 t ∧ length tag = hmacLen ∧
    pkt = wrap_header op sid pid t ++ tag ++ ct.
Proof.
  unfold MinWrappedLen, wrapPrefixLen, hmacLen, pidLen, HeaderLen. intros Hl.
  destruct pkt as [|op pkt]; [cbn in Hl; lia|]. cbn [length] in Hl.
  destruct (split_at 8 pkt) as (S & p1 & -> & HS); [lia|]. rewrite length_app in Hl.
  destruct (split_at 4 p1) as (Q & p2 & -> & HQ); [lia|]. rewrite length_app in Hl.
  destruct (split_at 4 p2) as (T & p3 & -> & HT); [lia|]. rewrite length_app in Hl.
  destruct (split_at 32 p3) as (tag & ct & -> & Htag); [lia|].
  exists op, (be_dec S), (be_dec Q), (be_dec T), tag, ct.
  split_and!; auto using be_dec_is_u64, be_dec_is_u32. unfold wrap_header.
  by rewrite (be_enc_dec_len 8), !(be_enc_dec_len 4), <-!app_assoc by done.
Qed.

Lemma Unwrap_accept w s x :
  pid_rel (w_recvWin w) s → wrapped_wf x → spec_fresh s (wr_packetID x) = true →
  Unwrap (crypt_packet (k_RecvCipher (w_keys w)) (k_RecvHMAC (w_keys w)) x) w =
    (set_recvWin (pid_Accept (w_recvWin w) (wr_packetID x)).1 w,
     Ok (wr_opcodeKID x, wr_sessionID x, wr_packetID x, wr_plain x)).
Proof.
  intros Hs [Hsid Hpid _] Hfr. unfold crypt_packet. set (tag := hmac _ _ _).
  pose proof (Unwrap_eq (wr_opcodeKID x) (wr_sessionID x) (wr_packetID x) (wr_netTime x) tag
    (XORKeyStream (k_RecvCipher (w_keys w)) (take BlockSize tag) (wr_plain x)) w
    Hsid Hpid (length_hmac _ _ _)) as H. cbn zeta in H.
  rewrite XORKeyStream_cancel in H.
  rewrite (pid_Test_ok _ s) in H by done. rewrite Hfr in H. cbn [negb] in H.
  rewrite bool_decide_eq_true_2 in H by done. rewrite H.
  destruct (pid_Accept_ok (w_recvWin w) s (wr_packetID x) Hs Hpid) as [-> _]. by rewrite Hfr.
Qed.

Lemma Unwrap_inv pkt w s w' r :
  pid_rel (w_recvWin w) s → Unwrap pkt w = (w', r) →
  match r with
  | Ok (op, sid, pid, plain) =>
      ∃ x, wrapped_wf x ∧ pkt = crypt_packet (k_RecvCipher (w_keys w)) (k_RecvHMAC (w_keys w)) x ∧
        (op, sid, pid, plain) = (wr_opcodeKID x, wr_sessionID x, wr_packetID x, wr_plain x) ∧
        spec_fresh s pid = true ∧ w' = set_recvWin (pid_Accept (w_recvWin w) pid).1 w
  | Err _ => w' = w
  | Panic => False
  end.
Proof.
  intros Hs Hu. destruct (decide (MinWrappedLen ≤ length pkt)%nat) as [Hl|Hl].
  2: { unfold Unwrap in Hu. rewrite guard_fail in Hu by (apply Nat.ltb_lt; lia). cbn in Hu. by simplify_eq. }
  destruct (crypt_split pkt Hl) as (op & sid & pid & t & tag & ct & Hsid & Hpid & Ht & Htag & ->).
  pose proof (Unwrap_eq op sid pid t tag ct w Hsid Hpid Htag) as H. cbn zeta in H. rewrite Hu in H.
  destruct (pid_Test (w_recvWin w) pid) eqn:Htest; cbn [negb] in H; [|by simplify_eq].
  case_bool_decide as Htg; [|by simplify_eq].
  rewrite (pid_Test_ok _ s) in Htest by done.
  destruct (pid_Accept_ok (w_recvWin w) s pid Hs Hpid) as [Hacc _]. rewrite Htest in Hacc.
  rewrite Hacc in H. simplify_eq.
  set (plain := XORKeyStream _ _ ct) in *. exists (mkWrapped op sid pid t plain).
  split; [done|]. split; [|done]. unfold crypt_packet; cbn [wr_opcodeKID wr_sessionID wr_packetID wr_netTime wr_plain]. rewrite <-Htg. do 2 f_equal.
  symmetry. apply XORKeyStream_cancel.
Qed.

Lemma Unwrap_safe pkt w : no_panic (Unwrap pkt w).2.
Proof.
  unfold Unwrap. set (checked := mbind _ _).
  assert (no_panic checked) as Hnp; [|destruct checked as [[[[? ?] ?] ?]|?|]; [|done|done];
    by destruct (pid_Accept _ _) as [? []]].
  subst checked. apply no_panic_guard. intros Hl%Nat.ltb_ge.
  unfold MinWrappedLen, HeaderLen, wrapPrefixLen, pidLen, BlockSize, hmacLen in *. safe lia.
Qed.

#[export] Instance TlsCrypt_wrapper : ControlWrapper Wrapper := {|
  cw_Wrap := Wrap;
  cw_Unwrap := Unwrap;
  cw_window := w_recvWin;
  cw_set_window := set_recvWin;
  cw_packet w := crypt_packet (k_RecvCipher (w_keys w)) (k_RecvHMAC (w_keys w));
  cw_ok _ := True;
  cw_window_set w v := eq_refl;
  cw_packet_opcode w x := ex_intro _ _ eq_refl;
  cw_packet_set w v x := eq_refl;
  cw_Unwrap_accept w s x _ := Unwrap_accept w s x;
  cw_Unwrap_inv := Unwrap_inv;
  cw_Unwrap_safe := Unwrap_safe
|}.

(** ** Both ends of a connection *)

(** Wrapping is making the packet of the next packet-id, plus the trailer. *)
Lemma Wrap_spec now op sid pt w :
  (Wrap now op sid pt w).2 =
  crypt_packet (k_SendCipher (w_keys w)) (k_SendHMAC (w_keys w))
    (mkWrapped op sid (u32 (w_sendPID w + 1)) (u32 now) pt) ++ w_firstWrapTrailer w.
Proof. unfold Wrap, crypt_packet. cbn. by rewrite <-!app_assoc. Qed.

(** With one static key the client's direction and the server's mirror
    each other: a packet either wraps is unwrapped by the other to the same
    opcode, session-id and payload, under the wrapper's counter, exactly when
    that packet-id is fresh there. *)
Theorem tls_crypt_roundtrip raw now op sid pt w r s (client : bool) :
  let dir := if client then DirectionInverse else DirectionNormal in
  let peer := if client then DirectionNormal else DirectionInverse in
  w_keys w = DeriveKeys raw dir → w_firstWrapTrailer w = [] → w_keys r = DeriveKeys raw peer →
  is_u64 sid → pid_rel (w_recvWin r) s →
  let '(w', pkt) := Wrap now op sid pt w in
  (spec_fresh s (SendPID w') = true ↔ (Unwrap pkt r).2 = Ok (op, sid, SendPID w', pt)) ∧
  w_firstWrapTrailer w' = [].
Proof.
  intros dir peer Hw Htr Hr Hsid Hs. pose proof (Wrap_spec now op sid pt w) as Hpkt.
  destruct (Wrap now op sid pt w) as [w' pkt] eqn:He. cbn [snd] in Hpkt.
  assert (SendPID w' = u32 (w_sendPID w + 1)) as -> by (unfold Wrap in He; by simplify_eq).
  split; [|unfold Wrap in He; by simplify_eq].
  set (x := mkWrapped op sid (u32 (w_sendPID w + 1)) (u32 now) pt) in *.
  assert (wrapped_wf x) as Hx by (split; [done|apply u32_range|apply u32_range]).
  assert (pkt = crypt_packet (k_RecvCipher (w_keys r)) (k_RecvHMAC (w_keys r)) x) as ->.
  { rewrite Hpkt, Htr, app_nil_r, Hw, Hr. by destruct client. }
  split.
  - intros Hfr. by rewrite (Unwrap_accept r s x).
  - destruct (Unwrap _ r) as [r' res] eqn:Hu. cbn [snd]. intros ->.
    apply (Unwrap_inv _ _ s) in Hu; [|done]. by destruct Hu as (_ & _ & _ & _ & ? & _).
Qed.
End wrapper.

(** ** Wrapped client keys *)

Section wkc.
Context `{P : Primitives} `{PL : !PrimitiveLaws P}.

Definition wkc_len (ct : bytes) : Z := Z.of_nat (V2TagLen + length ct + V2LenLen).

Lemma UnwrapWKc_eq tag ct lenBuf ka ke :
  length tag = V2TagLen → length lenBuf = V2LenLen → (StaticKeyLen ≤ length ct)%nat →
  let plain := XORKeyStream ke (take BlockSize tag) ct in
  UnwrapWKc (tag ++ ct ++ lenBuf) ka ke =
  if negb (be_dec lenBuf =? wkc_len ct) then Err ErrWKcLength
  else if bool_decide (tag = hmac SHA256 ka (lenBuf ++ plain))
  then Ok (take StaticKeyLen plain, drop StaticKeyLen plain) else Err ErrWKcAuth.
Proof.
  unfold UnwrapWKc, V2MinWKcLen, wkc_len, V2TagLen, V2LenLen, StaticKeyLen. intros Ht Hl Hc.
  set (plain := XORKeyStream ke (take BlockSize tag) ct).
  assert (length (tag ++ ct ++ lenBuf) = 32 + length ct + 2)%nat as Hlen by (rewrite !length_app; lia).
  unfold zlen. rewrite Hlen. pass_by ltac:(apply Nat.ltb_ge; lia).
  rewrite (app_assoc tag) at 1.
  rewrite (slice_to_end (tag ++ ct) lenBuf (32 + length ct + 2 - 2)) by (rewrite ?length_app; lia). bind.
  unfold guard_err. destruct (negb _); [done|]. bind.
  rewrite (slice_app [] tag (ct ++ lenBuf) 0 32) by (cbn; lia). bind.
  rewrite (slice_app tag ct lenBuf 32 (32 + length ct + 2 - 2)) by lia. bind.
  destruct (Nat.ltb_spec (length ct) 256); [lia|]. bind.
  rewrite (slice_Ok tag 0 BlockSize) by (unfold BlockSize; lia). bind.
  rewrite Nat.sub_0_r, drop_0. fold plain. case_bool_decide; [|done]. cbn [negb]. bind.
  assert (length plain = length ct) as Hp by apply length_XORKeyStream.
  rewrite (slice_Ok plain 0 256) by lia. bind. rewrite (slice_Ok plain 256) by lia. bind.
  rewrite Nat.sub_0_r, drop_0, (take_ge (drop 256 plain)); [done|]. rewrite length_drop. lia.
Qed.

Lemma wkc_split (wkc : bytes) :
  (V2MinWKcLen ≤ length wkc)%nat →
  ∃ tag ct lenBuf, wkc = tag ++ ct ++ lenBuf ∧ length tag = V2TagLen ∧ length lenBuf = V2LenLen ∧
    (StaticKeyLen ≤ length ct)%nat.
Proof.
  unfold V2MinWKcLen, V2TagLen, V2LenLen, StaticKeyLen. intros H.
  destruct (split_at 32 wkc) as (tag & r & -> & Ht); [lia|]. rewrite length_app in H.
  destruct (split_at (length r - 2) r) as (ct & l & -> & Hc); [lia|].
  rewrite length_app in *. exists tag, ct, l. split_and!; [done|done|lia|lia].
Qed.

(** The server unwraps a wrapped client key to [(kc, metadata)] exactly
    when wrapping them with the same master keys gives that blob: nothing is
    lost, nothing altered is accepted, and the length field is authenticated. *)
Theorem wkc_wire wkc ka ke kc metadata :
  UnwrapWKc wkc ka ke = Ok (kc, metadata) ↔
  length kc = StaticKeyLen ∧ WrapWKc kc metadata ka ke = Ok wkc.
Proof.
  unfold WrapWKc, guard_err. split.
  - intros H. destruct (decide (V2MinWKcLen ≤ length wkc)%nat) as [Hl|Hl].
    2: { unfold UnwrapWKc in H. rewrite guard_fail in H by (apply Nat.ltb_lt; lia). done. }
    destruct (wkc_split wkc Hl) as (tag & ct & lenBuf & -> & Ht & Hlb & Hc).
    rewrite UnwrapWKc_eq in H by done.
    destruct (Z.eqb_spec (be_dec lenBuf) (wkc_len ct)) as [Hd|]; cbn [negb] in H; [|done].
    case_bool_decide as Htag; [|done]. set (plain := XORKeyStream _ _ ct) in *.
    injection H as <- <-. assert (length plain = length ct) as Hp by apply length_XORKeyStream.
    unfold StaticKeyLen in *. rewrite length_take, length_drop, take_drop. split; [lia|].
    pose proof (be_dec_range lenBuf) as Hr. unfold zlen in Hr. rewrite Hlb in Hr.
    unfold wkc_len, V2TagLen, V2LenLen in *.
    replace (32 + (256 + (length plain - 256)) + 2)%nat with (32 + length ct + 2)%nat by lia.
    rewrite <-Hd. destruct (Z.ltb_spec 0xFFFF (be_dec lenBuf)); [lia|]. bind.
    assert (be_enc 2 (u16 (be_dec lenBuf)) = lenBuf) as ->.
    { unfold u16. rewrite Z.mod_small by lia. by apply be_enc_dec_len. }
    rewrite <-Htag, (slice_Ok tag 0) by (unfold BlockSize; lia). bind.
    rewrite Nat.sub_0_r, drop_0. subst plain. by rewrite XORKeyStream_cancel.
  - intros [Hkc H]. unfold StaticKeyLen, V2TagLen, V2LenLen in H.
    set (n := (32 + (256 + length metadata) + 2)%nat) in *.
    destruct (Z.ltb_spec 0xFFFF (Z.of_nat n)); [done|]. revert H. bind.
    set (lenBuf := be_enc 2 (u16 (Z.of_nat n))). set (tag := hmac SHA256 ka _).
    assert (length tag = 32%nat) as Ht by apply length_hmac.
    rewrite (slice_Ok tag 0) by (unfold BlockSize; lia). bind. rewrite Nat.sub_0_r, drop_0.
    intros [= <-]. unfold StaticKeyLen in *.
    assert (length (XORKeyStream ke (take BlockSize tag) (kc ++ metadata)) = 256 + length metadata)%nat as Hc.
    { rewrite length_XORKeyStream, length_app. lia. }
    rewrite UnwrapWKc_eq by (unfold V2TagLen, V2LenLen, StaticKeyLen; try done; lia).
    unfold wkc_len. rewrite Hc, XORKeyStream_cancel. unfold V2TagLen, V2LenLen. fold n.
    assert (be_dec lenBuf = Z.of_nat n) as ->.
    { subst lenBuf. unfold u16. rewrite Z.mod_small by lia. apply be_dec_enc_small. lia. }
    rewrite Z.eqb_refl. cbn [negb]. rewrite bool_decide_eq_true_2 by done.
    unfold StaticKeyLen. by rewrite take_app_length', drop_app_length'.
Qed.

Variable pem_Decode : bytes → option (string * bytes).
Variable pem_Encode : string → bytes → bytes.
(** Decoding the encoding of a block gives back its type and bytes. *)
Hypothesis pem_Decode_Encode : ∀ b, pem_Decode (pem_Encode V2BundlePEMType b) = Some (V2BundlePEMType, b).

(** A client bundle minted from a wrapped key parses back to the key and
    the blob, which the server then unwraps. *)
Theorem client_bundle_roundtrip kc metadata ka ke wkc :
  length kc = StaticKeyLen → WrapWKc kc metadata ka ke = Ok wkc →
  ParseClientBundleV2 pem_Decode (EncodeClientBundleV2 pem_Encode kc wkc) = Ok (mkV2Bundle kc wkc).
Proof.
  intros Hkc H. unfold ParseClientBundleV2, EncodeClientBundleV2. rewrite pem_Decode_Encode.
  unfold WrapWKc in H. apply bind_Ok in H as ([] & Hg & H). unfold guard_err in Hg.
  unfold StaticKeyLen, V2TagLen, V2LenLen in *.
  set (n := (32 + (256 + length metadata) + 2)%nat) in *.
  destruct (Z.ltb_spec 0xFFFF (Z.of_nat n)); [done|]. clear Hg.
  set (lenBuf := be_enc 2 (u16 (Z.of_nat n))) in *. set (tag := hmac SHA256 ka _) in *.
  assert (length tag = 32%nat) as Ht by apply length_hmac.
  rewrite (slice_Ok tag 0) in H by (unfold BlockSize; lia). injection H as <-.
  set (ct := XORKeyStream ke _ _).
  assert (length ct = 256 + length metadata)%nat as Hc.
  { subst ct. rewrite length_XORKeyStream, length_app. lia. }
  assert (length (tag ++ ct ++ lenBuf) = n) as Hn.
  { rewrite !length_app, Ht, Hc. subst lenBuf. rewrite length_be_enc. lia. }
  pass. pass_by ltac:(apply Nat.ltb_ge; unfold V2MinWKcLen, V2TagLen, V2LenLen, StaticKeyLen; rewrite length_app, Hn; lia).
  rewrite (slice_app [] kc (tag ++ ct ++ lenBuf) 0 StaticKeyLen) by (cbn; unfold StaticKeyLen; lia). bind.
  rewrite (slice_to_end kc (tag ++ ct ++ lenBuf)) by (rewrite ?length_app; unfold StaticKeyLen in *; lia). bind.
  rewrite (app_assoc tag), (slice_to_end (tag ++ ct) lenBuf), <-app_assoc, Hn.
  - bind. assert (be_dec lenBuf = zlen (tag ++ ct ++ lenBuf)) as Hd.
    { unfold zlen. rewrite Hn. subst lenBuf. unfold u16. rewrite Z.mod_small by lia. apply be_dec_enc_small. lia. }
    rewrite guard_pass; [done|]. by rewrite <-Hd, Z.eqb_refl.
  - rewrite <-app_assoc, Hn, length_app. unfold V2LenLen. lia.
  - rewrite <-app_assoc, Hn, length_app. subst lenBuf. rewrite length_be_enc. lia.
Qed.
End wkc.

(** ** Static key files *)

(** [strings.Index] finds the first match. *)
Lemma strings_Index_from_spec k s sub i :
  (∀ j, (j < i)%nat → take (length sub) (drop j s) ≠ sub) →
  (i ≤ length s)%nat → take (length sub) (drop i s) = sub →
  strings_Index_from k s sub = Some (k + i)%nat.
Proof.
  revert k i. induction s as [|b s IH]; intros k i Hno Hi Hat; cbn [strings_Index_from].
  - assert (i = 0%nat) as -> by (cbn in Hi; lia). rewrite drop_0 in Hat.
    rewrite bool_decide_eq_true_2 by done. f_equal; lia.
  - destruct i as [|i].
    + rewrite drop_0 in Hat. rewrite bool_decide_eq_true_2 by done. f_equal; lia.
    + rewrite bool_decide_eq_false_2.
      2: { intros He. apply (Hno 0%nat); [lia|]. by rewrite drop_0. }
      rewrite (IH (S k) i); [f_equal; lia| |cbn in Hi; lia|done].
      intros j Hj. apply (Hno (S j)). lia.
Qed.

Lemma strings_Index_None k s sub x : x ∈ sub → x ∉ s → strings_Index_from k s sub = None.
Proof.
  intros Hx. revert k. induction s as [|b s IH]; intros k Hn; cbn [strings_Index_from].
  - rewrite bool_decide_eq_false_2; [done|]. intros He. rewrite He, take_nil in Hx. set_solver.
  - rewrite bool_decide_eq_false_2.
    + apply IH. set_solver.
    + intros He. rewrite He in Hx. apply list_elem_of_lookup_1 in Hx as [i Hi].
      apply lookup_take_Some in Hi as [Hi _]. by apply Hn, (list_elem_of_lookup_2 _ i).
Qed.

(** A match that starts before [pre] ends would put byte number [n] of the
    pattern, which does not occur in [pre], inside [pre] or further right. *)
Lemma strings_Index_app k pre sub post n x :
  sub !! n = Some x → (x ∉ pre) → (∀ j, (j < n)%nat → sub !! j ≠ Some x) →
  strings_Index_from k (pre ++ sub ++ post) sub = Some (k + length pre)%nat.
Proof.
  intros Hn Hx Hfirst. apply strings_Index_from_spec.
  - intros j Hj He. assert (take (length sub) (drop j (pre ++ sub ++ post)) !! n = Some x) as Hl
      by (by rewrite He).
    apply lookup_take_Some in Hl as [Hl Hlen]. rewrite lookup_drop in Hl.
    apply lookup_app_Some in Hl as [Hl|[Hge Hl]].
    + apply Hx. by eapply list_elem_of_lookup_2.
    + rewrite lookup_app_l in Hl by lia. eapply (Hfirst (j + n - length pre)%nat); [lia|done].
  - rewrite length_app. lia.
  - rewrite drop_app_length. by rewrite take_app_length.
Qed.

(** A closed decidable fact, by computation. *)
Ltac decided :=
  match goal with |- ?P => apply (bool_decide_eq_true_1 P); vm_compute; reflexivity end.

Definition hex_digit (v : Z) : byte := z2b (if v <? 10 then 48 + v else 97 + (v - 10)).

(** Lower-case hexadecimal, as key generators write it. *)
Definition hex_EncodeToString (key : bytes) : bytes :=
  concat ((λ b, [hex_digit (Z.shiftr (b2z b) 4); hex_digit (Z.land (b2z b) 15)]) <$> key).

Lemma hex_digit_value v : 0 ≤ v < 16 → hex_value (hex_digit v) = Some v.
Proof.
  intros Hv. unfold hex_value, hex_digit. rewrite b2z_z2b.
  destruct (Z.ltb_spec v 10); rewrite Z.mod_small by lia.
  - destruct (Z.leb_spec 48 (48 + v)); [|lia]. destruct (Z.leb_spec (48 + v) 57); [|lia]. cbn. f_equal; lia.
  - destruct (Z.leb_spec 48 (97 + (v - 10))); [|lia]. destruct (Z.leb_spec (97 + (v - 10)) 57); [lia|].
    cbn [andb]. destruct (Z.leb_spec 97 (97 + (v - 10))); [|lia].
    destruct (Z.leb_spec (97 + (v - 10)) 102); [|lia]. cbn. f_equal; lia.
Qed.

Lemma hex_nibbles b :
  0 ≤ Z.shiftr (b2z b) 4 < 16 ∧ 0 ≤ Z.land (b2z b) 15 < 16 ∧
  Z.lor (Z.shiftl (Z.shiftr (b2z b) 4) 4) (Z.land (b2z b) 15) = b2z b.
Proof.
  pose proof (b2z_range b). change 15 with (16 - 1). rewrite (land_ones_mod _ 4 16) by done.
  rewrite (shiftr_div _ 4 16) by done.
  assert (0 ≤ b2z b mod 16 < 16) by (apply Z.mod_pos_bound; lia).
  split_and!; [apply Z.div_pos; lia|apply Z.div_lt_upper_bound; lia|lia|lia|].
  rewrite (lor_shiftl_add_w _ _ 4 16) by (done || lia). pose proof (Z.div_mod (b2z b) 16). lia.
Qed.

Lemma hex_roundtrip key : hex_DecodeString (hex_EncodeToString key) = Some key.
Proof.
  unfold hex_EncodeToString. induction key as [|b key IH]; [done|].
  cbn [fmap list_fmap concat app]. destruct (hex_nibbles b) as (Hh & Hl & Hb).
  cbn [hex_DecodeString]. rewrite !hex_digit_value by done. cbn [mbind option_bind].
  change (list_fmap _ _ ?f key) with (f <$> key). rewrite IH. cbn [mbind option_bind].
  by rewrite Hb, z2b_b2z.
Qed.

Lemma length_hex key : length (hex_EncodeToString key) = (2 * length key)%nat.
Proof.
  unfold hex_EncodeToString. induction key as [|b key IH]; [done|].
  cbn [fmap list_fmap concat app length]. change (list_fmap _ _ ?f key) with (f <$> key). lia.
Qed.

Definition begin_marker : bytes := ascii_bytes "-----BEGIN OpenVPN Static key V1-----".
Definition end_marker : bytes := ascii_bytes "-----END OpenVPN Static key V1-----".

(** None of the letters that tell the markers apart: '-', 'K', 'D'. *)
Definition plain_text (l : bytes) : Prop := (x2d ∉ l) ∧ (x4b ∉ l) ∧ (x44 ∉ l).

Lemma findMarker_key data prefix suffix :
  x4b ∉ data →
  findMarker data prefix suffix =
  match strings_Index data (ascii_bytes (prefix +:+ "key" +:+ suffix)) with
  | Some i => Some (i, length (ascii_bytes (prefix +:+ "key" +:+ suffix)))
  | None => None
  end.
Proof.
  intros Hk. unfold findMarker. cbn [findMarker_words].
  unfold strings_Index. rewrite (strings_Index_None 0 data _ x4b); [done| |done].
  unfold ascii_bytes. induction prefix as [|c p IH]; [cbn; left|]. right. exact IH.
Qed.

(** A key file, comments, envelope, lower-case hexadecimal with any
    whitespace, parses to its 256 bytes, and so does the raw binary key. *)
Theorem static_key_file pre body post key :
  length key = StaticKeyLen → plain_text pre → plain_text body → plain_text post →
  filter (λ b, is_space b = false) body = hex_EncodeToString key →
  ParseStaticKey (pre ++ begin_marker ++ body ++ end_marker ++ post) = Ok key ∧
  (x2d ∉ key → ParseStaticKey key = Ok key).
Proof.
  intros Hlen (Hpd & Hpk & HpD) (Hbd & Hbk & HbD) (Hqd & Hqk & HqD) Hhex. split.
  - set (data := pre ++ begin_marker ++ body ++ end_marker ++ post).
    assert (x4b ∉ data) as Hk.
    { subst data. rewrite !not_elem_of_app. split_and!; try done;
        decided. }
    unfold ParseStaticKey. rewrite !findMarker_key by done.
    change (ascii_bytes _) with begin_marker at 1 2. change (ascii_bytes (_ +:+ _)) with end_marker.
    unfold strings_Index. subst data.
    rewrite (strings_Index_app 0 pre begin_marker _ 0 x2d) by (done || lia).
    rewrite (app_assoc pre), (app_assoc _ body).
    rewrite (strings_Index_app 0 _ end_marker _ 7 x44); [|done| |].
    2: { rewrite !not_elem_of_app. split_and!; try done. decided. }
    2: { intros j Hj. do 7 (destruct j as [|j]; [done|]). lia. }
    rewrite !length_app. cbn [Nat.add].
    rewrite guard_pass by (apply Nat.ltb_ge; lia). bind.
    rewrite <-(app_assoc _ body), (slice_app (pre ++ begin_marker) body) by (rewrite ?length_app; lia). bind.
    rewrite Hhex, length_hex, Hlen. pass. by rewrite hex_roundtrip.
  - intros Hd. unfold ParseStaticKey, findMarker. cbn [findMarker_words]. unfold strings_Index.
    rewrite !(strings_Index_None 0 key _ x2d) by (done || decided).
    by rewrite Hlen.
Qed.

(** The end marker may overlap the begin marker, whose trailing dashes it
    can share: then the end of the key body lies before its start and the slice
    expression panics. *)
Theorem static_key_overlap_panics :
  ParseStaticKey (ascii_bytes "-----BEGIN OpenVPN Static key V1-----END OpenVPN Static key V1-----") = Panic.
Proof. vm_compute. reflexivity. Qed.

(** ** Concrete instances *)

Module Sample.
Definition key : bytes := (λ n, z2b (Z.of_nat n)) <$> seq 0 256.
Definition client : Wrapper := New key DirectionInverse.
Definition server : Wrapper := New key DirectionNormal.
End Sample.

Lemma tls_crypt_roundtrip_witness :
  let '(w', pkt) := Wrap 1700000000 x38 77 [x01; x02; x03] Sample.client in
  (Unwrap pkt Sample.server).2 = Ok (x38, 77, SendPID w', [x01; x02; x03]).
Proof.
  pose proof (tls_crypt_roundtrip Sample.key 1700000000 x38 77 [x01; x02; x03] Sample.client Sample.server
    (spec_init 64) true eq_refl eq_refl eq_refl ltac:(done) pid_init_rel) as H.
  cbn zeta in H. destruct (Wrap _ _ _ _ _) as [w' pkt] eqn:He. apply H.
  replace (SendPID w') with 1; [by vm_compute|].
  unfold Wrap in He. by injection He as <- _.
Defined.

Lemma wkc_wire_witness :
  ∃ wkc, WrapWKc Sample.key [x05; x06] (replicate 32 x01) (replicate 32 x02) = Ok wkc ∧
    UnwrapWKc wkc (replicate 32 x01) (replicate 32 x02) = Ok (Sample.key, [x05; x06]).
Proof.
  destruct (WrapWKc Sample.key [x05; x06] (replicate 32 x01) (replicate 32 x02)) as [wkc| |] eqn:He;
    [|by vm_compute in He|by vm_compute in He].
  exists wkc. split; [done|]. by apply wkc_wire.
Defined.

Lemma client_bundle_roundtrip_witness :
  ∃ wkc, WrapWKc Sample.key [x05] (replicate 32 x01) (replicate 32 x02) = Ok wkc ∧
    ParseClientBundleV2 (λ d, Some (V2BundlePEMType, d))
      (EncodeClientBundleV2 (λ _ b, b) Sample.key wkc) = Ok (mkV2Bundle Sample.key wkc).
Proof.
  destruct (WrapWKc Sample.key [x05] (replicate 32 x01) (replicate 32 x02)) as [wkc| |] eqn:He;
    [|by vm_compute in He|by vm_compute in He].
  exists wkc. split; [done|].
  by apply (client_bundle_roundtrip (λ d, Some (V2BundlePEMType, d)) (λ _ b, b) ltac:(done) Sample.key [x05]
    (replicate 32 x01) (replicate 32 x02)).
Defined.

Definition sample_body : bytes := x0a :: hex_EncodeToString Sample.key ++ [x0d; x0a].

Lemma static_key_file_witness :
  ParseStaticKey ([x23; x0a] ++ begin_marker ++ sample_body ++ end_marker ++ [x0a]) = Ok Sample.key.
Proof.
  refine (proj1 (static_key_file [x23; x0a] sample_body [x0a] Sample.key _ _ _ _ _)).
  - reflexivity.
  - repeat split; decided.
  - repeat split; decided.
  - repeat split; decided.
  - vm_compute. reflexivity.
Defined.
