(* ===== verification/TlsAuth.v ===== *)
(** [internal/tlsauth]: control packets authenticated with an HMAC and sent in
    clear, the second implementation of the session's wrapper interface; then
    the theorems that hold for both implementations through that interface. *)
From S2P Require Import Prelude Wire Replay ControlWrap TlsCrypt.
Local Open Scope Z_scope.

(** ** Digest names and keys *)

(** ASCII white space, for [strings.TrimSpace] on ASCII names. *)
Definition ascii_space (c : Ascii.ascii) : bool :=
  let n := Ascii.N_of_ascii c in ((9 <=? n) && (n <=? 13) || (n =? 32))%N.

Fixpoint trim_left (s : string) : string :=
  match s with
  | EmptyString => EmptyString
  | String c s' => if ascii_space c then trim_left s' else s
  end.

Definition TrimSpace (s : string) : string := String.rev (trim_left (String.rev (trim_left s))).

Definition upper (c : Ascii.ascii) : Ascii.ascii :=
  let n := Ascii.N_of_ascii c in
  if ((97 <=? n) && (n <=? 122))%N then Ascii.ascii_of_N (n - 32) else c.

Fixpoint ToUpper (s : string) : string :=
  match s with EmptyString => EmptyString | String c s => String (upper c) (ToUpper s) end.

Definition dash : Ascii.ascii := Ascii.ascii_of_N 45.

(** [strings.ReplaceAll(s, "-", )] with the empty string. *)
Fixpoint remove_dashes (s : string) : string :=
  match s with
  | EmptyString => EmptyString
  | String c s => if bool_decide (c = dash) then remove_dashes s else String c (remove_dashes s)
  end.

(** For ASCII names. *)
Definition normalizeDigest (name : string) : string := remove_dashes (ToUpper (TrimSpace name)).

Definition parseDigest (name : string) : option Digest :=
  let n := normalizeDigest name in
  if bool_decide (n = "") || bool_decide (n = "SHA1") then Some SHA1
  else if bool_decide (n = "SHA256") then Some SHA256
  else if bool_decide (n = "SHA512") then Some SHA512
  else None.

Definition deriveHMACKeys (raw : bytes) (dir : Z) (hlen : nat) : bytes * bytes :=
  let hmac0Off := 64%nat in
  let hmac1Off := 192%nat in
  let '(sendOff, recvOff) :=
    if dir =? DirectionNormal then (hmac0Off, hmac1Off) else (hmac1Off, hmac0Off) in
  (sub raw sendOff hlen, sub raw recvOff hlen).

(** ** The package's own copy of the replay window *)

Definition auth_pid_Accept (w : pidWindow) (pid : Z) : pidWindow * bool :=
  if pid =? 0 then (w, false)
  else if pw_highest w <? pid then
    let shift := u32 (pid - pw_highest w) in
    let bitmap := if windowSize <=? shift then 1
                  else Z.lor (u64 (Z.shiftl (pw_bitmap w) shift)) 1 in
    (mkPidWindow pid bitmap, true)
  else if windowSize <=? u32 (pw_highest w - pid) then (w, false)
  else
    let offset := u32 (pw_highest w - pid) in
    let mask := u64 (Z.shiftl 1 offset) in
    if negb (Z.land (pw_bitmap w) mask =? 0) then (w, false)
    else (mkPidWindow (pw_highest w) (Z.lor (pw_bitmap w) mask), true).

Definition auth_pid_Test (w : pidWindow) (pid : Z) : bool :=
  if pid =? 0 then false
  else if pw_highest w <? pid then true
  else if windowSize <=? u32 (pw_highest w - pid) then false
  else Z.land (pw_bitmap w) (u64 (Z.shiftl 1 (u32 (pw_highest w - pid)))) =? 0.

Lemma auth_pid_same w pid : auth_pid_Accept w pid = pid_Accept w pid ∧ auth_pid_Test w pid = pid_Test w pid.
Proof. done. Qed.

(** ** Wrap and Unwrap *)

Section tlsauth.
Context `{P : Primitives}.

Definition authHdrLen : nat := 4 + 4 + 1 + 8.
Definition auth_MinWrappedLen (hlen : nat) : nat := 1 + 8 + hlen + 4 + 4.

Record Authenticator := mkAuthenticator {
  a_sendHMAC : bytes;
  a_recvHMAC : bytes;
  a_newHash : Digest;
  a_hlen : nat;
  a_sendPID : Z;           (* atomic.Uint32 *)
  a_recvWin : pidWindow
}.

Definition auth_set_recvWin (v : pidWindow) (a : Authenticator) : Authenticator :=
  mkAuthenticator (a_sendHMAC a) (a_recvHMAC a) (a_newHash a) (a_hlen a) (a_sendPID a) v.

(** [None] is the unsupported-digest error. *)
Definition auth_New (raw : bytes) (dir : Z) (digest : string) : option Authenticator :=
  newHash ← parseDigest digest;
  let hlen := digest_size newHash in
  let '(send, recv) := deriveHMACKeys raw dir hlen in
  Some (mkAuthenticator send recv newHash hlen 0 pid_init).

(** The authenticated order: packet-id first. *)
Definition auth_header (opcodeKID : byte) (sessionID pid netTime : Z) : bytes :=
  be_enc 4 pid ++ be_enc 4 netTime ++ [opcodeKID] ++ be_enc 8 sessionID.

Definition auth_Wrap (now : Z) (opcodeKID : byte) (sessionID : Z) (plaintext : bytes) (a : Authenticator)
  : Authenticator * bytes :=
  let pid := u32 (a_sendPID a + 1) in
  let netTime := u32 now in
  let tag := hmac (a_newHash a) (a_sendHMAC a) (auth_header opcodeKID sessionID pid netTime ++ plaintext) in
  (mkAuthenticator (a_sendHMAC a) (a_recvHMAC a) (a_newHash a) (a_hlen a) pid (a_recvWin a),
   [opcodeKID] ++ be_enc 8 sessionID ++ take (a_hlen a) tag ++ be_enc 4 pid ++ be_enc 4 netTime ++ plaintext).

Definition auth_Unwrap (pkt : bytes) (a : Authenticator)
  : Authenticator * res wrap_error (byte * Z * Z * bytes) :=
  let hlen := a_hlen a in
  let checked :=
    guard_err (length pkt <? auth_MinWrappedLen hlen)%nat (ErrWrapShort (length pkt));;
    opcodeKID ← index pkt 0;
    sid ← slice pkt 1 9;
    gotHMAC ← slice pkt 9 (9 + hlen);
    let off := (9 + hlen)%nat in
    pid ← slice pkt off (off + 4);
    netTime ← slice pkt (off + 4) (off + 8);
    rest ← slice pkt (off + 8) (length pkt);
    guard_err (negb (auth_pid_Test (a_recvWin a) (be_dec pid))) (ErrWrapReplay (be_dec pid));;
    let authHdr := be_enc 4 (be_dec pid) ++ netTime ++ [opcodeKID] ++ be_enc 8 (be_dec sid) in
    guard_err (negb (bool_decide (gotHMAC = hmac (a_newHash a) (a_recvHMAC a) (authHdr ++ rest))))
      ErrAuthFailed;;
    Ok (opcodeKID, be_dec sid, be_dec pid, rest) in
  match checked with
  | Ok (opcodeKID, sid, pid, plain) =>
      let '(win, accepted) := auth_pid_Accept (a_recvWin a) pid in
      (auth_set_recvWin win a,
       if accepted then Ok (opcodeKID, sid, pid, plain) else Err (ErrWrapReplay pid))
  | Err e => (a, Err e)
  | Panic => (a, Panic)
  end.

Definition auth_SendPID (a : Authenticator) : Z := a_sendPID a.
End tlsauth.

(** ** The wrapper interface *)

Section wrapper.
Context `{P : Primitives} `{PL : !PrimitiveLaws P}.

(** The digest of a slot decides its tag length. *)
Definition auth_wf (a : Authenticator) : Prop := a_hlen a = digest_size (a_newHash a).

Definition auth_packet (d : Digest) (hkey : bytes) (x : wrapped) : bytes :=
  let tag := hmac d hkey
    (auth_header (wr_opcodeKID x) (wr_sessionID x) (wr_packetID x) (wr_netTime x) ++ wr_plain x) in
  [wr_opcodeKID x] ++ be_enc 8 (wr_sessionID x) ++ tag ++ be_enc 4 (wr_packetID x) ++
  be_enc 4 (wr_netTime x) ++ wr_plain x.

Lemma auth_Unwrap_eq op sid pid t tag rest a :
  is_u64 sid → is_u32 pid → length tag = a_hlen a →
  let r := auth_Unwrap ([op] ++ be_enc 8 sid ++ tag ++ be_enc 4 pid ++ be_enc 4 t ++ rest) a in
  if negb (pid_Test (a_recvWin a) pid) then r = (a, Err (ErrWrapReplay pid))
  else if bool_decide (tag = hmac (a_newHash a) (a_recvHMAC a) (auth_header op sid pid t ++ rest))
  then r = (auth_set_recvWin (pid_Accept (a_recvWin a) pid).1 a,
            if (pid_Accept (a_recvWin a) pid).2 then Ok (op, sid, pid, rest)
            else Err (ErrWrapReplay pid))
  else r = (a, Err ErrAuthFailed).
Proof.
  intros Hsid Hpid Htag r. subst r. unfold auth_Unwrap, auth_MinWrappedLen.
  set (h := a_hlen a) in *. set (pkt := [op] ++ _).
  assert (length pkt = 17 + h + length rest)%nat as Hlen by (subst pkt; bytes_len).
  rewrite Hlen. pass_by ltac:(apply Nat.ltb_ge; lia).
  rewrite (index_Ok _ 0 op) by done. bind.
  assert (slice (E:=wrap_error) pkt 1 9 = Ok (be_enc 8 sid)) as -> by (apply (slice_app [op]); bytes_len). bind.
  assert (slice (E:=wrap_error) pkt 9 (9 + h) = Ok tag) as ->.
  { subst pkt. rewrite (app_assoc [op]). apply slice_app; bytes_len. } bind.
  assert (slice (E:=wrap_error) pkt (9 + h) (9 + h + 4) = Ok (be_enc 4 pid)) as ->.
  { subst pkt. rewrite (app_assoc [op]), (app_assoc _ tag). apply slice_app; bytes_len. } bind.
  assert (slice (E:=wrap_error) pkt (9 + h + 4) (9 + h + 8) = Ok (be_enc 4 t)) as ->.
  { subst pkt. rewrite (app_assoc [op]), (app_assoc _ tag), (app_assoc _ (be_enc 4 pid)).
    apply slice_app; bytes_len. } bind.
  assert (slice (E:=wrap_error) pkt (9 + h + 8) (17 + h + length rest) = Ok rest) as ->.
  { subst pkt. rewrite (app_assoc [op]), (app_assoc _ tag), (app_assoc _ (be_enc 4 pid)),
      (app_assoc _ (be_enc 4 t)). apply slice_to_end; bytes_len. } bind.
  rewrite !be_dec_enc_small by auto. destruct (auth_pid_same (a_recvWin a) pid) as [_ ->].
  destruct (pid_Test (a_recvWin a) pid); cbn [negb]; [|by rewrite (guard_fail true)].
  pass. fold (auth_header op sid pid t).
  case_bool_decide; cbn [negb]; [|by rewrite (guard_fail true)]. pass.
  destruct (auth_pid_same (a_recvWin a) pid) as [-> _].
  by destruct (pid_Accept (a_recvWin a) pid).
Qed.

Lemma auth_split h pkt :
  (auth_MinWrappedLen h ≤ length pkt)%nat →
  ∃ op sid pid t tag rest, is_u64 sid ∧ is_u32 pid ∧ is_u32 t ∧ length tag = h ∧
    pkt = [op] ++ be_enc 8 sid ++ tag ++ be_enc 4 pid ++ be_enc 4 t ++ rest.
Proof.
  unfold auth_MinWrappedLen. intros Hl.
  destruct pkt as [|op pkt]; [cbn in Hl; lia|]. cbn [length] in Hl.
  destruct (split_at 8 pkt) as (S & p1 & -> & HS); [lia|]. rewrite length_app in Hl.
  destruct (split_at h p1) as (tag & p2 & -> & Htag); [lia|]. rewrite length_app in Hl.
  destruct (split_at 4 p2) as (Q & p3 & -> & HQ); [lia|]. rewrite length_app in Hl.
  destruct (split_at 4 p3) as (T & rest & -> & HT); [lia|].
  exists op, (be_dec S), (be_dec Q), (be_dec T), tag, rest.
  split_and!; auto using be_dec_is_u64, be_dec_is_u32.
  by rewrite (be_enc_dec_len 8), !(be_enc_dec_len 4) by done.
Qed.

Lemma auth_Unwrap_accept a s x :
  auth_wf a → pid_rel (a_recvWin a) s → wrapped_wf x → spec_fresh s (wr_packetID x) = true →
  auth_Unwrap (auth_packet (a_newHash a) (a_recvHMAC a) x) a =
    (auth_set_recvWin (pid_Accept (a_recvWin a) (wr_packetID x)).1 a,
     Ok (wr_opcodeKID x, wr_sessionID x, wr_packetID x, wr_plain x)).
Proof.
  intros Hwf Hs [Hsid Hpid _] Hfr. unfold auth_packet. set (tag := hmac _ _ _).
  assert (length tag = a_hlen a) as Htag by (rewrite Hwf; apply length_hmac).
  pose proof (auth_Unwrap_eq (wr_opcodeKID x) (wr_sessionID x) (wr_packetID x) (wr_netTime x) tag
    (wr_plain x) a Hsid Hpid Htag) as H. cbn zeta in H.
  rewrite (pid_Test_ok _ s) in H by done. rewrite Hfr in H. cbn [negb] in H.
  rewrite bool_decide_eq_true_2 in H by done. rewrite H.
  destruct (pid_Accept_ok (a_recvWin a) s (wr_packetID x) Hs Hpid) as [-> _]. by rewrite Hfr.
Qed.

Lemma auth_Unwrap_inv pkt a s a' r :
  pid_rel (a_recvWin a) s → auth_Unwrap pkt a = (a', r) →
  match r with
  | Ok (op, sid, pid, plain) =>
      ∃ x, wrapped_wf x ∧ pkt = auth_packet (a_newHash a) (a_recvHMAC a) x ∧
        (op, sid, pid, plain) = (wr_opcodeKID x, wr_sessionID x, wr_packetID x, wr_plain x) ∧
        spec_fresh s pid = true ∧ a' = auth_set_recvWin (pid_Accept (a_recvWin a) pid).1 a
  | Err _ => a' = a
  | Panic => False
  end.
Proof.
  intros Hs Hu. destruct (decide (auth_MinWrappedLen (a_hlen a) ≤ length pkt)%nat) as [Hl|Hl].
  2: { unfold auth_Unwrap in Hu. rewrite guard_fail in Hu by (apply Nat.ltb_lt; lia). cbn in Hu. by simplify_eq. }
  destruct (auth_split _ pkt Hl) as (op & sid & pid & t & tag & rest & Hsid & Hpid & Ht & Htag & ->).
  pose proof (auth_Unwrap_eq op sid pid t tag rest a Hsid Hpid Htag) as H. cbn zeta in H. rewrite Hu in H.
  destruct (pid_Test (a_recvWin a) pid) eqn:Htest; cbn [negb] in H; [|by simplify_eq].
  case_bool_decide as Htg; [|by simplify_eq].
  rewrite (pid_Test_ok _ s) in Htest by done.
  destruct (pid_Accept_ok (a_recvWin a) s pid Hs Hpid) as [Hacc _]. rewrite Htest in Hacc.
  rewrite Hacc in H. simplify_eq.
  exists (mkWrapped op sid pid t rest). split; [done|]. split; [|done].
  reflexivity.
Qed.

Lemma auth_Unwrap_safe pkt a : no_panic (auth_Unwrap pkt a).2.
Proof.
  unfold auth_Unwrap. set (checked := mbind _ _).
  assert (no_panic checked) as Hnp; [|destruct checked as [[[[? ?] ?] ?]|?|]; [|done|done];
    by destruct (auth_pid_Accept _ _) as [? []]].
  subst checked. apply no_panic_guard. intros Hl%Nat.ltb_ge. unfold auth_MinWrappedLen in *. safe lia.
Qed.

#[export] Instance TlsAuth_wrapper : ControlWrapper Authenticator := {|
  cw_Wrap := auth_Wrap;
  cw_Unwrap := auth_Unwrap;
  cw_window := a_recvWin;
  cw_set_window := auth_set_recvWin;
  cw_packet a := auth_packet (a_newHash a) (a_recvHMAC a);
  cw_ok := auth_wf;
  cw_window_set a v := eq_refl;
  cw_packet_opcode a x := ex_intro _ _ eq_refl;
  cw_packet_set a v x := eq_refl;
  cw_Unwrap_accept := auth_Unwrap_accept;
  cw_Unwrap_inv := auth_Unwrap_inv;
  cw_Unwrap_safe := auth_Unwrap_safe
|}.

Lemma auth_New_wf raw dir digest a : auth_New raw dir digest = Some a → auth_wf a ∧ a_recvWin a = pid_init.
Proof.
  unfold auth_New. destruct (parseDigest digest) as [d|]; [|done]. cbn.
  destruct (deriveHMACKeys raw dir (digest_size d)). by intros [= <-].
Qed.

(** Tls-auth protects a packet the same way in both directions and for
    every digest: what either side wraps, the other unwraps to the same opcode,
    session-id and payload exactly when the packet-id is fresh there, and the
    payload travels in clear. *)
Theorem tls_auth_roundtrip raw digest now op sid pt a b s (client : bool) :
  let dir := if client then DirectionInverse else DirectionNormal in
  let peer := if client then DirectionNormal else DirectionInverse in
  auth_New raw dir digest = Some a → auth_New raw peer digest = Some b →
  is_u64 sid → pid_rel (a_recvWin b) s →
  let '(a', pkt) := auth_Wrap now op sid pt a in
  (spec_fresh s (auth_SendPID a') = true ↔
     (auth_Unwrap pkt b).2 = Ok (op, sid, auth_SendPID a', pt)) ∧
  ∃ hdr, pkt = hdr ++ pt ∧ length hdr = auth_MinWrappedLen (a_hlen a).
Proof.
  intros dir peer Ha Hb Hsid Hs. unfold auth_Wrap. unfold auth_SendPID. cbn [a_sendPID].
  pose proof (auth_New_wf _ _ _ _ Ha) as [Hwfa _]. pose proof (auth_New_wf _ _ _ _ Hb) as [Hwfb _].
  set (pid := u32 (a_sendPID a + 1)). set (x := mkWrapped op sid pid (u32 now) pt).
  assert (wrapped_wf x) as Hx by (split; [done|apply u32_range|apply u32_range]).
  set (tag := hmac _ _ _).
  assert (length tag = a_hlen a) as Htag by (rewrite Hwfa; apply length_hmac).
  rewrite (take_ge tag) by lia.
  set (pkt := [op] ++ _).
  assert (pkt = auth_packet (a_newHash b) (a_recvHMAC b) x) as Hpkt.
  { subst pkt tag. unfold auth_packet; cbn [wr_opcodeKID wr_sessionID wr_packetID wr_netTime wr_plain x].
    assert (a_newHash b = a_newHash a ∧ a_recvHMAC b = a_sendHMAC a) as [-> ->]; [|done].
    unfold auth_New in Ha, Hb. destruct (parseDigest digest) as [d|]; [|done].
    subst dir peer. destruct client; cbn in Ha, Hb; by simplify_eq. }
  split.
  - rewrite Hpkt. split.
    + intros Hfr. by rewrite (auth_Unwrap_accept b s x).
    + destruct (auth_Unwrap _ b) as [b' res] eqn:Hu. cbn [snd]. intros ->.
      apply (auth_Unwrap_inv _ _ s) in Hu; [|done]. by destruct Hu as (_ & _ & _ & _ & ? & _).
  - exists ([op] ++ be_enc 8 sid ++ tag ++ be_enc 4 pid ++ be_enc 4 (u32 now)).
    subst pkt. split; [by rewrite <-!app_assoc|]. unfold auth_MinWrappedLen. bytes_len.
Qed.

(** C35: whatever packets arrive, tls-crypt and tls-auth accept only packets
    made with the peer's key, and none of their packet-ids twice; a rejected
    packet changes nothing and no input makes them panic. *)
Theorem control_packets_authentic raw dir digest a pkts :
  auth_New raw dir digest = Some a →
  (∃ pids, NoDup pids ∧ Forall2 (authentic (New raw dir)) pids (unwrap_all pkts (New raw dir)).2) ∧
  (∃ pids, NoDup pids ∧ Forall2 (authentic a) pids (unwrap_all pkts a).2) ∧
  (∀ w s pkt, pid_rel (w_recvWin w) s →
     let '(w', r) := Unwrap pkt w in r ≠ Panic ∧ (∀ e, r = Err e → w' = w)) ∧
  (∀ b s pkt, pid_rel (a_recvWin b) s →
     let '(b', r) := auth_Unwrap pkt b in r ≠ Panic ∧ (∀ e, r = Err e → b' = b)).
Proof.
  intros Ha. split_and!.
  - destruct (unwrap_all_spec pkts (New raw dir) (spec_init windowSize)) as (pids & Hnd & _ & Hall).
    { cbn. unfold New. destruct (DeriveKeys raw dir). apply pid_init_rel. }
    by exists pids.
  - destruct (auth_New_wf _ _ _ _ Ha) as [_ Hwin].
    destruct (unwrap_all_spec pkts a (spec_init windowSize)) as (pids & Hnd & _ & Hall).
    { cbn. rewrite Hwin. apply pid_init_rel. }
    by exists pids.
  - intros w s pkt Hs. destruct (Unwrap pkt w) as [w' r] eqn:Hu.
    apply (Unwrap_inv pkt w s) in Hu; [|done]. destruct r; naive_solver.
  - intros b s pkt Hs. destruct (auth_Unwrap pkt b) as [b' r] eqn:Hu.
    apply (auth_Unwrap_inv pkt b s) in Hu; [|done]. destruct r; naive_solver.
Qed.
End wrapper.

Lemma tls_auth_roundtrip_witness :
  match auth_New Sample.key DirectionInverse "sha-256", auth_New Sample.key DirectionNormal "sha-256" with
  | Some a, Some b =>
      (auth_Unwrap (auth_Wrap 1700000000 x38 77 [x01; x02] a).2 b).2 = Ok (x38, 77, 1, [x01; x02])
  | _, _ => False
  end.
Proof.
  destruct (auth_New Sample.key DirectionInverse "sha-256") as [a|] eqn:Ha; [|by vm_compute in Ha].
  destruct (auth_New Sample.key DirectionNormal "sha-256") as [b|] eqn:Hb; [|by vm_compute in Hb].
  pose proof (tls_auth_roundtrip Sample.key "sha-256" 1700000000 x38 77 [x01; x02] a b (spec_init 64) true
    Ha Hb ltac:(done)) as H.
  cbn zeta in H.
  assert (pid_rel (a_recvWin b) (spec_init 64)) as Hs.
  { destruct (auth_New_wf _ _ _ _ Hb) as [_ ->]. apply pid_init_rel. }
  specialize (H Hs). destruct (auth_Wrap _ _ _ _ a) as [a' pkt] eqn:He.
  assert (auth_SendPID a' = 1) as Hp.
  { unfold auth_Wrap in He. injection He as <- _. cbn.
    vm_compute in Ha. injection Ha as <-. done. }
  rewrite Hp in H. apply H. by vm_compute.
Defined.

Lemma control_packets_authentic_witness :
  ∃ a, auth_New Sample.key DirectionNormal "" = Some a ∧
    ∃ pids, NoDup pids ∧ Forall2 (authentic Sample.server) pids
      (unwrap_all [(Wrap 0 x38 7 [x01] Sample.client).2; (Wrap 0 x38 7 [x01] Sample.client).2] Sample.server).2.
Proof.
  destruct (auth_New Sample.key DirectionNormal "") as [a|] eqn:Ha; [|by vm_compute in Ha].
  exists a. split; [done|]. exact (proj1 (control_packets_authentic Sample.key DirectionNormal "" a _ Ha)).
Defined.
