(* ===== verification/Watch.v ===== *)
(** The timed decisions of [internal/session/keepalive.go]: when a keepalive
    PING is due and when a watchdog gives a session up.  The loops themselves
    are lists of ticks; what they read from the session (atomic timestamps,
    counters) comes with the tick, so that any concurrent activity is covered.
    Times and durations are nanoseconds. *)
From stdpp Require Import sorting.
From S2P Require Import Prelude.
Local Open Scope Z_scope.

Definition Minute : Z := 60 * Second.

(** [t.Sub(u)]: saturates at the bounds of [time.Duration]. *)
Definition Sub (t u : Z) : Z := Z.max (- 2 ^ 63) (Z.min (2 ^ 63 - 1) (t - u)).

Definition defaultPingInterval : Z := 15 * Second.
Definition defaultPingRestart : Z := 60 * Second.
Definition dataActivityCheckPeriod : Z := 5 * Second.
Definition dataActivityWarmup : Z := 60 * Second.
Definition dataActivityStuckThreshold : Z := 60 * Second.
Definition dataActivityWarmupFast : Z := 10 * Second.
Definition dataActivityStuckThresholdFast : Z := 20 * Second.
Definition dataActivityFastWindow : Z := 2 * Minute.
Definition hardResetCheckPeriod : Z := 5 * Second.
Definition hardResetThreshold : Z := 3.
Definition wakeDetectPeriod : Z := 1 * Second.
Definition wakeDetectGapThreshold : Z := 10 * Second.

(** [applyKeepaliveDefaults] on the two durations of the push reply. *)
Definition applyKeepaliveDefaults (pingInterval pingRestart : Z) : Z * Z :=
  (if pingInterval <=? 0 then defaultPingInterval else pingInterval,
   if pingRestart <=? 0 then defaultPingRestart else pingRestart).

(** ** Keepalive *)

Definition keepalive_period (interval : Z) : Z := Z.max (Z.quot interval 4) (250 * Millisecond).

(** Silence of at least [interval] since the newest of the last user packet and
    the last PING. *)
Definition keepalive_due (interval now lastUserOutbound lastPingSent : Z) : bool :=
  let lastOut := if lastUserOutbound <? lastPingSent then lastPingSent else lastUserOutbound in
  negb (Sub now lastOut <? interval).

(** One tick of the loop: the new [lastPingSent] and whether a PING went out.
    [sent] is the outcome of sealing and writing it. *)
Definition keepalive_tick (interval now lastUserOutbound : Z) (sent : bool) (lastPingSent : Z)
  : Z * bool :=
  if keepalive_due interval now lastUserOutbound lastPingSent && sent then (now, true)
  else (lastPingSent, false).

(** ** Data-activity watchdog *)

Definition l4ProtoTCP : Z := 6.
Definition l4ProtoUDP : Z := 17.

Definition sniffL4 (pkt : bytes) : Z :=
  match pkt with
  | [] => 0
  | b :: _ =>
      let version := Z.shiftr (b2z b) 4 in
      if version =? 4 then if (length pkt <? 20)%nat then 0 else b2z (nth 9 pkt x00)
      else if version =? 6 then if (length pkt <? 40)%nat then 0 else b2z (nth 6 pkt x00)
      else 0
  end.

Record activityStallDecision := mkStall {
  reason : string;      (* empty: healthy *)
  sinceOut : Z;
  sinceIn : Z
}.
Definition healthy : activityStallDecision := mkStall "" 0 0.

Definition checkStallWithFloor (now age threshold lastOutNs lastInNs : Z) : activityStallDecision :=
  if lastOutNs =? 0 then healthy
  else
    let since_out := Sub now lastOutNs in
    if threshold <=? since_out then healthy
    else
      let since_in := if 0 <? lastInNs then Sub now lastInNs else age in
      if since_in <? threshold then healthy else mkStall "matched" since_out since_in.

(** The seven timestamps, zero when never observed ([lastInbound] is read by
    the ping-restart watchdog only). *)
Record Clocks := mkClocks {
  lastInbound : Z;
  lastUserOutbound : Z;
  lastDataInbound : Z;
  lastUserOutboundTCP : Z;
  lastDataInboundTCP : Z;
  lastUserOutboundUDP : Z;
  lastDataInboundUDP : Z
}.

Definition decideActivityStall (now age threshold : Z) (c : Clocks) : activityStallDecision :=
  let tcp := checkStallWithFloor now age threshold (lastUserOutboundTCP c) (lastDataInboundTCP c) in
  if negb (String.eqb (reason tcp) "") then mkStall "tcp" (sinceOut tcp) (sinceIn tcp)
  else
    let udp := checkStallWithFloor now age threshold (lastUserOutboundUDP c) (lastDataInboundUDP c) in
    if negb (String.eqb (reason udp) "") then mkStall "udp" (sinceOut udp) (sinceIn udp)
    else if (0 <? lastUserOutbound c) && (0 <? lastDataInbound c) then
      let since_out := Sub now (lastUserOutbound c) in
      let since_in := Sub now (lastDataInbound c) in
      if (since_out <? threshold) && (threshold <=? since_in)
      then mkStall "aggregate" since_out since_in else healthy
    else healthy.

(** The five durations of the configuration the watchdog reads. *)
Record ActivityConfig := mkActivityConfig {
  ac_Warmup : Z;
  ac_StuckThreshold : Z;
  ac_WarmupFast : Z;
  ac_StuckThresholdFast : Z;
  ac_FastWindow : Z
}.

Definition or_default (v d : Z) : Z := if v <=? 0 then d else v.

(** The preamble of [dataActivityWatch]: defaults, then the fast values clamped. *)
Definition activity_params (c : ActivityConfig) : ActivityConfig :=
  let warmupSteady := or_default (ac_Warmup c) dataActivityWarmup in
  let thresholdSteady := or_default (ac_StuckThreshold c) dataActivityStuckThreshold in
  let warmupFast := or_default (ac_WarmupFast c) dataActivityWarmupFast in
  let thresholdFast := or_default (ac_StuckThresholdFast c) dataActivityStuckThresholdFast in
  mkActivityConfig warmupSteady thresholdSteady
    (if warmupSteady <? warmupFast then warmupSteady else warmupFast)
    (if thresholdSteady <? thresholdFast then thresholdSteady else thresholdFast)
    (or_default (ac_FastWindow c) dataActivityFastWindow).

Definition activity_period (p : ActivityConfig) : Z :=
  let period := Z.quot (ac_StuckThresholdFast p) 4 in
  if period <? 100 * Millisecond then 100 * Millisecond
  else if dataActivityCheckPeriod <? period then dataActivityCheckPeriod else period.

(** One tick of [dataActivityWatch]: the decision it fires on, if it fires. *)
Definition activity_tick (p : ActivityConfig) (start now : Z) (c : Clocks) : option activityStallDecision :=
  let age := Sub now start in
  let '(warmup, threshold) :=
    if age <? ac_FastWindow p then (ac_WarmupFast p, ac_StuckThresholdFast p)
    else (ac_Warmup p, ac_StuckThreshold p) in
  if age <? warmup then None
  else
    let d := decideActivityStall now age threshold c in
    if String.eqb (reason d) "" then None else Some d.

(** ** Ping-restart, hard-reset and wake-up watchdogs *)

Definition restart_period (restart : Z) : Z :=
  let period := Z.quot restart 4 in
  if period <? 100 * Millisecond then 100 * Millisecond
  else if Second <? period then Second else period.

Definition restart_tick (restart now lastInbound : Z) : bool := negb (Sub now lastInbound <? restart).

(** [baseline] is declared and never assigned: it is zero. *)
Definition hard_reset_tick (hardResetIn : Z) : bool :=
  let baseline := 0 in negb (u64 (hardResetIn - baseline) <? hardResetThreshold).

(** The new [lastTick] and whether the watchdog fires. *)
Definition wake_tick (now lastTick : Z) : Z * bool :=
  (now, negb (Sub now lastTick <? wakeDetectGapThreshold)).

(** The loop around a tick: the first tick that fires ends it. *)
Fixpoint watch_loop {A} (tick : A → bool) (ticks : list A) : option A :=
  match ticks with
  | [] => None
  | t :: ticks' => if tick t then Some t else watch_loop tick ticks'
  end.

(** [restart] is positive here: [pingRestartWatch] returns at once otherwise. *)
Definition pingRestartWatch (restart : Z) (ticks : list (Z * Z)) : option (Z * Z) :=
  if restart <=? 0 then None else watch_loop (λ '(now, last), restart_tick restart now last) ticks.

Definition hardResetWatch (ticks : list Z) : option Z := watch_loop hard_reset_tick ticks.

Fixpoint wakeDetectorWatch (lastTick : Z) (ticks : list Z) : option Z :=
  match ticks with
  | [] => None
  | now :: ticks' =>
      let '(lastTick, fires) := wake_tick now lastTick in
      if fires then Some now else wakeDetectorWatch lastTick ticks'
  end.

Definition dataActivityWatch (c : ActivityConfig) (start : Z) (ticks : list (Z * Clocks))
  : option (Z * Clocks) :=
  let p := activity_params c in
  watch_loop (λ '(now, clocks), bool_decide (is_Some (activity_tick p start now clocks))) ticks.

(** ** Keepalive: silence is bounded *)

(** A user packet written at [t], or a tick of the keepalive loop. *)
Inductive ka_event : Type :=
  | KaUser (t : Z)
  | KaTick (now : Z).
Definition ev_time (e : ka_event) : Z := match e with KaUser t | KaTick t => t end.

(** The packets sent, each with whether it is a PING, when every write succeeds. *)
Fixpoint ka_run (interval lastUser lastPing : Z) (evs : list ka_event) : list (bool * Z) :=
  match evs with
  | [] => []
  | KaUser t :: evs' => (false, t) :: ka_run interval t lastPing evs'
  | KaTick now :: evs' =>
      let '(lastPing, ping) := keepalive_tick interval now lastUser true lastPing in
      (if ping then [(true, now)] else []) ++ ka_run interval lastUser lastPing evs'
  end.

Lemma Sub_exact t u : - 2 ^ 63 ≤ t - u < 2 ^ 63 → Sub t u = t - u.
Proof. unfold Sub. lia. Qed.

Definition in_time (t : Z) : Prop := 0 ≤ t < 2 ^ 63.

Lemma Sub_in_time t u : in_time t → in_time u → Sub t u = t - u.
Proof. unfold in_time. intros. apply Sub_exact. lia. Qed.

Lemma keepalive_due_iff interval now lu lp :
  in_time now → in_time lu → in_time lp →
  keepalive_due interval now lu lp = true ↔ interval ≤ now - Z.max lu lp.
Proof.
  intros Hn Hu Hp. unfold keepalive_due.
  destruct (Z.ltb_spec lu lp); rewrite Sub_in_time, negb_true_iff, Z.ltb_ge by done; lia.
Qed.

(** The next lemmas share a timeline: sorted events after [lastT]. *)
Definition timeline (lastT : Z) (evs : list ka_event) : Prop :=
  in_time lastT ∧ StronglySorted Z.le (lastT :: (ev_time <$> evs)) ∧ Forall in_time (ev_time <$> evs).

Lemma timeline_cons lastT e evs :
  timeline lastT (e :: evs) → lastT ≤ ev_time e ∧ in_time (ev_time e) ∧ timeline (ev_time e) evs.
Proof.
  intros (H0 & Hs & Hf). cbn in *. apply Forall_cons_1 in Hf as [He Hf].
  apply StronglySorted_inv in Hs as [Hs Hle]. apply Forall_cons_1 in Hle as [Hle _].
  split_and!; done.
Qed.

Lemma ka_run_covers interval lu lp lastT evs t :
  0 < interval → timeline lastT evs → in_time lu → in_time lp → lu ≤ lastT → lp ≤ lastT →
  KaTick t ∈ evs →
  ∃ o, o ∈ lu :: lp :: (ka_run interval lu lp evs).*2 ∧ o ≤ t < o + interval.
Proof.
  intros Hi. revert lu lp lastT. induction evs as [|e evs IH]; intros lu lp lastT Ht Hu Hp Hul Hpl Hin;
    [by apply elem_of_nil in Hin|].
  apply timeline_cons in Ht as (Hle & Hin_e & Ht). destruct e as [u|now]; cbn [ka_run ev_time] in *.
  - apply elem_of_cons in Hin as [?|Hin]; [done|].
    destruct (IH u lp u Ht ltac:(done) Hp ltac:(lia) ltac:(lia) Hin) as (o & Ho & Hot).
    exists o. split; [|done]. cbn. set_solver.
  - unfold keepalive_tick. rewrite andb_true_r.
    destruct (keepalive_due interval now lu lp) eqn:Hd.
    + apply elem_of_cons in Hin as [[= ->]|Hin]; [exists now; cbn; split; [set_solver|lia]|].
      destruct (IH lu now now Ht Hu ltac:(done) ltac:(lia) ltac:(lia) Hin) as (o & Ho & Hot).
      exists o. split; [|done]. cbn in *. set_solver.
    + assert (now - Z.max lu lp < interval) as Hsil.
      { destruct (Z.lt_ge_cases (now - Z.max lu lp) interval) as [|Hge]; [done|].
        by rewrite (proj2 (keepalive_due_iff interval now lu lp Hin_e Hu Hp)) in Hd by lia. }
      apply elem_of_cons in Hin as [[= ->]|Hin].
      * exists (Z.max lu lp). split; [|lia].
        destruct (Z.max_spec lu lp) as [[_ ->]|[_ ->]]; set_solver.
      * destruct (IH lu lp now Ht Hu Hp ltac:(lia) ltac:(lia) Hin) as (o & Ho & Hot).
        exists o. split; done.
Qed.

Lemma ka_run_sparse interval lu lp lastT evs pre t post :
  timeline lastT evs → in_time lu → in_time lp → lu ≤ lastT → lp ≤ lastT →
  ka_run interval lu lp evs = pre ++ (true, t) :: post →
  ∀ o, o ∈ lu :: lp :: pre.*2 → interval ≤ t - o.
Proof.
  revert lu lp lastT pre. induction evs as [|e evs IH]; intros lu lp lastT pre Ht Hu Hp Hul Hpl Hrun;
    [by destruct pre|].
  apply timeline_cons in Ht as (Hle & Hin_e & Ht). destruct e as [u|now]; cbn [ka_run ev_time] in *.
  - destruct pre as [|x pre]; [done|]. injection Hrun as <- Hrun.
    pose proof (IH u lp u pre Ht Hin_e Hp ltac:(lia) ltac:(lia) Hrun) as Hall. cbn.
    intros o [->|[->|[->|Ho]%elem_of_cons]%elem_of_cons]%elem_of_cons.
    + pose proof (Hall u ltac:(set_solver)). lia.
    + apply Hall. set_solver.
    + apply Hall. set_solver.
    + apply Hall. set_solver.
  - unfold keepalive_tick in Hrun. rewrite andb_true_r in Hrun.
    destruct (keepalive_due interval now lu lp) eqn:Hd; cbn [app] in Hrun.
    + destruct pre as [|x pre].
      * injection Hrun as <- _. apply keepalive_due_iff in Hd; [|done..].
        intros o [->|[->|[]%elem_of_nil]%elem_of_cons]%elem_of_cons; lia.
      * injection Hrun as <- Hrun.
        pose proof (IH lu now now pre Ht Hu Hin_e ltac:(lia) ltac:(lia) Hrun) as Hall. cbn.
        pose proof (Hall now ltac:(set_solver)).
        intros o [->|[->|[->|Ho]%elem_of_cons]%elem_of_cons]%elem_of_cons; try lia.
        apply Hall. set_solver.
    + by apply (IH lu lp now pre Ht Hu Hp ltac:(lia) ltac:(lia)).
Qed.

(** The ticks leave no gap longer than [gap] from [start] on. *)
Definition ticks_cover (gap start T : Z) (evs : list ka_event) : Prop :=
  ∃ t, (t = start ∨ KaTick t ∈ evs) ∧ t ≤ T < t + gap.

(** On a live session the keepalive loop bounds silence and wastes
    nothing: whatever the user sends and as long as ticks come at least every
    [gap], at any moment some packet went out less than [interval + gap]
    before, while every PING follows at least [interval] of silence. *)
Theorem keepalive_silence interval gap start evs :
  0 < interval → timeline start evs →
  let sent := ka_run interval start start evs in
  (∀ T, ticks_cover gap start T evs → ∃ o, o ∈ start :: sent.*2 ∧ o ≤ T < o + interval + gap) ∧
  (∀ pre t post, sent = pre ++ (true, t) :: post → ∀ o, o ∈ start :: pre.*2 → interval ≤ t - o).
Proof.
  intros Hi Ht sent. pose proof (proj1 Ht) as Hst. split.
  - intros T (t & [->|Hin] & HT).
    { exists start. split; [set_solver|lia]. }
    destruct (ka_run_covers interval start start start evs t Hi Ht Hst Hst ltac:(lia) ltac:(lia) Hin)
      as (o & Ho & Hot). exists o. split; [|lia]. set_solver.
  - intros pre t post Hrun o Ho.
    apply (ka_run_sparse interval start start start evs pre t post); try done; try lia. set_solver.
Qed.

(** ** The data-activity watchdog *)

(** Sending within the threshold, and nothing received for it; a family that
    never received anything counts from the start of the session. *)
Definition stalled (now age threshold lastOut lastIn : Z) : Prop :=
  lastOut ≠ 0 ∧ now - lastOut < threshold ∧ threshold ≤ (if 0 <? lastIn then now - lastIn else age).

Record clocks_in_time (c : Clocks) : Prop := {
  ct_out : in_time (lastUserOutbound c); ct_in : in_time (lastDataInbound c);
  ct_tout : in_time (lastUserOutboundTCP c); ct_tin : in_time (lastDataInboundTCP c);
  ct_uout : in_time (lastUserOutboundUDP c); ct_uin : in_time (lastDataInboundUDP c)
}.

Lemma checkStall_cases now age threshold o i :
  in_time now → in_time o → in_time i →
  (stalled now age threshold o i ∧ reason (checkStallWithFloor now age threshold o i) = "matched"%string) ∨
  (¬ stalled now age threshold o i ∧ checkStallWithFloor now age threshold o i = healthy).
Proof.
  intros Hn Ho Hi. unfold checkStallWithFloor, stalled.
  rewrite (Sub_in_time now o), (Sub_in_time now i) by done.
  destruct (Z.eqb_spec o 0); [right; naive_solver lia|].
  destruct (Z.leb_spec threshold (now - o)); [right; naive_solver lia|].
  set (since := if 0 <? i then now - i else age).
  destruct (Z.ltb_spec since threshold); [right; naive_solver lia|left; naive_solver lia].
Qed.

(** What the decision means, family by family; the most specific one wins. *)
Inductive stall_verdict (now age threshold : Z) (c : Clocks) : string → Prop :=
  | sv_tcp : stalled now age threshold (lastUserOutboundTCP c) (lastDataInboundTCP c) →
      stall_verdict now age threshold c "tcp"
  | sv_udp : ¬ stalled now age threshold (lastUserOutboundTCP c) (lastDataInboundTCP c) →
      stalled now age threshold (lastUserOutboundUDP c) (lastDataInboundUDP c) →
      stall_verdict now age threshold c "udp"
  | sv_aggregate : ¬ stalled now age threshold (lastUserOutboundTCP c) (lastDataInboundTCP c) →
      ¬ stalled now age threshold (lastUserOutboundUDP c) (lastDataInboundUDP c) →
      0 < lastDataInbound c → stalled now age threshold (lastUserOutbound c) (lastDataInbound c) →
      stall_verdict now age threshold c "aggregate"
  | sv_healthy : ¬ stalled now age threshold (lastUserOutboundTCP c) (lastDataInboundTCP c) →
      ¬ stalled now age threshold (lastUserOutboundUDP c) (lastDataInboundUDP c) →
      ¬ (0 < lastDataInbound c ∧ stalled now age threshold (lastUserOutbound c) (lastDataInbound c)) →
      stall_verdict now age threshold c "".

Lemma decideActivityStall_verdict now age threshold c :
  in_time now → clocks_in_time c →
  stall_verdict now age threshold c (reason (decideActivityStall now age threshold c)).
Proof.
  intros Hn [Ho Hi Hto Hti Huo Hui]. unfold decideActivityStall.
  destruct (checkStall_cases now age threshold _ _ Hn Hto Hti) as [[Ht ->]|[Ht ->]]; cbn; [by constructor|].
  destruct (checkStall_cases now age threshold _ _ Hn Huo Hui) as [[Hu ->]|[Hu ->]]; cbn; [by constructor|].
  rewrite !Sub_in_time by done.
  destruct (Z.ltb_spec 0 (lastUserOutbound c)) as [H1|H1]; cbn.
  2: { apply sv_healthy; [done..|]. intros (_ & H0 & _). destruct Ho. lia. }
  destruct (Z.ltb_spec 0 (lastDataInbound c)) as [H2|H2]; cbn; [|apply sv_healthy; naive_solver lia].
  assert (stalled now age threshold (lastUserOutbound c) (lastDataInbound c) ↔
    now - lastUserOutbound c < threshold ∧ threshold ≤ now - lastDataInbound c) as Hst.
  { unfold stalled. rewrite (proj2 (Z.ltb_lt 0 (lastDataInbound c))) by done. intuition lia. }
  destruct (Z.ltb_spec (now - lastUserOutbound c) threshold); cbn;
    [|apply sv_healthy; [done..|]; rewrite Hst; lia].
  destruct (Z.leb_spec threshold (now - lastDataInbound c)); cbn.
  - apply sv_aggregate; try done. rewrite Hst. lia.
  - apply sv_healthy; [done..|]. rewrite Hst. lia.
Qed.

(** The fast phase never waits longer than the steady one. *)
Record coherent (p : ActivityConfig) : Prop := {
  co_warmup : 0 < ac_WarmupFast p ≤ ac_Warmup p;
  co_threshold : 0 < ac_StuckThresholdFast p ≤ ac_StuckThreshold p;
  co_window : 0 < ac_FastWindow p;
  co_period : 100 * Millisecond ≤ activity_period p ≤ dataActivityCheckPeriod
}.

Lemma or_default_pos v d : 0 < d → 0 < or_default v d.
Proof. unfold or_default. destruct (Z.leb_spec v 0); lia. Qed.

Lemma activity_params_coherent c : coherent (activity_params c).
Proof.
  unfold activity_params.
  pose proof (or_default_pos (ac_Warmup c) dataActivityWarmup ltac:(done)).
  pose proof (or_default_pos (ac_StuckThreshold c) dataActivityStuckThreshold ltac:(done)).
  pose proof (or_default_pos (ac_WarmupFast c) dataActivityWarmupFast ltac:(done)).
  pose proof (or_default_pos (ac_StuckThresholdFast c) dataActivityStuckThresholdFast ltac:(done)).
  pose proof (or_default_pos (ac_FastWindow c) dataActivityFastWindow ltac:(done)).
  split; cbn; try done.
  - destruct (Z.ltb_spec (or_default (ac_Warmup c) dataActivityWarmup) (or_default (ac_WarmupFast c) dataActivityWarmupFast)); lia.
  - destruct (Z.ltb_spec (or_default (ac_StuckThreshold c) dataActivityStuckThreshold) (or_default (ac_StuckThresholdFast c) dataActivityStuckThresholdFast)); lia.
  - unfold activity_period. set (period := Z.quot _ 4).
    destruct (Z.ltb_spec period (100 * Millisecond)); [done|].
    destruct (Z.ltb_spec dataActivityCheckPeriod period); [done|lia].
Qed.

Lemma watch_loop_spec {A} (tick : A → bool) ticks :
  match watch_loop tick ticks with
  | Some t => ∃ pre post, ticks = pre ++ t :: post ∧ tick t = true ∧ Forall (λ u, tick u = false) pre
  | None => Forall (λ u, tick u = false) ticks
  end.
Proof.
  induction ticks as [|t ticks IH]; cbn; [constructor|]. destruct (tick t) eqn:Ht.
  - by exists [], ticks.
  - destruct (watch_loop tick ticks) as [u|]; [|by constructor].
    destruct IH as (pre & post & -> & Hu & Hpre). exists (t :: pre), post.
    split_and!; [done|done|by constructor].
Qed.

Lemma activity_tick_fires p start now c :
  in_time start → in_time now → clocks_in_time c →
  let age := now - start in
  let warmup := if age <? ac_FastWindow p then ac_WarmupFast p else ac_Warmup p in
  let threshold := if age <? ac_FastWindow p then ac_StuckThresholdFast p else ac_StuckThreshold p in
  is_Some (activity_tick p start now c) ↔
    warmup ≤ age ∧ ∃ r, r ≠ ""%string ∧ stall_verdict now age threshold c r.
Proof.
  intros Hs Hn Hc. unfold activity_tick. rewrite (Sub_in_time now start) by done.
  destruct (now - start <? ac_FastWindow p); cbn zeta;
    [set (w := ac_WarmupFast p); set (th := ac_StuckThresholdFast p)
    |set (w := ac_Warmup p); set (th := ac_StuckThreshold p)];
  (destruct (Z.ltb_spec (now - start) w); [split; [by intros []|lia]|];
   pose proof (decideActivityStall_verdict now (now - start) th c Hn Hc) as Hv;
   destruct (String.eqb_spec (reason (decideActivityStall now (now - start) th c)) "") as [He|He];
   [split; [by intros []|]; intros (_ & r & Hr & Hv'); exfalso; apply Hr; rewrite He in Hv;
    inversion Hv; inversion Hv'; subst; naive_solver
   |split; [|by eexists]; intros _; split; [lia|by eexists]]).
Qed.

(** The user is sending on a family, or on the tunnel as a whole, and has had
    no answer on it for [threshold]. *)
Definition unanswered (now age threshold : Z) (c : Clocks) : Prop :=
  stalled now age threshold (lastUserOutboundTCP c) (lastDataInboundTCP c) ∨
  stalled now age threshold (lastUserOutboundUDP c) (lastDataInboundUDP c) ∨
  0 < lastDataInbound c ∧ stalled now age threshold (lastUserOutbound c) (lastDataInbound c).

Lemma stalled_dec now age threshold o i : Decision (stalled now age threshold o i).
Proof. unfold stalled. apply _. Defined.

Lemma unanswered_verdict now age threshold c :
  unanswered now age threshold c ↔ ∃ r, r ≠ ""%string ∧ stall_verdict now age threshold c r.
Proof.
  unfold unanswered. split.
  - destruct (stalled_dec now age threshold (lastUserOutboundTCP c) (lastDataInboundTCP c));
      [intros _; eexists; split; [|by apply sv_tcp]; done|].
    destruct (stalled_dec now age threshold (lastUserOutboundUDP c) (lastDataInboundUDP c));
      [intros _; eexists; split; [|by apply sv_udp]; done|].
    intros [?|[?|[? ?]]]; try done. eexists; split; [|by apply sv_aggregate]; done.
  - intros (r & Hr & Hv). inversion Hv; subst; naive_solver.
Qed.

(** The data-activity watchdog gives a session up exactly when it should.
    Its parameters are coherent for every configuration.  If it fires, then at
    that tick the warm-up was over and the user had been sending without an
    answer for the threshold of the phase; and it fires at the first such tick,
    so a session with one is never kept. *)
Theorem activity_watch_exact cfg start ticks :
  in_time start → Forall (λ t, in_time t.1 ∧ clocks_in_time t.2) ticks →
  let p := activity_params cfg in
  let alarm '(now, c) :=
    let fast := now - start <? ac_FastWindow p in
    (if fast then ac_WarmupFast p else ac_Warmup p) ≤ now - start ∧
    unanswered now (now - start) (if fast then ac_StuckThresholdFast p else ac_StuckThreshold p) c in
  coherent p ∧
  match dataActivityWatch cfg start ticks with
  | Some t => ∃ pre post, ticks = pre ++ t :: post ∧ alarm t ∧ Forall (λ u, ¬ alarm u) pre
  | None => Forall (λ u, ¬ alarm u) ticks
  end.
Proof.
  intros Hs Hall p alarm. split; [apply activity_params_coherent|].
  set (tick := λ '(now, clocks), bool_decide (is_Some (activity_tick p start now clocks))).
  assert (∀ t, in_time t.1 ∧ clocks_in_time t.2 → tick t = true ↔ alarm t) as Hiff.
  { intros [now c] [Hn Hc]. unfold tick, alarm. rewrite bool_decide_eq_true.
    rewrite (activity_tick_fires p start now c) by done. cbn zeta. by rewrite unanswered_verdict. }
  pose proof (watch_loop_spec tick ticks) as H.
  change (dataActivityWatch cfg start ticks) with (watch_loop tick ticks).
  assert (∀ us, Forall (λ t, in_time t.1 ∧ clocks_in_time t.2) us →
    Forall (λ u, tick u = false) us → Forall (λ u, ¬ alarm u) us) as Hquiet.
  { intros us Hus Hf. rewrite !list.Forall_forall in *. intros u Hu Ha.
    apply (Hiff u) in Ha; [|by apply Hus]. pose proof (Hf u Hu). congruence. }
  destruct (watch_loop tick ticks) as [t|]; [|by apply Hquiet].
  destruct H as (pre & post & -> & Ht & Hpre). apply Forall_app in Hall as [Hp Hrest].
  apply Forall_cons_1 in Hrest as [Hq _]. exists pre, post. split_and!; [done|by apply Hiff|by apply Hquiet].
Qed.

(** ** The ping-restart watchdog *)

(** Ping-restart never gives up a session that heard from its peer less
    than [restart] ago, and when the peer's last packet came at [L] it gives it
    up before [L + restart + gap], for ticks at most [gap] apart. *)
Theorem ping_restart_timely restart gap L ticks :
  0 < restart → Forall (λ t, in_time t.1 ∧ in_time t.2) ticks → StronglySorted Z.le ticks.*1 →
  100 * Millisecond ≤ restart_period restart ≤ Second ∧
  (∀ now last, pingRestartWatch restart ticks = Some (now, last) → restart ≤ now - last) ∧
  (Forall (λ t, t.2 ≤ L) ticks →
   (∃ t, t ∈ ticks ∧ t.1 ≤ L + restart + gap - 1 < t.1 + gap) →
   ∃ t, pingRestartWatch restart ticks = Some t ∧ t.1 < L + restart + gap).
Proof.
  intros Hr Hall Hs. split; [|split].
  { unfold restart_period. set (period := Z.quot _ 4).
    destruct (Z.ltb_spec period (100 * Millisecond)); [done|].
    destruct (Z.ltb_spec Second period); [done|lia]. }
  all: unfold pingRestartWatch; rewrite (proj2 (Z.leb_gt restart 0)) by done.
  all: set (tick := λ '(now, last), restart_tick restart now last).
  all: assert (∀ t, in_time t.1 ∧ in_time t.2 → tick t = true ↔ restart ≤ t.1 - t.2) as Htick by
    (intros [now last] [Hn Hl]; cbn in *; unfold restart_tick;
     rewrite Sub_in_time, negb_true_iff, Z.ltb_ge by done; lia).
  all: pose proof (watch_loop_spec tick ticks) as H; rewrite list.Forall_forall in Hall.
  - intros now last Hw. rewrite Hw in H. destruct H as (pre & post & -> & Ht & _).
    apply (Htick (now, last)); [apply Hall; set_solver|done].
  - intros Hold ([now last] & Hin & Hnow). cbn in Hnow. rewrite list.Forall_forall in Hold.
    pose proof (Hold _ Hin) as Hl. cbn in Hl.
    assert (tick (now, last) = true) as Hfire by (apply Htick; [by apply Hall|cbn; lia]).
    destruct (watch_loop tick ticks) as [t|].
    2: { rewrite list.Forall_forall in H. pose proof (H _ Hin). congruence. }
    exists t. split; [done|]. destruct H as (pre & post & -> & Ht & Hpre).
    assert (t.1 ≤ now) as Hle; [|lia].
    apply elem_of_app in Hin as [Hin|Hin].
    { rewrite list.Forall_forall in Hpre. pose proof (Hpre _ Hin). congruence. }
    apply elem_of_cons in Hin as [<-|Hin]; [cbn; lia|].
    rewrite fmap_app, fmap_cons in Hs. apply StronglySorted_app_1_r, StronglySorted_inv in Hs as [_ Hs].
    rewrite list.Forall_forall in Hs. apply Hs. apply list_elem_of_fmap. by exists (now, last).
Qed.

(** ** Witnesses *)

Lemma timeline_sample : timeline 1000 [KaUser 2000; KaTick 5000; KaTick 9000].
Proof. split; [done|]. split; [|repeat constructor; done]. repeat constructor; done. Qed.

Lemma keepalive_silence_witness :
  ka_run 4000 1000 1000 [KaUser 2000; KaTick 5000; KaTick 9000] = [(false, 2000); (true, 9000)] ∧
  ∃ o, o ∈ [1000; 2000; 9000] ∧ o ≤ 8999 < o + 4000 + 4000.
Proof.
  split; [reflexivity|].
  destruct (keepalive_silence 4000 4000 1000 _ ltac:(lia) timeline_sample) as [H _].
  apply H. exists 5000. split; [right; set_solver|lia].
Defined.

Lemma activity_watch_exact_witness :
  let cfg := mkActivityConfig 100 100 50 50 200 in
  let quiet := (30, mkClocks 1 20 25 20 25 0 0) in
  let dead := (100, mkClocks 90 95 40 95 0 0 0) in
  coherent (activity_params cfg) ∧ dataActivityWatch cfg 0 [quiet; dead] = Some dead.
Proof.
  split; [|reflexivity].
  apply (activity_watch_exact (mkActivityConfig 100 100 50 50 200) 0 []); [done|constructor].
Defined.

Lemma ping_restart_timely_witness :
  ∃ t, pingRestartWatch 60 [(40, 20); (90, 20); (100, 20)] = Some t ∧ t.1 < 20 + 60 + 50.
Proof.
  assert (Forall (λ t, in_time t.1 ∧ in_time t.2) [(40, 20); (90, 20); (100, 20)]) as Ht
    by (repeat constructor; done).
  assert (StronglySorted Z.le [(40, 20); (90, 20); (100, 20)].*1) as Hs by (repeat constructor; done).
  destruct (ping_restart_timely 60 50 20 _ ltac:(done) Ht Hs) as (_ & _ & H).
  apply H; [by repeat constructor|]. exists (90, 20). split; [set_solver|done].
Defined.
