(* ===== verification/DataKeys.v ===== *)
(** Data-channel keys, [internal/control/keys.go]: the 256-byte export of the
    TLS session and how it is cut into the keys and IVs of a slot; with the two
    places of [internal/session] that build a slot from it, [buildSlot] and
    steps 5 and 6 of [PerformSoftReset].  The TLS exporter is a parameter. *)
From S2P Require Import Prelude Wire Replay DataChannel.
Local Open Scope Z_scope.

Definition DataKeyMaterialLen : nat := 256.
Definition ExportLabel : string := "EXPORTER-OpenVPN-datakeys".

(** [[DataKeyMaterialLen]byte]. *)
Abbreviation DataKeyMaterial := bytes.

Inductive key_material_error : Type :=
  | ErrExport                               (* the error of ExportKeyingMaterial *)
  | ErrExportLength (n : nat)
  | ErrUnsupportedCipher (cipher : string)
  | ErrSlot (e : data_error).

Definition ClientToServerCipherKey (m : DataKeyMaterial) (keyLen : nat) : res key_material_error bytes :=
  slice m 0 keyLen.
Definition ClientToServerImplicitIV (m : DataKeyMaterial) : res key_material_error bytes :=
  slice m 64 (64 + ImplicitIVLen).
Definition ServerToClientCipherKey (m : DataKeyMaterial) (keyLen : nat) : res key_material_error bytes :=
  slice m 128 (128 + keyLen).
Definition ServerToClientImplicitIV (m : DataKeyMaterial) : res key_material_error bytes :=
  slice m 192 (192 + ImplicitIVLen).

(** [out] is what [ExportKeyingMaterial] returned. *)
Definition DeriveDataKeys (out : option bytes) : res key_material_error DataKeyMaterial :=
  match out with
  | None => Err ErrExport
  | Some out =>
      guard_err (negb (length out =? DataKeyMaterialLen)%nat) (ErrExportLength (length out));;
      Ok out
  end.

Definition AEADKeyLen (cipher : string) : res key_material_error nat :=
  if bool_decide (cipher = "AES-256-GCM") || bool_decide (cipher = "CHACHA20-POLY1305") then Ok 32%nat
  else if bool_decide (cipher = "AES-128-GCM") then Ok 16%nat
  else Err (ErrUnsupportedCipher cipher).

Section slots.
Context `{C : Aead}.

Definition lift_slot (r : res data_error Slot) : res key_material_error Slot :=
  match r with Ok s => Ok s | Err e => Err (ErrSlot e) | Panic => Panic end.

(** [buildSlot] of the initial handshake. *)
Definition buildSlot (keyID peerID : Z) (cipher : string) (km : DataKeyMaterial)
  : res key_material_error Slot :=
  keyLen ← AEADKeyLen cipher;
  sendKey ← ClientToServerCipherKey km keyLen;
  sendIV ← ClientToServerImplicitIV km;
  recvKey ← ServerToClientCipherKey km keyLen;
  recvIV ← ServerToClientImplicitIV km;
  lift_slot (NewSlot (mkSlotConfig keyID peerID cipher sendKey sendIV recvKey recvIV 0)).

(** Steps 5 and 6 of a rekey cut the export themselves. *)
Definition rekey_slot (newKID peerID : Z) (cipher : string) (out : option bytes)
  : res key_material_error Slot :=
  match out with
  | None => Err ErrExport
  | Some mat =>
      keyLen ← AEADKeyLen cipher;
      sendKey ← slice mat 0 keyLen;
      sendIV ← slice mat 64 (64 + ImplicitIVLen);
      recvKey ← slice mat 128 (128 + keyLen);
      recvIV ← slice mat 192 (192 + ImplicitIVLen);
      lift_slot (NewSlot (mkSlotConfig newKID peerID cipher sendKey sendIV recvKey recvIV 0))
  end.

(** The slot of the server for the same export: the same cuts, mirrored. *)
Definition server_slot (keyID peerID : Z) (cipher : string) (km : DataKeyMaterial)
  : res key_material_error Slot :=
  keyLen ← AEADKeyLen cipher;
  recvKey ← slice km 0 keyLen;
  recvIV ← slice km 64 (64 + ImplicitIVLen);
  sendKey ← slice km 128 (128 + keyLen);
  sendIV ← slice km 192 (192 + ImplicitIVLen);
  lift_slot (NewSlot (mkSlotConfig keyID peerID cipher sendKey sendIV recvKey recvIV 0)).

(** The constructor succeeds on the key length the cipher asks for. *)
Definition cipher_total : Prop :=
  ∀ c key n, AEADKeyLen c = Ok n → length key = n → is_Some (aead_new c key).

Lemma AEADKeyLen_le c n : AEADKeyLen c = Ok n → (n ≤ 32)%nat.
Proof. unfold AEADKeyLen. destruct (_ || _); [intros [= <-]; lia|]. case_bool_decide; [intros [= <-]; lia|done]. Qed.

Lemma NewAEAD_total c key n :
  cipher_total → AEADKeyLen c = Ok n → length key = n → ∃ a, NewAEAD c key = Ok a.
Proof.
  intros Ht Hc Hl. destruct (Ht c key n Hc Hl) as [a Ha]. exists a.
  unfold AEADKeyLen in Hc. unfold NewAEAD, check_key.
  case_bool_decide as H1; [injection Hc as <-; rewrite Hl, Ha; done|].
  case_bool_decide as H2; [subst c; cbn in Hc; injection Hc as <-; rewrite Hl, Ha; done|].
  case_bool_decide as H3; [injection Hc as <-; rewrite Hl, Ha; done|]. by cbn in Hc.
Qed.

Lemma NewSlot_total kid peer c sk siv rk riv n :
  cipher_total → AEADKeyLen c = Ok n → length sk = n → length rk = n → is_u24 peer →
  ∃ sa ra, NewSlot (mkSlotConfig kid peer c sk siv rk riv 0) =
    Ok (mkSlot kid peer sa siv 0 ra riv (NewReplayWindow 0)) ∧
    NewAEAD c sk = Ok sa ∧ NewAEAD c rk = Ok ra.
Proof.
  intros Ht Hc Hs Hr Hp. destruct (NewAEAD_total c sk n Ht Hc Hs) as [sa Hsa].
  destruct (NewAEAD_total c rk n Ht Hc Hr) as [ra Hra]. exists sa, ra. split; [|done].
  unfold NewSlot. cbn. rewrite Hsa, Hra. rewrite guard_pass; [done|].
  apply negb_false_iff, Z.eqb_eq. change 0xFFFFFF with (Z.ones 24).
  apply Z.ldiff_ones_r_low; [apply Hp|]. destruct (decide (peer = 0)) as [->|]; [done|].
  apply Z.log2_lt_pow2; unfold is_u24 in Hp; lia.
Qed.

Lemma slots_agree kid peer c out km :
  cipher_total → DeriveDataKeys out = Ok km → is_u24 peer →
  match AEADKeyLen c with
  | Ok _ => ∃ s t, buildSlot kid peer c km = Ok s ∧ rekey_slot kid peer c out = Ok s ∧
      server_slot kid peer c km = Ok t ∧ paired s t ∧ paired t s ∧ s_sendPID s = 0 ∧ s_KeyID s = kid
  | Err e => buildSlot kid peer c km = Err e ∧ rekey_slot kid peer c out = Err e
  | Panic => False
  end.
Proof.
  intros Ht Hd Hp. unfold DeriveDataKeys in Hd. destruct out as [out|]; [|done].
  destruct (Nat.eqb_spec (length out) DataKeyMaterialLen) as [Hl|]; [|done]. injection Hd as ->.
  unfold DataKeyMaterialLen in Hl. unfold buildSlot, rekey_slot, server_slot.
  destruct (AEADKeyLen c) as [n|e|] eqn:Hc; bind.
  2: done.
  2: { unfold AEADKeyLen in Hc. by repeat case_match. }
  pose proof (AEADKeyLen_le c n Hc) as Hn.
  unfold ClientToServerCipherKey, ClientToServerImplicitIV, ServerToClientCipherKey,
    ServerToClientImplicitIV, ImplicitIVLen.
  rewrite !slice_Ok by lia. bind.
  set (k1 := take _ (drop 0 km)). set (k2 := take _ (drop 128 km)).
  assert (length k1 = n ∧ length k2 = n) as [H1 H2].
  { subst k1 k2. rewrite !length_take, !length_drop. lia. }
  set (iv1 := take _ (drop 64 km)). set (iv2 := take _ (drop 192 km)).
  destruct (NewSlot_total kid peer c k1 iv1 k2 iv2 n Ht Hc H1 H2 Hp) as (a & b & -> & Ha & Hb).
  destruct (NewSlot_total kid peer c k2 iv2 k1 iv1 n Ht Hc H2 H1 Hp) as (a' & b' & -> & Ha' & Hb').
  rewrite Ha in Hb'. rewrite Hb in Ha'. simplify_eq.
  do 2 eexists. split_and!; try reflexivity; by split.
Qed.

(** Both ends of a TLS session get matching slots from its export.  For a
    supported cipher the initial handshake and a rekey build the same slot from
    the same 256 bytes, and it is paired in both directions with the slot a
    server cuts from them; for an unsupported cipher both return its error. *)
Theorem data_keys_agree kid peer c out km :
  cipher_total → DeriveDataKeys out = Ok km → is_u24 peer →
  match AEADKeyLen c with
  | Ok _ => ∃ s t, buildSlot kid peer c km = Ok s ∧ rekey_slot kid peer c out = Ok s ∧
      server_slot kid peer c km = Ok t ∧ paired s t ∧ paired t s ∧ s_sendPID s = 0 ∧ s_KeyID s = kid
  | Err e => buildSlot kid peer c km = Err e ∧ rekey_slot kid peer c out = Err e
  | Panic => False
  end.
Proof. apply slots_agree. Qed.
End slots.

Lemma toy_cipher_total : cipher_total (C := toy_aead).
Proof. intros c key n _ _. by eexists. Qed.

Lemma data_keys_agree_witness :
  ∃ s t, buildSlot 1 5 "AES-128-GCM" (replicate 256 x11) = Ok s ∧
    rekey_slot 1 5 "AES-128-GCM" (Some (replicate 256 x11)) = Ok s ∧
    server_slot 1 5 "AES-128-GCM" (replicate 256 x11) = Ok t ∧ paired s t ∧ paired t s ∧
    s_sendPID s = 0 ∧ s_KeyID s = 1.
Proof.
  apply (data_keys_agree 1 5 "AES-128-GCM" (Some (replicate 256 x11)) (replicate 256 x11)
    toy_cipher_total); done.
Defined.
