(* ===== verification/Tables.v ===== *)
(** The two key-id tables of a session, [internal/session/tables.go].  A Go
    pointer is an index into a store of objects that only grows: the tables map
    key-ids to indices, so that "the exact object the caller installed" is
    equality of indices, whatever the key-id has been reused for. *)
From S2P Require Import Prelude Wire Replay Reliable ReliableFacts DataChannel.
Local Open Scope Z_scope.

(** [&T{...}] stored, and an update through a pointer. *)
Definition alloc {A} (x : A) (store : list A) : nat * list A := (length store, store ++ [x]).

(** ** Slots *)

Section slots.
Context `{C : Aead}.

Record slotTable := mkSlotTable {
  st_store : list Slot;
  st_byKID : gmap Z nat;
  st_active : Z
}.

Definition newSlotTable : slotTable := mkSlotTable [] ∅ 0.

(** [Install(s, makeActive)] of the object [p], whose KeyID is [kid]. *)
Definition slot_Install (kid : Z) (p : nat) (makeActive : bool) (t : slotTable) : slotTable :=
  mkSlotTable (st_store t) (<[kid := p]> (st_byKID t)) (if makeActive then kid else st_active t).

(** A missing entry reads as the nil pointer, [None]. *)
Definition slot_RetireIf (kid : Z) (want : option nat) (t : slotTable) : slotTable :=
  if bool_decide (st_byKID t !! kid = want)
  then mkSlotTable (st_store t) (delete kid (st_byKID t)) (st_active t) else t.

Definition slot_Get (kid : Z) (t : slotTable) : option nat := st_byKID t !! kid.
Definition slot_ActiveKID (t : slotTable) : Z := st_active t.
Definition slot_Active (t : slotTable) : option nat := slot_Get (st_active t) t.
Definition slot_Retire (kid : Z) (t : slotTable) : slotTable :=
  mkSlotTable (st_store t) (delete kid (st_byKID t)) (st_active t).

Definition slot_deref (p : nat) (t : slotTable) : option Slot := st_store t !! p.
Definition slot_set (p : nat) (s : Slot) (t : slotTable) : slotTable :=
  mkSlotTable (<[p := s]> (st_store t)) (st_byKID t) (st_active t).
Definition slot_new (s : Slot) (t : slotTable) : nat * slotTable :=
  let '(p, store) := alloc s (st_store t) in (p, mkSlotTable store (st_byKID t) (st_active t)).

(** Every entry points to a slot of its key-id. *)
Record slots_ok (t : slotTable) : Prop := {
  so_active : 0 ≤ st_active t < 8;
  so_entry k p : st_byKID t !! k = Some p → 0 ≤ k < 8 ∧ ∃ s, st_store t !! p = Some s ∧ s_KeyID s = k
}.

Lemma newSlotTable_ok : slots_ok newSlotTable.
Proof. split; cbn; [lia|]. intros k p H. by rewrite lookup_empty in H. Qed.

Lemma slot_set_ok p s s0 t :
  slots_ok t → slot_deref p t = Some s0 → s_KeyID s = s_KeyID s0 → slots_ok (slot_set p s t).
Proof.
  intros [Ha He] Hd Hk. split; cbn; [done|]. intros k q Hq. destruct (He k q Hq) as (Hr & s1 & Hs1 & Hk1).
  split; [done|]. destruct (decide (p = q)) as [<-|].
  - exists s. unfold slot_deref in Hd. rewrite list_lookup_insert_eq by by eapply lookup_lt_Some.
    split; [done|]. congruence.
  - exists s1. by rewrite list_lookup_insert_ne.
Qed.

Lemma slot_new_ok s t : slots_ok t → slots_ok (slot_new s t).2.
Proof.
  intros [Ha He]. split; cbn; [done|]. intros k q Hq. destruct (He k q Hq) as (Hr & s1 & Hs1 & Hk1).
  split; [done|]. exists s1. split; [|done]. by apply lookup_app_l_Some.
Qed.

Lemma slot_Install_ok kid p b s t :
  slots_ok t → slot_deref p t = Some s → s_KeyID s = kid → 0 ≤ kid < 8 → slots_ok (slot_Install kid p b t).
Proof.
  intros [Ha He] Hp Hs Hk. split; cbn; [by destruct b|].
  intros k q [[<- <-]|[_ Hq]]%lookup_insert_Some; [split; [done|by exists s]|by apply He].
Qed.

Lemma slot_RetireIf_ok kid w t : slots_ok t → slots_ok (slot_RetireIf kid w t).
Proof.
  intros [Ha He]. unfold slot_RetireIf. case_bool_decide; [|done]. split; cbn; [done|].
  intros k q [_ Hq]%lookup_delete_Some. by apply He.
Qed.

(** Retiring an object other than the active one keeps the active slot. *)
Lemma slot_RetireIf_active kid w t :
  (kid = st_active t → w ≠ slot_Active t) → slot_Active (slot_RetireIf kid w t) = slot_Active t.
Proof.
  unfold slot_RetireIf, slot_Active, slot_Get. intros H. case_bool_decide as Hb; [|done]. cbn.
  destruct (decide (kid = st_active t)) as [->|]; [|by rewrite lookup_delete_ne].
  rewrite Hb in H. by destruct (H eq_refl).
Qed.
End slots.

(** ** Layers *)

Record layerTable := mkLayerTable {
  lt_store : list Layer;
  lt_byKID : gmap Z nat
}.

Definition newLayerTable : layerTable := mkLayerTable [] ∅.

(** The displaced object, when another one held the key-id. *)
Definition layer_Install (kid : Z) (p : nat) (t : layerTable) : layerTable * option nat :=
  (mkLayerTable (lt_store t) (<[kid := p]> (lt_byKID t)),
   match lt_byKID t !! kid with
   | Some prev => if (prev =? p)%nat then None else Some prev
   | None => None
   end).

Definition layer_RetireIf (kid : Z) (want : option nat) (t : layerTable) : layerTable * option nat :=
  match lt_byKID t !! kid with
  | Some l =>
      if bool_decide (Some l = want)
      then (mkLayerTable (lt_store t) (delete kid (lt_byKID t)), Some l) else (t, None)
  | None => (t, None)
  end.

Definition layer_Get (kid : Z) (t : layerTable) : option nat := lt_byKID t !! kid.

Definition layer_Retire (kid : Z) (t : layerTable) : layerTable * option nat :=
  (mkLayerTable (lt_store t) (delete kid (lt_byKID t)), lt_byKID t !! kid).

Definition layer_deref (p : nat) (t : layerTable) : option Layer := lt_store t !! p.
Definition layer_set (p : nat) (l : Layer) (t : layerTable) : layerTable :=
  mkLayerTable (<[p := l]> (lt_store t)) (lt_byKID t).
Definition layer_new (l : Layer) (t : layerTable) : nat * layerTable :=
  let '(p, store) := alloc l (lt_store t) in (p, mkLayerTable store (lt_byKID t)).

(** [l.Close()] through a pointer, nil or not. *)
Definition close_layer (p : option nat) (t : layerTable) : layerTable :=
  match p with
  | Some p => match layer_deref p t with Some l => layer_set p (Close l) t | None => t end
  | None => t
  end.

(** [retireLayer] and [retireLayerIf] of [rekey.go]. *)
Definition retireLayer (kid : Z) (t : layerTable) : layerTable :=
  let '(t, l) := layer_Retire kid t in close_layer l t.
Definition retireLayerIf (kid : Z) (want : option nat) (t : layerTable) : layerTable :=
  let '(t, l) := layer_RetireIf kid want t in close_layer l t.

#[global] Arguments close_layer : simpl never.
#[global] Arguments retireLayer : simpl never.
#[global] Arguments retireLayerIf : simpl never.

(** Key-ids count modulo 8 and skip 0 ([uint8] arithmetic). *)
Definition nextKeyID (cur : Z) : Z :=
  let next := Z.land (u8 (cur + 1)) 0x07 in
  if next =? 0 then 1 else next.

Lemma nextKeyID_range cur : 1 ≤ nextKeyID cur < 8.
Proof.
  unfold nextKeyID. change 0x07 with (Z.ones 3). rewrite Z.land_ones by lia.
  pose proof (Z.mod_pos_bound (u8 (cur + 1)) (2 ^ 3) ltac:(lia)).
  destruct (Z.eqb_spec (u8 (cur + 1) mod 2 ^ 3) 0); lia.
Qed.

Lemma nextKeyID_ne cur : 0 ≤ cur < 8 → nextKeyID cur ≠ cur.
Proof.
  intros H. assert (cur = 0 ∨ cur = 1 ∨ cur = 2 ∨ cur = 3 ∨ cur = 4 ∨ cur = 5 ∨ cur = 6 ∨ cur = 7) as Hc by lia.
  by destruct Hc as [->|[->|[->|[->|[->|[->|[->| ->]]]]]]].
Qed.

(** Every entry points to a layer of its key-id. *)
Record layers_ok (t : layerTable) : Prop := {
  lo_entry k p : lt_byKID t !! k = Some p → 0 ≤ k < 8 ∧ ∃ l, lt_store t !! p = Some l ∧ l_keyID l = k
}.

Lemma newLayerTable_ok : layers_ok newLayerTable.
Proof. split; cbn. intros k p H. by rewrite lookup_empty in H. Qed.

Lemma layers_ok_inj t k1 k2 p :
  layers_ok t → lt_byKID t !! k1 = Some p → lt_byKID t !! k2 = Some p → k1 = k2.
Proof.
  intros [He] H1 H2. destruct (He _ _ H1) as (_ & l & Hl & <-).
  destruct (He _ _ H2) as (_ & l' & Hl' & <-). congruence.
Qed.

Lemma layer_set_ok p l l0 t :
  layers_ok t → layer_deref p t = Some l0 → l_keyID l = l_keyID l0 → layers_ok (layer_set p l t).
Proof.
  intros [He] Hd Hk. split; cbn. intros k q Hq. destruct (He k q Hq) as (Hr & l1 & Hl1 & Hk1).
  split; [done|]. destruct (decide (p = q)) as [<-|].
  - exists l. unfold layer_deref in Hd. rewrite list_lookup_insert_eq by by eapply lookup_lt_Some.
    split; congruence.
  - exists l1. by rewrite list_lookup_insert_ne.
Qed.

Lemma layer_new_ok l t : layers_ok t → layers_ok (layer_new l t).2.
Proof.
  intros [He]. split; cbn. intros k q Hq. destruct (He k q Hq) as (Hr & l1 & Hl1 & ?).
  split; [done|]. exists l1. split; [by apply lookup_app_l_Some|done].
Qed.

Lemma Close_keyID l : l_keyID (Close l) = l_keyID l.
Proof. unfold Close. destruct (l_closed l); [done|]. lay. by destruct (l_readErr l). Qed.

Lemma close_layer_ok p t : layers_ok t → layers_ok (close_layer p t).
Proof.
  intros Ht. unfold close_layer. destruct p as [p|]; [|done].
  destruct (layer_deref p t) as [l|] eqn:Hl; [|done]. eapply layer_set_ok; [done|done|]. apply Close_keyID.
Qed.

Lemma close_layer_byKID p t : lt_byKID (close_layer p t) = lt_byKID t.
Proof. unfold close_layer. destruct p as [p|]; [|done]. by destruct (layer_deref p t). Qed.

Lemma close_layer_length p t : length (lt_store (close_layer p t)) = length (lt_store t).
Proof.
  unfold close_layer. destruct p as [p|]; [|done]. destruct (layer_deref p t); [|done].
  cbn. apply length_insert.
Qed.

Lemma close_layer_deref p q t : p ≠ Some q → layer_deref q (close_layer p t) = layer_deref q t.
Proof.
  intros H. unfold close_layer. destruct p as [p|]; [|done].
  destruct (layer_deref p t); [|done]. cbn. apply list_lookup_insert_ne. congruence.
Qed.

Lemma layers_ok_delete kid t : layers_ok t → layers_ok (mkLayerTable (lt_store t) (delete kid (lt_byKID t))).
Proof. intros [He]. split; cbn. intros k p [_ H]%lookup_delete_Some. by apply He. Qed.

Lemma retireLayer_ok kid t : layers_ok t → layers_ok (retireLayer kid t).
Proof. intros Ht. by apply close_layer_ok, layers_ok_delete. Qed.

Lemma retireLayerIf_ok kid w t : layers_ok t → layers_ok (retireLayerIf kid w t).
Proof.
  intros Ht. unfold retireLayerIf, layer_RetireIf. destruct (lt_byKID t !! kid) as [p|] eqn:Hp; [|done].
  case_bool_decide; [|done]. by apply close_layer_ok, layers_ok_delete.
Qed.

(** [k] keeps its entry, and the layer behind it is untouched. *)
Definition kept (k : Z) (t t' : layerTable) : Prop :=
  lt_byKID t' !! k = lt_byKID t !! k ∧
  ∀ p, lt_byKID t !! k = Some p → layer_deref p t' = layer_deref p t.

Lemma kept_trans k t1 t2 t3 : kept k t1 t2 → kept k t2 t3 → kept k t1 t3.
Proof. intros [He1 Hd1] [He2 Hd2]. split; [congruence|]. intros p Hp. rewrite Hd2, Hd1; congruence. Qed.

Lemma retireLayer_kept kid k t : layers_ok t → k ≠ kid → kept k t (retireLayer kid t).
Proof.
  intros Ht Hk. unfold retireLayer, layer_Retire. split.
  - rewrite close_layer_byKID. cbn. by rewrite lookup_delete_ne.
  - intros p Hp. rewrite close_layer_deref; [done|]. intros Hp'. by apply Hk, (layers_ok_inj t k kid p).
Qed.

Lemma retireLayerIf_kept kid w k t :
  layers_ok t → (k = kid → w ≠ lt_byKID t !! k) → kept k t (retireLayerIf kid w t).
Proof.
  intros Ht Hw. unfold retireLayerIf, layer_RetireIf. destruct (lt_byKID t !! kid) as [p|] eqn:Hp; [|done].
  case_bool_decide as Hb; [|done].
  assert (k ≠ kid) as Hk by (intros ->; apply (Hw eq_refl); congruence). split.
  - rewrite close_layer_byKID. cbn. by rewrite lookup_delete_ne.
  - intros q Hq. rewrite close_layer_deref; [done|]. intros [= ->].
    by apply Hk, (layers_ok_inj t k kid q).
Qed.

Lemma close_layer_kept p k t : (∀ q, p = Some q → lt_byKID t !! k ≠ Some q) → kept k t (close_layer p t).
Proof.
  intros H. split; [by rewrite close_layer_byKID|]. intros q Hq. apply close_layer_deref.
  intros ->. by apply (H q).
Qed.

Lemma layer_new_kept l k t : layers_ok t → kept k t (layer_new l t).2.
Proof.
  intros [He]. split; [done|]. cbn. intros p Hp. destruct (He k p Hp) as (_ & l' & Hl & _).
  unfold layer_deref. cbn. rewrite Hl. by apply lookup_app_l_Some.
Qed.

Lemma layer_set_kept p l k t : lt_byKID t !! k ≠ Some p → kept k t (layer_set p l t).
Proof.
  intros H. split; [done|]. intros q Hq. cbn. apply list_lookup_insert_ne. congruence.
Qed.

Lemma retireLayer_length kid t : length (lt_store (retireLayer kid t)) = length (lt_store t).
Proof. unfold retireLayer, layer_Retire. by rewrite close_layer_length. Qed.

Lemma retireLayerIf_length kid w t : length (lt_store (retireLayerIf kid w t)) = length (lt_store t).
Proof.
  unfold retireLayerIf, layer_RetireIf. destruct (lt_byKID t !! kid); [|done].
  case_bool_decide; [|done]. by rewrite close_layer_length.
Qed.

Lemma layers_ok_lt t k p : layers_ok t → lt_byKID t !! k = Some p → (p < length (lt_store t))%nat.
Proof. intros [He] Hp. destruct (He k p Hp) as (_ & l & Hl & _). by eapply lookup_lt_Some. Qed.

(** Installing a fresh object: what it displaces is closed by the caller. *)
Definition install_fresh (kid : Z) (l : Layer) (t : layerTable) : layerTable :=
  let '(q, t) := layer_new l t in
  let '(t, displaced) := layer_Install kid q t in close_layer displaced t.

Lemma install_fresh_spec kid l t :
  layers_ok t → l_keyID l = kid → 0 ≤ kid < 8 →
  let q := length (lt_store t) in let t' := install_fresh kid l t in
  layers_ok t' ∧ length (lt_store t') = S q ∧ lt_byKID t' !! kid = Some q ∧
  layer_deref q t' = Some l ∧ (∀ k, k ≠ kid → kept k t t').
Proof.
  intros Ht Hl Hr q t'. unfold install_fresh, layer_new, alloc, layer_Install in t'. cbn in t'.
  set (d := match lt_byKID t !! kid with
            | Some prev => if (prev =? length (lt_store t))%nat then None else Some prev
            | None => None end) in t'.
  set (t1 := mkLayerTable (lt_store t ++ [l]) (<[kid:=length (lt_store t)]> (lt_byKID t))) in t'.
  assert (layers_ok t1) as Ht1.
  { split; cbn. intros k p [[<- <-]|[_ Hp]]%lookup_insert_Some.
    - split; [done|]. exists l. by rewrite list_lookup_middle.
    - destruct (lo_entry t Ht k p Hp) as (? & l' & Hl' & ?). split; [done|]. exists l'.
      split; [by apply lookup_app_l_Some|done]. }
  assert (∀ r, d = Some r → lt_byKID t !! kid = Some r ∧ r ≠ q) as Hd.
  { subst d. intros r. destruct (lt_byKID t !! kid) as [prev|]; [|done].
    destruct (Nat.eqb_spec prev (length (lt_store t))); [done|]. by intros [= ->]. }
  subst t'. split_and!.
  - by apply close_layer_ok.
  - rewrite close_layer_length. cbn. rewrite length_app. cbn. subst q. lia.
  - rewrite close_layer_byKID. cbn. apply lookup_insert_eq.
  - rewrite close_layer_deref by (intros Hdq; by apply (Hd q) in Hdq as [_ ?]).
    unfold layer_deref. cbn. by rewrite list_lookup_middle.
  - intros k Hk. apply (kept_trans k t t1).
    + split; [cbn; by rewrite lookup_insert_ne|]. intros p Hp. unfold layer_deref. cbn.
      rewrite lookup_app_l by (by eapply layers_ok_lt). done.
    + apply close_layer_kept. intros r Hr'. cbn. rewrite lookup_insert_ne by done. intros Hk'.
      apply Hd in Hr' as [Hr' _]. by apply Hk, (layers_ok_inj t k kid r).
Qed.
