(* ===== verification/Session.v ===== *)
(** The client session, [internal/session/session.go] with the rekey manager
    of [rekey.go] and the loops of [keepalive.go]: one state record and one
    function per handler.  Every handler runs as one step; goroutines interleave
    as sequences of steps.  [PerformSoftReset] blocks on the network, so it is
    two steps, with the outcome of the exchange as an argument of the second.
    The TLS library calls the reliability layer at any time; its calls are
    steps of the environment. *)
From S2P Require Import Prelude Text Wire Replay Reliable ReliableFacts Stream DataChannel ControlWrap.
From S2P Require Import Watch DataKeys Tables.
Local Open Scope Z_scope.

(** ** Control messages *)

Inductive close_error : Type :=
  | ErrServerExit
  | AuthFailedError (message : bytes)
  | RestartError (delay : Z) (why : bytes)
  | WorkerPanicked (worker : string).

Definition parseRestart (msg : bytes) : close_error :=
  if negb (HasPrefix msg (text "RESTART")) then RestartError 0 []
  else
    let rest := TrimPrefix (drop (length (text "RESTART")) msg) [comma] in
    match rest with
    | [] => RestartError 0 []
    | _ =>
        let '(first, second, hasSecond) := Cut rest comma in
        match Atoi first with
        | Some d => RestartError (i64 (d * Second)) (if hasSecond then second else [])
        | None => RestartError 0 rest
        end
    end.

(** What [controlChannelReader] does with one message: close with an error, or
    go on reading. *)
Definition control_message (msg : bytes) : option close_error :=
  if bool_decide (msg = text "EXIT") || HasPrefix msg (text "EXIT,") then Some ErrServerExit
  else if bool_decide (msg = text "RESTART") || HasPrefix msg (text "RESTART,") then Some (parseRestart msg)
  else if HasPrefix msg (text "AUTH_FAILED") then
    Some (AuthFailedError (TrimPrefix (TrimPrefix msg (text "AUTH_FAILED")) [comma]))
  else None.

(** ** The state *)

Record Counters := mkCounters {
  c_forwarded : Z; c_droppedFull : Z; c_pingIn : Z; c_openFailed : Z;
  c_strayHandshake : Z; c_hardResetIn : Z; c_outboundOK : Z; c_outboundErr : Z;
  c_lastOutboundErr : Z
}.
Definition no_counters : Counters := mkCounters 0 0 0 0 0 0 0 0 0.

(** [Add(1)] on an [atomic.Uint64]. *)
Definition succ64 (n : Z) : Z := u64 (n + 1).
Definition incr_forwarded (c : Counters) : Counters :=
  mkCounters (succ64 (c_forwarded c)) (c_droppedFull c) (c_pingIn c) (c_openFailed c) (c_strayHandshake c) (c_hardResetIn c) (c_outboundOK c) (c_outboundErr c) (c_lastOutboundErr c).
Definition incr_droppedFull (c : Counters) : Counters :=
  mkCounters (c_forwarded c) (succ64 (c_droppedFull c)) (c_pingIn c) (c_openFailed c) (c_strayHandshake c) (c_hardResetIn c) (c_outboundOK c) (c_outboundErr c) (c_lastOutboundErr c).
Definition incr_pingIn (c : Counters) : Counters :=
  mkCounters (c_forwarded c) (c_droppedFull c) (succ64 (c_pingIn c)) (c_openFailed c) (c_strayHandshake c) (c_hardResetIn c) (c_outboundOK c) (c_outboundErr c) (c_lastOutboundErr c).
Definition incr_openFailed (c : Counters) : Counters :=
  mkCounters (c_forwarded c) (c_droppedFull c) (c_pingIn c) (succ64 (c_openFailed c)) (c_strayHandshake c) (c_hardResetIn c) (c_outboundOK c) (c_outboundErr c) (c_lastOutboundErr c).
Definition incr_strayHandshake (c : Counters) : Counters :=
  mkCounters (c_forwarded c) (c_droppedFull c) (c_pingIn c) (c_openFailed c) (succ64 (c_strayHandshake c)) (c_hardResetIn c) (c_outboundOK c) (c_outboundErr c) (c_lastOutboundErr c).
Definition incr_hardResetIn (c : Counters) : Counters :=
  mkCounters (c_forwarded c) (c_droppedFull c) (c_pingIn c) (c_openFailed c) (c_strayHandshake c) (succ64 (c_hardResetIn c)) (c_outboundOK c) (c_outboundErr c) (c_lastOutboundErr c).
Definition incr_outboundOK (c : Counters) : Counters :=
  mkCounters (c_forwarded c) (c_droppedFull c) (c_pingIn c) (c_openFailed c) (c_strayHandshake c) (c_hardResetIn c) (succ64 (c_outboundOK c)) (c_outboundErr c) (c_lastOutboundErr c).
Definition outbound_failed (now : Z) (c : Counters) : Counters :=
  mkCounters (c_forwarded c) (c_droppedFull c) (c_pingIn c) (c_openFailed c) (c_strayHandshake c) (c_hardResetIn c) (c_outboundOK c) (succ64 (c_outboundErr c)) now.

(** The stores to the timestamps. *)
Definition clock_inbound (now : Z) (c : Clocks) : Clocks :=
  mkClocks now (lastUserOutbound c) (lastDataInbound c) (lastUserOutboundTCP c) (lastDataInboundTCP c) (lastUserOutboundUDP c) (lastDataInboundUDP c).
Definition clock_data_in (now : Z) (ip : bytes) (c : Clocks) : Clocks :=
  let proto := sniffL4 ip in
  mkClocks (lastInbound c) (lastUserOutbound c) now
    (lastUserOutboundTCP c) (if proto =? l4ProtoTCP then now else lastDataInboundTCP c)
    (lastUserOutboundUDP c) (if proto =? l4ProtoUDP then now else lastDataInboundUDP c).
Definition clock_user_out (now : Z) (ip : bytes) (c : Clocks) : Clocks :=
  let proto := sniffL4 ip in
  mkClocks (lastInbound c) now (lastDataInbound c)
    (if proto =? l4ProtoTCP then now else lastUserOutboundTCP c) (lastDataInboundTCP c)
    (if proto =? l4ProtoUDP then now else lastUserOutboundUDP c) (lastDataInboundUDP c).

(** Where decrypted packets go: the channel of [Read], or the handler. *)
Record Delivery := mkDelivery {
  d_ingress : list bytes;
  d_capacity : nat;
  d_handler : bool;
  d_handed : list bytes     (* packets the handler was called with *)
}.

(** A rekey that is waiting for its exchange: the locals of [PerformSoftReset]. *)
Record running_rekey := mkRunning { rr_oldKID : Z; rr_newKID : Z; rr_layer : nat }.

(** A goroutine waiting in [retireAfter]. *)
Record retiring := mkRetiring { rt_kid : Z; rt_slot : option nat; rt_layer : option nat }.

Record rekeyManager := mkRekeyManager {
  rk_running : option running_rekey;   (* inProgress *)
  rk_retiring : list retiring;
  rk_queued : nat                      (* serverRekey workers started *)
}.

Section session.
Context `{C : Aead} `{CW : ControlWrapper W}.

Record Session := mkSession {
  ss_localSID : Z;
  ss_cipher : string;
  ss_peerID : Z;
  ss_pingInterval : Z;
  ss_pingRestart : Z;
  ss_wrapper : W;
  ss_slots : slotTable;
  ss_layers : layerTable;
  ss_up : bool;                 (* rekeyMgr is set: the session is established *)
  ss_rekey : rekeyManager;
  ss_tlsConn : option nat;      (* the layer the active TLS conn runs over *)
  ss_clocks : Clocks;
  ss_lastPing : Z;              (* the keepalive loop's local *)
  ss_stats : Counters;
  ss_delivery : Delivery;
  ss_closeErr : option close_error;
  ss_closed : bool;
  ss_closing : bool;            (* a goroutine calling Close was started *)
  ss_done : bool;               (* the lifetime context is cancelled *)
  ss_sent : list bytes          (* datagrams written to the transport *)
}.

Definition with_wrapper (v : W) (s : Session) : Session :=
  mkSession (ss_localSID s) (ss_cipher s) (ss_peerID s) (ss_pingInterval s) (ss_pingRestart s) v (ss_slots s) (ss_layers s) (ss_up s) (ss_rekey s) (ss_tlsConn s) (ss_clocks s) (ss_lastPing s) (ss_stats s) (ss_delivery s) (ss_closeErr s) (ss_closed s) (ss_closing s) (ss_done s) (ss_sent s).
Definition with_slots (v : slotTable) (s : Session) : Session :=
  mkSession (ss_localSID s) (ss_cipher s) (ss_peerID s) (ss_pingInterval s) (ss_pingRestart s) (ss_wrapper s) v (ss_layers s) (ss_up s) (ss_rekey s) (ss_tlsConn s) (ss_clocks s) (ss_lastPing s) (ss_stats s) (ss_delivery s) (ss_closeErr s) (ss_closed s) (ss_closing s) (ss_done s) (ss_sent s).
Definition with_layers (v : layerTable) (s : Session) : Session :=
  mkSession (ss_localSID s) (ss_cipher s) (ss_peerID s) (ss_pingInterval s) (ss_pingRestart s) (ss_wrapper s) (ss_slots s) v (ss_up s) (ss_rekey s) (ss_tlsConn s) (ss_clocks s) (ss_lastPing s) (ss_stats s) (ss_delivery s) (ss_closeErr s) (ss_closed s) (ss_closing s) (ss_done s) (ss_sent s).
Definition with_rekey (v : rekeyManager) (s : Session) : Session :=
  mkSession (ss_localSID s) (ss_cipher s) (ss_peerID s) (ss_pingInterval s) (ss_pingRestart s) (ss_wrapper s) (ss_slots s) (ss_layers s) (ss_up s) v (ss_tlsConn s) (ss_clocks s) (ss_lastPing s) (ss_stats s) (ss_delivery s) (ss_closeErr s) (ss_closed s) (ss_closing s) (ss_done s) (ss_sent s).
Definition with_tlsConn (v : option nat) (s : Session) : Session :=
  mkSession (ss_localSID s) (ss_cipher s) (ss_peerID s) (ss_pingInterval s) (ss_pingRestart s) (ss_wrapper s) (ss_slots s) (ss_layers s) (ss_up s) (ss_rekey s) v (ss_clocks s) (ss_lastPing s) (ss_stats s) (ss_delivery s) (ss_closeErr s) (ss_closed s) (ss_closing s) (ss_done s) (ss_sent s).
Definition with_clocks (v : Clocks) (s : Session) : Session :=
  mkSession (ss_localSID s) (ss_cipher s) (ss_peerID s) (ss_pingInterval s) (ss_pingRestart s) (ss_wrapper s) (ss_slots s) (ss_layers s) (ss_up s) (ss_rekey s) (ss_tlsConn s) v (ss_lastPing s) (ss_stats s) (ss_delivery s) (ss_closeErr s) (ss_closed s) (ss_closing s) (ss_done s) (ss_sent s).
Definition with_lastPing (v : Z) (s : Session) : Session :=
  mkSession (ss_localSID s) (ss_cipher s) (ss_peerID s) (ss_pingInterval s) (ss_pingRestart s) (ss_wrapper s) (ss_slots s) (ss_layers s) (ss_up s) (ss_rekey s) (ss_tlsConn s) (ss_clocks s) v (ss_stats s) (ss_delivery s) (ss_closeErr s) (ss_closed s) (ss_closing s) (ss_done s) (ss_sent s).
Definition with_stats (v : Counters) (s : Session) : Session :=
  mkSession (ss_localSID s) (ss_cipher s) (ss_peerID s) (ss_pingInterval s) (ss_pingRestart s) (ss_wrapper s) (ss_slots s) (ss_layers s) (ss_up s) (ss_rekey s) (ss_tlsConn s) (ss_clocks s) (ss_lastPing s) v (ss_delivery s) (ss_closeErr s) (ss_closed s) (ss_closing s) (ss_done s) (ss_sent s).
Definition with_delivery (v : Delivery) (s : Session) : Session :=
  mkSession (ss_localSID s) (ss_cipher s) (ss_peerID s) (ss_pingInterval s) (ss_pingRestart s) (ss_wrapper s) (ss_slots s) (ss_layers s) (ss_up s) (ss_rekey s) (ss_tlsConn s) (ss_clocks s) (ss_lastPing s) (ss_stats s) v (ss_closeErr s) (ss_closed s) (ss_closing s) (ss_done s) (ss_sent s).
Definition with_life (err : option close_error) (closed closing done : bool) (s : Session) : Session :=
  mkSession (ss_localSID s) (ss_cipher s) (ss_peerID s) (ss_pingInterval s) (ss_pingRestart s) (ss_wrapper s) (ss_slots s) (ss_layers s) (ss_up s) (ss_rekey s) (ss_tlsConn s) (ss_clocks s) (ss_lastPing s) (ss_stats s) (ss_delivery s) err closed closing done (ss_sent s).
Definition with_sent (v : list bytes) (s : Session) : Session :=
  mkSession (ss_localSID s) (ss_cipher s) (ss_peerID s) (ss_pingInterval s) (ss_pingRestart s) (ss_wrapper s) (ss_slots s) (ss_layers s) (ss_up s) (ss_rekey s) (ss_tlsConn s) (ss_clocks s) (ss_lastPing s) (ss_stats s) (ss_delivery s) (ss_closeErr s) (ss_closed s) (ss_closing s) (ss_done s) v.

(** ** Closing *)

(** The first error wins. *)
Definition setCloseErr (e : close_error) (s : Session) : Session :=
  match ss_closeErr s with
  | None => with_life (Some e) (ss_closed s) (ss_closing s) (ss_done s) s
  | Some _ => s
  end.
(** A panic in a worker: recovered, recorded, and the lifetime context is
    cancelled ([workers.Manager.Go] with the handler of [DialWithTransport]). *)
Definition worker_panic (worker : string) (s : Session) : Session :=
  let s := setCloseErr (WorkerPanicked worker) s in
  with_life (ss_closeErr s) (ss_closed s) (ss_closing s) true s.
Definition closeAsync (s : Session) : Session :=
  with_life (ss_closeErr s) (ss_closed s) true (ss_done s) s.
(** [setCloseErr] followed by a detached [Close]. *)
Definition abandon (e : close_error) (s : Session) : Session := closeAsync (setCloseErr e s).

(** [shutdown]: the context, the eight layers, the TLS connection.  Closing a TLS
    connection closes the layer under it ([Adapter.Close]). *)
Definition shutdown (s : Session) : Session :=
  let s := with_life (ss_closeErr s) (ss_closed s) (ss_closing s) true s in
  let s := with_layers (foldl (λ t kid, retireLayer kid t) (ss_layers s) (seqZ 0 8)) s in
  with_tlsConn None (with_layers (close_layer (ss_tlsConn s) (ss_layers s)) s).

(** [Close] up to the EXIT notification, a write of the TLS library that may
    take a while; [shutdown] follows. *)
Definition session_Close (s : Session) : Session :=
  if ss_closed s then s else with_life (ss_closeErr s) true (ss_closing s) (ss_done s) s.

Definition RequestRestart (why : bytes) (s : Session) : Session :=
  if ss_closed s then s
  else
    let why := match why with [] => text "application requested restart" | _ => why end in
    abandon (RestartError 0 why) s.

(** One message of the control channel; [false] ends the reader. *)
Definition controlChannelReader (msg : bytes) (s : Session) : Session * bool :=
  match control_message msg with
  | Some e => (abandon e s, false)
  | None => (s, true)
  end.

(** ** Inbound packets *)

(** Delivery of a decrypted packet: the handler, or the channel unless full. *)
Definition deliver_ip (ip : bytes) (s : Session) : Session :=
  let d := ss_delivery s in
  if d_handler d then
    with_delivery (mkDelivery (d_ingress d) (d_capacity d) true (d_handed d ++ [ip]))
      (with_stats (incr_forwarded (ss_stats s)) s)
  else if (length (d_ingress d) <? d_capacity d)%nat then
    with_stats (incr_forwarded (ss_stats s))
      (with_delivery (mkDelivery (d_ingress d ++ [ip]) (d_capacity d) false (d_handed d)) s)
  else with_stats (incr_droppedFull (ss_stats s)) s.

Definition handleDataIn (now : Z) (pkt : bytes) (kid : Z) (s : Session) : Session :=
  match slot_Get kid (ss_slots s) with
  | None => s
  | Some p =>
      match slot_deref p (ss_slots s) with
      | None => s
      | Some slot =>
          let '(slot, _, r) := OpenInto [] pkt slot in
          let s := with_slots (slot_set p slot (ss_slots s)) s in
          match r with
          | Err _ => with_stats (incr_openFailed (ss_stats s)) s
          | Panic => worker_panic "readLoop" s
          | Ok ip =>
              let s := with_clocks (clock_inbound now (ss_clocks s)) s in
              if IsPing ip then with_stats (incr_pingIn (ss_stats s)) s
              else deliver_ip ip (with_clocks (clock_data_in now ip (ss_clocks s)) s)
          end
      end
  end.

Definition isStrayUnwrap (pkt : bytes) (opcode : Z) (layer : Layer) : bool :=
  if opcode =? PControlHardResetServerV2 then true
  else if (9 <=? length pkt)%nat then
    let sid := be_dec (take 8 (drop 1 pkt)) in
    let '(expected, ok) := RemoteSessionID layer in ok && negb (sid =? expected)
  else false.

(** [workers.Go]: refused once the manager is shut down. *)
Definition workers_Go (s : Session) : bool := negb (ss_done s).

Definition queue_rekey (s : Session) : Session :=
  with_rekey (mkRekeyManager (rk_running (ss_rekey s)) (rk_retiring (ss_rekey s)) (S (rk_queued (ss_rekey s)))) s.

(** The packet handed to the layer, when the payload parses. *)
Definition inbound_packet (opcode kid sid : Z) (plain : bytes) : res proto_error InPacket :=
  if opcode =? PAckV1 then
    ap ← ParseAckPayload plain; Ok (mkInPacket opcode kid sid zero_payload ap)
  else
    cp ← ParseControlPayload plain; Ok (mkInPacket opcode kid sid cp zero_ack).

Definition handleControlIn (now : Z) (pkt : bytes) (opcode kid : Z) (s : Session) : Session :=
  match layer_Get kid (ss_layers s) with
  | None =>
      if (opcode =? PControlSoftResetV1) && ss_up s then
        if (kid =? nextKeyID (slot_ActiveKID (ss_slots s))) && workers_Go s then queue_rekey s else s
      else s
  | Some p =>
      match layer_deref p (ss_layers s) with
      | None => s
      | Some layer =>
          let '(w, r) := cw_Unwrap pkt (ss_wrapper s) in
          let s := with_wrapper w s in
          match r with
          | Err _ =>
              if isStrayUnwrap pkt opcode layer then
                let s := with_stats (incr_strayHandshake (ss_stats s)) s in
                if opcode =? PControlHardResetServerV2
                then with_stats (incr_hardResetIn (ss_stats s)) s else s
              else s
          | Panic => worker_panic "readLoop" s
          | Ok (_, sid, _, plain) =>
              match inbound_packet opcode kid sid plain with
              | Ok i => with_layers (layer_set p (HandleInbound now i layer).1 (ss_layers s)) s
              | Err _ => s
              | Panic => worker_panic "readLoop" s
              end
          end
      end
  end.

(** One iteration of [readLoop] on what [ReadPacket] returned; [false] ends it. *)
Definition readLoop (now : Z) (r : bytes + bytes) (s : Session) : Session * bool :=
  match r with
  | inr err =>
      (if negb (ss_done s) && negb (ss_closed s)
       then abandon (RestartError 0 (text "transport read failed: " ++ err)) s else s, false)
  | inl [] => (s, true)
  | inl ((b :: _) as pkt) =>
      let '(opcode, kid) := UnpackOpcodeKID b in
      (if IsData opcode then handleDataIn now pkt kid s
       else if IsControl opcode then handleControlIn now pkt opcode kid s
       else s, true)
  end.

(** ** Outbound packets of a layer *)

Inductive transport_error : Type :=
  | ErrCanceled
  | ErrTransportClosed
  | ErrTransport (msg : bytes).

Definition marshal_outbound (out : OutPacket) : res proto_error bytes :=
  if IsAck out then MarshalAckPayload (op_Ack out) else MarshalControlPayload (op_Payload out).

(** One packet of [writeLoop] for the layer [p]; [werr] is the outcome of
    [WritePacket].  [None]: the channel is empty and the loop waits. *)
Definition writeLoop (now : Z) (werr : option transport_error) (p : nat) (s : Session)
  : option (Session * bool) :=
  layer ← layer_deref p (ss_layers s);
  match l_outbound layer with
  | [] => None
  | out :: rest =>
      let s := with_layers (layer_set p (set_outbound rest layer) (ss_layers s)) s in
      Some match marshal_outbound out with
      | Err _ => (s, true)
      | Panic => (worker_panic "writeLoop" s, false)
      | Ok body =>
          let opcodeKID := PackOpcodeKID (op_Opcode out) (op_KeyID out) in
          let '(w, wrapped) := cw_Wrap now opcodeKID (op_SessionID out) body (ss_wrapper s) in
          let s := with_wrapper w s in
          match werr with
          | None => (with_sent (ss_sent s ++ [wrapped]) s, true)
          | Some e =>
              (with_stats (outbound_failed now (ss_stats s)) s,
               match e with ErrCanceled | ErrTransportClosed => false | ErrTransport _ => true end)
          end
      end
  end.

Definition rel_error_text (e : rel_error) : bytes :=
  match e with
  | ErrClosed => text "reliable: closed"
  | ErrTooManyRetransmits => text "reliable: peer unreachable (max retransmits exceeded)"
  | ErrQueueFull => text "reliable: outbound queue full"
  | ErrSessionIDMismatch => text "reliable: remote session-id changed"
  | ErrBadHardResetOpcode => text "reliable: hard reset opcode must be a control opcode"
  | ErrEOF => text "EOF"
  | ErrReadAborted why => text why
  end.

(** One tick of [tickLoop]: an error of the active layer gives the session up. *)
Definition tickLoop (now : Z) (order : list Z) (p : nat) (s : Session) : option (Session * bool) :=
  layer ← layer_deref p (ss_layers s);
  let '(layer, err) := Tick now order layer in
  let s := with_layers (layer_set p layer (ss_layers s)) s in
  Some match err with
  | None => (s, true)
  | Some e =>
      let active := q ← slot_Active (ss_slots s); slot_deref q (ss_slots s) in
      (match active with
       | Some l =>
           if bool_decide (layer_Get (s_KeyID l) (ss_layers s) = Some p)
           then abandon (RestartError 0 (text "control-channel retransmits exceeded: " ++ rel_error_text e)) s
           else s
       | None => s
       end, false)
  end.

(** ** Rekey *)

Inductive rekey_error : Type :=
  | RkClosed
  | RkInProgress
  | RkRequired
  | RkSoftReset (e : rel_error)
  | RkExchange                     (* TLS handshake, KEY_METHOD 2 or its random bytes *)
  | RkKeys (e : key_material_error)
  | RkPanic.

Definition set_running (r : option running_rekey) (s : Session) : Session :=
  with_rekey (mkRekeyManager r (rk_retiring (ss_rekey s)) (rk_queued (ss_rekey s))) s.

Definition preseed (old : option Layer) (l : Layer) : Layer :=
  match old with
  | Some o => let '(sid, ok) := RemoteSessionID o in if ok then SetRemoteSessionID sid l else l
  | None => l
  end.

(** Steps 1 and 2 of [PerformSoftReset]: up to the exchange with the server. *)
Definition PerformSoftReset_start (now : Z) (s : Session) : Session * res rekey_error running_rekey :=
  if ss_closed s then (s, Err RkClosed)
  else
    match rk_running (ss_rekey s) with
    | Some _ => (s, Err RkInProgress)
    | None =>
        let oldKID := slot_ActiveKID (ss_slots s) in
        let newKID := nextKeyID oldKID in
        let oldLayer := p ← layer_Get oldKID (ss_layers s); layer_deref p (ss_layers s) in
        let newLayer := preseed oldLayer (New (mkConfig (ss_localSID s) newKID 0)) in
        let '(q, t) := layer_new newLayer (ss_layers s) in
        let '(t, displaced) := layer_Install newKID q t in
        let t := close_layer displaced t in
        if negb (workers_Go s) then (with_layers (retireLayerIf newKID (Some q) t) s, Err RkClosed)
        else
          match SendHardReset now PControlSoftResetV1 newLayer with
          | (_, Some e) => (with_layers (retireLayer newKID t) s, Err (RkSoftReset e))
          | (l, None) =>
              let r := mkRunning oldKID newKID q in
              (set_running (Some r) (with_layers (layer_set q l t) s), Ok r)
          end
    end.

(** [installTLSConn] of the connection over the layer [q]: the connection it
    replaces is closed, and so is the new one when the session is closing. *)
Definition installTLSConn (q : nat) (s : Session) : Session :=
  if ss_closed s then with_layers (close_layer (Some q) (ss_layers s)) s
  else with_tlsConn (Some q) (with_layers (close_layer (ss_tlsConn s) (ss_layers s)) s).

(** What the exchange gave: a failure, or the key export ([None]: its error). *)
Inductive exchange : Type :=
  | ExchangeFailed
  | Exchanged (mat : option bytes).

(** Steps 3 to 8, when the exchange ends. *)
Definition PerformSoftReset_finish (o : exchange) (s : Session) : Session * option rekey_error :=
  match rk_running (ss_rekey s) with
  | None => (s, None)
  | Some r =>
      let s := set_running None s in
      let fail e := (with_layers (retireLayer (rr_newKID r) (ss_layers s)) s, Some e) in
      match o with
      | ExchangeFailed => fail RkExchange
      | Exchanged mat =>
          match rekey_slot (rr_newKID r) (ss_peerID s) (ss_cipher s) mat with
          | Err e => fail (RkKeys e)
          | Panic => (s, Some RkPanic)
          | Ok slot =>
              let '(p, t) := slot_new slot (ss_slots s) in
              let s := with_slots (slot_Install (rr_newKID r) p true t) s in
              let s := installTLSConn (rr_layer r) s in
              let oldSlot := slot_Get (rr_oldKID r) (ss_slots s) in
              let oldLayer := layer_Get (rr_oldKID r) (ss_layers s) in
              (with_rekey (mkRekeyManager None
                 (rk_retiring (ss_rekey s) ++ [mkRetiring (rr_oldKID r) oldSlot oldLayer])
                 (rk_queued (ss_rekey s))) s, None)
          end
      end
  end.

(** [retireAfter] of the [i]-th waiting goroutine when its timer fires. *)
Definition retireAfter (i : nat) (s : Session) : Session :=
  match rk_retiring (ss_rekey s) !! i with
  | None => s
  | Some e =>
      let s := with_rekey (mkRekeyManager (rk_running (ss_rekey s)) (delete i (rk_retiring (ss_rekey s)))
                             (rk_queued (ss_rekey s))) s in
      if ss_done s then s
      else
        with_layers (retireLayerIf (rt_kid e) (rt_layer e) (ss_layers s))
          (with_slots (slot_RetireIf (rt_kid e) (rt_slot e) (ss_slots s)) s)
  end.

(** A [serverRekey] worker starts running. *)
Definition serverRekey (now : Z) (s : Session) : Session * res rekey_error running_rekey :=
  match rk_queued (ss_rekey s) with
  | O => (s, Err RkRequired)
  | S n =>
      PerformSoftReset_start now
        (with_rekey (mkRekeyManager (rk_running (ss_rekey s)) (rk_retiring (ss_rekey s)) n) s)
  end.

(** ** The conditions of a rekey *)

Record rekeyState := mkRekeyState { rs_startTime : Z; rs_reneg : Z; rs_triggered : bool }.

Definition newRekeyState (reneg now : Z) : rekeyState := mkRekeyState now reneg false.

Definition rekey_Check (slot : option Slot) (now : Z) (r : rekeyState) : rekeyState * bool :=
  let latched := mkRekeyState (rs_startTime r) (rs_reneg r) true in
  if rs_triggered r then (r, true)
  else if (0 <? rs_reneg r) && (rs_reneg r <=? Sub now (rs_startTime r)) then (latched, true)
  else match slot with
       | Some s => if PacketIDRekeyThreshold <=? SendPID s then (latched, true) else (r, false)
       | None => (r, false)
       end.

Definition rekey_Trigger (r : rekeyState) : rekeyState := mkRekeyState (rs_startTime r) (rs_reneg r) true.
Definition rekey_Reset (now : Z) (r : rekeyState) : rekeyState := mkRekeyState now (rs_reneg r) false.

Inductive autoRekeyOutcome : Type :=
  | autoRekeyDone
  | autoRekeyConcurrent
  | autoRekeyShutdown
  | autoRekeyFailed.

Definition classifyAutoRekey (err : option rekey_error) (shuttingDown : bool) : autoRekeyOutcome :=
  match err with
  | None => autoRekeyDone
  | Some RkInProgress => autoRekeyConcurrent
  | Some RkClosed => autoRekeyShutdown
  | Some _ => if shuttingDown then autoRekeyShutdown else autoRekeyFailed
  end.

(** What [rekeyWatch] does when [PerformSoftReset] has returned [err]; [false]
    ends the loop.  [errText] is the text of the error. *)
Definition rekeyWatch_result (now : Z) (err : option rekey_error) (errText : bytes) (r : rekeyState)
    (s : Session) : rekeyState * Session * bool :=
  match classifyAutoRekey err (ss_done s || ss_closed s) with
  | autoRekeyDone | autoRekeyConcurrent => (rekey_Reset now r, s, true)
  | autoRekeyShutdown => (r, s, false)
  | autoRekeyFailed =>
      (r, session_Close (setCloseErr (RestartError 0 (text "auto-rekey failed: " ++ errText)) s), false)
  end.

(** ** User traffic *)

Inductive io_error : Type :=
  | IoClosed (why : option close_error)   (* closedErr: [None] is the generic ErrClosed *)
  | IoContext                             (* the caller's context *)
  | IoShortBuffer (have need : nat)
  | IoNotReady
  | IoSeal (e : data_error)
  | IoTransport (e : transport_error)
  | IoRekey (e : rekey_error).

Definition closedErr (s : Session) : io_error := IoClosed (ss_closeErr s).

(** The three cases of the [select] of [ReadCtx]; Go takes any that is ready. *)
Inductive read_case : Type := RcPacket | RcContext | RcSession.

(** [ReadCtx] with a buffer of [n] bytes; [None]: the case is not ready. *)
Definition ReadCtx (c : read_case) (n : nat) (s : Session) : option (Session * (bytes + io_error)) :=
  match c with
  | RcPacket =>
      match d_ingress (ss_delivery s) with
      | [] => None
      | pkt :: rest =>
          let d := ss_delivery s in
          let s := with_delivery (mkDelivery rest (d_capacity d) (d_handler d) (d_handed d)) s in
          Some (s, if (n <? length pkt)%nat then inr (IoShortBuffer n (length pkt)) else inl pkt)
      end
  | RcContext => Some (s, inr IoContext)
  | RcSession => if ss_done s then Some (s, inr (closedErr s)) else None
  end.

Definition SetIngressHandler (h : bool) (s : Session) : Session :=
  let d := ss_delivery s in
  with_delivery (mkDelivery (d_ingress d) (d_capacity d) h (d_handed d)) s.

(** [slot.Seal(p)] through a pointer. *)
Definition seal_slot (p : bytes) (ptr : nat) (s : Session) : Session * res data_error bytes :=
  match slot_deref ptr (ss_slots s) with
  | None => (s, Panic)
  | Some slot =>
      let '(slot, r) := Seal p slot in (with_slots (slot_set ptr slot (ss_slots s)) s, r)
  end.

(** The end of [WriteCtx]: the transport write, with outcome [werr]. *)
Definition write_sealed (now : Z) (p wire : bytes) (werr : option transport_error) (s : Session)
  : Session * (nat + io_error) :=
  match werr with
  | Some e =>
      if ss_done s then (s, inr (closedErr s))
      else (with_stats (outbound_failed now (ss_stats s)) s, inr (IoTransport e))
  | None =>
      let s := with_sent (ss_sent s ++ [wire]) s in
      let s := with_stats (incr_outboundOK (ss_stats s)) s in
      (with_clocks (clock_user_out now p (ss_clocks s)) s, inl (length p))
  end.

Inductive write_result : Type :=
  | WrDone (r : nat + io_error)
  | WrRekey (old : nat)       (* the slot is exhausted: rekey, then [WriteCtx_resume] *)
  | WrPanic.

Definition WriteCtx (now : Z) (p : bytes) (werr : option transport_error) (s : Session)
  : Session * write_result :=
  if ss_closed s then (s, WrDone (inr (closedErr s)))
  else
    match slot_Active (ss_slots s) with
    | None => (s, WrDone (inr IoNotReady))
    | Some ptr =>
        let '(s, r) := seal_slot p ptr s in
        match r with
        | Ok wire => let '(s, r) := write_sealed now p wire werr s in (s, WrDone r)
        | Err ErrPacketIDExhausted => (s, if ss_up s then WrRekey ptr else WrDone (inr (IoRekey RkRequired)))
        | Err e => (s, WrDone (inr (IoSeal e)))
        | Panic => (s, WrPanic)
        end
    end.

(** [rekeyForExhaustedSlot] once [PerformSoftReset] has returned [err]: an error
    other than "in progress" is final, otherwise the active slot is polled. *)
Definition rekeyForExhaustedSlot (err : option rekey_error) (old : nat) (s : Session)
  : option (nat + io_error) :=
  match err with
  | Some RkInProgress | None =>
      match slot_Active (ss_slots s) with
      | Some cur => if (cur =? old)%nat then (if ss_done s then Some (inr (closedErr s)) else None)
                    else Some (inl cur)
      | None => if ss_done s then Some (inr (closedErr s)) else None
      end
  | Some e => Some (inr (IoRekey e))
  end.

(** The second half of [WriteCtx], on the new slot. *)
Definition WriteCtx_resume (now : Z) (p : bytes) (werr : option transport_error) (ptr : nat) (s : Session)
  : Session * write_result :=
  let '(s, r) := seal_slot p ptr s in
  match r with
  | Ok wire => let '(s, r) := write_sealed now p wire werr s in (s, WrDone r)
  | Err e => (s, WrDone (inr (IoSeal e)))
  | Panic => (s, WrPanic)
  end.

(** ** The timed loops *)

(** One tick of [keepaliveLoop]; [false] ends it. *)
Definition keepaliveLoop (now : Z) (werr : option transport_error) (s : Session) : Session * bool :=
  if ss_closed s then (s, false)
  else if negb (keepalive_due (ss_pingInterval s) now (lastUserOutbound (ss_clocks s)) (ss_lastPing s))
  then (s, true)
  else
    match slot_Active (ss_slots s) with
    | None => (s, true)
    | Some ptr =>
        let '(s, r) := seal_slot PingMagic ptr s in
        match r with
        | Ok wire =>
            match werr with
            | Some _ => (with_stats (outbound_failed now (ss_stats s)) s, true)
            | None =>
                let s := with_sent (ss_sent s ++ [wire]) s in
                let s := with_stats (incr_outboundOK (ss_stats s)) s in
                (with_lastPing now s, true)
            end
        | Err _ => (s, true)
        | Panic => (worker_panic "keepaliveLoop" s, false)
        end
    end.

(** The watchdogs that can fire at [now]; each gives the session up. *)
Inductive watchdog : Type :=
  | WdPingRestart
  | WdDataActivity (cfg : ActivityConfig) (start : Z)
  | WdHardReset
  | WdWake (lastTick : Z).

Definition watchdog_fires (now : Z) (w : watchdog) (s : Session) : bool :=
  match w with
  | WdPingRestart => (0 <? ss_pingRestart s) && restart_tick (ss_pingRestart s) now (lastInbound (ss_clocks s))
  | WdDataActivity cfg start => bool_decide (is_Some (activity_tick (activity_params cfg) start now (ss_clocks s)))
  | WdHardReset => hard_reset_tick (c_hardResetIn (ss_stats s))
  | WdWake lastTick => (wake_tick now lastTick).2
  end.

Definition watchdog_reason (w : watchdog) : bytes :=
  text match w with
       | WdPingRestart => "ping-restart timeout"
       | WdDataActivity _ _ => "data-activity stuck"
       | WdHardReset => "server hard-reset"
       | WdWake _ => "wake from sleep"
       end.

Definition watchdog_tick (now : Z) (w : watchdog) (s : Session) : Session * bool :=
  if watchdog_fires now w s then (abandon (RestartError 0 (watchdog_reason w)) s, false) else (s, true).

(** ** Bringing a session up *)

(** The state [DialWithTransport] builds, before the handshake. *)
Definition session_new (localSID : Z) (wrapper : W) (capacity : nat) : Session :=
  let layer := New (mkConfig localSID 0 0) in
  let '(q, t) := layer_new layer newLayerTable in
  mkSession localSID "" 0 0 0 wrapper newSlotTable (layer_Install 0 q t).1 false
    (mkRekeyManager None [] 0) None (mkClocks 0 0 0 0 0 0 0) 0 no_counters
    (mkDelivery [] capacity false []) None false false false [].

(** The part after a successful handshake, whose result is cipher, peer-id, key
    material and the two pushed timers. *)
Definition session_establish (now : Z) (cipher : string) (peerID : Z) (km : bytes)
    (pingInterval pingRestart : Z) (s : Session) : res key_material_error Session :=
  slot ← buildSlot 0 peerID cipher km;
  let '(p, t) := slot_new slot (ss_slots s) in
  let s := installTLSConn 0 (with_slots (slot_Install 0 p true t) s) in
  let '(interval, restart) := applyKeepaliveDefaults pingInterval pingRestart in
  let c := ss_clocks s in
  Ok (mkSession (ss_localSID s) cipher peerID interval restart (ss_wrapper s) (ss_slots s) (ss_layers s)
        true (ss_rekey s) (ss_tlsConn s)
        (mkClocks now now now (lastUserOutboundTCP c) (lastDataInboundTCP c) (lastUserOutboundUDP c)
           (lastDataInboundUDP c))
        now (ss_stats s) (ss_delivery s) (ss_closeErr s) (ss_closed s) (ss_closing s) (ss_done s)
        (ss_sent s)).
End session.
#[global] Arguments Session {C} W.
