(* ===== verification/SessionSafety.v ===== *)
(** What holds of a session whatever happens to it: the step relation of all
    its handlers, the network, the TLS library and the user in any
    interleaving; the invariant of the key-id tables across rekeys; and what a
    rekey, a close and a watchdog do. *)
From S2P Require Import Prelude Text Wire Replay ControlWrap TlsCrypt Reliable ReliableFacts Stream LayerSafety.
From S2P Require Import DataChannel Watch DataKeys Tables Session.
Local Open Scope Z_scope.

(** ** Operations on a layer keep its key-id and do not close it *)

Definition alive_same (l l' : Layer) : Prop := l_keyID l' = l_keyID l ∧ l_closed l' = l_closed l.

Lemma alive_refl l : alive_same l l.
Proof. done. Qed.
Lemma alive_trans l1 l2 l3 : alive_same l1 l2 → alive_same l2 l3 → alive_same l1 l3.
Proof. unfold alive_same. intuition congruence. Qed.

Lemma alive_frame l l' : emit_frame l l' → alive_same l l'.
Proof. intros H%emit_frame_fields. split; apply H. Qed.

Lemma enqueue_alive now op b l : alive_same l (enqueueAndEmitLocked now op b l).1.
Proof.
  unfold enqueueAndEmitLocked. destruct (_ <=? _)%nat; [apply alive_refl|]. cbn [fst].
  eapply alive_trans; [|apply alive_frame, emitLocked_frame]. by split.
Qed.

Lemma tick_packet_alive now pid l : alive_same l (tick_packet now pid l).1.
Proof.
  unfold tick_packet. destruct (l_txQueue l !! pid) as [pkt|]; [|apply alive_refl].
  destruct (negb _); [apply alive_refl|]. destruct (_ <=? _); [apply alive_refl|]. cbn [fst].
  eapply alive_trans; [apply alive_frame, emitLocked_frame|]. by split.
Qed.

Lemma tick_loop_alive now order l : alive_same l (tick_loop now order l).1.
Proof.
  revert l. induction order as [|pid order IH]; intros l; cbn; [apply alive_refl|].
  pose proof (tick_packet_alive now pid l) as H. destruct (tick_packet now pid l) as [l1 [e|]]; [done|].
  eapply alive_trans; [exact H|apply IH].
Qed.

Lemma Tick_alive now order l : alive_same l (Tick now order l).1.
Proof.
  unfold Tick. destruct (l_closed l); [apply alive_refl|]. pose proof (tick_loop_alive now order l) as H.
  destruct (tick_loop now order l) as [l1 [e|]]; [done|]. cbn [fst] in H.
  destruct (l_pendingAcks l1); [done|]. case_match; [|done].
  eapply alive_trans; [exact H|apply alive_frame, emitStandaloneAck_frame].
Qed.

Lemma write_loop_alive fuel now p w l : alive_same l (write_loop fuel now p w l).1.
Proof.
  revert p w l. induction fuel as [|fuel IH]; intros [|x p] w l; cbn [write_loop]; try apply alive_refl.
  destruct (l_closed l); [by destruct (0 <? w)%nat; apply alive_refl|]. destruct (_ <=? _)%nat; [apply alive_refl|].
  pose proof (enqueue_alive now PControlV1 (take TLSChunkSize (x :: p)) l) as H.
  destruct (enqueueAndEmitLocked _ _ _ _) as [l1 [e|]]; [done|]. eapply alive_trans; [exact H|apply IH].
Qed.

Lemma process_acks_alive acks l : alive_same l (process_acks acks l).
Proof. destruct (process_acks_spec acks l) as (q & -> & _). by split. Qed.

Lemma add_ack_alive now p l : alive_same l (addPendingAckLocked now p l).
Proof. unfold addPendingAckLocked. case_bool_decide; [done|]. lay. by destruct (l_ackPendingSince l). Qed.

Lemma latch_sid_alive sid l l0 : latch_sid sid l = Some l0 → alive_same l l0.
Proof.
  unfold latch_sid. destruct (l_remoteKnown l); cbn [negb]; [|by intros [= <-]].
  destruct (sid =? l_remoteSessionID l); [|done]. by intros [= <-].
Qed.

Lemma after_acks_alive i l l1 : after_acks i l = Some l1 → alive_same l l1.
Proof.
  unfold after_acks. destruct (latch_sid (ip_SessionID i) l) as [l0|] eqn:Hl; [|done]. intros [= <-].
  eapply alive_trans; [by eapply latch_sid_alive|apply process_acks_alive].
Qed.

Lemma deliver_alive b l : alive_same l (deliver b l).
Proof. rewrite deliver_eq. by split. Qed.

Lemma drain_rx_alive fuel l : alive_same l (drain_rx fuel l).
Proof. destruct (drain_rx_frame fuel l) as (? & ? & ? & ->). by split. Qed.

Lemma HandleInbound_alive now i l : alive_same l (HandleInbound now i l).1.
Proof.
  destruct (HandleInbound_cases now i l) as [|? ? ?|l1 ? Ha|l1 ? Ha|l1 ? Ha Hop He Hb l2|l1 ? Ha
    |l1 ? Ha Hop Hgt Hb Hin]; try done; pose proof (after_acks_alive i l l1 Ha) as Hal; try done;
    (eapply alive_trans; [exact Hal|]; eapply alive_trans; [|apply add_ack_alive]).
  - done.
  - eapply alive_trans; [apply deliver_alive|apply drain_rx_alive].
  - by split.
Qed.

(** Any call of the TLS library through the adapter of an open connection. *)
Inductive tls_call (l : Layer) : Layer → Prop :=
  | tc_hard now op : tls_call l (SendHardReset now op l).1
  | tc_write now p : tls_call l (Write now p l).1
  | tc_read n : tls_call l (Read n l).1
  | tc_deadline now t : tls_call l (SetDeadline now t l).

Lemma tls_call_alive l l' : tls_call l l' → alive_same l l'.
Proof.
  intros []; unfold SendHardReset, Write, Read, SetDeadline.
  - repeat case_match; try done. apply enqueue_alive.
  - repeat case_match; try done. apply write_loop_alive.
  - repeat case_match; done.
  - repeat case_match; done.
Qed.

Section safety.
Context `{C : Aead} `{CW : ControlWrapper W}.

(** ** The steps of a session *)

Inductive sess_step (s : Session W) : Session W → Prop :=
  | st_read now r : sess_step s (readLoop now r s).1
  | st_write now werr p s' b : writeLoop now werr p s = Some (s', b) → sess_step s s'
  | st_tick now order p s' b : tickLoop now order p s = Some (s', b) → sess_step s s'
  | st_tls p l l' : layer_deref p (ss_layers s) = Some l → tls_call l l' →
      sess_step s (with_layers (layer_set p l' (ss_layers s)) s)
  | st_establish now cipher peer km i r s' :
      ss_up s = false → ss_done s = false ∨ ss_closed s = true →
      session_establish now cipher peer km i r s = Ok s' → sess_step s s'
  | st_rekey now : ss_up s = true → sess_step s (PerformSoftReset_start now s).1
  | st_server_rekey now : ss_up s = true → sess_step s (serverRekey now s).1
  | st_finish o : sess_step s (PerformSoftReset_finish o s).1
  | st_retire i : sess_step s (retireAfter i s)
  | st_rekey_watch now err errText r : sess_step s (rekeyWatch_result now err errText r s).1.2
  | st_user_write now p werr : sess_step s (WriteCtx now p werr s).1
  | st_user_resume now p werr ptr : sess_step s (WriteCtx_resume now p werr ptr s).1
  | st_user_read c n s' r : ReadCtx c n s = Some (s', r) → sess_step s s'
  | st_handler h : sess_step s (SetIngressHandler h s)
  | st_keepalive now werr : sess_step s (keepaliveLoop now werr s).1
  | st_watchdog now w : sess_step s (watchdog_tick now w s).1
  | st_control msg : sess_step s (controlChannelReader msg s).1
  | st_restart why : sess_step s (RequestRestart why s)
  | st_close : sess_step s (session_Close s)
  | st_shutdown : ss_closed s = true ∨ ss_up s = false → sess_step s (shutdown s).

Definition sess_reachable (sid : Z) (w : W) (capacity : nat) (s : Session W) : Prop :=
  rtc sess_step (session_new sid w capacity) s.

(** ** Steps that leave the tables as they are *)

Record same_tables (s s' : Session W) : Prop := {
  sm_slot_ids : st_byKID (ss_slots s') = st_byKID (ss_slots s);
  sm_active : st_active (ss_slots s') = st_active (ss_slots s);
  sm_slot_len : length (st_store (ss_slots s')) = length (st_store (ss_slots s));
  sm_slot p x : slot_deref p (ss_slots s) = Some x →
    ∃ x', slot_deref p (ss_slots s') = Some x' ∧ s_KeyID x' = s_KeyID x;
  sm_layer_ids : lt_byKID (ss_layers s') = lt_byKID (ss_layers s);
  sm_layer_len : length (lt_store (ss_layers s')) = length (lt_store (ss_layers s));
  sm_layer p l : layer_deref p (ss_layers s) = Some l →
    ∃ l', layer_deref p (ss_layers s') = Some l' ∧ alive_same l l';
  sm_up : ss_up s' = ss_up s;
  sm_running : rk_running (ss_rekey s') = rk_running (ss_rekey s);
  sm_retiring : rk_retiring (ss_rekey s') = rk_retiring (ss_rekey s);
  sm_tls : ss_tlsConn s' = ss_tlsConn s;
  sm_closed : ss_closed s' = ss_closed s;
  sm_done : ss_done s' = ss_done s
}.

Lemma same_tables_refl s : same_tables s s.
Proof. split; try done; intros p x Hx; by exists x. Qed.

Lemma same_tables_trans s1 s2 s3 : same_tables s1 s2 → same_tables s2 s3 → same_tables s1 s3.
Proof.
  intros [A1 A2 A3 A4 A5 A6 A7 A8 A9 A10 A11 A12 A13] [B1 B2 B3 B4 B5 B6 B7 B8 B9 B10 B11 B12 B13].
  split; try congruence.
  - intros p x Hx. destruct (A4 p x Hx) as (y & Hy & Hk). destruct (B4 p y Hy) as (z & Hz & Hk').
    exists z. split; [done|congruence].
  - intros p x Hx. destruct (A7 p x Hx) as (y & Hy & Hk). destruct (B7 p y Hy) as (z & Hz & Hk').
    exists z. split; [done|by eapply alive_trans].
Qed.

(** The record of a session updated in fields the tables do not depend on. *)
Ltac untouched := split; try done; intros p x Hx; by exists x.

Lemma same_slot_set p x x' s :
  slot_deref p (ss_slots s) = Some x → s_KeyID x' = s_KeyID x →
  same_tables s (with_slots (slot_set p x' (ss_slots s)) s).
Proof.
  intros Hx Hk. split; try done; cbn.
  - apply length_insert.
  - intros q y Hy. unfold slot_deref in *. cbn. destruct (decide (p = q)) as [<-|].
    + exists x'. rewrite list_lookup_insert_eq by (by eapply lookup_lt_Some). split; congruence.
    + exists y. by rewrite list_lookup_insert_ne.
  - intros q y Hy. by exists y.
Qed.

Lemma same_layer_set p l l' s :
  layer_deref p (ss_layers s) = Some l → alive_same l l' →
  same_tables s (with_layers (layer_set p l' (ss_layers s)) s).
Proof.
  intros Hx Hk. split; try done; cbn.
  - intros q y Hy. by exists y.
  - apply length_insert.
  - intros q y Hy. unfold layer_deref in *. cbn. destruct (decide (p = q)) as [<-|].
    + exists l'. rewrite list_lookup_insert_eq by (by eapply lookup_lt_Some). split; [done|congruence].
    + exists y. by rewrite list_lookup_insert_ne.
Qed.

Lemma same_stats v s : same_tables s (with_stats v s). Proof. untouched. Qed.
Lemma same_clocks v s : same_tables s (with_clocks v s). Proof. untouched. Qed.
Lemma same_delivery v s : same_tables s (with_delivery v s). Proof. untouched. Qed.
Lemma same_wrapper v s : same_tables s (with_wrapper v s). Proof. untouched. Qed.
Lemma same_sent v s : same_tables s (with_sent v s). Proof. untouched. Qed.
Lemma same_lastPing v s : same_tables s (with_lastPing v s). Proof. untouched. Qed.
Lemma same_closeErr e s : same_tables s (setCloseErr e s).
Proof. unfold setCloseErr. destruct (ss_closeErr s); untouched. Qed.
Lemma same_abandon e s : same_tables s (abandon e s).
Proof. eapply same_tables_trans; [apply (same_closeErr e)|]. untouched. Qed.
Lemma same_queue s : same_tables s (queue_rekey s). Proof. untouched. Qed.

Create HintDb same_tables.
Hint Resolve same_tables_refl same_stats same_clocks same_delivery same_wrapper same_sent same_lastPing
  same_closeErr same_abandon same_queue : same_tables.
(** One update at a time, from the outside in. *)
Ltac same :=
  repeat first
    [ solve [eauto with same_tables]
    | eapply same_tables_trans; [|solve [eauto with same_tables]] ].

Lemma same_deliver ip s : same_tables s (deliver_ip ip s).
Proof. unfold deliver_ip. repeat case_match; same. Qed.
Hint Resolve same_deliver : same_tables.

(** ** No handler panics *)

Lemma inbound_no_panic op kid sid plain : inbound_packet op kid sid plain ≠ Panic.
Proof.
  unfold inbound_packet. pose proof (ParseAckPayload_no_panic plain) as Ha.
  pose proof (ParseControlPayload_no_panic plain) as Hc. unfold no_panic in *.
  destruct (op =? PAckV1); [destruct (ParseAckPayload plain)|destruct (ParseControlPayload plain)]; done.
Qed.

Lemma marshal_no_panic out : marshal_outbound out ≠ Panic.
Proof.
  unfold marshal_outbound, MarshalAckPayload, MarshalControlPayload, guard_err.
  by repeat (case_match; bind).
Qed.

Lemma Open_KeyID pkt x : s_KeyID (Open pkt x).1.1 = s_KeyID x.
Proof. unfold Open. by repeat case_match. Qed.

Lemma same_data_in now pkt kid s : same_tables s (handleDataIn now pkt kid s).
Proof.
  unfold handleDataIn, OpenInto. destruct (slot_Get kid (ss_slots s)) as [p|]; [|same].
  destruct (slot_deref p (ss_slots s)) as [x|] eqn:Hx; [|same].
  pose proof (Open_KeyID pkt x) as Hk. pose proof (Open_no_panic pkt x) as Hnp.
  destruct (Open pkt x) as [[x' buf] r]. cbn in Hk.
  eapply same_tables_trans; [by apply (same_slot_set p x x')|]. set (s1 := with_slots _ s).
  destruct r; [|same|done]. destruct (IsPing _); same.
Qed.
Hint Resolve same_data_in : same_tables.

Lemma same_control_in now pkt op kid s : same_tables s (handleControlIn now pkt op kid s).
Proof.
  unfold handleControlIn. destruct (layer_Get kid (ss_layers s)) as [p|]; [|by repeat case_match; same].
  destruct (layer_deref p (ss_layers s)) as [l|] eqn:Hl; [|same].
  pose proof (cw_Unwrap_safe pkt (ss_wrapper s)) as Hnp. destruct (cw_Unwrap pkt (ss_wrapper s)) as [w r].
  eapply same_tables_trans; [apply (same_wrapper w)|].
  destruct r as [[[[? sid] ?] plain]|e|]; [|by repeat case_match; same|done].
  pose proof (inbound_no_panic op kid sid plain) as Hnp'.
  destruct (inbound_packet op kid sid plain) as [i|e|]; [|same|done].
  apply (same_layer_set p l); [done|apply HandleInbound_alive].
Qed.
Hint Resolve same_control_in : same_tables.

Lemma same_readLoop now r s : same_tables s (readLoop now r s).1.
Proof.
  unfold readLoop. destruct r as [[|b pkt]|err]; [same| |by case_match; same].
  destruct (UnpackOpcodeKID b) as [op kid]. cbn [fst]. repeat case_match; same.
Qed.

Lemma same_writeLoop now werr p s s' b : writeLoop now werr p s = Some (s', b) → same_tables s s'.
Proof.
  unfold writeLoop. destruct (layer_deref p (ss_layers s)) as [l|] eqn:Hl; [|done]. cbn.
  destruct (l_outbound l) as [|out rest]; [done|]. intros [= H].
  eapply same_tables_trans; [apply (same_layer_set p l (set_outbound rest l)); [done|by split]|].
  set (s1 := with_layers _ s) in *. pose proof (marshal_no_panic out) as Hnp.
  destruct (marshal_outbound out) as [body|e|]; [|by simplify_eq; same|done].
  destruct (cw_Wrap _ _ _ _ _) as [w wrapped]. destruct werr; simplify_eq; same.
Qed.

Lemma same_tickLoop now order p s s' b : tickLoop now order p s = Some (s', b) → same_tables s s'.
Proof.
  unfold tickLoop. destruct (layer_deref p (ss_layers s)) as [l|] eqn:Hl; [|done]. cbn.
  pose proof (Tick_alive now order l) as Ha. destruct (Tick now order l) as [l' err]. intros [= H].
  eapply same_tables_trans; [by apply (same_layer_set p l l')|]. set (s1 := with_layers _ s) in *.
  destruct err; simplify_eq; [|same]. repeat case_match; same.
Qed.

Lemma Seal_KeyID p x : s_KeyID (Seal p x).1 = s_KeyID x.
Proof. done. Qed.

Lemma same_seal p ptr s : same_tables s (seal_slot p ptr s).1.
Proof.
  unfold seal_slot. destruct (slot_deref ptr (ss_slots s)) as [x|] eqn:Hx; [|same].
  pose proof (Seal_KeyID p x) as Hk. destruct (Seal p x) as [x' r].
  by apply (same_slot_set ptr x x').
Qed.
Hint Resolve same_seal : same_tables.

Lemma same_write_sealed now p wire werr s : same_tables s (write_sealed now p wire werr s).1.
Proof. unfold write_sealed. destruct werr; [case_match|]; same. Qed.

Lemma same_resume now p werr ptr s : same_tables s (WriteCtx_resume now p werr ptr s).1.
Proof.
  unfold WriteCtx_resume. pose proof (same_seal p ptr s) as H. destruct (seal_slot p ptr s) as [s1 r].
  destruct r as [wire|e|]; [|done|done].
  pose proof (same_write_sealed now p wire werr s1) as H'. destruct (write_sealed _ _ _ _ _).
  by eapply same_tables_trans.
Qed.

Lemma same_WriteCtx now p werr s : same_tables s (WriteCtx now p werr s).1.
Proof.
  unfold WriteCtx. destruct (ss_closed s); [same|]. destruct (slot_Active (ss_slots s)) as [ptr|]; [|same].
  pose proof (same_seal p ptr s) as H. destruct (seal_slot p ptr s) as [s1 r].
  destruct r as [wire|e|]; [|by destruct e|done].
  pose proof (same_write_sealed now p wire werr s1) as H'. destruct (write_sealed _ _ _ _ _).
  by eapply same_tables_trans.
Qed.

Lemma same_ReadCtx c n s s' r : ReadCtx c n s = Some (s', r) → same_tables s s'.
Proof. unfold ReadCtx. intros H. repeat case_match; simplify_eq; same. Qed.

Lemma seal_no_panic p kid ptr (s : Session W) :
  slots_ok (ss_slots s) → slot_Get kid (ss_slots s) = Some ptr → no_panic (seal_slot p ptr s).2.
Proof.
  intros Hok Hp. destruct (so_entry _ Hok kid ptr Hp) as (_ & x & Hx & _). unfold seal_slot, slot_deref.
  rewrite Hx. pose proof (Seal_no_panic p x) as H. by destruct (Seal p x).
Qed.

Lemma same_keepalive now werr s : slots_ok (ss_slots s) → same_tables s (keepaliveLoop now werr s).1.
Proof.
  intros Hok. unfold keepaliveLoop. destruct (ss_closed s); [same|]. destruct (negb _); [same|].
  destruct (slot_Active (ss_slots s)) as [ptr|] eqn:Hp; [|same].
  pose proof (same_seal PingMagic ptr s) as H. pose proof (seal_no_panic PingMagic _ ptr s Hok Hp) as Hnp.
  destruct (seal_slot PingMagic ptr s) as [s1 r].
  eapply same_tables_trans; [exact H|]. destruct r; [destruct werr| |]; [same..|done].
Qed.

(** ** The invariant *)

(** The layer of [kid] is there and open. *)
Definition open_layer (kid : Z) (p : nat) (t : layerTable) : Prop :=
  layer_Get kid t = Some p ∧ ∃ l, layer_deref p t = Some l ∧ l_closed l = false.

Lemma open_layer_kept k p t t' : kept k t t' → open_layer k p t → open_layer k p t'.
Proof.
  intros [He Hd] [Hg (l & Hl & Hc)]. unfold open_layer, layer_Get in *.
  split; [congruence|]. exists l. by rewrite Hd.
Qed.

(** An entry waiting to be retired is older than the tables' newest objects and
    is not what the active key-id holds. *)
Record retire_ok (s : Session W) (e : retiring) : Prop := {
  ro_slot p : rt_slot e = Some p → slot_Active (ss_slots s) ≠ Some p ∧ (p < length (st_store (ss_slots s)))%nat;
  ro_layer p : rt_layer e = Some p →
    (ss_closed s = false → layer_Get (st_active (ss_slots s)) (ss_layers s) ≠ Some p) ∧
    (p < length (lt_store (ss_layers s)))%nat
}.

Record running_ok (s : Session W) (r : running_rekey) : Prop := {
  ru_up : ss_up s = true;
  ru_old : rr_oldKID r = st_active (ss_slots s);
  ru_new : rr_newKID r = nextKeyID (st_active (ss_slots s));
  ru_len : (rr_layer r < length (lt_store (ss_layers s)))%nat;
  ru_retire e : e ∈ rk_retiring (ss_rekey s) → rt_layer e ≠ Some (rr_layer r);
  ru_layer : ss_closed s = false → open_layer (rr_newKID r) (rr_layer r) (ss_layers s)
}.

Record sess_inv (s : Session W) : Prop := {
  si_slots : slots_ok (ss_slots s);
  si_layers : layers_ok (ss_layers s);
  si_slot : ss_up s = true → is_Some (slot_Active (ss_slots s));
  si_layer : ss_closed s = false → ss_done s = false →
    ∃ p, open_layer (st_active (ss_slots s)) p (ss_layers s) ∧ ∀ q, ss_tlsConn s = Some q → q = p;
  si_done : ss_done s = true → ss_closed s = true ∨ ss_up s = false;
  si_down : ss_up s = false → st_active (ss_slots s) = 0 ∧ rk_retiring (ss_rekey s) = [] ∧
    ss_tlsConn s = None ∧ ∀ p, layer_Get 0 (ss_layers s) = Some p → p = 0%nat;
  si_retire e : e ∈ rk_retiring (ss_rekey s) → retire_ok s e;
  si_running r : rk_running (ss_rekey s) = Some r → running_ok s r
}.

Lemma slot_Active_same s s' : same_tables s s' → slot_Active (ss_slots s') = slot_Active (ss_slots s).
Proof. intros H. unfold slot_Active, slot_Get. by rewrite (sm_slot_ids _ _ H), (sm_active _ _ H). Qed.

Lemma open_layer_same s s' k p :
  same_tables s s' → open_layer k p (ss_layers s) → open_layer k p (ss_layers s').
Proof.
  intros H [Hg (l & Hl & Hc)]. unfold open_layer, layer_Get in *. rewrite (sm_layer_ids _ _ H).
  split; [done|]. destruct (sm_layer _ _ H p l Hl) as (l' & Hl' & [_ Hc']). exists l'. split; congruence.
Qed.

Lemma sess_inv_same s s' : same_tables s s' → sess_inv s → sess_inv s'.
Proof.
  intros H [Hs Hl Hsl Hla Hd Hdn Hre Hru]. pose proof (slot_Active_same s s' H) as Hact.
  split.
  - split; [rewrite (sm_active _ _ H); apply Hs|]. intros k p. rewrite (sm_slot_ids _ _ H).
    intros Hp. destruct (so_entry _ Hs k p Hp) as (Hk & x & Hx & Hkx). split; [done|].
    destruct (sm_slot _ _ H p x Hx) as (x' & Hx' & Hk'). exists x'. split; [done|congruence].
  - split. intros k p. rewrite (sm_layer_ids _ _ H). intros Hp.
    destruct (lo_entry _ Hl k p Hp) as (Hk & x & Hx & Hkx). split; [done|].
    destruct (sm_layer _ _ H p x Hx) as (x' & Hx' & [Hk' _]). exists x'. split; [done|congruence].
  - rewrite (sm_up _ _ H), Hact. done.
  - rewrite (sm_closed _ _ H), (sm_done _ _ H), (sm_active _ _ H), (sm_tls _ _ H). intros Hc Hdo.
    destruct (Hla Hc Hdo) as (p & Hp & Htl). exists p. split; [|done]. by eapply open_layer_same.
  - rewrite (sm_done _ _ H), (sm_closed _ _ H), (sm_up _ _ H). done.
  - unfold layer_Get. rewrite (sm_up _ _ H), (sm_active _ _ H), (sm_retiring _ _ H), (sm_tls _ _ H), (sm_layer_ids _ _ H). done.
  - rewrite (sm_retiring _ _ H). intros e He. destruct (Hre e He) as [H1 H2].
    split; [rewrite Hact, (sm_slot_len _ _ H); done|].
    unfold layer_Get. rewrite (sm_layer_ids _ _ H), (sm_active _ _ H), (sm_layer_len _ _ H), (sm_closed _ _ H). done.
  - rewrite (sm_running _ _ H). intros r Hr. destruct (Hru r Hr) as [A1 A2 A3 A4 A5 A6].
    split; rewrite ?(sm_up _ _ H), ?(sm_active _ _ H), ?(sm_layer_len _ _ H), ?(sm_retiring _ _ H), ?(sm_closed _ _ H);
      try done. intros Hc. by eapply open_layer_same, A6.
Qed.

(** ** The steps that change the tables *)

Lemma session_new_inv sid w cap : sess_inv (session_new sid w cap).
Proof.
  split; cbn.
  - apply newSlotTable_ok.
  - split. cbn. intros k p [[<- <-]|[_ Hp]]%lookup_insert_Some; [|done]. split; [lia|]. by eexists.
  - done.
  - intros _ _. exists 0%nat. split; [|done]. split; [done|]. by eexists.
  - done.
  - intros _. split_and!; try done. by intros p [= <-].
  - by intros e ?%elem_of_nil.
  - done.
Qed.

Lemma close_inv s : sess_inv s → sess_inv (session_Close s).
Proof.
  intros H. unfold session_Close. destruct (ss_closed s); [done|].
  destruct H as [Hs Hl Hsl Hla Hd Hdn Hre Hru]. split; cbn; try done.
  - intros _. by left.
  - intros e He. destruct (Hre e He) as [A B]. split; [done|]. intros p Hp. by split; [|apply B].
  - intros r Hr. by destruct (Hru r Hr).
Qed.

Lemma retire_all_spec kids t :
  layers_ok t →
  let t' := foldl (λ t kid, retireLayer kid t) t kids in
  layers_ok t' ∧ length (lt_store t') = length (lt_store t) ∧
  ∀ k, lt_byKID t' !! k = (if bool_decide (k ∈ kids) then None else lt_byKID t !! k).
Proof.
  revert t. induction kids as [|kid kids IH]; intros t Ht; cbn [foldl]; [done|].
  destruct (IH (retireLayer kid t) (retireLayer_ok kid t Ht)) as (H1 & H2 & H3).
  split_and!; [done|by rewrite H2, retireLayer_length|]. intros k. rewrite H3.
  unfold retireLayer, layer_Retire. rewrite close_layer_byKID. cbn.
  destruct (decide (k = kid)) as [->|Hk].
  - rewrite lookup_delete_eq, (bool_decide_eq_true_2 (kid ∈ kid :: kids)) by set_solver. by case_bool_decide.
  - rewrite lookup_delete_ne by done. assert (bool_decide (k ∈ kid :: kids) = bool_decide (k ∈ kids)) as ->;
      [|done]. apply bool_decide_ext. set_solver.
Qed.

Lemma shutdown_inv s : ss_closed s = true ∨ ss_up s = false → sess_inv s → sess_inv (shutdown s).
Proof.
  intros Hcl [Hs Hl Hsl Hla Hd Hdn Hre Hru]. unfold shutdown.
  set (t := foldl _ _ _). destruct (retire_all_spec (seqZ 0 8) (ss_layers s) Hl) as (H1 & H2 & H3).
  change (foldl (λ t kid, retireLayer kid t) (ss_layers s) (seqZ 0 8)) with t in *.
  split; cbn; try done.
  - by apply close_layer_ok.
  - intros Hu. destruct (Hdn Hu) as (? & ? & ? & _). split_and!; try done.
    intros p. unfold layer_Get. rewrite close_layer_byKID, H3.
    by rewrite bool_decide_eq_true_2 by (apply elem_of_seqZ; lia).
  - intros e He. destruct (Hre e He) as [A B]. split; cbn; [done|]. intros p Hp.
    rewrite close_layer_length, H2. destruct (B p Hp) as [_ Hlt]. split; [|done].
    unfold layer_Get. rewrite close_layer_byKID, H3. rewrite bool_decide_eq_true_2; [done|].
    apply elem_of_seqZ. apply Hs.
  - intros r Hr. destruct (Hru r Hr) as [A1 A2 A3 A4 A5 A6]. split; cbn; try done.
    + by rewrite close_layer_length, H2.
    + intros Hc. destruct Hcl; congruence.
Qed.

Lemma establish_inv now cipher peer km i r s s' :
  ss_up s = false → ss_done s = false ∨ ss_closed s = true →
  session_establish now cipher peer km i r s = Ok s' → sess_inv s → sess_inv s'.
Proof.
  intros Hup Hdo He [Hs Hl Hsl Hla Hd Hdn Hre Hru]. unfold session_establish in He.
  apply bind_Ok in He as (x & Hx & He). cbn [slot_new alloc] in He.
  destruct (applyKeepaliveDefaults i r) as [iv re]. injection He as <-.
  destruct (Hdn Hup) as (Hact & Hret & Htls & H0).
  assert (s_KeyID x = 0) as Hk.
  { unfold buildSlot in Hx. repeat (apply bind_Ok in Hx as (? & _ & Hx)).
    destruct (NewSlot _) as [y| |] eqn:Hy; [|done|done]. injection Hx as <-. unfold NewSlot in Hy.
    apply bind_Ok in Hy as (? & _ & Hy). do 2 apply bind_Ok in Hy as (? & _ & Hy). by injection Hy as <-. }
  assert (∀ r, rk_running (ss_rekey s) = Some r → False) as Hnr.
  { intros r0 Hr. pose proof (ru_up s r0 (Hru r0 Hr)). congruence. }
  unfold installTLSConn. cbn [with_slots ss_closed ss_tlsConn]. rewrite Htls.
  assert (slots_ok (slot_Install 0 (length (st_store (ss_slots s))) true (slot_new x (ss_slots s)).2)) as Hok.
  { apply (slot_Install_ok _ _ _ x); [by apply slot_new_ok| |done|lia].
    unfold slot_deref. cbn. by rewrite list_lookup_middle. }
  destruct (ss_closed s) eqn:Hc; cbn.
  - split; cbn; rewrite ?Hc; try done.
    + by apply close_layer_ok.
    + intros _. unfold slot_Active, slot_Get. cbn. rewrite lookup_insert_eq. by eexists.
    + intros _. by left.
    + rewrite Hret. by intros e ?%elem_of_nil.
    + intros r0 Hr. by destruct (Hnr r0 Hr).
  - destruct Hdo as [Hdo|]; [|done].
    destruct (Hla eq_refl Hdo) as (p & Hp & _). rewrite Hact in Hp.
    split; cbn; rewrite ?Hc; try done.
    + intros _. unfold slot_Active, slot_Get. cbn. rewrite lookup_insert_eq. by eexists.
    + intros _ _. exists p. split; [done|]. intros q [= <-]. symmetry. apply H0, Hp.
    + intros. congruence.
    + rewrite Hret. by intros e ?%elem_of_nil.
    + intros r0 Hr. by destruct (Hnr r0 Hr).
Qed.

(** Changing layers other than the active one, when no rekey is running. *)
Lemma with_layers_inv s t :
  ss_up s = true → rk_running (ss_rekey s) = None → sess_inv s →
  layers_ok t → kept (st_active (ss_slots s)) (ss_layers s) t →
  (length (lt_store (ss_layers s)) ≤ length (lt_store t))%nat → sess_inv (with_layers t s).
Proof.
  intros Hup Hrun [Hs Hl Hsl Hla Hd Hdn Hre Hru] Ht Hk Hlen. split; cbn; try done; try congruence.
  - intros Hc Hdo. destruct (Hla Hc Hdo) as (p & Hp & Htls). exists p. split; [by eapply open_layer_kept|done].
  - intros e He. destruct (Hre e He) as [A B]. split; cbn; [done|]. intros p Hp. destruct (B p Hp).
    unfold layer_Get in *. rewrite (proj1 Hk). split; [done|lia].
Qed.

Lemma set_running_inv s r :
  sess_inv s → (∀ r', r = Some r' → running_ok s r') → sess_inv (set_running r s).
Proof.
  intros [Hs Hl Hsl Hla Hd Hdn Hre Hru] Hr. split; cbn; try done.
  - intros e He. by destruct (Hre e He).
  - intros r' ->. by destruct (Hr r' eq_refl).
Qed.

Lemma preseed_same old l : alive_same l (preseed old l).
Proof. unfold preseed, RemoteSessionID. destruct old as [o|]; [|done]. by destruct (l_remoteKnown o). Qed.

Lemma SendHardReset_alive now op l : alive_same l (SendHardReset now op l).1.
Proof. unfold SendHardReset. repeat case_match; try done. apply enqueue_alive. Qed.

(** The state in which a rekey waits for its exchange. *)
Record started (now : Z) (s s' : Session W) (r : running_rekey) : Prop := {
  sd_old : rr_oldKID r = st_active (ss_slots s);
  sd_new : rr_newKID r = nextKeyID (st_active (ss_slots s));
  sd_layer : rr_layer r = length (lt_store (ss_layers s));
  sd_state : ∃ t, s' = set_running (Some r) (with_layers t s) ∧ layers_ok t ∧
    length (lt_store t) = S (length (lt_store (ss_layers s))) ∧
    open_layer (rr_newKID r) (rr_layer r) t ∧
    ∀ k, k ≠ rr_newKID r → kept k (ss_layers s) t
}.

Lemma start_spec now s :
  sess_inv s → ss_up s = true →
  match PerformSoftReset_start now s with
  | (s', Ok r) => ss_closed s = false ∧ rk_running (ss_rekey s) = None ∧ started now s s' r
  | (s', Err e) => s' = s ∧ (e = RkClosed ∧ ss_closed s = true ∨
                             e = RkInProgress ∧ is_Some (rk_running (ss_rekey s)))
  | (s', Panic) => False
  end.
Proof.
  intros Hinv Hup. unfold PerformSoftReset_start.
  destruct (ss_closed s) eqn:Hc; [split; [done|by left]|].
  destruct (rk_running (ss_rekey s)) eqn:Hr; [split; [done|right; by split]|].
  unfold slot_ActiveKID. set (new := nextKeyID (st_active (ss_slots s))).
  set (old := (_ ← _; _)). set (nl := preseed old _).
  assert (l_keyID nl = new ∧ l_closed nl = false) as [Hk Hop] by (apply (preseed_same old)).
  destruct (install_fresh_spec new nl (ss_layers s) (si_layers s Hinv) Hk
    ltac:(pose proof (nextKeyID_range (st_active (ss_slots s))); subst new; lia)) as (Ht & Hlen & Hg & Hde & Hkept).
  unfold install_fresh in *. destruct (layer_new nl (ss_layers s)) as [q t0] eqn:Hnew.
  assert (q = length (lt_store (ss_layers s))) as Hq by (unfold layer_new in Hnew; cbn in Hnew; congruence).
  destruct (layer_Install new q t0) as [t1 d]. set (t := close_layer d t1) in *.
  assert (ss_done s = false) as Hdo.
  { destruct (ss_done s) eqn:Hd; [|done]. destruct (si_done s Hinv Hd); congruence. }
  unfold workers_Go. rewrite Hdo. cbn [negb].
  pose proof (SendHardReset_alive now PControlSoftResetV1 nl) as [Hk' Hc'].
  assert ((SendHardReset now PControlSoftResetV1 nl).2 = None) as Hok.
  { unfold SendHardReset. rewrite Hop. unfold enqueueAndEmitLocked.
    assert (size (l_txQueue nl) = 0%nat) as ->; [|done].
    subst nl. unfold preseed, RemoteSessionID. destruct old as [o|]; [|done]. by destruct (l_remoteKnown o). }
  destruct (SendHardReset now PControlSoftResetV1 nl) as [l err]. cbn in Hok, Hk', Hc'. subst err.
  split_and!; [done|done|]. split; [done|done|done|]. cbn [rr_newKID rr_layer].
  exists (layer_set q l t). rewrite <-Hq in *. split_and!; [done| | | |].
  - eapply layer_set_ok; [done|done|done].
  - cbn. by rewrite length_insert.
  - split; [done|]. exists l. split; [|congruence]. unfold layer_deref. cbn.
    apply list_lookup_insert_eq. rewrite Hlen. lia.
  - intros k Hne. eapply kept_trans; [by apply Hkept|]. apply layer_set_kept.
    intros Hk2. by apply Hne, (layers_ok_inj t k new q).
Qed.

Lemma start_inv now s :
  ss_up s = true → sess_inv s → sess_inv (PerformSoftReset_start now s).1.
Proof.
  intros Hup Hinv. pose proof (start_spec now s Hinv Hup) as H.
  destruct (PerformSoftReset_start now s) as [s' [r|e|]]; [|by destruct H as [-> _]|done].
  destruct H as (Hc & Hrun & [Hold Hnew Hlayer (t & -> & Ht & Hlen & Hopen & Hkept)]).
  assert (st_active (ss_slots s) ≠ rr_newKID r) as Hne.
  { rewrite Hnew. intros Heq. symmetry in Heq. revert Heq. apply nextKeyID_ne, (si_slots s Hinv). }
  assert (sess_inv (with_layers t s)) as Hinv'.
  { apply with_layers_inv; try done; [by apply Hkept|lia]. }
  apply set_running_inv; [done|]. intros r' [= <-].
  split; cbn; try done; [lia|]. intros e He Heq.
  destruct (ro_layer s e (si_retire s Hinv e He) _ Heq). lia.
Qed.

Lemma set_queued_same n s :
  same_tables s (with_rekey (mkRekeyManager (rk_running (ss_rekey s)) (rk_retiring (ss_rekey s)) n) s).
Proof. untouched. Qed.

Lemma serverRekey_inv now s : ss_up s = true → sess_inv s → sess_inv (serverRekey now s).1.
Proof.
  intros Hup Hinv. unfold serverRekey. destruct (rk_queued (ss_rekey s)) as [|n]; [done|].
  apply start_inv; [done|]. eapply sess_inv_same; [apply set_queued_same|done].
Qed.

(** The switch to the new key-id. *)
Definition switched (r : running_rekey) (slot : Slot) (s : Session W) : Session W :=
  let '(p, t) := slot_new slot (ss_slots s) in
  let s := installTLSConn (rr_layer r) (with_slots (slot_Install (rr_newKID r) p true t) (set_running None s)) in
  with_rekey (mkRekeyManager None
    (rk_retiring (ss_rekey s) ++
     [mkRetiring (rr_oldKID r) (slot_Get (rr_oldKID r) (ss_slots s)) (layer_Get (rr_oldKID r) (ss_layers s))])
    (rk_queued (ss_rekey s))) s.

Lemma finish_eq o s r :
  rk_running (ss_rekey s) = Some r →
  (∃ e, PerformSoftReset_finish o s =
     (with_layers (retireLayer (rr_newKID r) (ss_layers s)) (set_running None s), Some e) ∧
     (o = ExchangeFailed ∧ e = RkExchange ∨
      ∃ mat k, o = Exchanged mat ∧ rekey_slot (rr_newKID r) (ss_peerID s) (ss_cipher s) mat = Err k ∧ e = RkKeys k)) ∨
  (∃ mat, o = Exchanged mat ∧ rekey_slot (rr_newKID r) (ss_peerID s) (ss_cipher s) mat = Panic ∧
     PerformSoftReset_finish o s = (set_running None s, Some RkPanic)) ∨
  (∃ mat slot, o = Exchanged mat ∧ rekey_slot (rr_newKID r) (ss_peerID s) (ss_cipher s) mat = Ok slot ∧
     PerformSoftReset_finish o s = (switched r slot s, None)).
Proof.
  intros Hr. unfold PerformSoftReset_finish. rewrite Hr. destruct o as [|mat].
  - left. eexists. split; [done|]. by left.
  - cbn [set_running with_rekey ss_peerID ss_cipher]. destruct (rekey_slot _ _ _ _) as [slot|e|] eqn:Hm.
    + right; right. by exists mat, slot.
    + left. eexists. split; [done|]. right. by exists mat, e.
    + right; left. by exists mat.
Qed.

Lemma rekey_slot_KeyID kid peer c mat x : rekey_slot kid peer c mat = Ok x → s_KeyID x = kid.
Proof.
  unfold rekey_slot. destruct mat as [mat|]; [|done]. intros H.
  repeat (apply bind_Ok in H as (? & _ & H)). destruct (NewSlot _) as [y| |] eqn:Hy; [|done|done].
  injection H as <-. unfold NewSlot in Hy.
  apply bind_Ok in Hy as (? & _ & Hy). do 2 apply bind_Ok in Hy as (? & _ & Hy). by injection Hy as <-.
Qed.

(** The TLS connection that is replaced runs over the old layer. *)
Lemma running_distinct s r :
  sess_inv s → rk_running (ss_rekey s) = Some r → ss_closed s = false →
  rr_oldKID r ≠ rr_newKID r ∧ lt_byKID (ss_layers s) !! rr_newKID r = Some (rr_layer r) ∧
  ∀ q, ss_tlsConn s = Some q → lt_byKID (ss_layers s) !! rr_newKID r ≠ Some q.
Proof.
  intros Hinv Hr Hc. destruct (si_running s Hinv r Hr) as [Hup Hold Hnew Hlen Hret Hopen].
  assert (rr_oldKID r ≠ rr_newKID r) as Hne.
  { rewrite Hold, Hnew. intros Heq. symmetry in Heq. revert Heq. apply nextKeyID_ne, (si_slots s Hinv). }
  destruct (Hopen Hc) as [Hg _]. split_and!; [done|done|]. intros q Hq Hq'.
  assert (ss_done s = false) as Hdo.
  { destruct (ss_done s) eqn:Hd; [|done]. destruct (si_done s Hinv Hd); congruence. }
  destruct (si_layer s Hinv Hc Hdo) as (p & [Hp _] & Htl). rewrite (Htl q Hq) in Hq'.
  apply Hne. rewrite Hold. by apply (layers_ok_inj (ss_layers s) _ _ p (si_layers s Hinv)).
Qed.

Lemma installTLS_layers q (s : Session W) :
  ss_layers (installTLSConn q s) =
  close_layer (if ss_closed s then Some q else ss_tlsConn s) (ss_layers s).
Proof. unfold installTLSConn. by destruct (ss_closed s). Qed.

Lemma switched_inv s r mat slot :
  sess_inv s → rk_running (ss_rekey s) = Some r →
  rekey_slot (rr_newKID r) (ss_peerID s) (ss_cipher s) mat = Ok slot → sess_inv (switched r slot s).
Proof.
  intros Hinv Hr Hm. pose proof (rekey_slot_KeyID _ _ _ _ _ Hm) as Hkid.
  pose proof (running_distinct s r Hinv Hr) as Hdist.
  destruct (si_running s Hinv r Hr) as [Hup Hold Hnew Hlen Hret Hopen].
  pose proof (nextKeyID_range (st_active (ss_slots s))) as Hrange. rewrite <-Hnew in Hrange.
  assert (rr_oldKID r ≠ rr_newKID r) as Hne.
  { rewrite Hold, Hnew. intros Heq. symmetry in Heq. revert Heq. apply nextKeyID_ne, (si_slots s Hinv). }
  destruct Hinv as [Hs Hl Hsl Hla Hd Hdn Hre Hru]. unfold switched. cbn [slot_new alloc].
  set (s1 := installTLSConn _ _).
  assert (ss_layers s1 = close_layer (if ss_closed s then Some (rr_layer r) else ss_tlsConn s) (ss_layers s))
    as Hlay by (subst s1; rewrite installTLS_layers; done).
  assert (ss_slots s1 = slot_Install (rr_newKID r) (length (st_store (ss_slots s))) true
    (slot_new slot (ss_slots s)).2) as Hslots by (subst s1; unfold installTLSConn; destruct (ss_closed _); reflexivity).
  assert (ss_closed s1 = ss_closed s ∧ ss_done s1 = ss_done s ∧ ss_up s1 = true ∧
    rk_retiring (ss_rekey s1) = rk_retiring (ss_rekey s)) as (Hc1 & Hd1 & Hu1 & Hr1)
    by (subst s1; unfold installTLSConn; cbn; destruct (ss_closed s) eqn:?; by cbn).
  assert (∀ q, ss_closed s = false → ss_tlsConn s1 = Some q → q = rr_layer r) as Htls1.
  { subst s1. unfold installTLSConn. cbn. intros q ->. cbn. by intros [= <-]. }
  clearbody s1. split; cbn; rewrite ?Hslots, ?Hlay, ?Hc1, ?Hd1, ?Hu1, ?Hr1; try done.
  - apply (slot_Install_ok _ _ _ slot); [by apply slot_new_ok| |done|lia].
    unfold slot_deref. cbn. by rewrite list_lookup_middle.
  - by apply close_layer_ok.
  - intros _. unfold slot_Active, slot_Get. cbn. rewrite lookup_insert_eq. by eexists.
  - intros Hc Hdo. rewrite Hc. exists (rr_layer r). split; [|by intros q; apply Htls1].
    cbn. eapply open_layer_kept; [apply close_layer_kept|by apply Hopen]. by apply Hdist.
  - intros Hd'. left. destruct (Hd Hd'); [done|congruence].
  - intros e [He|He%list_elem_of_singleton]%elem_of_app.
    + destruct (Hre e He) as [A B].
      split; cbn; rewrite ?Hslots, ?Hlay, ?Hc1, ?close_layer_length; unfold slot_Active, slot_Get, layer_Get; cbn.
      * intros p Hp. destruct (A p Hp) as [_ Hlt]. rewrite lookup_insert_eq, length_app. cbn.
        split; [intros [= <-]; lia|lia].
      * intros p Hp. destruct (B p Hp) as [_ Hlt]. split; [|done]. intros Hc.
        rewrite close_layer_byKID. destruct (Hdist Hc) as (_ & -> & _). intros [= <-].
        by apply (Hret e He).
    + subst e. split; cbn; rewrite ?Hslots, ?Hlay, ?Hc1, ?close_layer_length;
        unfold slot_Active, slot_Get, layer_Get; cbn; rewrite ?close_layer_byKID.
      * intros p. rewrite lookup_insert_ne, lookup_insert_eq, length_app by congruence. cbn. intros Hp.
        destruct (so_entry _ Hs _ _ Hp) as (_ & x & Hx & _). apply lookup_lt_Some in Hx.
        split; [intros [= <-]; lia|lia].
      * intros p Hp. split; [|by eapply layers_ok_lt]. intros _ Hq.
        by apply Hne, (layers_ok_inj (ss_layers s) _ _ p Hl).
Qed.

Lemma finish_inv o s : sess_inv s → sess_inv (PerformSoftReset_finish o s).1.
Proof.
  intros Hinv. destruct (rk_running (ss_rekey s)) as [r|] eqn:Hr.
  2: { unfold PerformSoftReset_finish. by rewrite Hr. }
  pose proof (si_running s Hinv r Hr) as Hrun.
  assert (sess_inv (set_running None s)) as Hinv0 by by apply set_running_inv.
  destruct (finish_eq o s r Hr) as [(e & -> & _)|[(mat & _ & _ & ->)|(mat & slot & _ & Hm & ->)]];
    [|done|by eapply switched_inv].
  cbn [fst]. change (ss_layers s) with (ss_layers (set_running None s)).
  apply with_layers_inv; try done; [apply Hrun|by apply retireLayer_ok, Hinv| |by rewrite retireLayer_length].
  apply retireLayer_kept; [apply Hinv|]. rewrite (ru_new s r Hrun). intros Heq. symmetry in Heq.
  revert Heq. apply nextKeyID_ne, (si_slots s Hinv).
Qed.

Lemma retire_inv i s : sess_inv s → sess_inv (retireAfter i s).
Proof.
  intros Hinv. unfold retireAfter. destruct (rk_retiring (ss_rekey s) !! i) as [e|] eqn:He; [|done].
  apply list_elem_of_lookup_2 in He.
  assert (ss_up s = true) as Hup.
  { destruct (ss_up s) eqn:Hu; [done|]. destruct (si_down s Hinv Hu) as (_ & Hn & _). rewrite Hn in He.
    by apply elem_of_nil in He. }
  destruct (si_retire s Hinv e He) as [Hrs Hrl].
  destruct Hinv as [Hs Hl Hsl Hla Hd Hdn Hre Hru].
  assert (∀ e', e' ∈ delete i (rk_retiring (ss_rekey s)) → e' ∈ rk_retiring (ss_rekey s)) as Hsub.
  { intros e' H'. rewrite delete_take_drop in H'.
    apply elem_of_app in H' as [H'|H']; [by eapply subseteq_take|by eapply subseteq_drop]. }
  set (s0 := with_rekey _ s). change (ss_done s0) with (ss_done s).
  destruct (ss_done s) eqn:Hdo.
  { split; cbn; rewrite ?Hdo; try done; [congruence| |].
    - intros e' H'. destruct (Hre e' (Hsub e' H')). by split.
    - intros r Hr. destruct (Hru r Hr). split; cbn; auto. }
  assert (slot_Active (slot_RetireIf (rt_kid e) (rt_slot e) (ss_slots s)) = slot_Active (ss_slots s)) as Hact.
  { apply slot_RetireIf_active. intros _ Heq. destruct (Hsl Hup) as [p Hp]. rewrite Hp in Heq.
    by destruct (Hrs p Heq) as [? _]. }
  assert (∀ k p, lt_byKID (ss_layers s) !! k = Some p → rt_layer e ≠ Some p →
    kept k (ss_layers s) (retireLayerIf (rt_kid e) (rt_layer e) (ss_layers s))) as Hkept.
  { intros k p Hp Hw. apply retireLayerIf_kept; [done|]. intros _. by rewrite Hp. }
  assert (st_active (slot_RetireIf (rt_kid e) (rt_slot e) (ss_slots s)) = st_active (ss_slots s) ∧
    st_store (slot_RetireIf (rt_kid e) (rt_slot e) (ss_slots s)) = st_store (ss_slots s)) as [Hak Hst]
    by (unfold slot_RetireIf; by case_bool_decide).
  assert (ss_closed s = false → ∃ p, layer_Get (st_active (ss_slots s)) (ss_layers s) = Some p ∧
    kept (st_active (ss_slots s)) (ss_layers s) (retireLayerIf (rt_kid e) (rt_layer e) (ss_layers s))) as Hka.
  { intros Hc. destruct (Hla Hc eq_refl) as (p & [Hp _] & _). exists p. split; [done|].
    apply (Hkept _ p Hp). intros Heq. destruct (Hrl p Heq) as [Hn _]. by apply Hn. }
  split; cbn; rewrite ?Hak; try done.
  - by apply slot_RetireIf_ok.
  - by apply retireLayerIf_ok.
  - by rewrite Hact.
  - intros Hc _. destruct (Hla Hc eq_refl) as (p & Hp & Htl). exists p. split; [|done].
    destruct (Hka Hc) as (_ & _ & Hk). by eapply open_layer_kept.
  - congruence.
  - congruence.
  - intros e' H'. destruct (Hre e' (Hsub e' H')) as [A B]. split; cbn.
    + rewrite Hact, Hst. done.
    + rewrite Hak, retireLayerIf_length. intros p Hp. destruct (B p Hp) as [Hn Hlt]. split; [|done].
      intros Hc. destruct (Hka Hc) as (q & Hq & [Hk _]). unfold layer_Get in *. rewrite Hk. by apply Hn.
  - intros r Hr. destruct (Hru r Hr) as [A1 A2 A3 A4 A5 A6].
    split; cbn; rewrite ?Hak, ?retireLayerIf_length; try done; [auto|].
    intros Hc. eapply open_layer_kept; [|by apply A6].
    apply (Hkept _ (rr_layer r)); [apply (A6 Hc)|by apply A5].
Qed.

Lemma rekeyWatch_same now err txt r (s : Session W) :
  (rekeyWatch_result now err txt r s).1.2 = s ∨
  (rekeyWatch_result now err txt r s).1.2 =
    session_Close (setCloseErr (RestartError 0 (text "auto-rekey failed: " ++ txt)) s).
Proof. unfold rekeyWatch_result. destruct (classifyAutoRekey _ _); auto. Qed.

Lemma sess_step_inv s s' : sess_step s s' → sess_inv s → sess_inv s'.
Proof.
  intros Hst Hinv. destruct Hst.
  - eapply sess_inv_same; [apply same_readLoop|done].
  - eapply sess_inv_same; [by eapply same_writeLoop|done].
  - eapply sess_inv_same; [by eapply same_tickLoop|done].
  - eapply sess_inv_same; [eapply same_layer_set; [done|by apply tls_call_alive]|done].
  - by eapply establish_inv.
  - by apply start_inv.
  - by apply serverRekey_inv.
  - by apply finish_inv.
  - by apply retire_inv.
  - destruct (rekeyWatch_same now err errText r s) as [-> | ->]; [done|].
    apply close_inv. eapply sess_inv_same; [apply same_closeErr|done].
  - eapply sess_inv_same; [apply same_WriteCtx|done].
  - eapply sess_inv_same; [apply same_resume|done].
  - eapply sess_inv_same; [by eapply same_ReadCtx|done].
  - eapply sess_inv_same; [apply same_delivery|done].
  - eapply sess_inv_same; [apply same_keepalive, Hinv|done].
  - eapply sess_inv_same; [|done]. unfold watchdog_tick. case_match; same.
  - eapply sess_inv_same; [|done]. unfold controlChannelReader. case_match; same.
  - eapply sess_inv_same; [|done]. unfold RequestRestart. case_match; same.
  - by apply close_inv.
  - by apply shutdown_inv.
Qed.

Lemma sess_reachable_inv sid w cap s : sess_reachable sid w cap s → sess_inv s.
Proof.
  unfold sess_reachable. intros H. pose proof (session_new_inv sid w cap) as Hinv. revert Hinv.
  induction H as [|x y z Hst _ IH]; [done|]. intros Hx. by eapply IH, sess_step_inv.
Qed.

(** C3: an established session keeps carrying traffic through any number of
    rekeys, whatever arrives from the network, whatever the user does and in
    any interleaving: it always has an active slot, of the key-id that is
    active; until the session closes, the control channel of that key-id is
    open and is the one the TLS connection uses; and no table entry ever leads
    to a slot or layer of another key-id. *)
Theorem session_keeps_carrying sid w capacity s :
  sess_reachable sid w capacity s →
  (ss_up s = true → ∃ p slot, slot_Active (ss_slots s) = Some p ∧ slot_deref p (ss_slots s) = Some slot ∧
     s_KeyID slot = slot_ActiveKID (ss_slots s)) ∧
  (ss_closed s = false → ss_up s = true → ∃ q layer,
     layer_Get (slot_ActiveKID (ss_slots s)) (ss_layers s) = Some q ∧
     layer_deref q (ss_layers s) = Some layer ∧ l_closed layer = false ∧
     ∀ c, ss_tlsConn s = Some c → c = q) ∧
  (∀ kid p, slot_Get kid (ss_slots s) = Some p →
     0 ≤ kid < 8 ∧ ∃ slot, slot_deref p (ss_slots s) = Some slot ∧ s_KeyID slot = kid) ∧
  (∀ kid q, layer_Get kid (ss_layers s) = Some q →
     0 ≤ kid < 8 ∧ ∃ layer, layer_deref q (ss_layers s) = Some layer ∧ KeyID layer = kid).
Proof.
  intros H%sess_reachable_inv. split_and!.
  - intros Hup. destruct (si_slot s H Hup) as [p Hp].
    destruct (so_entry _ (si_slots s H) _ p Hp) as (_ & x & Hx & Hk). by exists p, x.
  - intros Hc Hup. assert (ss_done s = false) as Hdo.
    { destruct (ss_done s) eqn:Hd; [|done]. destruct (si_done s H Hd); congruence. }
    destruct (si_layer s H Hc Hdo) as (p & [Hg (l & Hl & Hcl)] & Htl). by exists p, l.
  - intros kid p Hp. apply (so_entry _ (si_slots s H) kid p Hp).
  - intros kid p Hp. apply (lo_entry _ (si_layers s H) kid p Hp).
Qed.

(** ** What a rekey does *)

(** C4: a rekey is all or nothing.  While it waits for the server nothing
    outbound changes; if the exchange fails, the slots and the active control
    channel are as they were and another rekey can start; if it succeeds, the
    active key-id is the next one, with a new slot of that key-id cut from the
    new export and packet-ids from 1, over the TLS connection of the exchange.
    In both cases the slot of every other key-id, the previous one included,
    still opens what is in flight. *)
Theorem rekey_atomic sid w capacity s now o r :
  sess_reachable sid w capacity s → ss_closed s = false →
  (ss_up s = true → ss_slots (PerformSoftReset_start now s).1 = ss_slots s ∧
     kept (slot_ActiveKID (ss_slots s)) (ss_layers s) (ss_layers (PerformSoftReset_start now s).1)) ∧
  (rk_running (ss_rekey s) = Some r →
   let '(s', err) := PerformSoftReset_finish o s in
   rk_running (ss_rekey s') = None ∧
   (∀ kid, kid ≠ rr_newKID r → slot_Get kid (ss_slots s') = slot_Get kid (ss_slots s)) ∧
   (∀ p slot, slot_deref p (ss_slots s) = Some slot → slot_deref p (ss_slots s') = Some slot) ∧
   match err with
   | Some e => ss_slots s' = ss_slots s ∧
       (e ≠ RkPanic → kept (slot_ActiveKID (ss_slots s)) (ss_layers s) (ss_layers s'))
   | None => slot_ActiveKID (ss_slots s') = nextKeyID (slot_ActiveKID (ss_slots s)) ∧
       ss_tlsConn s' = Some (rr_layer r) ∧
       ∃ mat slot p, o = Exchanged mat ∧
         rekey_slot (rr_newKID r) (ss_peerID s) (ss_cipher s) mat = Ok slot ∧
         slot_Active (ss_slots s') = Some p ∧ slot_deref p (ss_slots s') = Some slot ∧
         mkRetiring (rr_oldKID r) (slot_Active (ss_slots s)) (layer_Get (rr_oldKID r) (ss_layers s)) ∈
           rk_retiring (ss_rekey s')
   end).
Proof.
  intros Hreach%sess_reachable_inv Hc. split.
  - intros Hup. pose proof (start_spec now s Hreach Hup) as H.
    destruct (PerformSoftReset_start now s) as [s' [r'|e|]]; cbn [fst]; [|by destruct H as [-> _]|done].
    destruct H as (_ & _ & [Hold Hnew _ (t & -> & Ht & _ & _ & Hkept)]). split; [done|]. apply Hkept.
    unfold slot_ActiveKID. rewrite Hnew. intros Heq. symmetry in Heq. revert Heq.
    apply nextKeyID_ne, (si_slots s Hreach).
  - intros Hr. pose proof (si_running s Hreach r Hr) as Hru.
    pose proof (running_distinct s r Hreach Hr Hc) as (Hne & _).
    destruct (finish_eq o s r Hr) as [(e & -> & _)|[(mat & -> & Hm & ->)|(mat & slot & -> & Hm & ->)]].
    + split_and!; try done. intros _. apply retireLayer_kept; [apply Hreach|].
      unfold slot_ActiveKID. by rewrite <-(ru_old s r Hru).
    + by split_and!.
    + unfold switched, installTLSConn. cbn [slot_new alloc with_slots set_running with_rekey ss_closed].
      rewrite Hc. cbn. split_and!; try done.
      * intros kid Hk. unfold slot_Get. cbn. by apply lookup_insert_ne.
      * intros p x Hx. unfold slot_deref in *. cbn. by apply lookup_app_l_Some.
      * by rewrite (ru_new s r Hru).
      * exists mat, slot, (length (st_store (ss_slots s))). split_and!; try done.
        -- unfold slot_Active, slot_Get. cbn. apply lookup_insert_eq.
        -- unfold slot_deref. cbn. by rewrite list_lookup_middle.
        -- apply elem_of_app. right. apply list_elem_of_singleton. f_equal.
           ++ unfold slot_Active, slot_Get. cbn. rewrite lookup_insert_ne by done. by rewrite (ru_old s r Hru).
           ++ unfold layer_Get. by rewrite close_layer_byKID.
Qed.

(** ** The control path *)

(** [wire] is marshalling on one side and parsing on the other. *)
Lemma wire_inbound o i :
  wire o = Some i →
  ∃ body, marshal_outbound o = Ok body ∧ inbound_packet (op_Opcode o) (op_KeyID o) (op_SessionID o) body = Ok i.
Proof.
  unfold wire, marshal_outbound, inbound_packet, IsAck. destruct (op_Opcode o =? PAckV1).
  - destruct (MarshalAckPayload _) as [b| |]; [|done|done]. destruct (ParseAckPayload b) as [ap| |] eqn:Hp; [|done|done].
    intros [= <-]. exists b. split; [done|]. by rewrite Hp.
  - destruct (MarshalControlPayload _) as [b| |]; [|done|done]. destruct (ParseControlPayload b) as [cp| |] eqn:Hp; [|done|done].
    intros [= <-]. exists b. split; [done|]. by rewrite Hp.
Qed.

Lemma readLoop_control now b pkt op kid s :
  0 ≤ op < 32 → 0 ≤ kid < 8 → b = PackOpcodeKID op kid → IsControl op = true → head pkt = Some b →
  readLoop now (inl pkt) s = (handleControlIn now pkt op kid s, true).
Proof.
  intros Hop Hk -> Hc Hh. destruct pkt as [|b' rest]; [done|]. injection Hh as ->.
  unfold readLoop. rewrite Unpack_Pack by done. rewrite (Z.mod_small kid 8) by done.
  assert (IsData op = false) as ->; [|by rewrite Hc].
  unfold IsControl, IsData, PControlSoftResetV1, PControlV1, PAckV1, PControlHardResetClientV2,
    PControlHardResetServerV2, PControlHardResetClientV3, PControlWKCV1, PDataV2 in *. lia.
Qed.

(** The control path is the channel of the reliability layer and nothing
    else.  A packet the peer's layer emitted, marshalled, wrapped and carried
    over the network in any order, ends as exactly the [HandleInbound] of that
    packet on the layer of its key-id when its packet-id is fresh; and nothing
    else that arrives as a control packet for that key-id changes any layer,
    any slot or what was delivered. *)
Theorem control_path_exact now s p layer kid spec :
  layer_Get kid (ss_layers s) = Some p → layer_deref p (ss_layers s) = Some layer →
  cw_ok (ss_wrapper s) → pid_rel (cw_window (ss_wrapper s)) spec →
  (∀ o i body sid pid t, IsControl (op_Opcode o) = true → op_KeyID o = kid → 0 ≤ kid < 8 →
     wire o = Some i → marshal_outbound o = Ok body → op_SessionID o = sid → is_u64 sid → is_u32 pid → is_u32 t →
     spec_fresh spec pid = true →
     let x := mkWrapped (PackOpcodeKID (op_Opcode o) kid) sid pid t body in
     ss_layers (readLoop now (inl (cw_packet (ss_wrapper s) x)) s).1 =
       layer_set p (HandleInbound now i layer).1 (ss_layers s)) ∧
  (∀ pkt op, let s' := handleControlIn now pkt op kid s in
     ss_slots s' = ss_slots s ∧ ss_delivery s' = ss_delivery s ∧ ss_closeErr s' = ss_closeErr s ∧
     (ss_layers s' = ss_layers s ∨
      ∃ x i, wrapped_wf x ∧ spec_fresh spec (wr_packetID x) = true ∧ pkt = cw_packet (ss_wrapper s) x ∧
        inbound_packet op kid (wr_sessionID x) (wr_plain x) = Ok i ∧
        ss_layers s' = layer_set p (HandleInbound now i layer).1 (ss_layers s))).
Proof.
  intros Hg Hd Hok Hspec. split.
  - intros o i body sid pid t Hop Hkid Hk Hw Hm Hsid Hs Hp Ht Hfr x.
    destruct (wire_inbound o i Hw) as (body' & Hm' & Hi). rewrite Hm in Hm'. injection Hm' as <-.
    rewrite Hkid, Hsid in Hi.
    destruct (cw_packet_opcode (ss_wrapper s) x) as [rest Hpk].
    assert (0 ≤ op_Opcode o < 32) as Hrange.
    { unfold IsControl, PControlSoftResetV1, PControlV1, PAckV1, PControlHardResetClientV2,
        PControlHardResetServerV2, PControlHardResetClientV3, PControlWKCV1 in Hop. lia. }
    rewrite (readLoop_control now (PackOpcodeKID (op_Opcode o) kid) _ (op_Opcode o) kid) by
      (try done; by rewrite Hpk). cbn [fst].
    unfold handleControlIn. rewrite Hg, Hd.
    rewrite (cw_Unwrap_accept (ss_wrapper s) spec x Hok Hspec) by done.
    cbn [wr_sessionID wr_plain x]. by rewrite Hi.
  - intros pkt op s'. subst s'. unfold handleControlIn. rewrite Hg, Hd.
    destruct (cw_Unwrap pkt (ss_wrapper s)) as [w r] eqn:Hu.
    apply (cw_Unwrap_inv pkt (ss_wrapper s) spec) in Hu; [|done].
    destruct r as [[[[b sid] pid] plain]|e|]; [| |done].
    + destruct Hu as (x & Hx & Hpkt & [= -> -> -> ->] & Hfr & _).
      pose proof (inbound_no_panic op kid (wr_sessionID x) (wr_plain x)) as Hnp.
      destruct (inbound_packet op kid (wr_sessionID x) (wr_plain x)) as [i|e|] eqn:Hi; [|by auto|done].
      cbn. split_and!; try done. right. by exists x, i.
    + repeat case_match; cbn; by auto.
Qed.

(** ** The data path *)

(** What becomes of an accepted packet: a PING is counted, a full channel drops. *)
Definition delivered (ip : bytes) (s s' : Session W) : Prop :=
  let d := ss_delivery s in
  if IsPing ip then
    ss_delivery s' = d ∧ ss_stats s' = incr_pingIn (ss_stats s) ∧
    lastDataInbound (ss_clocks s') = lastDataInbound (ss_clocks s)
  else if d_handler d then
    ss_delivery s' = mkDelivery (d_ingress d) (d_capacity d) true (d_handed d ++ [ip]) ∧
    ss_stats s' = incr_forwarded (ss_stats s)
  else if decide (length (d_ingress d) < d_capacity d)%nat then
    ss_delivery s' = mkDelivery (d_ingress d ++ [ip]) (d_capacity d) false (d_handed d) ∧
    ss_stats s' = incr_forwarded (ss_stats s)
  else ss_delivery s' = d ∧ ss_stats s' = incr_droppedFull (ss_stats s).

Lemma deliver_ip_frame ip (s : Session W) :
  ss_slots (deliver_ip ip s) = ss_slots s ∧ ss_layers (deliver_ip ip s) = ss_layers s ∧
  ss_clocks (deliver_ip ip s) = ss_clocks s ∧ ss_closeErr (deliver_ip ip s) = ss_closeErr s.
Proof. unfold deliver_ip. by repeat case_match. Qed.

(** The data path of a session.  A data packet for a key-id is delivered
    exactly when it is a packet the peer's key makes for a fresh packet-id: it
    refreshes the liveness timestamp, a keepalive is only counted, and a user
    packet goes to the handler or to the channel, which never exceeds its
    capacity.  Anything else is counted and changes nothing, and no packet
    makes the read loop panic or touches the control channel. *)
Theorem data_in_exact now pkt kid s p slot spec :
  slot_Get kid (ss_slots s) = Some p → slot_deref p (ss_slots s) = Some slot → slot_wf slot spec →
  AeadLaws C →
  let s' := handleDataIn now pkt kid s in
  ss_layers s' = ss_layers s ∧ ss_closeErr s' = ss_closeErr s ∧
  ((length (d_ingress (ss_delivery s)) ≤ d_capacity (ss_delivery s))%nat →
   (length (d_ingress (ss_delivery s')) ≤ d_capacity (ss_delivery s'))%nat) ∧
  ((∃ pid ip, is_u32 pid ∧ spec_fresh spec pid = true ∧ pkt = recv_packet slot pid ip ∧
      slot_deref p (ss_slots s') = Some (set_recvWin (Accept (s_recvWin slot) pid).1 slot) ∧
      lastInbound (ss_clocks s') = now ∧ (IsPing ip = false → lastDataInbound (ss_clocks s') = now) ∧
      delivered ip s s') ∨
   ((∀ pid ip, is_u32 pid → spec_fresh spec pid = true → pkt ≠ recv_packet slot pid ip) ∧
      slot_deref p (ss_slots s') = Some slot ∧ ss_clocks s' = ss_clocks s ∧
      ss_delivery s' = ss_delivery s ∧ ss_stats s' = incr_openFailed (ss_stats s))).
Proof.
  intros Hg Hd Hwf Hlaws s'. subst s'. unfold handleDataIn, OpenInto. rewrite Hg, Hd.
  assert (∀ x, slot_deref p (slot_set p x (ss_slots s)) = Some x) as Hset.
  { intros x. unfold slot_deref in *. cbn. apply list_lookup_insert_eq. by eapply lookup_lt_Some. }
  destruct (Open_cases slot spec pkt Hwf) as [pid ip buf Hu Hfr ->|e buf Hno]; cbn [app].
  2: { cbn. split_and!; try done. right. by split_and!. }
  set (s1 := with_clocks _ _).
  assert (ss_slots s1 = slot_set p (set_recvWin (Accept (s_recvWin slot) pid).1 slot) (ss_slots s) ∧
    ss_layers s1 = ss_layers s ∧ ss_closeErr s1 = ss_closeErr s ∧ ss_delivery s1 = ss_delivery s ∧
    ss_stats s1 = ss_stats s ∧ lastInbound (ss_clocks s1) = now ∧
    lastDataInbound (ss_clocks s1) = lastDataInbound (ss_clocks s)) as (E1 & E2 & E3 & E4 & E5 & E6 & E7) by done.
  clearbody s1. destruct (IsPing ip) eqn:Hping.
  - cbn. rewrite E2, E3, E4. split_and!; try done. left. exists pid, ip.
    unfold delivered. rewrite Hping. cbn. rewrite E1, E5, E6, E7. by split_and!.
  - set (s2 := with_clocks _ s1).
    destruct (deliver_ip_frame ip s2) as (F1 & F2 & F3 & F4).
    assert (lastInbound (ss_clocks s2) = now ∧ lastDataInbound (ss_clocks s2) = now) as [G1 G2] by (subst s2; by cbn).
    assert (delivered ip s (deliver_ip ip s2)) as Hdel.
    { unfold delivered, deliver_ip. rewrite Hping. change (ss_delivery s2) with (ss_delivery s1).
      change (ss_stats s2) with (ss_stats s1). rewrite E4, E5.
      destruct (d_handler (ss_delivery s)); [done|].
      destruct (Nat.ltb_spec (length (d_ingress (ss_delivery s))) (d_capacity (ss_delivery s))); case_decide; try lia;
        cbn; rewrite ?E4; done. }
    rewrite F2, F4. change (ss_layers s2) with (ss_layers s1). change (ss_closeErr s2) with (ss_closeErr s1).
    split_and!; [done|done| |].
    + intros Hle. unfold delivered in Hdel. rewrite Hping in Hdel.
      destruct (d_handler _); [destruct Hdel as [-> _]; done|].
      case_decide; destruct Hdel as [-> _]; [|done]. cbn. rewrite length_app. cbn. lia.
    + left. exists pid, ip. rewrite F1, F3. change (ss_slots s2) with (ss_slots s1). rewrite E1.
      by split_and!.
Qed.

(** ** Why a session ends *)

(** The reason recorded first stays; flags are only raised; a new reason comes
    with a [Close] under way. *)
Record life_mono (s s' : Session W) : Prop := {
  lm_err e : ss_closeErr s = Some e → ss_closeErr s' = Some e;
  lm_new e : ss_closeErr s = None → ss_closeErr s' = Some e →
    (ss_closing s' = true ∨ ss_closed s' = true) ∧ ∀ w, e ≠ WorkerPanicked w;
  lm_closed : ss_closed s = true → ss_closed s' = true;
  lm_closing : ss_closing s = true → ss_closing s' = true;
  lm_done : ss_done s = true → ss_done s' = true
}.

#[local] Instance life_mono_preorder : PreOrder life_mono.
Proof.
  split; [by split; [|congruence|..]|].
  intros s1 s2 s3 [A1 A2 A3 A4 A5] [B1 B2 B3 B4 B5]. split; auto. intros e H1 H3.
  destruct (ss_closeErr s2) as [e2|] eqn:H2; [|by apply B2].
  assert (e2 = e) as -> by (pose proof (B1 e2 eq_refl); congruence).
  destruct (A2 e H1 eq_refl) as [[?|?] ?]; auto.
Qed.

(** Two states with the same life fields. *)
Lemma life_same (s s' : Session W) :
  ss_closeErr s' = ss_closeErr s → ss_closed s' = ss_closed s → ss_closing s' = ss_closing s →
  ss_done s' = ss_done s → life_mono s s'.
Proof. intros He Hc Hg Hd. split; congruence. Qed.

Lemma life_abandon e (s : Session W) : (∀ w, e ≠ WorkerPanicked w) → life_mono s (abandon e s).
Proof.
  intros Hne. unfold abandon, closeAsync, setCloseErr.
  destruct (ss_closeErr s) eqn:He; split; cbn; try congruence; auto. by intros e' _ [= <-]; auto.
Qed.

Lemma life_close e (s : Session W) :
  (∀ w, e ≠ WorkerPanicked w) → life_mono s (session_Close (setCloseErr e s)).
Proof.
  intros Hne. unfold session_Close, setCloseErr.
  destruct (ss_closeErr s) eqn:He, (ss_closed s) eqn:Hc; cbn; rewrite ?Hc; split; cbn; try congruence; auto;
    by intros e' _ [= <-]; auto.
Qed.

Ltac life :=
  repeat first [ reflexivity | by apply life_same | by apply life_abandon
               | etransitivity; [|by apply life_abandon] ].

Lemma life_deliver ip (s : Session W) : life_mono s (deliver_ip ip s).
Proof. unfold deliver_ip. repeat case_match; life. Qed.

Lemma life_data_in now pkt kid s : life_mono s (handleDataIn now pkt kid s).
Proof.
  unfold handleDataIn. destruct (slot_Get _ _) as [p|]; [|life]. destruct (slot_deref _ _) as [x|]; [|life].
  pose proof (OpenInto_no_panic [] pkt x) as Hnp. destruct (OpenInto [] pkt x) as [[x' buf] r].
  destruct r as [ip|e|]; [|life|done]. destruct (IsPing ip); [life|].
  etransitivity; [|apply life_deliver]. life.
Qed.

Lemma life_control_in now pkt op kid s : life_mono s (handleControlIn now pkt op kid s).
Proof.
  unfold handleControlIn. destruct (layer_Get _ _) as [p|]; [|by repeat case_match; life].
  destruct (layer_deref _ _) as [l|]; [|life].
  pose proof (cw_Unwrap_safe pkt (ss_wrapper s)) as Hnp. destruct (cw_Unwrap pkt (ss_wrapper s)) as [w r].
  destruct r as [[[[? sid] ?] plain]|e|]; [|by repeat case_match; life|done].
  pose proof (inbound_no_panic op kid sid plain) as Hnp'. by destruct (inbound_packet _ _ _ _); [life..|].
Qed.

Lemma life_readLoop now r s : life_mono s (readLoop now r s).1.
Proof.
  unfold readLoop. destruct r as [[|b pkt]|err]; [life| |by case_match; life].
  destruct (UnpackOpcodeKID b) as [op kid]. cbn [fst].
  destruct (IsData op); [apply life_data_in|]. destruct (IsControl op); [apply life_control_in|life].
Qed.

Lemma life_writeLoop now werr p s s' b : writeLoop now werr p s = Some (s', b) → life_mono s s'.
Proof.
  unfold writeLoop. destruct (layer_deref p (ss_layers s)) as [l|]; [|done]. cbn.
  intros H. destruct (l_outbound l) as [|out rest]; [done|]. pose proof (marshal_no_panic out) as Hnp.
  repeat case_match; simplify_eq; life.
Qed.

Lemma life_tickLoop now order p s s' b : tickLoop now order p s = Some (s', b) → life_mono s s'.
Proof.
  unfold tickLoop. destruct (layer_deref p (ss_layers s)) as [l|]; [|done]. cbn.
  destruct (Tick now order l) as [l' err]. intros [= H]. destruct err as [e|]; simplify_eq; [|life].
  repeat case_match; life.
Qed.

Lemma life_write_sealed now p wire werr (s : Session W) : life_mono s (write_sealed now p wire werr s).1.
Proof. unfold write_sealed. repeat case_match; life. Qed.

Lemma life_seal p ptr (s : Session W) : life_mono s (seal_slot p ptr s).1.
Proof. unfold seal_slot. repeat case_match; life. Qed.

Lemma life_resume now p werr ptr (s : Session W) : life_mono s (WriteCtx_resume now p werr ptr s).1.
Proof.
  unfold WriteCtx_resume. pose proof (life_seal p ptr s) as H. destruct (seal_slot p ptr s) as [s1 r].
  destruct r as [wire|e|]; [|done|done].
  pose proof (life_write_sealed now p wire werr s1) as H'. destruct (write_sealed _ _ _ _ _). by etransitivity.
Qed.

Lemma life_WriteCtx now p werr (s : Session W) : life_mono s (WriteCtx now p werr s).1.
Proof.
  unfold WriteCtx. destruct (ss_closed s); [life|]. destruct (slot_Active (ss_slots s)) as [ptr|]; [|life].
  pose proof (life_seal p ptr s) as H. destruct (seal_slot p ptr s) as [s1 r].
  destruct r as [wire|e|]; [|by destruct e|done].
  pose proof (life_write_sealed now p wire werr s1) as H'. destruct (write_sealed _ _ _ _ _). by etransitivity.
Qed.

Lemma life_keepalive now werr (s : Session W) :
  slots_ok (ss_slots s) → life_mono s (keepaliveLoop now werr s).1.
Proof.
  intros Hok. unfold keepaliveLoop. destruct (ss_closed s); [life|]. destruct (negb _); [life|].
  destruct (slot_Active (ss_slots s)) as [ptr|] eqn:Hp; [|life].
  pose proof (life_seal PingMagic ptr s) as H. pose proof (seal_no_panic PingMagic _ ptr s Hok Hp) as Hnp.
  destruct (seal_slot PingMagic ptr s) as [s1 r].
  etransitivity; [exact H|]. destruct r; [destruct werr| |]; [life..|done].
Qed.

Lemma life_start now (s : Session W) : life_mono s (PerformSoftReset_start now s).1.
Proof.
  unfold PerformSoftReset_start. repeat case_match; life.
Qed.

Lemma life_finish o (s : Session W) : life_mono s (PerformSoftReset_finish o s).1.
Proof.
  unfold PerformSoftReset_finish, installTLSConn. repeat case_match; life.
Qed.

Lemma life_establish now c peer km i r (s s' : Session W) :
  session_establish now c peer km i r s = Ok s' → life_mono s s'.
Proof.
  unfold session_establish. intros (x & _ & He)%bind_Ok. cbn [slot_new alloc] in He.
  destruct (applyKeepaliveDefaults i r). injection He as <-.
  unfold installTLSConn. cbn. destruct (ss_closed s) eqn:Hc; by apply life_same.
Qed.

Lemma life_shutdown (s : Session W) : life_mono s (shutdown s).
Proof. split; cbn; auto; congruence. Qed.

Lemma control_message_reason msg e w : control_message msg = Some e → e ≠ WorkerPanicked w.
Proof. unfold control_message, parseRestart. repeat case_match; naive_solver. Qed.

Lemma sess_step_life s s' : sess_inv s → sess_step s s' → life_mono s s'.
Proof.
  intros Hinv Hst. destruct Hst.
  - apply life_readLoop.
  - by eapply life_writeLoop.
  - by eapply life_tickLoop.
  - life.
  - by eapply life_establish.
  - apply life_start.
  - unfold serverRekey. destruct (rk_queued _); [life|]. etransitivity; [|apply life_start]. life.
  - apply life_finish.
  - unfold retireAfter. repeat case_match; life.
  - destruct (rekeyWatch_same now err errText r s) as [-> | ->]; [life|by apply life_close].
  - apply life_WriteCtx.
  - apply life_resume.
  - unfold ReadCtx in *. repeat case_match; simplify_eq; life.
  - life.
  - apply life_keepalive, Hinv.
  - unfold watchdog_tick. case_match; life.
  - unfold controlChannelReader. destruct (control_message msg) eqn:Hm; [|life].
    apply life_abandon. intros w. by eapply control_message_reason.
  - unfold RequestRestart. case_match; life.
  - unfold session_Close. destruct (ss_closed s) eqn:Hc; [life|]. split; cbn; auto; congruence.
  - apply life_shutdown.
Qed.

Lemma rtc_life s s' : sess_inv s → rtc sess_step s s' → life_mono s s'.
Proof.
  intros Hinv H. induction H as [|x y z Hst _ IH]; [reflexivity|].
  etransitivity; [by apply sess_step_life|]. by eapply IH, sess_step_inv.
Qed.

(** C36: a session ends once and says why.  The first recorded reason is kept
    through everything that follows; recording one always starts the closing,
    and it is never the panic of a worker; a watchdog that fires records a
    request to reconnect; from then on [WriteCtx] sends nothing and both
    directions report that reason. *)
Theorem close_reason sid w capacity s :
  sess_reachable sid w capacity s →
  (∀ s' e, rtc sess_step s s' → ss_closeErr s = Some e → ss_closeErr s' = Some e) ∧
  (∀ e, ss_closeErr s = Some e →
     (ss_closing s = true ∨ ss_closed s = true) ∧ ∀ worker, e ≠ WorkerPanicked worker) ∧
  (∀ now wd, watchdog_fires now wd s = true → ss_closeErr s = None →
     ss_closeErr (watchdog_tick now wd s).1 = Some (RestartError 0 (watchdog_reason wd)) ∧
     ss_closing (watchdog_tick now wd s).1 = true) ∧
  (ss_closed s = true → ∀ now p werr,
     WriteCtx now p werr s = (s, WrDone (inr (IoClosed (ss_closeErr s))))) ∧
  (ss_done s = true → ∀ n, ReadCtx RcSession n s = Some (s, inr (IoClosed (ss_closeErr s)))).
Proof.
  intros Hr. pose proof (sess_reachable_inv _ _ _ _ Hr) as Hinv. split_and!.
  - intros s' e H. apply rtc_life in H; [|done]. apply H.
  - intros e He. apply rtc_life in Hr; [|apply session_new_inv]. by apply (lm_new _ _ Hr).
  - intros now wd Hf He. unfold watchdog_tick. rewrite Hf. cbn. unfold setCloseErr. by rewrite He.
  - intros Hc now p werr. unfold WriteCtx. by rewrite Hc.
  - intros Hd n. cbn. by rewrite Hd.
Qed.
End safety.

(** ** A session with concrete primitives *)

Definition res_get {E A} (d : A) (r : res E A) : A := match r with Ok a => a | _ => d end.
Definition res_ok {E A} (r : res E A) : bool := match r with Ok _ => true | _ => false end.
Lemma res_get_ok {E A} (d : A) (r : res E A) : res_ok r = true → r = Ok (res_get d r).
Proof. by destruct r. Qed.

Module Live.
Definition key : bytes := replicate 256 x11.
Definition wrapper : TlsCrypt.Wrapper := TlsCrypt.Sample.client.
Definition fresh : Session TlsCrypt.Wrapper := session_new 7 wrapper 2.
Definition up_res := session_establish 100 "AES-256-GCM" 5 key 0 0 fresh.
Definition up : Session TlsCrypt.Wrapper := res_get fresh up_res.
Definition waiting : Session TlsCrypt.Wrapper := (PerformSoftReset_start 200 up).1.
Definition rekeyed : Session TlsCrypt.Wrapper := (PerformSoftReset_finish (Exchanged (Some key)) waiting).1.

Lemma reach_up : sess_reachable 7 wrapper 2 up.
Proof.
  apply rtc_once, (st_establish _ 100 "AES-256-GCM" 5 key 0 0); [done|by left|].
  apply res_get_ok. by vm_compute.
Qed.
Lemma reach_waiting : sess_reachable 7 wrapper 2 waiting.
Proof. eapply rtc_r; [apply reach_up|]. apply st_rekey. by vm_compute. Qed.
Lemma reach_rekeyed : sess_reachable 7 wrapper 2 rekeyed.
Proof. eapply rtc_r; [apply reach_waiting|]. apply st_finish. Qed.

Definition slot0 : Slot := mkSlot 0 5 (replicate 32 x11) (replicate 8 x11) 0 (replicate 32 x11) (replicate 8 x11)
  (NewReplayWindow 0).
Lemma slot0_wf : slot_wf slot0 (spec_init DefaultReplayWindow).
Proof. split; cbn; [lia|done|done|]. by apply (NewReplayWindow_rel 0). Qed.
End Live.

Lemma session_keeps_carrying_witness :
  ss_up Live.rekeyed = true ∧ slot_ActiveKID (ss_slots Live.rekeyed) = 1 ∧
  ∃ p slot, slot_Active (ss_slots Live.rekeyed) = Some p ∧
    slot_deref p (ss_slots Live.rekeyed) = Some slot ∧ s_KeyID slot = slot_ActiveKID (ss_slots Live.rekeyed).
Proof.
  assert (ss_up Live.rekeyed = true) as Hup by by vm_compute.
  split; [done|]. split; [by vm_compute|].
  exact (proj1 (session_keeps_carrying 7 Live.wrapper 2 Live.rekeyed Live.reach_rekeyed) Hup).
Defined.

Lemma rekey_atomic_witness :
  ss_closed Live.waiting = false ∧ rk_running (ss_rekey Live.waiting) = Some (mkRunning 0 1 1) ∧
  rk_running (ss_rekey Live.rekeyed) = None.
Proof.
  assert (ss_closed Live.waiting = false) as Hc by by vm_compute.
  assert (rk_running (ss_rekey Live.waiting) = Some (mkRunning 0 1 1)) as Hr by by vm_compute.
  split; [done|]. split; [done|].
  pose proof (proj2 (rekey_atomic 7 Live.wrapper 2 Live.waiting 300 (Exchanged (Some Live.key)) _
    Live.reach_waiting Hc) Hr) as H.
  unfold Live.rekeyed. destruct (PerformSoftReset_finish _ _). by destruct H.
Defined.

Lemma control_path_exact_witness :
  let s := Live.up in
  let pkt := TlsCrypt.crypt_packet (TlsCrypt.k_RecvCipher (TlsCrypt.w_keys Live.wrapper))
    (TlsCrypt.k_RecvHMAC (TlsCrypt.w_keys Live.wrapper))
    (mkWrapped (PackOpcodeKID PControlV1 0) 9 1 3 (x00 :: be_enc 4 0 ++ [x41])) in
  ∃ l, layer_deref 0 (ss_layers s) = Some l ∧
    ss_layers (readLoop 500 (inl pkt) s).1 =
    layer_set 0 (HandleInbound 500 (mkInPacket PControlV1 0 9 (mkControlPayload [] 0 0 [x41]) zero_ack) l).1
      (ss_layers s).
Proof.
  intros s pkt.
  assert (layer_Get 0 (ss_layers s) = Some 0%nat) as Hg by by vm_compute.
  destruct (layer_deref 0 (ss_layers s)) as [l|] eqn:Hd; [|by vm_compute in Hd].
  exists l. split; [done|].
  assert (pid_rel (cw_window (ss_wrapper s)) (spec_init windowSize)) as Hrel.
  { replace (cw_window (ss_wrapper s)) with pid_init by (vm_compute; reflexivity). apply pid_init_rel. }
  assert (∀ w : Wrapper, cw_ok w) as Hok by (intros w; exact I).
  destruct (control_path_exact 500 s 0 l 0 _ Hg Hd (Hok _) Hrel) as [H _].
  pose proof (H (mkOutPacket PControlV1 0 9 (mkControlPayload [] 0 0 [x41]) zero_ack)
    (mkInPacket PControlV1 0 9 (mkControlPayload [] 0 0 [x41]) zero_ack)
    (x00 :: be_enc 4 0 ++ [x41]) 9 1 3) as H'.
  cbn zeta in H'. rewrite <- H'.
  { reflexivity. }
  all: clear; unfold is_u64, is_u32; solve [lia | vm_compute; reflexivity].
Defined.

Lemma data_in_exact_witness :
  let pkt := recv_packet Live.slot0 1 [x45; x00] in
  delivered [x45; x00] Live.up (handleDataIn 600 pkt 0 Live.up).
Proof.
  intros pkt.
  assert (slot_Get 0 (ss_slots Live.up) = Some 0%nat) as Hg by by vm_compute.
  assert (slot_deref 0 (ss_slots Live.up) = Some Live.slot0) as Hd by vm_cast_no_check (eq_refl (Some Live.slot0)).
  destruct (data_in_exact 600 pkt 0 Live.up 0 Live.slot0 _ Hg Hd Live.slot0_wf toy_laws)
    as (_ & _ & _ & [(pid & ip & Hu & _ & Heq & _ & _ & _ & H)|(Hno & _)]).
  - subst pkt. by destruct (recv_packet_inj Live.slot0 _ 1 _ pid ip Live.slot0_wf ltac:(done) Hu Heq) as [_ <-].
  - exfalso. by apply (Hno 1 [x45; x00]).
Defined.

Lemma close_reason_witness :
  watchdog_fires (100 + 60 * Second) WdPingRestart Live.up = true ∧
  ss_closeErr (watchdog_tick (100 + 60 * Second) WdPingRestart Live.up).1 =
    Some (RestartError 0 (text "ping-restart timeout")).
Proof.
  assert (watchdog_fires (100 + 60 * Second) WdPingRestart Live.up = true) as Hf by by vm_compute.
  split; [done|].
  destruct (close_reason 7 Live.wrapper 2 Live.up Live.reach_up) as (_ & _ & H & _).
  apply (H _ WdPingRestart Hf). by vm_compute.
Defined.
