(* ===== verification/Transport.v ===== *)
(** The transports, [internal/transport]: the scramble layer ([scramble.go]),
    the framing of packets on a TCP stream ([tcp.go]), datagram sockets
    ([datagram.go], [udp.go]) with the retry loop of the UDP writer, and the
    in-memory pair ([memory.go]).  A socket is what the code sees of it: the
    bytes still to come on a stream, the outcome of each system call. *)
From S2P Require Import Prelude.
Local Open Scope Z_scope.

Inductive transport_error : Type :=
  | TErrClosed
  | TErrSyscall (msg : bytes)     (* an error of the socket, as it is *)
  | TErrNoBufs                    (* ENOBUFS *)
  | TErrContext                   (* the caller's context *)
  | TErrZeroFrame
  | TErrFrameTooLarge (n : Z)
  | TErrEmptyPacket
  | TErrPacketTooLarge (n : nat)
  | TErrShortStream.              (* io.ReadFull: the stream ended *)

(** ** scramble.go *)

Inductive ScrambleMode : Type :=
  | ScrambleNone
  | ScrambleXorMask
  | ScrambleXorPtrPos
  | ScrambleReverse
  | ScrambleObfuscate.

Definition xorMask (buf key : bytes) : bytes :=
  match key with
  | [] => buf
  | _ => imap (λ i b, bxor b (nth (i mod length key) key x00)) buf
  end.

Definition xorPtrPos (buf : bytes) : bytes := imap (λ i b, bxor b (z2b (Z.of_nat i + 1))) buf.

(** The loop [for i, j := 1, len(buf)-1; i < j; ...]; every round brings [i]
    and [j] closer, the length is enough fuel. *)
Fixpoint reverse_loop (fuel : nat) (i j : nat) (buf : bytes) : bytes :=
  match fuel with
  | O => buf
  | S fuel' =>
      if (i <? j)%nat then
        reverse_loop fuel' (i + 1) (j - 1) (<[j := nth i buf x00]> (<[i := nth j buf x00]> buf))
      else buf
  end.

Definition reverseBytes (buf : bytes) : bytes :=
  if (length buf <? 3)%nat then buf else reverse_loop (length buf) 1 (length buf - 1) buf.

(** The key a connection keeps: a copy, for the modes that use one. *)
Definition NewScramble (mode : ScrambleMode) (key : bytes) : bytes :=
  match mode with ScrambleXorMask | ScrambleObfuscate => key | _ => [] end.

Definition scrambleSend (buf : bytes) (mode : ScrambleMode) (key : bytes) : bytes :=
  match mode with
  | ScrambleNone => buf
  | ScrambleXorMask => xorMask buf key
  | ScrambleXorPtrPos => xorPtrPos buf
  | ScrambleReverse => reverseBytes buf
  | ScrambleObfuscate => xorMask (xorPtrPos (reverseBytes (xorPtrPos buf))) key
  end.

Definition scrambleRecv (buf : bytes) (mode : ScrambleMode) (key : bytes) : bytes :=
  match mode with
  | ScrambleNone => buf
  | ScrambleXorMask => xorMask buf key
  | ScrambleXorPtrPos => xorPtrPos buf
  | ScrambleReverse => reverseBytes buf
  | ScrambleObfuscate => xorPtrPos (reverseBytes (xorPtrPos (xorMask buf key)))
  end.

(** ** tcp.go *)

Definition maxTCPPacket : Z := 65535.

(** [WritePacket]: the bytes put on the stream. *)
Definition tcp_WritePacket (closed : bool) (p : bytes) : res transport_error bytes :=
  guard_err closed TErrClosed;;
  guard_err (length p =? 0)%nat TErrEmptyPacket;;
  guard_err (maxTCPPacket <? zlen p) (TErrPacketTooLarge (length p));;
  Ok (be_enc 2 (zlen p) ++ p).

Definition stream_ReadFull (closed : bool) (n : nat) (r : bytes) : res transport_error (bytes * bytes) :=
  if (length r <? n)%nat then Err (if closed then TErrClosed else TErrShortStream)
  else Ok (take n r, drop n r).

(** [ReadPacket] on the bytes still to come. *)
Definition tcp_ReadPacket (closed : bool) (r : bytes) : res transport_error (bytes * bytes) :=
  '(hdr, r) ← stream_ReadFull closed 2 r;
  let n := be_dec hdr in
  guard_err (n =? 0) TErrZeroFrame;;
  guard_err (maxTCPPacket <? n) (TErrFrameTooLarge n);;
  '(buf, r) ← stream_ReadFull closed (Z.to_nat n) r;
  Ok (buf, r).

(** ** datagram.go and the reader of udp.go *)

Definition maxUDPPacket : Z := 65535.

(** One [Read] of the socket fills the 64 KiB buffer: a datagram or an error. *)
Definition datagram_ReadPacket (closed : bool) (r : bytes + transport_error) : res transport_error bytes :=
  match r with
  | inl d => Ok (take (Z.to_nat maxUDPPacket) d)
  | inr e => Err (if closed then TErrClosed else e)
  end.

(** [closed] before the write, [closed'] after it; [werr] is its outcome. *)
Definition datagram_WritePacket (closed closed' : bool) (werr : option transport_error)
  : option transport_error :=
  if closed then Some TErrClosed
  else match werr with
       | Some e => Some (if closed' then TErrClosed else e)
       | None => None
       end.

(** ** The writer of udp.go *)

Definition Microsecond : Z := 1000.
Definition enobufInitialBackoff : Z := 500 * Microsecond.
Definition enobufMaxBackoff : Z := 16000 * Microsecond.
Definition enobufMaxTotalSleep : Z := 1500000 * Microsecond.

(** One round of the retry loop: the time left to the context's deadline, if it
    has one; whether the context fires during the sleep; what the kernel then
    answers to the write. *)
Record udp_round := mkRound {
  ur_until : option Z;
  ur_cancelled : bool;
  ur_write : option transport_error
}.

Definition next_backoff (backoff : Z) : Z :=
  if backoff <? enobufMaxBackoff then
    let backoff := backoff * 2 in
    if enobufMaxBackoff <? backoff then enobufMaxBackoff else backoff
  else backoff.

(** The loop on the rounds to come; [None]: it asks for more rounds.  The result
    is the error, the time slept, the number of writes and whether the retry
    counter was incremented. *)
Fixpoint udp_retry (rounds : list udp_round) (backoff totalSleep : Z) (writes : nat)
    (err : transport_error) : option (option transport_error * Z * nat * bool) :=
  if enobufMaxTotalSleep <=? totalSleep then Some (Some err, totalSleep, writes, false)
  else
    match rounds with
    | [] => None
    | r :: rounds' =>
        if match ur_until r with Some t => t <=? backoff | None => false end
        then Some (Some err, totalSleep, writes, false)
        else if ur_cancelled r then Some (Some TErrContext, totalSleep, writes, false)
        else
          let totalSleep := totalSleep + backoff in
          let backoff := next_backoff backoff in
          match ur_write r with
          | None => Some (None, totalSleep, S writes, true)
          | Some TErrNoBufs => udp_retry rounds' backoff totalSleep (S writes) TErrNoBufs
          | Some e => Some (Some e, totalSleep, S writes, false)
          end
    end.

Definition udp_WritePacket (closed : bool) (first : option transport_error) (rounds : list udp_round)
  : option (option transport_error * Z * nat * bool) :=
  if closed then Some (Some TErrClosed, 0, O, false)
  else
    match first with
    | None => Some (None, 0, 1%nat, false)
    | Some TErrNoBufs => udp_retry rounds enobufInitialBackoff 0 1 TErrNoBufs
    | Some e => Some (Some e, 0, 1%nat, false)
    end.

(** ** memory.go *)

Definition memory_capacity : nat := 256.

(** One direction of a pair: what is queued at the reader, the packet held back
    for reordering; whether the ends are closed. *)
Record memoryConn := mkMemory {
  mc_q : list bytes;
  mc_pending : option bytes;
  mc_closed : bool;        (* the writer's end *)
  mc_peer_closed : bool
}.

(** The draws of the fault options for one write; [None]: not configured. *)
Record mem_faults := mkFaults {
  mf_drop : option bool;
  mf_swap : option bool;
  mf_dup : list bool       (* one draw per packet sent *)
}.

(** [deliver] blocks on a full queue: [None]. *)
Definition mem_deliver (p : bytes) (m : memoryConn) : option memoryConn :=
  if (length (mc_q m) <? memory_capacity)%nat
  then Some (mkMemory (mc_q m ++ [p]) (mc_pending m) (mc_closed m) (mc_peer_closed m)) else None.

Fixpoint mem_send (ps : list bytes) (dups : list bool) (m : memoryConn) : option memoryConn :=
  match ps with
  | [] => Some m
  | p :: ps' =>
      m ← mem_deliver p m;
      m ← (if default false (head dups) then mem_deliver p m else Some m);
      mem_send ps' (tail dups) m
  end.

(** [WritePacket]: the new state and the error; [None]: a send is blocked. *)
Definition mem_WritePacket (p : bytes) (f : mem_faults) (m : memoryConn)
  : option (memoryConn * option transport_error) :=
  if mc_closed m || mc_peer_closed m then Some (m, Some TErrClosed)
  else if default false (mf_drop f) then Some (m, None)
  else
    let hold v := mkMemory (mc_q m) v (mc_closed m) (mc_peer_closed m) in
    let send ps m := m ← mem_send ps (mf_dup f) m; Some (m, None) in
    match mf_swap f with
    | None => send [p] m
    | Some swap =>
        match swap, mc_pending m with
        | true, None => Some (hold (Some p), None)
        | _, Some held => send [p; held] (hold None)
        | false, None => send [p] m
        end
    end.

Definition mem_Close (m : memoryConn) : memoryConn :=
  if mc_closed m then m
  else
    let q := match mc_pending m with
             | Some held =>
                 if negb (mc_peer_closed m) && (length (mc_q m) <? memory_capacity)%nat
                 then mc_q m ++ [held] else mc_q m
             | None => mc_q m
             end in
    mkMemory q None true (mc_peer_closed m).

(** The other end closes its side. *)
Definition mem_peer_Close (m : memoryConn) : memoryConn :=
  mkMemory (mc_q m) (mc_pending m) (mc_closed m) true.

(** [ReadPacket] at the other end: what is buffered is drained before the close
    is reported; [None]: it waits. *)
Definition mem_ReadPacket (m : memoryConn) : option (memoryConn * res transport_error bytes) :=
  match mc_q m with
  | p :: q => Some (mkMemory q (mc_pending m) (mc_closed m) (mc_peer_closed m), Ok p)
  | [] => if mc_peer_closed m then Some (m, Err TErrClosed) else None
  end.

(** ** Scrambling is undone by the other end *)

Lemma imap_bxor_cancel (f : nat → byte) l : imap (λ i b, bxor b (f i)) (imap (λ i b, bxor b (f i)) l) = l.
Proof.
  apply list_eq. intros i. rewrite !list_lookup_imap. destruct (l !! i) as [b|]; [|done]. cbn.
  by rewrite bxor_cancel_r.
Qed.

Lemma xorPtrPos_cancel l : xorPtrPos (xorPtrPos l) = l.
Proof. apply imap_bxor_cancel. Qed.
Lemma xorMask_cancel l key : xorMask (xorMask l key) key = l.
Proof. destruct key; [done|]. apply imap_bxor_cancel. Qed.
Lemma length_xorPtrPos l : length (xorPtrPos l) = length l.
Proof. apply length_imap. Qed.
Lemma length_xorMask l key : length (xorMask l key) = length l.
Proof. destruct key; [done|]. apply length_imap. Qed.

(** The loop reverses the part between its two indices. *)
Lemma reverse_loop_spec fuel A M B :
  (length M ≤ fuel)%nat →
  reverse_loop fuel (length A) (length A + length M - 1) (A ++ M ++ B) = A ++ reverse M ++ B.
Proof.
  revert A M B. induction fuel as [|fuel IH]; intros A M B Hf; [destruct M; [done|cbn in Hf; lia]|].
  cbn [reverse_loop]. destruct M as [|x M]; [|destruct M as [|y M _] using rev_ind].
  - cbn [length]. rewrite (proj2 (Nat.ltb_ge _ _)) by lia. done.
  - cbn [length]. rewrite (proj2 (Nat.ltb_ge _ _)) by lia. done.
  - assert (length (x :: M ++ [y]) = S (S (length M))) as Hlen by (cbn; rewrite length_app; cbn; lia).
    rewrite Hlen in *. rewrite (proj2 (Nat.ltb_lt _ _)) by lia.
    replace (length A + S (S (length M)) - 1)%nat with (length A + S (length M))%nat by lia.
    assert (nth (length A) (A ++ (x :: M ++ [y]) ++ B) x00 = x) as ->.
    { rewrite app_nth2, Nat.sub_diag by lia. done. }
    assert (nth (length A + S (length M)) (A ++ (x :: M ++ [y]) ++ B) x00 = y) as ->.
    { rewrite app_nth2 by lia. replace (_ + _ - _)%nat with (S (length M)) by lia. cbn.
      rewrite <-app_assoc, app_nth2, Nat.sub_diag by lia. done. }
    rewrite (insert_app_r_alt A), Nat.sub_diag by lia.
    change (<[0%nat:=y]> ((x :: M ++ [y]) ++ B)) with (y :: (M ++ [y]) ++ B).
    rewrite (insert_app_r_alt A) by lia.
    replace (length A + S (length M) - length A)%nat with (S (length M)) by lia.
    change (<[S (length M):=x]> (y :: (M ++ [y]) ++ B)) with (y :: <[length M := x]> ((M ++ [y]) ++ B)).
    rewrite <-(app_assoc M), (insert_app_r_alt M), Nat.sub_diag by lia.
    change (<[0%nat:=x]> ([y] ++ B)) with (x :: B).
    specialize (IH (A ++ [y]) M (x :: B)). rewrite length_app in IH. cbn [length] in IH.
    replace (length A + S (length M) - 1)%nat with (length A + 1 + length M - 1)%nat by lia.
    rewrite <-!app_assoc in IH. cbn [app] in IH. rewrite IH by lia.
    rewrite reverse_cons, reverse_snoc. cbn [app]. by rewrite <-!app_assoc.
Qed.

Lemma reverseBytes_eq l :
  reverseBytes l = match l with [] => [] | b :: rest => b :: reverse rest end.
Proof.
  unfold reverseBytes. destruct (Nat.ltb_spec (length l) 3) as [H|H].
  - destruct l as [|a [|b [|c l]]]; cbn in *; try done; lia.
  - destruct l as [|b rest]; [cbn in H; lia|].
    pose proof (reverse_loop_spec (length (b :: rest)) [b] rest []) as Hr. rewrite !app_nil_r in Hr.
    apply Hr. cbn. lia.
Qed.

Lemma reverseBytes_cancel l : reverseBytes (reverseBytes l) = l.
Proof. rewrite !reverseBytes_eq. destruct l as [|b rest]; [done|]. by rewrite reverse_involutive. Qed.
Lemma length_reverseBytes l : length (reverseBytes l) = length l.
Proof. rewrite reverseBytes_eq. destruct l; [done|]. cbn. by rewrite length_reverse. Qed.

Create Rewrite HintDb scramble.
#[export] Hint Rewrite xorPtrPos_cancel xorMask_cancel reverseBytes_cancel length_xorPtrPos
  length_xorMask length_reverseBytes : scramble.

Lemma scramble_cancel mode key p :
  scrambleRecv (scrambleSend p mode key) mode key = p ∧
  scrambleSend (scrambleRecv p mode key) mode key = p ∧
  length (scrambleSend p mode key) = length p ∧ length (scrambleRecv p mode key) = length p.
Proof. destruct mode; cbn; by autorewrite with scramble. Qed.

(** ** Packets over a stream *)

(** A TCP connection under a scramble layer. *)
Definition conn_WritePacket (mode : ScrambleMode) (key p : bytes) : res transport_error bytes :=
  tcp_WritePacket false (scrambleSend p mode (NewScramble mode key)).

Definition conn_ReadPacket (mode : ScrambleMode) (key r : bytes) : res transport_error (bytes * bytes) :=
  '(p, r) ← tcp_ReadPacket false r;
  Ok (scrambleRecv p mode (NewScramble mode key), r).

(** A sequence of writes, and reading until a read fails. *)
Fixpoint write_all (mode : ScrambleMode) (key : bytes) (ps : list bytes) : res transport_error bytes :=
  match ps with
  | [] => Ok []
  | p :: ps' => w ← conn_WritePacket mode key p; rest ← write_all mode key ps'; Ok (w ++ rest)
  end.

(** A packet read takes bytes off the stream: its length is enough fuel. *)
Fixpoint read_all (fuel : nat) (mode : ScrambleMode) (key r : bytes) : list bytes * bytes :=
  match fuel with
  | O => ([], r)
  | S fuel' =>
      match conn_ReadPacket mode key r with
      | Ok (p, r') => let '(ps, rest) := read_all fuel' mode key r' in (p :: ps, rest)
      | _ => ([], r)
      end
  end.

Definition frame_ok (p : bytes) : Prop := (1 ≤ length p)%nat ∧ zlen p ≤ maxTCPPacket.
#[export] Instance frame_ok_dec p : Decision (frame_ok p) := _.

Lemma NewScramble_key mode key p :
  scrambleRecv (scrambleSend p mode (NewScramble mode key)) mode (NewScramble mode key) = p ∧
  length (scrambleSend p mode (NewScramble mode key)) = length p.
Proof. by destruct (scramble_cancel mode (NewScramble mode key) p) as (? & _ & ? & _). Qed.

Lemma conn_Write_iff mode key p :
  conn_WritePacket mode key p =
    if decide (frame_ok p) then Ok (be_enc 2 (zlen p) ++ scrambleSend p mode (NewScramble mode key))
    else Err (if (length p =? 0)%nat then TErrEmptyPacket else TErrPacketTooLarge (length p)).
Proof.
  unfold conn_WritePacket, tcp_WritePacket, zlen. destruct (NewScramble_key mode key p) as [_ ->]. bind.
  unfold frame_ok, zlen. destruct (Nat.eqb_spec (length p) 0) as [H|H]; bind.
  - by destruct (decide _) as [[? _]|]; [lia|].
  - unfold guard_err. destruct (Z.ltb_spec maxTCPPacket (Z.of_nat (length p))); bind;
      destruct (decide _) as [[? ?]|Hd]; try done; lia.
Qed.

(** Reading the frame of [p], as far as it has arrived. *)
Lemma conn_Read_frame mode key p r :
  frame_ok p → conn_ReadPacket mode key (be_enc 2 (zlen p) ++ scrambleSend p mode (NewScramble mode key) ++ r)
    = Ok (p, r).
Proof.
  intros [H1 H2]. destruct (NewScramble_key mode key p) as [Hc Hl]. unfold maxTCPPacket in H2.
  unfold conn_ReadPacket, tcp_ReadPacket, stream_ReadFull.
  rewrite (proj2 (Nat.ltb_ge _ 2)) by bytes_len. bind.
  rewrite take_app_length', drop_app_length' by (by rewrite length_be_enc).
  rewrite be_dec_enc_small by (unfold zlen in *; lia). unfold zlen in *.
  pass_by ltac:(apply Z.eqb_neq; lia). pass_by ltac:(apply Z.ltb_ge; unfold maxTCPPacket; lia).
  rewrite Nat2Z.id, (proj2 (Nat.ltb_ge _ (length p))) by (rewrite length_app; lia). bind.
  by rewrite take_app_length', drop_app_length', Hc by done.
Qed.

Lemma conn_Read_partial mode key p r :
  frame_ok p → r `prefix_of` be_enc 2 (zlen p) ++ scrambleSend p mode (NewScramble mode key) →
  (length r < 2 + length p)%nat → conn_ReadPacket mode key r = Err TErrShortStream.
Proof.
  intros [H1 H2] [rest Hr] Hl. destruct (NewScramble_key mode key p) as [_ Hls]. unfold maxTCPPacket in H2.
  unfold conn_ReadPacket, tcp_ReadPacket, stream_ReadFull.
  destruct (Nat.ltb_spec (length r) 2) as [|H3]; [done|]. bind.
  destruct (split_at 2 r) as (hdr & body & -> & Hh); [done|]. rewrite <-app_assoc in Hr.
  apply app_inj_1 in Hr as [<- Hb]; [|by rewrite length_be_enc].
  rewrite take_app_length', drop_app_length' by done.
  rewrite be_dec_enc_small by (unfold zlen in *; lia). unfold zlen in *.
  pass_by ltac:(apply Z.eqb_neq; lia). pass_by ltac:(apply Z.ltb_ge; unfold maxTCPPacket; lia).
  rewrite Nat2Z.id, (proj2 (Nat.ltb_lt _ (length p))); [done|]. rewrite length_app in Hl. lia.
Qed.

Lemma write_all_Ok mode key ps : Forall frame_ok ps → ∃ stream, write_all mode key ps = Ok stream.
Proof.
  induction 1 as [|p ps Hp _ [rest IH]]; [by eexists|]. cbn [write_all].
  rewrite conn_Write_iff, decide_True, IH by done. bind. by eexists.
Qed.

(** What is read from the beginning [arrived] of the stream of [ps]. *)
Definition reads_back (mode : ScrambleMode) (key : bytes) (ps : list bytes) (arrived : bytes) : Prop :=
  ∃ k sent rest, write_all mode key (take k ps) = Ok sent ∧ arrived = sent ++ rest ∧
    read_all (S (length arrived)) mode key arrived = (take k ps, rest) ∧
    match ps !! k with Some p => (length rest < 2 + length p)%nat | None => rest = [] end.

Lemma read_all_fuel mode key r n m :
  (length r < n)%nat → (n ≤ m)%nat → read_all m mode key r = read_all n mode key r.
Proof.
  revert m r. induction n as [|n IH]; intros m r Hr Hm; [lia|]. destruct m as [|m]; [lia|].
  cbn [read_all]. destruct (conn_ReadPacket mode key r) as [[p r']|e|] eqn:Hc; [|done|done].
  assert (length r' < length r)%nat as Hl; [|rewrite (IH m r') by lia; done].
  unfold conn_ReadPacket, tcp_ReadPacket, stream_ReadFull in Hc.
  destruct (Nat.ltb_spec (length r) 2); [done|]. unfold guard_err in Hc. cbn [mbind res_bind] in Hc.
  destruct (_ =? 0); [done|]. cbn [mbind res_bind] in Hc. destruct (_ <? _); [done|].
  cbn [mbind res_bind] in Hc. destruct (_ <? _)%nat; [done|]. cbn [mbind res_bind] in Hc.
  injection Hc as _ <-. rewrite !length_drop. lia.
Qed.

Lemma stream_prefix mode key ps stream arrived tail :
  Forall frame_ok ps → write_all mode key ps = Ok stream → stream = arrived ++ tail →
  reads_back mode key ps arrived.
Proof.
  intros Hps. revert stream arrived tail. induction Hps as [|p ps Hp Hps IH]; intros stream arrived tail Hw Hs.
  - injection Hw as <-. symmetry in Hs. apply app_nil in Hs as [-> ->].
    by exists O, [], [].
  - cbn [write_all] in Hw. rewrite conn_Write_iff, decide_True in Hw by done.
    apply bind_Ok in Hw as (w & [= <-] & (rest & Hr & [= <-])%bind_Ok).
    set (f := be_enc 2 (zlen p) ++ scrambleSend p mode (NewScramble mode key)) in *.
    assert (length f = 2 + length p)%nat as Hf.
    { subst f. by rewrite length_app, length_be_enc, (proj2 (NewScramble_key mode key p)). }
    destruct (decide (length arrived < 2 + length p)%nat) as [Hl|Hl].
    + exists O, [], arrived. split_and!; try done. cbn [read_all take].
      destruct (app_cut f rest arrived tail Hs ltac:(lia)) as (l & Hl' & _).
      by rewrite (conn_Read_partial mode key p) by (try done; by exists l).
    + destruct (app_cut arrived tail f rest (eq_sym Hs) ltac:(lia)) as (a & -> & Hr').
      destruct (IH rest a tail Hr Hr') as (k & sent & left & Hsent & -> & Hread & Hleft).
      exists (S k), (f ++ sent), left. split_and!.
      * cbn [take write_all]. rewrite conn_Write_iff, decide_True, Hsent by done. done.
      * by rewrite <-app_assoc.
      * cbn [read_all]. subst f. rewrite <-!app_assoc, conn_Read_frame by done.
        rewrite (read_all_fuel mode key (sent ++ left) (S (length (sent ++ left)))), Hread;
          [done|lia|rewrite !length_app, length_be_enc; lia].
      * done.
Qed.

Lemma read_all_complete mode key ps stream :
  write_all mode key ps = Ok stream → Forall frame_ok ps ∧ read_all (S (length stream)) mode key stream = (ps, []).
Proof.
  revert stream. induction ps as [|p ps IH]; intros stream; [by intros [= <-]|].
  cbn [write_all]. rewrite conn_Write_iff. destruct (decide (frame_ok p)) as [Hp|]; [|done]. bind.
  intros (rest & Hr & Hst)%bind_Ok.
  assert (stream = (be_enc 2 (zlen p) ++ scrambleSend p mode (NewScramble mode key)) ++ rest) as ->
    by congruence. destruct (IH rest Hr) as [Hps Hread]. split; [by constructor|].
  cbn [read_all]. rewrite <-(app_assoc (be_enc 2 (zlen p))), conn_Read_frame by done.
  rewrite (read_all_fuel mode key rest (S (length rest))), Hread by (rewrite ?length_app, ?length_be_enc; lia).
  done.
Qed.

(** A TCP connection, scrambled or not, carries packets: writing succeeds
    exactly on packets of 1 to 65535 bytes, and from any beginning of the
    stream, however the network cuts it, the reader gets back exactly the
    packets whose frames have arrived in full, in order and unscrambled, with
    the unfinished frame left for later; in the end it has read them all. *)
Theorem tcp_stream_framed mode key ps stream arrived tail :
  write_all mode key ps = Ok stream → stream = arrived ++ tail →
  Forall frame_ok ps ∧ reads_back mode key ps arrived ∧
  read_all (S (length stream)) mode key stream = (ps, []).
Proof.
  intros Hw Hs. destruct (read_all_complete mode key ps stream Hw) as [Hps Hall].
  split_and!; [done| |done]. by eapply stream_prefix.
Qed.

(** ** The retry loop ends *)

(** The backoff and the time slept after [n] failed retries. *)
Definition backoff_at (n : Z) : Z :=
  if n <? 5 then enobufInitialBackoff * 2 ^ n else enobufMaxBackoff.
Definition slept_at (n : Z) : Z :=
  if n <=? 5 then enobufInitialBackoff * (2 ^ n - 1)
  else 15500 * Microsecond + enobufMaxBackoff * (n - 5).

Lemma backoff_at_S n : 0 ≤ n → next_backoff (backoff_at n) = backoff_at (n + 1) ∧
  slept_at (n + 1) = slept_at n + backoff_at n.
Proof.
  intros Hn. destruct (decide (n < 6)) as [Hlt|Hge].
  - assert (n = 0 ∨ n = 1 ∨ n = 2 ∨ n = 3 ∨ n = 4 ∨ n = 5) as Hc by lia.
    by destruct Hc as [->|[->|[->|[->|[->| ->]]]]].
  - unfold backoff_at, slept_at. rewrite !(proj2 (Z.ltb_ge _ 5)), !(proj2 (Z.leb_gt _ 5)) by lia.
    split; [done|]. lia.
Qed.

Lemma slept_at_bound n : 0 ≤ n ≤ 98 → 0 ≤ slept_at n ≤ 1503500 * Microsecond ∧
  (slept_at n < enobufMaxTotalSleep ↔ n < 98).
Proof.
  intros Hn. unfold slept_at, enobufMaxTotalSleep, enobufInitialBackoff, enobufMaxBackoff, Microsecond.
  destruct (Z.leb_spec n 5); [|lia].
  assert (1 ≤ 2 ^ n ≤ 2 ^ 5) by (split; [apply (Z.pow_le_mono_r 2 0)|apply Z.pow_le_mono_r]; lia). lia.
Qed.

(** What a finished write guarantees, when [n] retries were made before. *)
Definition write_done (rounds : list udp_round) (n : nat) (o : option transport_error * Z * nat * bool) : Prop :=
  let '(err, slept, writes, retried) := o in
  0 ≤ slept ≤ 1503500 * Microsecond ∧ (writes ≤ 99)%nat ∧ (retried = true ↔ err = None) ∧
  (err = None → ∃ k r, rounds !! k = Some r ∧ ur_write r = None ∧ writes = S (S (n + k))).

Lemma udp_retry_ends rounds n err :
  (n ≤ 98)%nat → (98 ≤ n + length rounds)%nat → err ≠ None →
  ∃ o, udp_retry rounds (backoff_at (Z.of_nat n)) (slept_at (Z.of_nat n)) (S n) (default TErrNoBufs err) = Some o ∧
    write_done rounds n o.
Proof.
  intros Hn Hlen Herr. destruct err as [e|]; [clear Herr|done]. cbn [default].
  revert n e Hn Hlen. induction rounds as [|r rounds IH]; intros n e Hn Hlen.
  all: destruct (slept_at_bound (Z.of_nat n)) as [Hb Hi]; [lia|]; cbn [udp_retry].
  all: destruct (Z.leb_spec enobufMaxTotalSleep (slept_at (Z.of_nat n))) as [Hs|Hs];
    [eexists; split; [done|]; split_and!; [lia..|done|done]|].
  - cbn in Hlen. lia.
  - assert (n < 98)%nat by lia. destruct (match ur_until r with Some _ => _ | None => _ end);
      [eexists; split; [done|]; split_and!; [lia..|done|done]|].
    destruct (ur_cancelled r); [eexists; split; [done|]; split_and!; [lia..|done|done]|].
    destruct (backoff_at_S (Z.of_nat n)) as [Hbk Hsl]; [lia|]. rewrite Hbk, <-Hsl.
    replace (Z.of_nat n + 1) with (Z.of_nat (S n)) by lia.
    destruct (slept_at_bound (Z.of_nat (S n))) as [Hb' _]; [lia|].
    destruct (ur_write r) as [e'|] eqn:Hw.
    + destruct e'; try (eexists; split; [done|]; split_and!; [lia..|done|done]).
      destruct (IH (S n) TErrNoBufs) as ([[[err slept] writes] retried] & Heq & H1 & H2 & H3 & H4);
        [lia|cbn in Hlen; lia|]. eexists. split; [exact Heq|]. split_and!; [lia..|exact H2|exact H3|].
      intros Hnone. destruct (H4 Hnone) as (k & r' & Hk & Hw' & ->). exists (S k), r'.
      split_and!; [done|done|lia].
    + eexists. split; [done|]. split_and!; [lia..|done|]. intros _. exists O, r. split_and!; [done|done|lia].
Qed.

(** A UDP write always comes back.  Whatever the kernel answers, after at
    most 98 rounds, 99 system calls and 1503.5 ms of sleep it returns; it
    reports success only when a system call succeeded, and that call is its
    last, so the datagram is sent once; a closed socket is not written to. *)
Theorem udp_write_terminates closed first rounds :
  (98 ≤ length rounds)%nat →
  ∃ err slept writes retried,
    udp_WritePacket closed first rounds = Some (err, slept, writes, retried) ∧
    0 ≤ slept ≤ 1503500 * Microsecond ∧ (writes ≤ 99)%nat ∧
    (closed = true → err = Some TErrClosed ∧ writes = O) ∧
    (err = None → (first = None ∧ writes = 1%nat) ∨
       ∃ k r, rounds !! k = Some r ∧ ur_write r = None ∧ writes = S (S k)).
Proof.
  intros Hlen. unfold udp_WritePacket. destruct closed.
  { exists (Some TErrClosed), 0, O, false. split_and!; first [done|lia]. }
  destruct first as [e|].
  2: { exists None, 0, 1%nat, false. split_and!; first [done|lia|auto]. }
  destruct e; try (eexists (Some _), 0, 1%nat, false; split_and!; first [done|lia]).
  destruct (udp_retry_ends rounds 0 (Some TErrNoBufs)) as ([[[err slept] writes] retried] & Heq & H1 & H2 & _ & H4);
    [lia|cbn; lia|done|]. exists err, slept, writes, retried. split_and!; try done; try lia.
  intros Hn. right. destruct (H4 Hn) as (k & r & ? & ? & ->). by exists k, r.
Qed.

(** Fewer rounds are not always enough, and a success may come late. *)
Example udp_rounds_needed :
  udp_WritePacket false (Some TErrNoBufs) (replicate 97 (mkRound None false (Some TErrNoBufs))) = None ∧
  udp_WritePacket false (Some TErrNoBufs) (replicate 98 (mkRound None false (Some TErrNoBufs))) =
    Some (Some TErrNoBufs, 1503500 * Microsecond, 99%nat, false) ∧
  udp_WritePacket false (Some TErrNoBufs)
    (replicate 2 (mkRound None false (Some TErrNoBufs)) ++ [mkRound (Some Microsecond) false None]) =
    Some (Some TErrNoBufs, 1500 * Microsecond, 3%nat, false).
Proof. by vm_compute. Qed.

Lemma tcp_stream_framed_witness :
  let ps := [text "one"; text "packet"; text "more"] in
  ∃ stream, write_all ScrambleObfuscate (text "key") ps = Ok stream ∧
    reads_back ScrambleObfuscate (text "key") ps (take 9 stream) ∧
    read_all (S (length stream)) ScrambleObfuscate (text "key") stream = (ps, []).
Proof.
  intros ps. destruct (write_all ScrambleObfuscate (text "key") ps) as [stream|e|] eqn:Hw;
    [|by vm_compute in Hw..]. exists stream. split; [done|].
  apply (tcp_stream_framed _ _ ps stream (take 9 stream) (drop 9 stream) Hw). by rewrite take_drop.
Defined.

Lemma udp_write_terminates_witness :
  ∃ err slept writes retried,
    udp_WritePacket false (Some TErrNoBufs) (replicate 100 (mkRound None false (Some TErrNoBufs))) =
      Some (err, slept, writes, retried) ∧ slept ≤ 1503500 * Microsecond ∧ (writes ≤ 99)%nat.
Proof.
  destruct (udp_write_terminates false (Some TErrNoBufs) (replicate 100 (mkRound None false (Some TErrNoBufs))))
    as (err & slept & writes & retried & Heq & [_ Hs] & Hw & _).
  { rewrite length_replicate. lia. }
  exists err, slept, writes, retried. split; [exact Heq|]. split; assumption.
Defined.
