(* ===== verification/PushReply.v ===== *)
(** The server's PUSH_REPLY, [internal/proto/pushreply.go]: the options the
    client honours, parsed from one line of text.  Durations are nanoseconds. *)
From S2P Require Import Prelude Text Netip.
Local Open Scope Z_scope.

Record PushReply := mkPushReply {
  pr_LocalIP : Addr;
  pr_RemoteIP : Addr;
  pr_Netmask : Addr;
  pr_LocalIP6 : Prefix;
  pr_RemoteIP6 : Addr;
  pr_Routes : list Prefix;
  pr_Routes6 : list Prefix;
  pr_Gateway : Addr;
  pr_DNS : list Addr;
  pr_MTU : Z;
  pr_Cipher : bytes;
  pr_PeerID : Z;
  pr_PingInterval : Z;
  pr_PingRestart : Z;
  pr_Topology : bytes;
  pr_Raw : bytes
}.

Inductive push_error : Type :=
  | PErrPrefix                    (* not a PUSH_REPLY message *)
  | PErrArgs (option : bytes)     (* too few arguments *)
  | PErrAddr (option : bytes)     (* an address or a prefix *)
  | PErrNumber (option : bytes)
  | PErrMask                      (* the mask is not contiguous *)
  | PErrPrefixLen.                (* the mask is too long for the network *)

Definition or_err {E A} (o : option A) (e : E) : res E A :=
  match o with Some a => Ok a | None => Err e end.

(** ** Masks *)

(** The inner loop: bits [bit], ..., 0 of [b]. *)
Fixpoint mask_byte (bit : nat) (b : Z) (prefix : Z) (seenZero : bool) : option (Z * bool) :=
  match bit with
  | O => Some (prefix, seenZero)
  | S bit' =>
      if negb (Z.land b (Z.shiftl 1 (Z.of_nat bit')) =? 0)
      then if seenZero then None else mask_byte bit' b (prefix + 1) seenZero
      else mask_byte bit' b prefix true
  end.

Fixpoint mask_loop (bs : bytes) (prefix : Z) (seenZero : bool) : option Z :=
  match bs with
  | [] => Some prefix
  | b :: bs' => '(prefix, seenZero) ← mask_byte 8 (b2z b) prefix seenZero; mask_loop bs' prefix seenZero
  end.

(** [None] is the false of the code. *)
Definition maskToPrefixLen (mask : Addr) : option Z :=
  let bs := if Is4 mask then AsSlice mask ++ replicate 12 x00 else As16 mask in
  mask_loop bs 0 false.

Definition routeToPrefix (args : list bytes) : res push_error Prefix :=
  match args with
  | [] => Err (PErrArgs (text "route"))
  | a0 :: rest =>
      net ← or_err (ParseAddr a0) (PErrAddr (text "route"));
      let prefixLen := if Is4 net then 32 else 128 in
      prefixLen ← match rest with
                  | [] => Ok prefixLen
                  | a1 :: _ =>
                      mask ← or_err (ParseAddr a1) (PErrAddr (text "route"));
                      or_err (maskToPrefixLen mask) PErrMask
                  end;
      or_err (Addr_Prefix prefixLen net) PErrPrefixLen
  end.

(** ** Options *)

Definition arg (fields : list bytes) (i : nat) : bytes := default [] (fields !! i).

Definition seconds (opt v : bytes) : res push_error Z :=
  s ← or_err (Atoi v) (PErrNumber opt); Ok (i64 (s * Second)).

(** The switch of [applyOption] on the first field. *)
Definition applyFields (fields : list bytes) (pr : PushReply) : res push_error PushReply :=
  let '(mkPushReply lip rip nm lip6 rip6 rts rts6 gw dns mtu ci pid pi prs top raw) := pr in
  match fields with
  | [] => Ok pr
  | f0 :: _ =>
      let need n := guard_err (length fields <? n)%nat (PErrArgs f0) in
      let addr i := or_err (ParseAddr (arg fields i)) (PErrAddr f0) in
      let prefix i := or_err (ParsePrefix (arg fields i)) (PErrAddr f0) in
      if bool_decide (f0 = text "ifconfig") then
        need 3%nat;; a ← addr 1%nat; b ← addr 2%nat;
        Ok (mkPushReply a b b lip6 rip6 rts rts6 gw dns mtu ci pid pi prs top raw)
      else if bool_decide (f0 = text "ifconfig-ipv6") then
        need 3%nat;; p ← prefix 1%nat; r ← addr 2%nat;
        Ok (mkPushReply lip rip nm p r rts rts6 gw dns mtu ci pid pi prs top raw)
      else if bool_decide (f0 = text "route") then
        need 2%nat;; p ← routeToPrefix (drop 1 fields);
        Ok (mkPushReply lip rip nm lip6 rip6 (rts ++ [p]) rts6 gw dns mtu ci pid pi prs top raw)
      else if bool_decide (f0 = text "route-ipv6") then
        need 2%nat;; p ← prefix 1%nat;
        Ok (mkPushReply lip rip nm lip6 rip6 rts (rts6 ++ [p]) gw dns mtu ci pid pi prs top raw)
      else if bool_decide (f0 = text "route-gateway") then
        need 2%nat;; g ← addr 1%nat;
        Ok (mkPushReply lip rip nm lip6 rip6 rts rts6 g dns mtu ci pid pi prs top raw)
      else if bool_decide (f0 = text "dhcp-option") then
        if (3 <=? length fields)%nat && EqualFold (arg fields 1) (text "DNS") then
          a ← addr 2%nat;
          Ok (mkPushReply lip rip nm lip6 rip6 rts rts6 gw (dns ++ [a]) mtu ci pid pi prs top raw)
        else Ok pr
      else if bool_decide (f0 = text "tun-mtu") then
        need 2%nat;; v ← or_err (Atoi (arg fields 1)) (PErrNumber f0);
        Ok (mkPushReply lip rip nm lip6 rip6 rts rts6 gw dns v ci pid pi prs top raw)
      else if bool_decide (f0 = text "cipher") then
        need 2%nat;;
        Ok (mkPushReply lip rip nm lip6 rip6 rts rts6 gw dns mtu (arg fields 1) pid pi prs top raw)
      else if bool_decide (f0 = text "peer-id") then
        need 2%nat;; v ← or_err (ParseUint 24 (arg fields 1)) (PErrNumber f0);
        Ok (mkPushReply lip rip nm lip6 rip6 rts rts6 gw dns mtu ci v pi prs top raw)
      else if bool_decide (f0 = text "ping") then
        need 2%nat;; v ← seconds f0 (arg fields 1);
        Ok (mkPushReply lip rip nm lip6 rip6 rts rts6 gw dns mtu ci pid v prs top raw)
      else if bool_decide (f0 = text "ping-restart") then
        need 2%nat;; v ← seconds f0 (arg fields 1);
        Ok (mkPushReply lip rip nm lip6 rip6 rts rts6 gw dns mtu ci pid pi v top raw)
      else if bool_decide (f0 = text "topology") then
        need 2%nat;;
        Ok (mkPushReply lip rip nm lip6 rip6 rts rts6 gw dns mtu ci pid pi prs (arg fields 1) raw)
      else Ok pr
  end.

Definition applyOption (opt : bytes) (pr : PushReply) : res push_error PushReply :=
  applyFields (Fields opt) pr.

Definition PushReplyPrefix : bytes := text "PUSH_REPLY,".

Fixpoint apply_options (opts : list bytes) (pr : PushReply) : res push_error PushReply :=
  match opts with
  | [] => Ok pr
  | o :: opts' =>
      match TrimSpace o with
      | [] => apply_options opts' pr
      | opt => pr ← applyOption opt pr; apply_options opts' pr
      end
  end.

Definition empty_reply (raw : bytes) : PushReply :=
  mkPushReply AddrZero AddrZero AddrZero PrefixZero AddrZero [] [] AddrZero [] 0 [] 0 0 0 (text "net30") raw.

Definition ParsePushReply (s : bytes) : res push_error PushReply :=
  if negb (HasPrefix s PushReplyPrefix) then Err PErrPrefix
  else
    let body := drop (length PushReplyPrefix) s in
    apply_options (Split body comma) (empty_reply body).

Example ParsePushReply_ok :
  ParsePushReply (text "PUSH_REPLY, route 10.1.0.0 255.255.0.0 10.8.0.1,,ifconfig 10.8.0.6 10.8.0.5,dhcp-option dns 1.1.1.1,ping 10,block-ipv6,route-ipv6 2000::/3,cipher AES-256-GCM,peer-id 7") =
  Ok (mkPushReply (Addr4 0x0A080006) (Addr4 0x0A080005) (Addr4 0x0A080005) PrefixZero AddrZero
        [mkPrefix (Addr4 0x0A010000) 16] [mkPrefix (Addr6 0x20000000000000000000000000000000 []) 3] AddrZero
        [Addr4 0x01010101] 0 (text "AES-256-GCM") 7 (10 * Second) 0 (text "net30")
        (text " route 10.1.0.0 255.255.0.0 10.8.0.1,,ifconfig 10.8.0.6 10.8.0.5,dhcp-option dns 1.1.1.1,ping 10,block-ipv6,route-ipv6 2000::/3,cipher AES-256-GCM,peer-id 7")).
Proof. by vm_compute. Qed.

Example ParsePushReply_errors :
  ParsePushReply (text "AUTH_FAILED") = Err PErrPrefix ∧
  ParsePushReply (text "PUSH_REPLY,route 10.0.0.0 255.0.255.0") = Err PErrMask ∧
  ParsePushReply (text "PUSH_REPLY,route vpn_gateway") = Err (PErrAddr (text "route")) ∧
  ParsePushReply (text "PUSH_REPLY,peer-id 16777216") = Err (PErrNumber (text "peer-id")) ∧
  ParsePushReply (text "PUSH_REPLY,ifconfig 10.0.0.1") = Err (PErrArgs (text "ifconfig")).
Proof. by vm_compute. Qed.

(** ** Masks and routes *)

Lemma mask_byte_S bit b p s :
  mask_byte (S bit) b p s =
    if Z.testbit b (Z.of_nat bit) then (if s then None else mask_byte bit b (p + 1) s) else mask_byte bit b p true.
Proof. cbn [mask_byte]. by rewrite bit_test by lia. Qed.

(** Scanning the top bits first, then the others. *)
Lemma mask_byte_app a k v p s :
  mask_byte (a + k) v p s =
    ('(p', s') ← mask_byte a (Z.shiftr v (Z.of_nat k)) p s; mask_byte k v p' s').
Proof.
  revert p s. induction a as [|a IH]; intros p s; [done|]. cbn [Nat.add]. rewrite !mask_byte_S.
  rewrite Z.shiftr_spec by lia. replace (Z.of_nat (a + k)) with (Z.of_nat a + Z.of_nat k) by lia.
  destruct (Z.testbit v _); [destruct s; [done|]|]; apply IH.
Qed.

Lemma mask_byte_ext a v w p s :
  (∀ i, 0 ≤ i < Z.of_nat a → Z.testbit v i = Z.testbit w i) → mask_byte a v p s = mask_byte a w p s.
Proof.
  revert p s. induction a as [|a IH]; intros p s H; [done|]. rewrite !mask_byte_S, H by lia.
  rewrite !IH by (intros i Hi; apply H; lia). done.
Qed.

(** The bytes of a number are scanned as its bits. *)
Lemma mask_loop_be n v rest p s :
  mask_loop (be_enc n v ++ rest) p s = ('(p', s') ← mask_byte (8 * n) v p s; mask_loop rest p' s').
Proof.
  revert p s. induction n as [|n IH]; intros p s; [done|].
  unfold be_enc. cbn [app mask_loop]. fold (be_enc n v).
  replace (8 * S n)%nat with (8 + 8 * n)%nat by lia. rewrite mask_byte_app.
  rewrite (mask_byte_ext 8 (b2z _) (Z.shiftr v (Z.of_nat (8 * n)))).
  - destruct (mask_byte 8 _ p s) as [[p' s']|]; [|done]. cbn [mbind option_bind]. apply IH.
  - intros i Hi. rewrite b2z_z2b. change 256 with (2 ^ 8). rewrite Z.mod_pow2_bits_low by lia.
    f_equal. f_equal. lia.
Qed.

Lemma mask_byte_zeros w v p r :
  mask_byte w v p true = Some r ↔ r = (p, true) ∧ ∀ i, 0 ≤ i < Z.of_nat w → Z.testbit v i = false.
Proof.
  induction w as [|w IH]; [cbn; naive_solver lia|]. rewrite mask_byte_S.
  destruct (Z.testbit v (Z.of_nat w)) eqn:Hb.
  - split; [done|]. intros [_ H]. rewrite H in Hb by lia. done.
  - rewrite IH. split; intros [-> H]; (split; [done|]); intros i Hi; [|apply H; lia].
    destruct (decide (i = Z.of_nat w)) as [->|]; [done|apply H; lia].
Qed.

(** Ones then zeros, and nothing else, is accepted. *)
Lemma mask_byte_ones w v p q s :
  mask_byte w v p false = Some (q, s) ↔
  ∃ n, 0 ≤ n ≤ Z.of_nat w ∧ q = p + n ∧ s = (n <? Z.of_nat w) ∧
    ∀ i, 0 ≤ i < Z.of_nat w → Z.testbit v i = (Z.of_nat w - n <=? i).
Proof.
  revert p. induction w as [|w IH]; intros p.
  - cbn. split; [intros [= <- <-]; exists 0; split_and!; first [lia|done|intros; lia]|]. intros (n & Hn & -> & -> & _).
    replace n with 0 by lia. cbn. do 2 f_equal. lia.
  - rewrite mask_byte_S. destruct (Z.testbit v (Z.of_nat w)) eqn:Hb; [rewrite IH|rewrite mask_byte_zeros].
    + split; intros (n & Hn & -> & -> & H).
      * exists (n + 1). split_and!; [lia..|apply eq_true_iff_eq; rewrite !Z.ltb_lt; lia|].
        intros i Hi. destruct (decide (i = Z.of_nat w)) as [->|]; [rewrite Hb; symmetry; apply Z.leb_le; lia|].
        rewrite H by lia. f_equal. lia.
      * assert (n ≠ 0) by (intros ->; rewrite H in Hb by lia; apply Z.leb_le in Hb; lia).
        exists (n - 1). split_and!; [lia..|apply eq_true_iff_eq; rewrite !Z.ltb_lt; lia|].
        intros i Hi. rewrite H by lia. f_equal. lia.
    + split.
      * intros [[= -> ->] H]. exists 0. split_and!; [lia..|done|]. intros i Hi.
        rewrite (proj2 (Z.leb_gt _ _)) by lia.
        destruct (decide (i = Z.of_nat w)) as [->|]; [done|apply H; lia].
      * intros (n & Hn & -> & -> & H).
        assert (n = 0) as ->.
        { rewrite H in Hb by lia. apply Z.leb_gt in Hb. lia. }
        split; [by rewrite Z.add_0_r|]. intros i Hi. rewrite H by lia. apply Z.leb_gt. lia.
Qed.

(** The IPv4 mask of a prefix length. *)
Definition netmask (n : Z) : Z := Z.shiftl (Z.ones n) (32 - n).

Lemma netmask_bit n i : 0 ≤ n ≤ 32 → 0 ≤ i < 32 → Z.testbit (netmask n) i = (32 - n <=? i).
Proof.
  intros Hn Hi. unfold netmask. rewrite Z.shiftl_spec by lia. destruct (Z.leb_spec (32 - n) i).
  - apply Z.ones_spec_low. lia.
  - apply Z.testbit_neg_r. lia.
Qed.

Lemma netmask_u32 n : 0 ≤ n ≤ 32 → is_u32 (netmask n).
Proof.
  intros Hn. unfold netmask, is_u32. rewrite Z.shiftl_mul_pow2, Z.ones_equiv by lia.
  replace (2 ^ 32) with (2 ^ n * 2 ^ (32 - n)) by (rewrite <-Z.pow_add_r by lia; f_equal; lia).
  assert (0 < 2 ^ n ∧ 0 < 2 ^ (32 - n)) as [? ?] by (split; apply Z.pow_pos_nonneg; lia). nia.
Qed.

Lemma u32_bits_inj v w :
  is_u32 v → is_u32 w → (∀ i, 0 ≤ i < 32 → Z.testbit v i = Z.testbit w i) → v = w.
Proof.
  intros Hv Hw H. apply Z.bits_inj'. intros i Hi. destruct (decide (i < 32)); [apply H; lia|].
  rewrite <-(u32_small v), <-(u32_small w) by done. unfold u32. by rewrite !Z.mod_pow2_bits_high by lia.
Qed.

Lemma mask_loop_zeros n p s : mask_loop (replicate n x00) p s = Some p.
Proof.
  revert p s. induction n as [|n IH]; intros p s; [done|]. cbn [replicate mask_loop].
  assert (mask_byte 8 (b2z x00) p s = Some (p, true)) as ->; [|apply IH].
  change (b2z x00) with 0. by rewrite !mask_byte_S, !Z.bits_0.
Qed.

(** A mask is accepted exactly when it is the mask of a prefix length. *)
Lemma maskToPrefixLen_spec m k :
  is_u32 m → maskToPrefixLen (Addr4 m) = Some k ↔ 0 ≤ k ≤ 32 ∧ m = netmask k.
Proof.
  intros Hm. unfold maskToPrefixLen. cbn [Is4 AsSlice]. rewrite mask_loop_be.
  change (8 * 4)%nat with 32%nat.
  assert ((('(p', s') ← mask_byte 32 m 0 false; mask_loop (replicate 12 x00) p' s') = Some k) ↔
    ∃ s, mask_byte 32 m 0 false = Some (k, s)) as ->.
  { destruct (mask_byte 32 m 0 false) as [[p' s']|]; cbn [mbind option_bind]; [|naive_solver].
    rewrite mask_loop_zeros. naive_solver. }
  setoid_rewrite mask_byte_ones. split.
  - intros (s & n & Hn & -> & _ & H). cbn. split; [lia|]. apply u32_bits_inj; [done|apply netmask_u32; lia|].
    intros i Hi. rewrite H, netmask_bit by lia. done.
  - intros [Hk ->]. exists (k <? 32), k. split_and!; [lia..|done|]. intros i Hi. by rewrite netmask_bit by lia.
Qed.

Lemma routeToPrefix_masked v m k :
  is_u32 v → is_u32 m → 0 ≤ k ≤ 32 → m = netmask k →
  routeToPrefix [quad v; quad m] = Ok (mkPrefix (Addr4 (Z.land v m)) k).
Proof.
  intros Hv Hm Hk Heq. unfold routeToPrefix. rewrite !ParseAddr_quad by done. cbn [or_err mbind res_bind].
  rewrite (proj2 (maskToPrefixLen_spec m k Hm)) by done. cbn [or_err mbind res_bind]. unfold Addr_Prefix.
  rewrite (proj2 (Z.ltb_ge k 0)), (proj2 (Z.ltb_ge 32 k)) by lia. cbn [or_err]. unfold PrefixFrom.
  cbn [withoutZone BitLen]. rewrite !(proj2 (Z.leb_le _ _)) by lia. by subst m.
Qed.

(** An IPv4 route with a mask is taken exactly when the mask is contiguous:
    then the network is cut to the mask and the length is its number of ones,
    and any other mask is refused. *)
Theorem route_mask_exact v m :
  is_u32 v → is_u32 m →
  (∀ p, routeToPrefix [quad v; quad m] = Ok p ↔
     ∃ k, 0 ≤ k ≤ 32 ∧ m = netmask k ∧ p = mkPrefix (Addr4 (Z.land v m)) k) ∧
  ((∀ k, 0 ≤ k ≤ 32 → m ≠ netmask k) → routeToPrefix [quad v; quad m] = Err PErrMask).
Proof.
  intros Hv Hm.
  assert (∀ k, maskToPrefixLen (Addr4 m) = Some k → 0 ≤ k ≤ 32 ∧ m = netmask k) as Hs
    by (intros k; by apply maskToPrefixLen_spec).
  destruct (maskToPrefixLen (Addr4 m)) as [k|] eqn:Hk.
  - destruct (Hs k eq_refl) as [Hr Heq]. rewrite (routeToPrefix_masked v m k) by done. split.
    + intros p. split; [intros [= <-]; by exists k|]. intros (k' & Hk' & Heq' & ->).
      assert (Some k = Some k') as [= ->]; [|done]. rewrite <-Hk. by apply maskToPrefixLen_spec.
    + intros H. by destruct (H k Hr).
  - assert (routeToPrefix [quad v; quad m] = Err PErrMask) as Herr.
    { unfold routeToPrefix. rewrite !ParseAddr_quad by done. cbn [or_err mbind res_bind]. by rewrite Hk. }
    rewrite Herr. split; [|done]. intros p. split; [done|]. intros (k & Hr & Heq & ->).
    rewrite (proj2 (maskToPrefixLen_spec m k Hm)) in Hk; done.
Qed.

(** ** A reply as a server writes it *)

Record pushed := mkPushed {
  ps_local : Z;
  ps_peer : Z;
  ps_topology : bytes;
  ps_routes : list (Z * Z);      (* network and prefix length *)
  ps_gateway : Z;
  ps_dns : list Z;
  ps_mtu : Z;
  ps_cipher : bytes;
  ps_peer_id : Z;
  ps_ping : Z;
  ps_restart : Z
}.

Definition route_words (r : Z * Z) : list bytes := [text "route"; quad r.1; quad (netmask r.2)].
Definition dns_words (a : Z) : list bytes := [text "dhcp-option"; text "DNS"; quad a].

Definition push_words (p : pushed) : list (list bytes) :=
  [[text "topology"; ps_topology p]; [text "ifconfig"; quad (ps_local p); quad (ps_peer p)]] ++
  (route_words <$> ps_routes p) ++ [[text "route-gateway"; quad (ps_gateway p)]] ++
  (dns_words <$> ps_dns p) ++
  [[text "tun-mtu"; dec (ps_mtu p)]; [text "cipher"; ps_cipher p]; [text "peer-id"; dec (ps_peer_id p)];
   [text "ping"; dec (ps_ping p)]; [text "ping-restart"; dec (ps_restart p)]].

Definition push_body (p : pushed) : bytes := Join ((λ ws, Join ws space) <$> push_words p) comma.

Definition push_meaning (p : pushed) : PushReply :=
  mkPushReply (Addr4 (ps_local p)) (Addr4 (ps_peer p)) (Addr4 (ps_peer p)) PrefixZero AddrZero
    ((λ '(v, k), mkPrefix (Addr4 (Z.land v (netmask k))) k) <$> ps_routes p) []
    (Addr4 (ps_gateway p)) (Addr4 <$> ps_dns p) (ps_mtu p) (ps_cipher p) (ps_peer_id p)
    (ps_ping p * Second) (ps_restart p * Second) (ps_topology p) (push_body p).

(** A word that is not cut by the commas of the message. *)
Definition push_word (w : bytes) : Prop := word w ∧ comma ∉ w.
#[export] Instance push_word_dec w : Decision (push_word w) := _.

Record pushed_ok (p : pushed) : Prop := {
  po_local : is_u32 (ps_local p);
  po_peer : is_u32 (ps_peer p);
  po_topology : push_word (ps_topology p);
  po_routes : Forall (λ r, is_u32 r.1 ∧ 0 ≤ r.2 ≤ 32) (ps_routes p);
  po_gateway : is_u32 (ps_gateway p);
  po_dns : Forall is_u32 (ps_dns p);
  po_mtu : 0 ≤ ps_mtu p < 2 ^ 63;
  po_cipher : push_word (ps_cipher p);
  po_peer_id : is_u24 (ps_peer_id p);
  po_ping : 0 ≤ ps_ping p < 2 ^ 32;
  po_restart : 0 ≤ ps_restart p < 2 ^ 32
}.

Lemma quad_word v : push_word (quad v).
Proof.
  assert (Forall (λ b, is_digit b ∨ b = dot) (quad v)) as Hq.
  { unfold quad. cbn [Join].
    repeat first [ apply list.Forall_app; split | apply list.Forall_cons; split ];
      try (eapply list.Forall_impl; [apply dec_chars|by left]); by right. }
  split; [split|].
  - unfold quad. cbn [Join]. intros [H _]%app_eq_nil. by apply dec_ne in H.
  - eapply list.Forall_impl; [exact Hq|]. intros b [H| ->]; [|done]. unfold is_digit, visible in *. lia.
  - intros H%(proj1 (list.Forall_forall _ _) Hq). by destruct H as [[? ?]|?].
Qed.

Lemma dec_push_word n : push_word (dec n).
Proof.
  split; [apply dec_word|]. intros H%(proj1 (list.Forall_forall _ _) (dec_chars n)). by destruct H.
Qed.

Lemma push_words_ok p : pushed_ok p → Forall (λ ws, ws ≠ [] ∧ Forall push_word ws) (push_words p).
Proof.
  intros H. unfold push_words, route_words, dns_words.
  repeat first [ apply list.Forall_app; split | apply list.Forall_cons; split | apply list.Forall_nil
               | apply list.Forall_fmap, list.Forall_true; intros ? | split; [done|] | apply quad_word
               | apply dec_push_word | apply (po_topology p H) | apply (po_cipher p H)
               | by apply (bool_decide_unpack _); vm_compute ].
Qed.

(** Fields of one option, as the parser cuts them. *)
Lemma apply_options_words ws opts pr :
  ws ≠ [] → Forall push_word ws →
  apply_options (Join ws space :: opts) pr = (pr ← applyFields ws pr; apply_options opts pr).
Proof.
  intros Hne Hws. assert (Forall word ws) as Hw by (eapply list.Forall_impl; [exact Hws|by intros ? []]).
  cbn [apply_options]. rewrite TrimSpace_words by done. unfold applyOption.
  destruct (Join ws space) as [|b s] eqn:Hj.
  - destruct ws as [|w ws]; [done|]. apply list.Forall_cons in Hw as [[Hwne _] _].
    destruct ws; [done|]. rewrite Join_cons in Hj by done. by apply app_eq_nil in Hj as [? _].
  - by rewrite <-Hj, Fields_Join.
Qed.

Ltac opt_switch :=
  unfold applyFields; repeat (rewrite bool_decide_eq_false_2 by done);
  rewrite bool_decide_eq_true_2 by done; cbn [length Nat.ltb Nat.leb guard_err mbind res_bind arg lookup
    list_lookup default from_option id or_err drop].

(** Every word of an option is one that commas and spaces leave whole. *)
Ltac words_ok :=
  repeat first [ apply list.Forall_nil | apply list.Forall_cons; split | apply quad_word | apply dec_push_word
               | assumption | by apply (bool_decide_unpack _); vm_compute ].

Lemma apply_routes rs opts lip rip nm lip6 rip6 rts rts6 gw dns mtu ci pid pi prs top raw :
  Forall (λ r, is_u32 r.1 ∧ 0 ≤ r.2 ≤ 32) rs →
  apply_options (((λ ws, Join ws space) <$> (route_words <$> rs)) ++ opts)
    (mkPushReply lip rip nm lip6 rip6 rts rts6 gw dns mtu ci pid pi prs top raw) =
  apply_options opts (mkPushReply lip rip nm lip6 rip6
    (rts ++ ((λ '(v, k), mkPrefix (Addr4 (Z.land v (netmask k))) k) <$> rs)) rts6 gw dns mtu ci pid pi prs top raw).
Proof.
  intros Hrs. revert rts. induction Hrs as [|[v k] rs [Hv Hk] _ IH]; intros rts; cbn [fmap list_fmap app].
  - by rewrite app_nil_r.
  - cbn [fst snd] in *. rewrite apply_options_words; [|done|words_ok].
    unfold route_words. cbn [fst snd]. opt_switch.
    rewrite (routeToPrefix_masked v (netmask k) k) by (done || by apply netmask_u32).
    cbn [mbind res_bind]. rewrite IH, <-app_assoc. done.
Qed.

Lemma apply_dns ds opts lip rip nm lip6 rip6 rts rts6 gw dns mtu ci pid pi prs top raw :
  Forall is_u32 ds →
  apply_options (((λ ws, Join ws space) <$> (dns_words <$> ds)) ++ opts)
    (mkPushReply lip rip nm lip6 rip6 rts rts6 gw dns mtu ci pid pi prs top raw) =
  apply_options opts (mkPushReply lip rip nm lip6 rip6 rts rts6 gw (dns ++ (Addr4 <$> ds)) mtu ci pid pi prs top raw).
Proof.
  intros Hds. revert dns. induction Hds as [|v ds Hv _ IH]; intros dns; cbn [fmap list_fmap app].
  - by rewrite app_nil_r.
  - rewrite apply_options_words; [|done|words_ok].
    change (dns_words v) with [text "dhcp-option"; text "DNS"; quad v]. opt_switch.
    match goal with |- context [EqualFold ?s ?t] => change (EqualFold s t) with true end.
    cbn [Nat.leb andb arg lookup list_lookup default from_option id].
    rewrite ParseAddr_quad by done. cbn [or_err mbind res_bind]. rewrite IH, <-app_assoc. done.
Qed.

Lemma seconds_dec opt n : 0 ≤ n < 2 ^ 32 → seconds opt (dec n) = Ok (n * Second).
Proof.
  intros Hn. unfold seconds. rewrite Atoi_dec by lia. cbn [or_err mbind res_bind].
  rewrite i64_small; [done|]. unfold Second. lia.
Qed.

Lemma Split_push_body p : pushed_ok p → Split (push_body p) comma = (λ ws, Join ws space) <$> push_words p.
Proof.
  intros Hp. unfold push_body. apply Split_Join; [done|].
  apply list.Forall_fmap. eapply list.Forall_impl; [by apply push_words_ok|]. intros ws [_ Hws].
  cbn. induction Hws as [|w ws [_ Hc] _ IH]; [by intros ?%elem_of_nil|]. destruct ws as [|w' ws]; [done|].
  rewrite Join_cons by done. rewrite not_elem_of_app, not_elem_of_cons. by split_and!.
Qed.

Lemma ParsePushReply_meaning p :
  pushed_ok p → ParsePushReply (PushReplyPrefix ++ push_body p) = Ok (push_meaning p).
Proof.
  intros Hp. unfold ParsePushReply. rewrite HasPrefix_app, drop_app_length. cbn [negb].
  rewrite Split_push_body by done. destruct Hp as [H1 H2 H3 H4 H5 H6 H7 H8 H9 H10 H11].
  unfold push_words, empty_reply. rewrite !fmap_app. cbn [fmap list_fmap app].
  rewrite (apply_options_words [text "topology"; _]) by (done || words_ok). opt_switch.
  rewrite (apply_options_words [text "ifconfig"; _; _]) by (done || words_ok). opt_switch.
  rewrite !ParseAddr_quad by done. cbn [or_err mbind res_bind].
  rewrite apply_routes by done.
  rewrite (apply_options_words [text "route-gateway"; _]) by (done || words_ok). opt_switch.
  rewrite ParseAddr_quad by done. cbn [or_err mbind res_bind].
  rewrite apply_dns by done.
  rewrite (apply_options_words [text "tun-mtu"; _]) by (done || words_ok). opt_switch.
  rewrite Atoi_dec by done. cbn [or_err mbind res_bind].
  rewrite (apply_options_words [text "cipher"; _]) by (done || words_ok). opt_switch.
  rewrite (apply_options_words [text "peer-id"; _]) by (done || words_ok). opt_switch.
  rewrite ParseUint_dec by (unfold is_u24 in *; lia). cbn [or_err mbind res_bind].
  rewrite (apply_options_words [text "ping"; _]) by (done || words_ok). opt_switch.
  rewrite seconds_dec by done. cbn [mbind res_bind].
  rewrite (apply_options_words [text "ping-restart"; _]) by (done || words_ok). opt_switch.
  rewrite seconds_dec by done. done.
Qed.


Definition sample_push : pushed :=
  mkPushed 0x0A080006 0xFFFFFF00 (text "subnet") [(0x0A010203, 16); (0xC0A80100, 24)] 0x0A080001
    [0x01010101; 0x08080808] 1500 (text "AES-256-GCM") 7 10 60.

Lemma sample_push_ok : pushed_ok sample_push.
Proof.
  split; try (apply (bool_decide_unpack _); by vm_compute); repeat constructor; by vm_compute.
Qed.


Lemma route_mask_exact_witness :
  routeToPrefix [quad 0x0A010203; quad 0xFFFF0000] = Ok (mkPrefix (Addr4 0x0A010000) 16) ∧
  routeToPrefix [quad 0x0A010203; quad 0xFF00FF00] = Err PErrMask.
Proof.
  split.
  - destruct (route_mask_exact 0x0A010203 0xFFFF0000) as [H _]; [by split; vm_compute..|].
    apply H. exists 16. split_and!; by vm_compute.
  - destruct (route_mask_exact 0x0A010203 0xFF00FF00) as [_ H]; [by split; vm_compute..|].
    apply H. intros k Hk Heq. assert (Z.testbit (netmask k) 23 = false) as Hb by by rewrite <-Heq.
    assert (Z.testbit (netmask k) 8 = true) as Hc by by rewrite <-Heq.
    rewrite netmask_bit in Hb, Hc by lia. lia.
Defined.
