(* ===== verification/Handshake.v ===== *)
(** The client handshake, [Run] of [internal/control/handshake.go], with the
    stages it reports ([internal/trace]), the identity it presents and the one a
    rekey presents ([buildRekeyClientKM]).  The TLS connection is what the code
    sees of it: whether the handshake and each write succeed, the bytes still to
    be read, the key export. *)
From stdpp Require Import pretty.
From S2P Require Import Prelude Text Wire Reliable KeyMethod2 DataKeys PushReply.
Local Open Scope Z_scope.

(** ** trace.go *)

Inductive HandshakeStage : Type :=
  | StageHardReset
  | StageTLSHandshake
  | StageKeyMethod2Send
  | StageKeyMethod2Recv
  | StagePushRequest
  | StagePushReply
  | StageDataKeys
  | StageComplete.
#[export] Instance stage_eq_dec : EqDecision HandshakeStage.
Proof. solve_decision. Defined.

Definition stage_String (s : HandshakeStage) : string :=
  match s with
  | StageHardReset => "hard-reset"
  | StageTLSHandshake => "tls"
  | StageKeyMethod2Send => "km2-send"
  | StageKeyMethod2Recv => "km2-recv"
  | StagePushRequest => "push-request"
  | StagePushReply => "push-reply"
  | StageDataKeys => "data-keys"
  | StageComplete => "complete"
  end.

(** The order of the constants. *)
Definition stages : list HandshakeStage :=
  [StageHardReset; StageTLSHandshake; StageKeyMethod2Send; StageKeyMethod2Recv; StagePushRequest;
   StagePushReply; StageDataKeys; StageComplete].

(** ** The identity of the client *)

Definition colonS : string := ":".

Record hs_config := mkHsConfig {
  hc_TLS : bool;                       (* TLSConfig is not nil *)
  hc_Username : bytes;
  hc_Password : bytes;
  hc_Ciphers : list string;
  hc_Extra : gmap string string;
  hc_Proto : string;
  hc_Opcode : Z;
  hc_Version : string
}.

Definition default_ciphers : list string := ["AES-256-GCM"; "CHACHA20-POLY1305"; "AES-128-GCM"].

Definition firstCipher (s : bytes) : bytes := (Cut s x3a).1.1.

Definition buildOptionsString (ciphers proto : string) : bytes :=
  Join [text "V4"; text "dev-type tun"; text "link-mtu 1559"; text "tun-mtu 1500";
        text "proto " ++ text proto; text "cipher " ++ firstCipher (text ciphers); text "auth SHA256";
        text "keysize 256"; text "key-method 2"; text "tls-client"] comma.

(** The order in which Go visits [extra] does not matter: its keys are distinct. *)
Definition with_extra (pi : PeerInfo) (version : string) (extra : gmap string string) : PeerInfo :=
  let pi := if String.eqb version "" then pi else peerinfo_Set "IV_VER" version pi in
  map_fold peerinfo_Set pi extra.

Definition buildPeerInfo (goos ciphers version : string) (extra : gmap string string) : bytes :=
  text (peerinfo_Encode (with_extra (DefaultPeerInfo goos ciphers) version extra)).

Definition non_empty (s : bytes) : bool := negb (bool_decide (s = [])).

(** The KEY_METHOD 2 of the initial handshake, without its random bytes. *)
Definition client_km (goos : string) (cfg : hs_config) (ciphersStr proto : string) (pm r1 r2 : bytes) : KeyMethod2 :=
  mkKeyMethod2 false pm r1 r2 (buildOptionsString ciphersStr proto) (hc_Username cfg) (hc_Password cfg)
    (non_empty (hc_Username cfg) || non_empty (hc_Password cfg))
    (buildPeerInfo goos ciphersStr (hc_Version cfg) (hc_Extra cfg)).

(** [buildRekeyClientKM]; the random reads fail or give the three fields. *)
Definition buildRekeyClientKM (goos : string) (cfg : hs_config) (pm r1 r2 : option bytes) : option KeyMethod2 :=
  pm ← pm; r1 ← r1; r2 ← r2;
  let ciphersStr := String.concat colonS (hc_Ciphers cfg) in
  let ciphersStr := if String.eqb ciphersStr "" then "AES-256-GCM:CHACHA20-POLY1305:AES-128-GCM" else ciphersStr in
  let options := Join [text "V4"; text "dev-type tun"; text "link-mtu 1559"; text "tun-mtu 1500";
    text "proto UDPv4"; text "cipher " ++ firstCipher (text ciphersStr); text "auth SHA256";
    text "keysize 256"; text "key-method 2"; text "tls-client"] comma in
  Some (mkKeyMethod2 false pm r1 r2 options (hc_Username cfg) (hc_Password cfg)
    (non_empty (hc_Username cfg) || non_empty (hc_Password cfg))
    (text (peerinfo_Encode (with_extra (DefaultPeerInfo goos ciphersStr) (hc_Version cfg) (hc_Extra cfg))))).

(** ** The handshake *)

Inductive hs_error : Type :=
  | HsNoTLSConfig
  | HsHardReset (e : rel_error)
  | HsTLS (e : bytes)
  | HsRandom (field : string)
  | HsMarshal (e : proto_error)
  | HsWrite (e : bytes)
  | HsRead (e : ctl_error)
  | HsAuthFailed (msg : bytes)
  | HsPushReply (e : push_error)
  | HsNoCipher
  | HsKeys (e : key_material_error).

(** What the network and the TLS library do: the layer and the clock, the TLS
    handshake, the three random reads, the two writes, the bytes the server
    sends, the key export and the session-id the layer has latched at the end. *)
Record hs_env := mkHsEnv {
  he_goos : string;
  he_now : Z;
  he_layer : Layer;
  he_tls : option bytes;
  he_pre_master : option bytes;
  he_random1 : option bytes;
  he_random2 : option bytes;
  he_write_km : option bytes;
  he_write_push : option bytes;
  he_stream : bytes;
  he_export : option bytes;
  he_remoteSID : Z
}.

Record Result := mkResult {
  hr_KeyMaterial : bytes;
  hr_PushReply : PushReply;
  hr_Cipher : bytes;
  hr_PeerID : Z;
  hr_RemoteSID : Z;
  hr_ServerKM2 : KeyMethod2
}.

(** The events emitted and the writes that went through, with an outcome. *)
Definition event : Type := HandshakeStage * option hs_error.
Definition HS (A : Type) : Type := (list event * list bytes) * res hs_error A.

#[export] Instance HS_ret : MRet HS := λ A a, (([], []), Ok a).
#[export] Instance HS_bind : MBind HS := λ A B f m,
  match m with
  | (l, Ok a) => let '(l', r) := f a in ((l.1 ++ l'.1, l.2 ++ l'.2), r)
  | (l, Err e) => (l, Err e)
  | (l, Panic) => (l, Panic)
  end.

Definition emit (s : HandshakeStage) : HS unit := (([(s, None)], []), Ok tt).
(** An operation of the stage [s]: on an error the stage is reported again. *)
Definition during {A} (s : HandshakeStage) (r : res hs_error A) : HS A :=
  match r with
  | Err e => (([(s, Some e)], []), Err e)
  | _ => (([], []), r)
  end.
Definition sent (b : bytes) : HS unit := (([], [b]), Ok tt).

Definition fails {E} (o : option E) (f : E → hs_error) : res hs_error unit :=
  match o with Some e => Err (f e) | None => Ok tt end.
Definition read_random (o : option bytes) (field : string) : res hs_error bytes :=
  match o with Some b => Ok b | None => Err (HsRandom field) end.

(** The answer to PUSH_REQUEST. *)
Definition push_answer (msg : bytes) : res hs_error PushReply :=
  if HasPrefix msg (text "AUTH_FAILED") then Err (HsAuthFailed msg)
  else
    pr ← map_err HsPushReply (ParsePushReply msg);
    guard_err (bool_decide (pr_Cipher pr = [])) HsNoCipher;;
    map_err HsKeys (AEADKeyLen (String.string_of_list_byte (pr_Cipher pr)));;
    Ok pr.

(** The defaults of [Run]. *)
Definition cfg_opcode (cfg : hs_config) : Z :=
  if hc_Opcode cfg =? 0 then PControlHardResetClientV2 else hc_Opcode cfg.
Definition cfg_ciphersStr (cfg : hs_config) : string :=
  String.concat colonS (match hc_Ciphers cfg with [] => default_ciphers | c => c end).
Definition cfg_proto (cfg : hs_config) : string :=
  if String.eqb (hc_Proto cfg) "" then "UDPv4" else hc_Proto cfg.

Definition Run (env : hs_env) (cfg : hs_config) : HS Result :=
  if negb (hc_TLS cfg) then (([], []), Err HsNoTLSConfig)
  else
    emit StageHardReset;;
    during StageHardReset (fails (SendHardReset (he_now env) (cfg_opcode cfg) (he_layer env)).2 HsHardReset);;
    emit StageTLSHandshake;;
    during StageTLSHandshake (fails (he_tls env) HsTLS);;
    emit StageKeyMethod2Send;;
    pm ← during StageKeyMethod2Send (read_random (he_pre_master env) "pre_master");
    r1 ← during StageKeyMethod2Send (read_random (he_random1 env) "random1");
    r2 ← during StageKeyMethod2Send (read_random (he_random2 env) "random2");
    km ← during StageKeyMethod2Send
           (map_err HsMarshal (MarshalKeyMethod2 (client_km (he_goos env) cfg (cfg_ciphersStr cfg) (cfg_proto cfg) pm r1 r2)));
    during StageKeyMethod2Send (fails (he_write_km env) HsWrite);;
    sent km;;
    emit StageKeyMethod2Recv;;
    '(serverKM, rest) ← during StageKeyMethod2Recv (map_err HsRead (ReadKeyMethod2 true false (he_stream env)));
    emit StagePushRequest;;
    during StagePushRequest (fails (he_write_push env) HsWrite);;
    sent (WriteControlMessage (text "PUSH_REQUEST"));;
    emit StagePushReply;;
    '(msg, _) ← during StagePushReply (map_err HsRead (ReadControlMessage rest));
    pushReply ← during StagePushReply (push_answer msg);
    emit StageDataKeys;;
    keys ← during StageDataKeys (map_err HsKeys (DeriveDataKeys (he_export env)));
    emit StageComplete;;
    mret (mkResult keys pushReply (pr_Cipher pushReply) (pr_PeerID pushReply) (he_remoteSID env) serverKM).

(** ** No input makes the handshake panic *)

Lemma no_panic_map {E E' A} (f : E → E') (r : res E A) : no_panic r → no_panic (map_err f r).
Proof. by destruct r. Qed.

Lemma or_err_no_panic {E A} (o : option A) (e : E) : no_panic (or_err o e).
Proof. by destruct o. Qed.

Lemma routeToPrefix_no_panic args : no_panic (routeToPrefix args).
Proof.
  unfold routeToPrefix. destruct args as [|a rest]; [done|].
  repeat first [ apply or_err_no_panic | apply no_panic_bind; [|intros ? _] | done | case_match ].
Qed.

Lemma applyFields_no_panic fields pr : no_panic (applyFields fields pr).
Proof.
  unfold applyFields, seconds. destruct pr, fields as [|f0 fields]; [done|].
  repeat case_match;
    repeat first [ done | apply or_err_no_panic | apply routeToPrefix_no_panic
                 | apply no_panic_guard; intros _ | apply no_panic_bind; [|intros ? _] ].
Qed.

Lemma ParsePushReply_no_panic s : no_panic (ParsePushReply s).
Proof.
  unfold ParsePushReply. case_match; [done|]. generalize (empty_reply (drop (length PushReplyPrefix) s)).
  induction (Split _ comma) as [|o opts IH]; intros pr; [done|]. cbn [apply_options].
  destruct (TrimSpace o); [apply IH|]. apply no_panic_bind; [apply applyFields_no_panic|]. intros ? _. apply IH.
Qed.

Lemma readLengthString_no_panic name r : no_panic (readLengthString name r).
Proof.
  unfold readLengthString, ReadFull.
  destruct (_ <? _)%nat; [done|]. cbn [mbind res_bind]. destruct (Z.eqb_spec (be_dec (take 2 r)) 0); [done|].
  pose proof (be_dec_range (take 2 r)). apply no_panic_guard. intros _.
  destruct (Nat.ltb_spec (length (drop 2 r)) (Z.to_nat (be_dec (take 2 r)))) as [|Hl]; [done|].
  cbn [mbind res_bind]. assert (0 < Z.to_nat (be_dec (take 2 r)))%nat by lia.
  safe ltac:(rewrite length_take; lia).
Qed.

Lemma ReadFull_no_panic n name r : no_panic (ReadFull n name r).
Proof. unfold ReadFull. by case_match. Qed.

Lemma ReadKeyMethod2_no_panic server auth r : no_panic (ReadKeyMethod2 server auth r).
Proof.
  unfold ReadKeyMethod2. apply no_panic_bind; [apply ReadFull_no_panic|]. intros [prefix r1] Hr1.
  assert (length prefix = 5%nat).
  { unfold ReadFull in Hr1. destruct (Nat.ltb_spec (length r) 5); [done|]. injection Hr1 as <- _.
    rewrite length_take. lia. }
  safe lia.
  repeat first [ done | apply readLengthString_no_panic | apply ReadFull_no_panic | case_match
               | apply no_panic_bind; [|intros [? ?] _] ].
Qed.

Lemma read_message_no_panic buf r : no_panic (read_message_loop buf r).
Proof.
  revert buf. induction r as [|b r IH]; intros buf; cbn; case_match; try done. case_match; [done|apply IH].
Qed.

Lemma push_answer_no_panic msg : no_panic (push_answer msg).
Proof.
  unfold push_answer. case_match; [done|]. apply no_panic_bind; [apply no_panic_map, ParsePushReply_no_panic|].
  intros pr _. apply no_panic_guard. intros _. apply no_panic_bind; [|done].
  apply no_panic_map. unfold AEADKeyLen. by repeat case_match.
Qed.

Lemma DeriveDataKeys_no_panic out : no_panic (DeriveDataKeys out).
Proof. unfold DeriveDataKeys, guard_err. by repeat case_match. Qed.

(** ** The stages *)

Definition begun (ss : list HandshakeStage) : list event := (λ s, (s, None)) <$> ss.

(** What a handshake that reached the stage number [k] has written. *)
Definition wrote (k : nat) (w : list bytes) : Prop :=
  ∃ km, w = take (if (k <? 3)%nat then 0 else if (k <? 5)%nat then 1 else 2)
              [km; WriteControlMessage (text "PUSH_REQUEST")].

(** What a handshake may leave behind: all stages, or the stages up to the one
    that failed and its error; the writes that preceded. *)
Definition well_traced (x : HS Result) : Prop :=
  let '((evs, w), r) := x in
  match r with
  | Ok _ => evs = begun stages ∧ wrote 7 w
  | Err e => (e = HsNoTLSConfig ∧ evs = [] ∧ w = []) ∨
      ∃ k s, stages !! k = Some s ∧ s ≠ StageComplete ∧ evs = begun (take (S k) stages) ++ [(s, Some e)] ∧ wrote k w
  | Panic => False
  end.

(** The rest [x] of a handshake that has emitted [evs] and written [w]. *)
Definition traced (evs : list event) (w : list bytes) (x : HS Result) : Prop :=
  well_traced ((evs ++ x.1.1, w ++ x.1.2), x.2).

Lemma traced_start x : traced [] [] x → well_traced x.
Proof. by destruct x as [[l l'] r]. Qed.

Lemma traced_emit evs w s f : traced (evs ++ [(s, None)]) w (f tt) → traced evs w (emit s ≫= f).
Proof. unfold traced. cbn -[well_traced]. destruct (f tt) as [[l l'] r]. by rewrite <-!app_assoc. Qed.

Lemma traced_sent evs w b f : traced evs (w ++ [b]) (f tt) → traced evs w (sent b ≫= f).
Proof. unfold traced. cbn -[well_traced]. destruct (f tt) as [[l l'] r]. by rewrite <-!app_assoc. Qed.

Lemma traced_during {A} k w s (r : res hs_error A) f :
  stages !! k = Some s → s ≠ StageComplete → wrote k w → no_panic r →
  (∀ a, r = Ok a → traced (begun (take (S k) stages)) w (f a)) →
  traced (begun (take (S k) stages)) w (during s r ≫= f).
Proof.
  intros Hk Hs Hw Hp Hf. destruct r as [a|e|]; [| |by destruct (Hp eq_refl)].
  - specialize (Hf a eq_refl). unfold traced in *. cbn -[well_traced begun stages] in *. by destruct (f a) as [[l l'] r].
  - unfold traced. cbn -[begun stages take]. right. exists k, s. by rewrite app_nil_r.
Qed.

Lemma fails_no_panic {E} (o : option E) f : no_panic (fails o f).
Proof. by destruct o. Qed.

Lemma random_no_panic o name : no_panic (read_random o name).
Proof. by destruct o. Qed.

Lemma Marshal_no_panic km : no_panic (MarshalKeyMethod2 km).
Proof. by destruct (Marshal_cases km) as [[_ ->]|[_ [e ->]]]. Qed.

Lemma ReadControlMessage_no_panic r : no_panic (ReadControlMessage r).
Proof. apply read_message_no_panic. Qed.

Create HintDb handshake.
#[export] Hint Resolve no_panic_map fails_no_panic random_no_panic Marshal_no_panic ReadKeyMethod2_no_panic
  ReadControlMessage_no_panic push_answer_no_panic DeriveDataKeys_no_panic : handshake.

(** An operation of the stage number [k], which cannot panic. *)
Ltac stage k :=
  apply (traced_during k);
  [done|done|match goal with H : ∀ k, _ → wrote k _ |- _ => apply H; lia end|auto with handshake|].

(** C26: the handshake goes through its stages in order and stops at the first
    that fails.  Whatever the network and the server do: on success every stage
    was reported, once, and the client wrote its KEY_METHOD 2 and then
    PUSH_REQUEST; on failure the last event is the error of the stage that
    failed, which is the error returned, nothing is written after it, and
    completion is not reported; and no input makes the handshake panic. *)
Theorem handshake_stages env cfg : well_traced (Run env cfg).
Proof.
  apply traced_start. unfold Run. destruct (hc_TLS cfg); [|by left]. cbn [negb].
  assert (W0 : ∀ k, (k < 3)%nat → wrote k []).
  { intros k Hk. exists []. by rewrite (proj2 (Nat.ltb_lt k 3) Hk). }
  apply traced_emit. stage 0%nat. intros _ _. apply traced_emit. stage 1%nat. intros _ _. apply traced_emit.
  do 5 (stage 2%nat; intros ? _). apply traced_sent. match goal with |- traced _ (_ ++ [?b]) _ => set (km := b) end.
  assert (W1 : ∀ k, (3 ≤ k < 5)%nat → wrote k [km]).
  { intros k Hk. exists km. destruct k as [|[|[|[|[|k]]]]]; (done || lia). }
  apply traced_emit. stage 3%nat. intros [serverKM rest] _. apply traced_emit. stage 4%nat. intros _ _. apply traced_sent.
  assert (W2 : ∀ k, (5 ≤ k)%nat → wrote k [km; WriteControlMessage (text "PUSH_REQUEST")]).
  { intros k Hk. exists km. destruct k as [|[|[|[|[|k]]]]]; (done || lia). }
  apply traced_emit. stage 5%nat. intros [msg r] _. stage 5%nat. intros pr _.
  apply traced_emit. stage 6%nat. intros keys _.
  apply traced_emit. unfold traced. cbn -[begun WriteControlMessage]. by auto with lia.
Qed.

(** ** A server that answers *)

Lemma elem_of_Join b (l : list bytes) sep : b ∈ Join l sep → b = sep ∨ ∃ w, w ∈ l ∧ b ∈ w.
Proof.
  induction l as [|w l IH]; [by intros ?%elem_of_nil|]. destruct l as [|w' l].
  - intros H. right. exists w. by split; [left|].
  - rewrite Join_cons by done. rewrite elem_of_app, elem_of_cons.
    intros [H|[H|H%IH]]; [right; exists w; by split; [left|]|by left|].
    destruct H as [H|(v & ? & ?)]; [by left|]. right. exists v. by split; [right|].
Qed.

Lemma push_body_no_nul p : pushed_ok p → x00 ∉ push_body p.
Proof.
  intros Hp [H|(w & Hw & H)]%elem_of_Join; [done|]. apply list_elem_of_fmap in Hw as (ws & -> & Hws).
  pose proof (proj1 (list.Forall_forall _ _) (push_words_ok p Hp) _ Hws) as [_ Hwords].
  apply elem_of_Join in H as [H|(w & Hin & H)]; [done|].
  pose proof (proj1 (list.Forall_forall _ _) Hwords _ Hin) as [[_ Hv] _].
  pose proof (proj1 (list.Forall_forall _ _) Hv _ H) as Hx.
  unfold visible in Hx. change (b2z x00) with 0 in Hx. lia.
Qed.

(** What the client sends, with its random fields. *)
Definition presented (env : hs_env) (cfg : hs_config) (pm r1 r2 : bytes) : KeyMethod2 :=
  client_km (he_goos env) cfg (cfg_ciphersStr cfg) (cfg_proto cfg) pm r1 r2.

Lemma client_km_plain goos cfg ciphersStr proto pm r1 r2 :
  length pm = PreMasterLen → length r1 = RandomLen → length r2 = RandomLen →
  km_plain (client_km goos cfg ciphersStr proto pm r1 r2).
Proof.
  intros. split; [by split|]. cbn. unfold non_empty. intros [?%negb_false_iff ?%negb_false_iff]%orb_false_iff.
  by repeat match goal with H : bool_decide _ = true |- _ => apply bool_decide_eq_true in H end.
Qed.

(** A rekey presents the same identity, over the same transport name as UDP. *)
Lemma rekey_same_identity goos cfg pm r1 r2 :
  hc_Ciphers cfg = [] ∨ String.concat colonS (hc_Ciphers cfg) ≠ ""%string →
  buildRekeyClientKM goos cfg (Some pm) (Some r1) (Some r2) =
    Some (client_km goos cfg (cfg_ciphersStr cfg) "UDPv4" pm r1 r2).
Proof.
  intros H. unfold buildRekeyClientKM, client_km, cfg_ciphersStr, buildOptionsString, buildPeerInfo.
  cbn [mbind option_bind]. destruct (hc_Ciphers cfg) as [|c cs]; [done|]. destruct H as [H|H]; [done|].
  destruct (String.eqb_spec (String.concat colonS (c :: cs)) ""); [done|]. done.
Qed.

(** The network delivers, and the server sends the KEY_METHOD 2 [skm], the
    options [p] and [mat] as the key export. *)
Record answered (env : hs_env) (cfg : hs_config) (pm r1 r2 : bytes) (skm : KeyMethod2) (p : pushed) (mat : bytes)
  : Prop := {
  an_tls_config : hc_TLS cfg = true;
  an_reset : (SendHardReset (he_now env) (cfg_opcode cfg) (he_layer env)).2 = None;
  an_tls : he_tls env = None;
  an_pre_master : he_pre_master env = Some pm;
  an_random1 : he_random1 env = Some r1;
  an_random2 : he_random2 env = Some r2;
  an_writes : he_write_km env = None ∧ he_write_push env = None;
  an_lengths : length pm = PreMasterLen ∧ length r1 = RandomLen ∧ length r2 = RandomLen;
  an_identity : km_sendable (presented env cfg pm r1 r2) ∧ km_short (presented env cfg pm r1 r2);
  an_server : km_IsServer skm = true ∧ km_AuthUserPass skm = false;
  an_server_km : km_plain skm ∧ km_sendable skm ∧ km_short skm;
  an_pushed : pushed_ok p;
  an_cipher : ps_cipher p ∈ [text "AES-256-GCM"; text "CHACHA20-POLY1305"; text "AES-128-GCM"];
  an_push_short : zlen (PushReplyPrefix ++ push_body p) ≤ MaxControlMessageLen;
  an_stream : ∃ sd rest, MarshalKeyMethod2 skm = Ok sd ∧
    he_stream env = sd ++ WriteControlMessage (PushReplyPrefix ++ push_body p) ++ rest;
  an_export : he_export env = Some mat;
  an_export_len : length mat = DataKeyMaterialLen
}.

Lemma push_answer_ok p :
  pushed_ok p → ps_cipher p ∈ [text "AES-256-GCM"; text "CHACHA20-POLY1305"; text "AES-128-GCM"] →
  push_answer (PushReplyPrefix ++ push_body p) = Ok (push_meaning p).
Proof.
  intros Hp Hc. unfold push_answer. rewrite ParsePushReply_meaning by done. cbn [map_err mbind res_bind].
  change (HasPrefix (PushReplyPrefix ++ push_body p) (text "AUTH_FAILED")) with false.
  change (pr_Cipher (push_meaning p)) with (ps_cipher p). generalize (push_meaning p). intros pr. revert Hc.
  generalize (ps_cipher p). intros c Hc. repeat (apply elem_of_cons in Hc as [->|Hc]; [done|]). by apply elem_of_nil in Hc.
Qed.

Ltac open_run :=
  cbn -[MarshalKeyMethod2 ReadControlMessage WriteControlMessage push_answer push_body push_meaning begun app
        PushReplyPrefix DataKeyMaterialLen].

Lemma Run_answered env cfg pm r1 r2 skm p mat :
  answered env cfg pm r1 r2 skm p mat →
  ∃ d, Run env cfg =
      ((begun stages, [d; WriteControlMessage (text "PUSH_REQUEST")]),
       Ok (mkResult mat (push_meaning p) (ps_cipher p) (ps_peer_id p) (he_remoteSID env) skm)) ∧
    ∀ rest, ReadKeyMethod2 false (non_empty (hc_Username cfg) || non_empty (hc_Password cfg))
        (d ++ WriteControlMessage (text "PUSH_REQUEST") ++ rest) =
      Ok (presented env cfg pm r1 r2, WriteControlMessage (text "PUSH_REQUEST") ++ rest).
Proof.
  intros [Ht Hhr Htls Hpm Hr1 Hr2 [Hw1 Hw2] (Lpm & Lr1 & Lr2) [Hsend Hshort] [Hsv Hau] (Hpl & Hss & Hsh)
    Hp Hc Hlen (sd & rest & Hsd & Hst) He Hel].
  pose proof (client_km_plain (he_goos env) cfg (cfg_ciphersStr cfg) (cfg_proto cfg) pm r1 r2 Lpm Lr1 Lr2) as Hcp.
  destruct (Marshal_Read _ [] Hcp Hsend Hshort) as (d & Hd & _). exists d. split.
  - destruct (Marshal_Read skm (WriteControlMessage (PushReplyPrefix ++ push_body p) ++ rest) Hpl Hss Hsh)
      as (sd' & Hsd' & Hrd).
    assert (sd' = sd) as -> by congruence. rewrite Hsv, Hau, <-Hst in Hrd.
    assert (ReadControlMessage (WriteControlMessage (PushReplyPrefix ++ push_body p) ++ rest) =
      Ok (PushReplyPrefix ++ push_body p, rest)) as Hrm.
    { apply ReadControlMessage_iff. split_and!; [done| |done]. rewrite elem_of_app. intros [H|H].
      - exact (bool_decide_unpack (x00 ∉ PushReplyPrefix) I H).
      - by apply push_body_no_nul in H. }
    unfold Run. rewrite Ht, Hhr, Htls, Hpm, Hr1, Hr2, Hw1, Hrd, Hw2, He. open_run. rewrite Hd. open_run.
    rewrite Hrm. open_run. rewrite push_answer_ok by done. unfold DeriveDataKeys. rewrite Hel. open_run. done.
  - intros rest'.
    destruct (Marshal_Read _ (WriteControlMessage (text "PUSH_REQUEST") ++ rest') Hcp Hsend Hshort)
      as (d' & Hd' & Hrd).
    assert (d' = d) as -> by congruence. exact Hrd.
Qed.

(** C25: with a server that answers, the handshake comes to its end and both
    sides hold the same session.  Every stage is reported; the client holds the
    server's KEY_METHOD 2, the options the server wrote, and the exported keys;
    and what the client wrote, read by the server, is the identity of its
    configuration, followed by PUSH_REQUEST. *)
Theorem handshake_established env cfg pm r1 r2 skm p mat :
  answered env cfg pm r1 r2 skm p mat →
  ∃ d, Run env cfg =
      ((begun stages, [d; WriteControlMessage (text "PUSH_REQUEST")]),
       Ok (mkResult mat (push_meaning p) (ps_cipher p) (ps_peer_id p) (he_remoteSID env) skm)) ∧
    ∀ rest, ReadKeyMethod2 false (non_empty (hc_Username cfg) || non_empty (hc_Password cfg))
        (d ++ WriteControlMessage (text "PUSH_REQUEST") ++ rest) =
      Ok (presented env cfg pm r1 r2, WriteControlMessage (text "PUSH_REQUEST") ++ rest).
Proof. apply Run_answered. Qed.

Definition sample_cfg : hs_config :=
  mkHsConfig true (text "alice") (text "secret") [] {["UV_TOKEN" := "t1"]} "" 0 "".
Definition sample_server_km : KeyMethod2 :=
  mkKeyMethod2 true (zeros PreMasterLen) (replicate 32 x03) (replicate 32 x04) (text "V4,tls-server") [] [] false [].
Definition sample_env : hs_env :=
  mkHsEnv "linux" 0 (New (mkConfig 0x1122334455667788 0 0)) None (Some (replicate 48 x07)) (Some (replicate 32 x01))
    (Some (replicate 32 x02)) None None
    (match MarshalKeyMethod2 sample_server_km with Ok d => d | _ => [] end ++
     WriteControlMessage (PushReplyPrefix ++ push_body sample_push)) (Some (replicate 256 x5a)) 0x99.

Lemma handshake_established_witness :
  ∃ d, Run sample_env sample_cfg =
      ((begun stages, [d; WriteControlMessage (text "PUSH_REQUEST")]),
       Ok (mkResult (replicate 256 x5a) (push_meaning sample_push) (text "AES-256-GCM") 7 0x99 sample_server_km)).
Proof.
  destruct (handshake_established sample_env sample_cfg (replicate 48 x07) (replicate 32 x01) (replicate 32 x02)
    sample_server_km sample_push (replicate 256 x5a)) as (d & H & _); [|by exists d].
  split; try (by vm_compute); try (by split_and!; vm_compute).
  - split; [|by split; vm_compute]. split_and!; [|intros _; split|]; by apply (bool_decide_unpack _); vm_compute.
  - split_and!; [by split; [split; vm_compute|]| |by split; vm_compute].
    split_and!; [|intros [=]|]; by apply (bool_decide_unpack _); vm_compute.
  - apply sample_push_ok.
  - by left.
  - eexists _, []. split; [by vm_compute|by rewrite app_nil_r].
Defined.
