(* ===== verification/Dial.v ===== *)
(** Bringing a client up: the configuration ([Config] of [openvpn.go] and of
    [internal/session]), its validation, the choice of the control-channel
    wrapper ([buildWrapper]), and the composition of everything a dial runs
    ([dialSession], [DialWithTransport]).  What happens to the session while the
    handshake waits for the network is any sequence of its steps. *)
From S2P Require Import Prelude Text Wire Replay Reliable KeyMethod2 DataChannel ControlWrap TlsCrypt TlsAuth.
From S2P Require Import Watch DataKeys Tables Session SessionSafety Transport PushReply Handshake.
Local Open Scope Z_scope.

(** ** Configurations *)

(** What the code sets in a [tls.Config]. *)
Record TLSConfig := mkTLSConfig {
  tc_MinVersion : Z;
  tc_MaxVersion : Z;                            (* 0: the library's *)
  tc_ServerName : bytes;
  tc_RootCAs : option (list bytes);             (* the PEM files; None: the system's *)
  tc_InsecureSkipVerify : bool;
  tc_VerifyConnection : option (option (list bytes));   (* the callback, with its roots *)
  tc_Certificates : option (bytes * bytes)
}.

Record ScrambleConfig := mkScrambleConfig { sc_Mode : ScrambleMode; sc_Key : bytes }.

Record Config := mkConfig {
  cf_Network : bytes;
  cf_RemoteAddr : bytes;
  cf_Scramble : option ScrambleConfig;
  cf_TLSConfig : option TLSConfig;
  cf_Username : bytes;
  cf_Password : bytes;
  cf_TLSCryptV1 : bytes;          (* nil and empty are not distinguished *)
  cf_TLSCryptV2 : bytes;
  cf_TLSAuth : bytes;
  cf_Auth : string;
  cf_KeyDirection : Z;
  cf_PeerInfoExtra : gmap string string;
  cf_Ciphers : list string;
  cf_HandshakeTimeout : Z;
  cf_Reneg : Z;
  cf_AutoReconnect : bool;
  cf_ReconnectMaxAttempts : Z;
  cf_ReconnectMaxInterval : Z;
  cf_MaxConsecutiveStalls : Z;
  cf_StableSessionThreshold : Z;
  cf_PeerInfoVersion : string
}.

(** [session.Config]; the fields [sessionCfg] never sets are zero. *)
Record SessionConfig := mkSessionConfig {
  sf_Network : bytes;
  sf_RemoteAddr : bytes;
  sf_TLSConfig : option TLSConfig;
  sf_Username : bytes;
  sf_Password : bytes;
  sf_TLSCryptV1 : bytes;
  sf_TLSCryptV2 : bytes;
  sf_TLSAuth : bytes;
  sf_Auth : string;
  sf_KeyDirection : Z;
  sf_PeerInfoExtra : gmap string string;
  sf_Ciphers : list string;
  sf_HandshakeTimeout : Z;
  sf_Reneg : Z;
  sf_TransitionWindow : Z;
  sf_IngressBuffer : Z;
  sf_PeerInfoVersion : string
}.

Definition sessionCfg (cfg : Config) : SessionConfig :=
  mkSessionConfig (cf_Network cfg) (cf_RemoteAddr cfg) (cf_TLSConfig cfg) (cf_Username cfg) (cf_Password cfg)
    (cf_TLSCryptV1 cfg) (cf_TLSCryptV2 cfg) (cf_TLSAuth cfg) (cf_Auth cfg) (cf_KeyDirection cfg)
    (cf_PeerInfoExtra cfg) (cf_Ciphers cfg) (cf_HandshakeTimeout cfg) (cf_Reneg cfg) 0 0 (cf_PeerInfoVersion cfg).

Inductive dial_error : Type :=
  | DNoTLSConfig
  | DNoControlKey
  | DManyControlKeys
  | DControlKeys                        (* the session's own check: not exactly one *)
  | DScrambleKey (m : ScrambleMode)
  | DScrambleMode (m : ScrambleMode)
  | DNoNetwork
  | DNoRemoteAddr
  | DTransport (e : bytes)
  | DSessionID
  | DKeyFile (e : key_error)
  | DDigest (name : string)
  | DBundle (e : v2_error)
  | DHandshake (e : hs_error)
  | DSlot (e : key_material_error).

Definition isSet (b : bytes) : Z := if (0 <? zlen b) then 1 else 0.

Definition validateControlChannel (cfg : Config) : option dial_error :=
  let set := isSet (cf_TLSCryptV1 cfg) + isSet (cf_TLSCryptV2 cfg) + isSet (cf_TLSAuth cfg) in
  if set =? 0 then Some DNoControlKey else if 1 <? set then Some DManyControlKeys else None.

Definition validateScramble (sc : option ScrambleConfig) : option dial_error :=
  match sc with
  | None => None
  | Some (mkScrambleConfig mode key) =>
      match mode with
      | ScrambleXorMask | ScrambleObfuscate => if zlen key =? 0 then Some (DScrambleKey mode) else None
      | ScrambleXorPtrPos | ScrambleReverse => None
      | ScrambleNone => Some (DScrambleMode mode)
      end
  end.

Definition validateConfig (cfg : SessionConfig) : option dial_error :=
  match sf_TLSConfig cfg with
  | None => Some DNoTLSConfig
  | Some _ =>
      let set := isSet (sf_TLSCryptV1 cfg) + isSet (sf_TLSCryptV2 cfg) + isSet (sf_TLSAuth cfg) in
      if negb (set =? 1) then Some DControlKeys else None
  end.

Definition cfgIngressBuffer (cfg : SessionConfig) : nat :=
  if 0 <? sf_IngressBuffer cfg then Z.to_nat (sf_IngressBuffer cfg) else 256.

(** ** The wrapper *)

Section dial.
Context `{P : Primitives} `{PL : !PrimitiveLaws P} `{C : Aead}.
Variable pem_Decode : bytes → option (string * bytes).

(** The [controlWrapper] a session holds. *)
Inductive AnyWrapper : Type :=
  | CryptWrapper (w : Wrapper)
  | AuthWrapper (a : Authenticator).

Definition any_Wrap (now : Z) (op : byte) (sid : Z) (plain : bytes) (w : AnyWrapper) : AnyWrapper * bytes :=
  match w with
  | CryptWrapper w => let '(w, b) := cw_Wrap now op sid plain w in (CryptWrapper w, b)
  | AuthWrapper a => let '(a, b) := cw_Wrap now op sid plain a in (AuthWrapper a, b)
  end.
Definition any_Unwrap (pkt : bytes) (w : AnyWrapper) : AnyWrapper * res wrap_error (byte * Z * Z * bytes) :=
  match w with
  | CryptWrapper w => let '(w, r) := cw_Unwrap pkt w in (CryptWrapper w, r)
  | AuthWrapper a => let '(a, r) := cw_Unwrap pkt a in (AuthWrapper a, r)
  end.

#[export] Program Instance AnyWrapper_wrapper : ControlWrapper AnyWrapper := {|
  cw_Wrap := any_Wrap;
  cw_Unwrap := any_Unwrap;
  cw_window w := match w with CryptWrapper w => cw_window w | AuthWrapper a => cw_window a end;
  cw_set_window v w :=
    match w with CryptWrapper w => CryptWrapper (cw_set_window v w) | AuthWrapper a => AuthWrapper (cw_set_window v a) end;
  cw_packet w := match w with CryptWrapper w => cw_packet w | AuthWrapper a => cw_packet a end;
  cw_ok w := match w with CryptWrapper w => cw_ok w | AuthWrapper a => cw_ok a end
|}.
Next Obligation. intros [w|a] v; apply cw_window_set. Qed.
Next Obligation. intros [w|a] x; apply cw_packet_opcode. Qed.
Next Obligation. intros [w|a] v x; apply cw_packet_set. Qed.
Next Obligation.
  intros [w|a] s x Hok Hr Hx Hf; unfold any_Unwrap; by rewrite (cw_Unwrap_accept _ s).
Qed.
Next Obligation.
  intros pkt [w|a] s w' r Hr; unfold any_Unwrap;
    (destruct (cw_Unwrap pkt _) as [v q] eqn:Hu; intros [= <- <-]; pose proof (cw_Unwrap_inv _ _ _ _ _ Hr Hu) as H);
    (destruct q as [[[[op sid] pid] plain]|e|]; [|by subst v|done]);
    destruct H as (x & ? & ? & ? & ? & ->); by exists x.
Qed.
Next Obligation.
  intros pkt [w|a]; unfold any_Unwrap;
    [pose proof (cw_Unwrap_safe pkt w)|pose proof (cw_Unwrap_safe pkt a)];
    by destruct (cw_Unwrap pkt _) as [v q].
Qed.

(** [KeyDirection] is not looked at: a client is always the inverse side. *)
Definition buildWrapper (cfg : SessionConfig) : res dial_error (AnyWrapper * Z) :=
  if 0 <? zlen (sf_TLSAuth cfg) then
    rawKey ← map_err DKeyFile (ParseStaticKey (sf_TLSAuth cfg));
    match auth_New rawKey DirectionInverse (sf_Auth cfg) with
    | None => Err (DDigest (sf_Auth cfg))
    | Some a => Ok (AuthWrapper a, PControlHardResetClientV2)
    end
  else if 0 <? zlen (sf_TLSCryptV2 cfg) then
    bundle ← map_err DBundle (ParseClientBundleV2 pem_Decode (sf_TLSCryptV2 cfg));
    let w := TlsCrypt.New (vb_Kc bundle) DirectionInverse in
    Ok (CryptWrapper (SetFirstWrapTrailer (vb_WKc bundle) w), PControlHardResetClientV3)
  else
    rawKey ← map_err DKeyFile (ParseStaticKey (sf_TLSCryptV1 cfg));
    Ok (CryptWrapper (TlsCrypt.New rawKey DirectionInverse), PControlHardResetClientV2).

(** ** A session *)

(** Up to the start of the loops: the session, and the opcode of its hard reset.
    [sid] is the outcome of the random read. *)
Definition dial_prepare (cfg : SessionConfig) (sid : option Z) : res dial_error (Session AnyWrapper * Z) :=
  match validateConfig cfg with
  | Some e => Err e
  | None =>
      match sid with
      | None => Err DSessionID
      | Some localSID =>
          '(wrapper, op) ← buildWrapper cfg;
          Ok (session_new localSID wrapper (cfgIngressBuffer cfg), op)
      end
  end.

(** What the handshake is given; [Proto] is never set. *)
Definition handshake_cfg (cfg : SessionConfig) (op : Z) : hs_config :=
  mkHsConfig (bool_decide (is_Some (sf_TLSConfig cfg))) (sf_Username cfg) (sf_Password cfg) (sf_Ciphers cfg)
    (sf_PeerInfoExtra cfg) "" op (sf_PeerInfoVersion cfg).

(** After the handshake, on the session as it is then. *)
Definition dial_finish (now : Z) (result : res hs_error Result) (s : Session AnyWrapper)
  : Session AnyWrapper * res dial_error unit :=
  match result with
  | Err e => (shutdown s, Err (DHandshake e))
  | Panic => (s, Panic)
  | Ok r =>
      match session_establish now (String.string_of_list_byte (hr_Cipher r)) (hr_PeerID r) (hr_KeyMaterial r)
              (pr_PingInterval (hr_PushReply r)) (pr_PingRestart (hr_PushReply r)) s with
      | Ok s => (s, Ok tt)
      | Err e => (shutdown s, Err (DSlot e))
      | Panic => (s, Panic)
      end
  end.

(** The handshake runs over the first layer of the session. *)
Definition on_layer (l : Layer) (env : hs_env) : hs_env :=
  mkHsEnv (he_goos env) (he_now env) l (he_tls env) (he_pre_master env) (he_random1 env) (he_random2 env)
    (he_write_km env) (he_write_push env) (he_stream env) (he_export env) (he_remoteSID env).

(** [DialWithTransport]: [during] is what the loops make of the session while
    the handshake runs, [env] what the handshake meets. *)
Definition DialWithTransport (cfg : SessionConfig) (sid : option Z) (env : hs_env) (now : Z)
    (during : Session AnyWrapper → Session AnyWrapper) : res dial_error (Session AnyWrapper) :=
  '(s, op) ← dial_prepare cfg sid;
  let env := on_layer (Reliable.New (Reliable.mkConfig (ss_localSID s) 0 0)) env in
  let '(s, r) := dial_finish now (Run env (handshake_cfg cfg op)).2 (during s) in
  r;; Ok s.

(** [dialSession]: the configuration it checks before it opens a transport, and
    the outcome of opening one. *)
Definition dialSession (custom : bool) (opened : option bytes) (cfg : Config) (sid : option Z) (env : hs_env)
    (now : Z) (during : Session AnyWrapper → Session AnyWrapper) : res dial_error (Session AnyWrapper) :=
  guard_err (negb custom && (zlen (cf_Network cfg) =? 0)) DNoNetwork;;
  guard_err (negb custom && (zlen (cf_RemoteAddr cfg) =? 0)) DNoRemoteAddr;;
  match opened with
  | Some e => Err (DTransport e)
  | None => DialWithTransport (sessionCfg cfg) sid env now during
  end.

(** The checks of [openvpn.Dial] before [dialSession]. *)
Definition Dial_checks (cfg : Config) : res dial_error unit :=
  match validateScramble (cf_Scramble cfg) with
  | Some e => Err e
  | None => match validateControlChannel cfg with Some e => Err e | None => Ok tt end
  end.
End dial.

(** ** What the checks let through *)

Lemma isSet_range b : 0 ≤ isSet b ≤ 1 ∧ (isSet b = 1 ↔ b ≠ []).
Proof.
  unfold isSet, zlen. destruct b as [|x b]; cbn [length]; [by vm_compute|].
  destruct (Z.ltb_spec 0 (Z.of_nat (S (length b)))); [|lia]. naive_solver lia.
Qed.

(** One of the three keys, and only one. *)
Definition one_control_key (v1 v2 auth : bytes) : Prop :=
  v1 ≠ [] ∧ v2 = [] ∧ auth = [] ∨ v1 = [] ∧ v2 ≠ [] ∧ auth = [] ∨ v1 = [] ∧ v2 = [] ∧ auth ≠ [].

Lemma one_control_key_sum v1 v2 auth :
  one_control_key v1 v2 auth ↔ isSet v1 + isSet v2 + isSet auth = 1.
Proof.
  pose proof (isSet_range v1) as [? ?]. pose proof (isSet_range v2) as [? ?]. pose proof (isSet_range auth) as [? ?].
  unfold one_control_key. destruct v1, v2, auth; naive_solver lia.
Qed.

Lemma validateControlChannel_iff cfg :
  validateControlChannel cfg = None ↔ one_control_key (cf_TLSCryptV1 cfg) (cf_TLSCryptV2 cfg) (cf_TLSAuth cfg).
Proof.
  rewrite one_control_key_sum. unfold validateControlChannel.
  pose proof (isSet_range (cf_TLSCryptV1 cfg)). pose proof (isSet_range (cf_TLSCryptV2 cfg)).
  pose proof (isSet_range (cf_TLSAuth cfg)).
  destruct (Z.eqb_spec (isSet (cf_TLSCryptV1 cfg) + isSet (cf_TLSCryptV2 cfg) + isSet (cf_TLSAuth cfg)) 0);
    [split; [done|lia]|]. destruct (Z.ltb_spec 1 (isSet (cf_TLSCryptV1 cfg) + isSet (cf_TLSCryptV2 cfg) + isSet (cf_TLSAuth cfg)));
    split; first [done|lia].
Qed.

(** ** A dial with a server that answers *)

Section dialled.
Context `{P : Primitives} `{PL : !PrimitiveLaws P} `{C : Aead}.
Variable pem_Decode : bytes → option (string * bytes).

Lemma slots_agree_cipher peer cipher mat :
  cipher_total → length mat = DataKeyMaterialLen → is_u24 peer →
  cipher ∈ [text "AES-256-GCM"; text "CHACHA20-POLY1305"; text "AES-128-GCM"] →
  ∃ s t, buildSlot 0 peer (String.string_of_list_byte cipher) mat = Ok s ∧
    server_slot 0 peer (String.string_of_list_byte cipher) mat = Ok t ∧ paired s t ∧ paired t s.
Proof.
  intros Ht Hl Hp Hc. pose proof (slots_agree 0 peer (String.string_of_list_byte cipher) (Some mat) mat Ht) as H.
  unfold DeriveDataKeys in H. rewrite Hl in H. specialize (H eq_refl Hp).
  assert (∃ n, AEADKeyLen (String.string_of_list_byte cipher) = Ok n) as [n Hn].
  { repeat (apply elem_of_cons in Hc as [->|Hc]; [by eexists|]). by apply elem_of_nil in Hc. }
  rewrite Hn in H. destruct H as (s & t & ? & _ & ? & ? & ? & _). by exists s, t.
Qed.

Lemma establish_ok now cipher peer km i r (s : Session AnyWrapper) slot :
  buildSlot 0 peer cipher km = Ok slot →
  ∃ s', session_establish now cipher peer km i r s = Ok s' ∧ ss_up s' = true ∧ ss_peerID s' = peer ∧
    ss_cipher s' = cipher ∧ ∃ p, slot_Active (ss_slots s') = Some p ∧ slot_deref p (ss_slots s') = Some slot.
Proof.
  intros Hb. unfold session_establish. rewrite Hb. cbn [mbind res_bind slot_new alloc].
  destruct (applyKeepaliveDefaults i r) as [i' r']. eexists. split; [done|]. cbn.
  split_and!; [done..|]. exists (length (st_store (ss_slots s))).
  unfold installTLSConn. case_match; cbn; (split; [apply lookup_insert_eq|]);
    unfold slot_deref; cbn; by rewrite lookup_app_r, Nat.sub_diag by lia.
Qed.

(** C6: with a valid configuration and a server that answers, a dial gives an
    established session.  Whatever the loops of the session do while the
    handshake waits, the dial returns the session with the cipher and peer-id
    the server pushed; it is a state of the transition system, so everything
    proved of reachable sessions holds of it; and its active slot is paired in
    both directions with the slot a server cuts from the same export. *)
Theorem dial_established cfg sid env now during s0 op pm r1 r2 skm p mat :
  cipher_total →
  dial_prepare pem_Decode cfg (Some sid) = Ok (s0, op) →
  answered (on_layer (Reliable.New (Reliable.mkConfig sid 0 0)) env) (handshake_cfg cfg op) pm r1 r2 skm p mat →
  rtc sess_step s0 (during s0) → ss_up (during s0) = false → ss_done (during s0) = false →
  ∃ s slot peer, DialWithTransport pem_Decode cfg (Some sid) env now during = Ok s ∧
    ss_up s = true ∧ ss_peerID s = ps_peer_id p ∧ ss_cipher s = String.string_of_list_byte (ps_cipher p) ∧
    sess_reachable sid (ss_wrapper s0) (cfgIngressBuffer cfg) s ∧
    (∃ i, slot_Active (ss_slots s) = Some i ∧ slot_deref i (ss_slots s) = Some slot) ∧
    server_slot 0 (ps_peer_id p) (String.string_of_list_byte (ps_cipher p)) mat = Ok peer ∧
    paired slot peer ∧ paired peer slot.
Proof.
  intros Ht Hprep Ha Hsteps Hup Hdone.
  assert (s0 = session_new sid (ss_wrapper s0) (cfgIngressBuffer cfg)) as Hs0.
  { unfold dial_prepare in Hprep. destruct (validateConfig cfg); [done|].
    apply bind_Ok in Hprep as ([w op'] & _ & [= <- _]). done. }
  destruct (Run_answered _ _ _ _ _ _ _ _ Ha) as (d & Hrun & _).
  destruct (slots_agree_cipher (ps_peer_id p) (ps_cipher p) mat Ht (an_export_len _ _ _ _ _ _ _ _ Ha)
    (po_peer_id p (an_pushed _ _ _ _ _ _ _ _ Ha)) (an_cipher _ _ _ _ _ _ _ _ Ha)) as (slot & peer & Hb & Hsv & H1 & H2).
  destruct (establish_ok now _ _ mat (ps_ping p * Second) (ps_restart p * Second) (during s0) slot Hb)
    as (s & Hs & Hu & Hpid & Hci & Hact).
  exists s, slot, peer. split_and!; try done.
  - unfold DialWithTransport. rewrite Hprep. cbn [mbind res_bind].
    assert (ss_localSID s0 = sid) as -> by by rewrite Hs0. rewrite Hrun. unfold dial_finish.
    cbn [snd hr_Cipher hr_PeerID hr_KeyMaterial hr_PushReply push_meaning pr_PingInterval pr_PingRestart].
    by rewrite Hs.
  - unfold sess_reachable. rewrite <-Hs0. eapply rtc_r; [exact Hsteps|]. eapply st_establish; [done|by left|exact Hs].
Qed.
End dialled.

Definition sample_tls : TLSConfig := mkTLSConfig 0x0303 0 (text "vpn.example") None false None None.
Definition sample_config : Config :=
  Dial.mkConfig (text "udp") (text "vpn.example:1194") None (Some sample_tls) (text "alice") (text "secret")
    (replicate 256 x42) [] [] "" 1 ∅ [] 0 0 true 0 0 3 0 "".

Lemma dial_established_witness :
  ∃ s, DialWithTransport (C := toy_aead) (λ _, None) (sessionCfg sample_config) (Some 77)
         sample_env 100 id = Ok s ∧ ss_up s = true ∧ ss_peerID s = 7.
Proof.
  destruct (dial_established (P := toy_primitives) (C := toy_aead) (λ _, None) (sessionCfg sample_config) 77 sample_env
    100 id (session_new 77 (CryptWrapper (TlsCrypt.New (replicate 256 x42) DirectionInverse)) 256)
    PControlHardResetClientV2 (replicate 48 x07) (replicate 32 x01) (replicate 32 x02) sample_server_km sample_push
    (replicate 256 x5a) toy_cipher_total) as (s & slot & peer & Hs & Hu & Hp & _).
  - done.
  - split; try (by vm_compute); try (by split_and!; vm_compute).
    + split; [|by split; vm_compute]. split_and!; [|intros _; split|]; by apply (bool_decide_unpack _); vm_compute.
    + split_and!; [by split; [split; vm_compute|]| |by split; vm_compute].
      split_and!; [|intros [=]|]; by apply (bool_decide_unpack _); vm_compute.
    + apply sample_push_ok.
    + by left.
    + eexists _, []. split; [by vm_compute|by rewrite app_nil_r].
  - done.
  - done.
  - done.
  - exists s. split; [exact Hs|split; [exact Hu|exact Hp]].
Defined.
