(* ===== verification/OvpnLex.v ===== *)
(** The text of a configuration file, [pkg/ovpn/parse.go]: the lines
    [bufio.Scanner] delivers, comments ([stripComment]), words ([tokenize]),
    opening tags ([openTag]) and inline blocks ([readInlineBlock]). *)
From S2P Require Import Prelude Text.
Local Open Scope Z_scope.

Definition lf : byte := x0a.
Definition cr : byte := x0d.
Definition tab : byte := x09.
Definition backslash : byte := x5c.
Definition dquote : byte := x22.
Definition squote : byte := x27.
Definition hash : byte := x23.
Definition semicolon : byte := x3b.
Definition lt : byte := x3c.
Definition gt : byte := x3e.
Definition slash : byte := x2f.

Abbreviation same c d := (bool_decide (c = d)).

(** ** Lines *)

Inductive scan_error : Type :=
  | ErrTooLong
  | ErrReader (e : bytes).

Definition dropCR (l : bytes) : bytes :=
  match reverse l with c :: r => if same c cr then reverse r else l | [] => l end.

(** A line whose content fills the buffer stops the scan. *)
Fixpoint scan_raw (max : Z) (raws : list bytes) (failed : option scan_error) : list bytes * option scan_error :=
  match raws with
  | [] => ([], failed)
  | l :: raws' =>
      if max <=? zlen l then ([], Some ErrTooLong)
      else let '(ls, e) := scan_raw max raws' failed in (dropCR l :: ls, e)
  end.

Definition drop_empty_last (ls : list bytes) : list bytes :=
  match reverse ls with [] :: r => reverse r | _ => ls end.

(** What repeated [Scan] delivers, and [Err] after it; [failed] is a read error
    that ends the data. *)
Definition Lines (max : Z) (data : bytes) (failed : option scan_error) : list bytes * option scan_error :=
  scan_raw max (drop_empty_last (Split data lf)) failed.

(** The buffer given in [run], and the default one. *)
Definition maxLine : Z := 8 * 1024 * 1024.
Definition MaxScanTokenSize : Z := 64 * 1024.

(** ** Words *)

Definition isEscapable (c : byte) : bool :=
  same c backslash || same c dquote || same c squote || same c space || same c tab || same c hash || same c semicolon.

(** A backslash that escapes the byte after it. *)
Definition escapes (c : byte) (inSingle : bool) (rest : bytes) : bool :=
  same c backslash && negb inSingle && match rest with e :: _ => isEscapable e | [] => false end.

Fixpoint strip_loop (s : bytes) (inDouble inSingle : bool) : bytes :=
  match s with
  | [] => []
  | c :: s' =>
      if escapes c inSingle s' then
        match s' with e :: s'' => c :: e :: strip_loop s'' inDouble inSingle | [] => [c] end
      else if same c dquote && negb inSingle then c :: strip_loop s' (negb inDouble) inSingle
      else if same c squote && negb inDouble then c :: strip_loop s' inDouble (negb inSingle)
      else if negb inDouble && negb inSingle && (same c hash || same c semicolon) then []
      else c :: strip_loop s' inDouble inSingle
  end.
Definition stripComment (s : bytes) : bytes := strip_loop s false false.

(** [None] is the unterminated-quote error. *)
Fixpoint tokenize_loop (s cur : bytes) (started inDouble inSingle : bool) : option (list bytes) :=
  match s with
  | [] => if inDouble || inSingle then None else Some (if started then [cur] else [])
  | c :: s' =>
      if escapes c inSingle s' then
        match s' with e :: s'' => tokenize_loop s'' (cur ++ [e]) true inDouble inSingle | [] => None end
      else if same c dquote && negb inSingle then tokenize_loop s' cur true (negb inDouble) inSingle
      else if same c squote && negb inDouble then tokenize_loop s' cur true inDouble (negb inSingle)
      else if negb inDouble && negb inSingle && (same c space || same c tab) then
        if started then cons cur <$> tokenize_loop s' [] false inDouble inSingle
        else tokenize_loop s' cur started inDouble inSingle
      else tokenize_loop s' (cur ++ [c]) true inDouble inSingle
  end.
Definition tokenize (s : bytes) : option (list bytes) := tokenize_loop s [] false false false.

Definition openTag (line : bytes) : option bytes :=
  match line with
  | c0 :: c1 :: _ =>
      if (zlen line <? 3) || negb (same c0 lt) || same c1 slash then None
      else
        match list_find (gt =.) line with
        | None => None
        | Some (i, _) =>
            if negb (i + 1 =? length line)%nat then None
            else let name := take (i - 1) (drop 1 line) in
                 if same name [] then None else Some name
        end
  | _ => None
  end.

Definition closing (name : bytes) : bytes := [lt; slash] ++ name ++ [gt].

(** The content, the number of lines read and the lines left; [None] when the
    lines end first. *)
Fixpoint readInlineBlock (name : bytes) (lines : list bytes) : option (bytes * nat * list bytes) :=
  match lines with
  | [] => None
  | raw :: lines' =>
      if same (TrimSpace raw) (closing name) then Some ([], 1%nat, lines')
      else '(out, n, rest) ← readInlineBlock name lines'; Some (raw ++ [lf] ++ out, S n, rest)
  end.

Example Lines_ok :
  Lines maxLine (text "a" ++ [cr; lf; lf] ++ text "b") None = ([text "a"; []; text "b"], None) ∧
  Lines maxLine (text "a" ++ [lf]) None = ([text "a"], None) ∧ Lines maxLine [] None = ([], None).
Proof. by vm_compute. Qed.

Example tokenize_ok :
  tokenize (text "ca 'my ca.pem' a\ b C:\Users\me\ca.crt") =
    Some [text "ca"; text "my ca.pem"; text "a b"; text "C:\Users\me\ca.crt"] ∧
  tokenize (text "x" ++ [space; dquote; dquote; tab] ++ text "y\") = Some [text "x"; []; text "y\"] ∧
  tokenize (text "it's") = None ∧
  stripComment (text "a '#b' \# c # d") = text "a '#b' \# c " ∧
  openTag (text "<ca>") = Some (text "ca") ∧ openTag (text "</ca>") = None ∧ openTag (text "<ca> x") = None ∧
  openTag (text "<>") = None.
Proof. by vm_compute. Qed.

(** ** Words written between quotes *)

Fixpoint quoted_body (t : bytes) : bytes :=
  match t with
  | [] => []
  | c :: t' => if same c backslash || same c dquote then backslash :: c :: quoted_body t' else c :: quoted_body t'
  end.
Definition quote (t : bytes) : bytes := dquote :: quoted_body t ++ [dquote].
Definition quoted_line (ts : list bytes) : bytes := Join (quote <$> ts) space.

Lemma escapes_other c q rest : c ≠ backslash → escapes c q rest = false.
Proof. intros H. unfold escapes. by rewrite bool_decide_eq_false_2. Qed.

Lemma escapes_hit e rest : isEscapable e = true → escapes backslash false (e :: rest) = true.
Proof. done. Qed.

(** Inside double quotes the two scanners only see text. *)
Lemma tokenize_body t rest cur :
  tokenize_loop (quoted_body t ++ rest) cur true true false = tokenize_loop rest (cur ++ t) true true false.
Proof.
  revert cur. induction t as [|c t IH]; intros cur; [by rewrite app_nil_r|]. cbn [quoted_body].
  destruct (decide (c = backslash)) as [->|Hb]; [|destruct (decide (c = dquote)) as [->|Hd]];
    rewrite ?(bool_decide_eq_true_2 (_ = _)), ?orb_true_r by done.
  - cbn [app tokenize_loop orb]. by rewrite escapes_hit, IH, <-app_assoc.
  - cbn [app tokenize_loop orb]. by rewrite escapes_hit, IH, <-app_assoc.
  - rewrite !bool_decide_eq_false_2 by done. cbn [app tokenize_loop orb].
    rewrite escapes_other, !(bool_decide_eq_false_2 (c = dquote)) by done. cbn [andb negb].
    rewrite andb_false_r, IH, <-app_assoc. done.
Qed.

Lemma strip_body t rest :
  strip_loop (quoted_body t ++ rest) true false = quoted_body t ++ strip_loop rest true false.
Proof.
  induction t as [|c t IH]; [done|]. cbn [quoted_body].
  destruct (decide (c = backslash)) as [->|Hb]; [|destruct (decide (c = dquote)) as [->|Hd]];
    rewrite ?(bool_decide_eq_true_2 (_ = _)), ?orb_true_r by done.
  - cbn [app strip_loop orb]. by rewrite escapes_hit, IH.
  - cbn [app strip_loop orb]. by rewrite escapes_hit, IH.
  - rewrite !bool_decide_eq_false_2 by done. cbn [app strip_loop orb].
    rewrite escapes_other, !(bool_decide_eq_false_2 (c = dquote)) by done. cbn [andb negb].
    by rewrite andb_false_r, IH.
Qed.

Lemma tokenize_quote t rest :
  tokenize_loop (quote t ++ rest) [] false false false = tokenize_loop rest t true false false.
Proof. unfold quote. cbn. rewrite <-app_assoc, tokenize_body. done. Qed.

Lemma strip_quote t rest : strip_loop (quote t ++ rest) false false = quote t ++ strip_loop rest false false.
Proof. unfold quote. cbn. rewrite <-!app_assoc, strip_body. done. Qed.

Lemma tokenize_quoted ts : tokenize (quoted_line ts) = Some ts.
Proof.
  unfold tokenize, quoted_line. induction ts as [|t ts IH]; [done|]. destruct ts as [|t' ts].
  - cbn [fmap list_fmap Join]. rewrite <-(app_nil_r (quote t)), tokenize_quote. done.
  - cbn [fmap list_fmap] in *. rewrite Join_cons, tokenize_quote by done.
    change (cons t <$> tokenize_loop (Join (quote t' :: (quote <$> ts)) space) [] false false false =
      Some (t :: t' :: ts)). by rewrite IH.
Qed.

Lemma stripComment_quoted ts : stripComment (quoted_line ts) = quoted_line ts.
Proof.
  unfold stripComment, quoted_line. induction ts as [|t ts IH]; [done|]. destruct ts as [|t' ts].
  - cbn [fmap list_fmap Join]. rewrite <-(app_nil_r (quote t)) at 1. rewrite strip_quote. apply app_nil_r.
  - cbn [fmap list_fmap] in *. rewrite Join_cons, strip_quote by done. f_equal.
    change (space :: strip_loop (Join (quote t' :: (quote <$> ts)) space) false false =
      space :: Join (quote t' :: (quote <$> ts)) space). by rewrite IH.
Qed.

Lemma quoted_line_ends ts : ts ≠ [] → ∃ mid, quoted_line ts = dquote :: mid ++ [dquote].
Proof.
  intros Hne. unfold quoted_line. induction ts as [|t ts IH]; [done|]. destruct ts as [|t' ts]; [by eexists|].
  destruct (IH ltac:(done)) as [mid Hm]. cbn [fmap list_fmap] in *. rewrite Join_cons, Hm by done.
  exists (quoted_body t ++ [dquote] ++ space :: dquote :: mid). unfold quote. cbn. by rewrite <-!app_assoc.
Qed.

(** A line of quoted words is those words: nothing of it is a comment, trimmed
    or taken for a tag. *)
Lemma quoted_line_words ts :
  ts ≠ [] → TrimSpace (stripComment (quoted_line ts)) = quoted_line ts ∧ quoted_line ts ≠ [] ∧
    openTag (quoted_line ts) = None ∧ tokenize (quoted_line ts) = Some ts.
Proof.
  intros Hne. rewrite stripComment_quoted, tokenize_quoted. destruct (quoted_line_ends ts Hne) as [mid ->].
  split_and!; [|done| |done]; [by apply TrimSpace_id; apply (bool_decide_unpack _)|].
  unfold openTag. destruct (mid ++ [dquote]) as [|c r]; [done|]. cbn [app].
  rewrite (bool_decide_eq_false_2 (dquote = lt)) by done. cbn [negb]. by rewrite orb_true_r.
Qed.

(** ** Comments *)

Lemma strip_head e s d q : strip_loop (e :: s) d q = [] ∨ ∃ r, strip_loop (e :: s) d q = e :: r.
Proof.
  cbn [strip_loop]. destruct (escapes e q s); [destruct s; right; by eexists|].
  repeat (destruct (_ && _); [try (right; by eexists); by left|]). right; by eexists.
Qed.

Lemma strip_escapes c q d q' s :
  escapes c q s = false → escapes c q (strip_loop s d q') = false.
Proof.
  unfold escapes. destruct (same c backslash), q; try done. cbn [negb andb]. destruct s as [|e s]; [done|].
  by destruct (strip_head e s d q') as [->|[r ->]].
Qed.

Definition leader (c : byte) : Prop := c = hash ∨ c = semicolon.

Lemma strip_spec n : ∀ s d q, (length s ≤ n)%nat →
  ∃ rest, s = strip_loop s d q ++ rest ∧
    (rest = [] ∨ (∃ c r, rest = c :: r ∧ leader c) ∧
       ∀ cur st, is_Some (tokenize_loop (strip_loop s d q) cur st d q)).
Proof.
  induction n as [|n IH]; intros s d q Hl; (destruct s as [|c s]; [exists []; by split; [|left]|]); [cbn in Hl; lia|].
  cbn [length] in Hl. cbn [strip_loop]. destruct (escapes c q s) eqn:He.
  { destruct s as [|e s]; [unfold escapes in He; by rewrite andb_false_r in He|]. cbn [length] in Hl.
    destruct (IH s d q ltac:(lia)) as (rest & Hs & H). exists rest. split; [cbn; by rewrite <-Hs|].
    destruct H as [H|[Hr Ht]]; [by left|right]. split; [done|]. intros cur st. cbn [tokenize_loop].
    replace (escapes c q (e :: strip_loop s d q)) with (escapes c q (e :: s)) by done. rewrite He. apply Ht. }
  assert (∀ d' q', (same c dquote && negb q = true ∧ d' = negb d ∧ q' = q ∨
      same c dquote && negb q = false ∧ same c squote && negb d = true ∧ d' = d ∧ q' = negb q ∨
      same c dquote && negb q = false ∧ same c squote && negb d = false ∧
        negb d && negb q && (same c hash || same c semicolon) = false ∧ d' = d ∧ q' = q) →
    ∃ rest, c :: s = (c :: strip_loop s d' q') ++ rest ∧
      (rest = [] ∨ (∃ c r, rest = c :: r ∧ leader c) ∧
         ∀ cur st, is_Some (tokenize_loop (c :: strip_loop s d' q') cur st d q))) as Hstep.
  { intros d' q' Hcase. destruct (IH s d' q' ltac:(lia)) as (rest & Hs & H). exists rest.
    split; [cbn; by rewrite <-Hs|]. destruct H as [H|[Hr Ht]]; [by left|right]. split; [done|]. intros cur st.
    cbn [tokenize_loop]. rewrite strip_escapes by done.
    destruct Hcase as [(-> & -> & ->)|[(-> & -> & -> & ->)|(-> & -> & Hc & -> & ->)]]; try apply Ht.
    destruct (negb d && negb q && (same c space || same c tab)); [|apply Ht]. destruct st; [|apply Ht]. destruct (Ht [] false) as [x ->]. by eexists. }
  destruct (same c dquote && negb q) eqn:Hd; [apply Hstep; tauto|].
  destruct (same c squote && negb d) eqn:Hq; [apply Hstep; tauto|].
  destruct (negb d && negb q && (same c hash || same c semicolon)) eqn:Hc; [|apply Hstep; tauto].
  exists (c :: s). split; [done|right].
  apply andb_true_iff in Hc as [[Hd' Hq']%andb_true_iff Hc]. apply negb_true_iff in Hd' as ->. apply negb_true_iff in Hq' as ->.
  split.
  - exists c, s. split; [done|]. apply orb_true_iff in Hc as [H|H]; apply bool_decide_eq_true in H; [by left|by right].
  - intros cur st. by eexists.
Qed.

(** A comment ends a line only outside quotes.  What [stripComment] keeps is
    a prefix of the line; what it cuts, if anything, starts with a hash or a
    semicolon, and the words of what is left are complete: every quote opened
    in them is closed. *)
Theorem comment_outside_quotes s :
  ∃ rest, s = stripComment s ++ rest ∧
    (rest = [] ∨ (∃ c r, rest = c :: r ∧ leader c) ∧ is_Some (tokenize (stripComment s))).
Proof.
  destruct (strip_spec (length s) s false false) as (rest & Hs & H); [done|]. exists rest. split; [done|].
  destruct H as [H|[Hr Ht]]; [by left|right]. split; [done|apply Ht].
Qed.
