(* ===== verification/Ovpn.v ===== *)
(** Configuration files, [pkg/ovpn/parse.go]: the state the directives build, one
    function per directive, the loop over the lines ([run]) and the checks that
    turn the state into a [Config] ([finalize]).  Files are a function from paths
    to contents; the certificates are seen through the two calls of crypto/x509
    and crypto/tls that may refuse them.  The options are a value the code
    shares with its caller: what it writes into them is part of the result. *)
From stdpp Require Import pretty.
From S2P Require Import Prelude TlsAuth Text Netip Transport PushReply Dial OvpnLex.
Local Open Scope Z_scope.

Record Remote := mkRemote { rm_Host : bytes; rm_Port : bytes; rm_Proto : bytes }.

Definition unbracket (h : bytes) : bytes :=
  match h with
  | c :: _ =>
      if (2 <=? length h)%nat && bool_decide (c = x5b) && bool_decide (nth (length h - 1) h x00 = x5d)
      then take (length h - 2) (drop 1 h) else h
  | [] => h
  end.

Definition Remote_Addr (r : Remote) : bytes := JoinHostPort (unbracket (rm_Host r)) (rm_Port r).

(** [name] is one of the words of [l]. *)
Definition among (name : bytes) (l : list string) : bool := existsb (λ w, bool_decide (name = text w)) l.

Definition normalizeProto (p : bytes) : bytes :=
  if among p ["udp"; "udp4"; "udp6"] then text "udp"
  else if among p ["tcp"; "tcp-client"; "tcp4-client"; "tcp6-client"; "tcp4"; "tcp6"] then text "tcp"
  else [].

Definition isHostname (h : bytes) : bool :=
  match h with
  | [] => false
  | _ => match ParseAddr (unbracket h) with Some _ => false | None => true end
  end.

Record ParseOptions := mkParseOptions {
  po_BaseDir : bytes;
  po_Username : bytes;
  po_Password : bytes;
  po_ServerNameOverride : bytes;
  po_AllowNoServerIdentity : bool;
  po_PickRemote : option (list Remote → Remote)
}.
Definition set_BaseDir (v : bytes) (o : ParseOptions) : ParseOptions :=
  mkParseOptions v (po_Username o) (po_Password o) (po_ServerNameOverride o) (po_AllowNoServerIdentity o) (po_PickRemote o).
Definition set_credentials (u p : bytes) (o : ParseOptions) : ParseOptions :=
  mkParseOptions (po_BaseDir o) u p (po_ServerNameOverride o) (po_AllowNoServerIdentity o) (po_PickRemote o).

Definition MaxInlineBytesTotal : Z := 16 * 1024 * 1024.

(** Byte slices that the code compares with nil are options. *)
Record parseState := mkParseState {
  ps_opt : ParseOptions;
  ps_proto : bytes;
  ps_remotes : list Remote;
  ps_remoteRand : bool;
  ps_cipher : bytes;
  ps_dataCiphers : list bytes;
  ps_reneg : Z;
  ps_tlsMinVer : Z;
  ps_tlsMaxVer : Z;
  ps_serverName : bytes;
  ps_authUserPass : bool;
  ps_caPEMs : list bytes;
  ps_certPEM : option bytes;
  ps_keyPEM : option bytes;
  ps_tlsCrypt : bytes;
  ps_tlsCV2 : bytes;
  ps_tlsAuth : option bytes;
  ps_tlsAuthKeyDir : Z;
  ps_authDigest : string;
  ps_peerInfoExtra : gmap string string;
  ps_scramble : option ScrambleConfig;
  ps_inlineBytesTotal : Z;
  ps_warned : list (nat * bytes)       (* the calls of Warn: line and directive *)
}.

Definition newState (opt : ParseOptions) : parseState :=
  mkParseState opt [] [] false [] [] 0 0 0 [] false [] None None [] [] None (-1) "" ∅ None 0 [].

Definition set_opt (v : ParseOptions) (s : parseState) : parseState :=
  mkParseState v (ps_proto s) (ps_remotes s) (ps_remoteRand s) (ps_cipher s) (ps_dataCiphers s) (ps_reneg s)
    (ps_tlsMinVer s) (ps_tlsMaxVer s) (ps_serverName s) (ps_authUserPass s) (ps_caPEMs s) (ps_certPEM s)
    (ps_keyPEM s) (ps_tlsCrypt s) (ps_tlsCV2 s) (ps_tlsAuth s) (ps_tlsAuthKeyDir s) (ps_authDigest s)
    (ps_peerInfoExtra s) (ps_scramble s) (ps_inlineBytesTotal s) (ps_warned s).
Definition set_proto (v : bytes) (s : parseState) : parseState :=
  mkParseState (ps_opt s) v (ps_remotes s) (ps_remoteRand s) (ps_cipher s) (ps_dataCiphers s) (ps_reneg s)
    (ps_tlsMinVer s) (ps_tlsMaxVer s) (ps_serverName s) (ps_authUserPass s) (ps_caPEMs s) (ps_certPEM s)
    (ps_keyPEM s) (ps_tlsCrypt s) (ps_tlsCV2 s) (ps_tlsAuth s) (ps_tlsAuthKeyDir s) (ps_authDigest s)
    (ps_peerInfoExtra s) (ps_scramble s) (ps_inlineBytesTotal s) (ps_warned s).
Definition set_remotes (v : list Remote) (s : parseState) : parseState :=
  mkParseState (ps_opt s) (ps_proto s) v (ps_remoteRand s) (ps_cipher s) (ps_dataCiphers s) (ps_reneg s)
    (ps_tlsMinVer s) (ps_tlsMaxVer s) (ps_serverName s) (ps_authUserPass s) (ps_caPEMs s) (ps_certPEM s)
    (ps_keyPEM s) (ps_tlsCrypt s) (ps_tlsCV2 s) (ps_tlsAuth s) (ps_tlsAuthKeyDir s) (ps_authDigest s)
    (ps_peerInfoExtra s) (ps_scramble s) (ps_inlineBytesTotal s) (ps_warned s).
Definition set_remoteRand (v : bool) (s : parseState) : parseState :=
  mkParseState (ps_opt s) (ps_proto s) (ps_remotes s) v (ps_cipher s) (ps_dataCiphers s) (ps_reneg s)
    (ps_tlsMinVer s) (ps_tlsMaxVer s) (ps_serverName s) (ps_authUserPass s) (ps_caPEMs s) (ps_certPEM s)
    (ps_keyPEM s) (ps_tlsCrypt s) (ps_tlsCV2 s) (ps_tlsAuth s) (ps_tlsAuthKeyDir s) (ps_authDigest s)
    (ps_peerInfoExtra s) (ps_scramble s) (ps_inlineBytesTotal s) (ps_warned s).
Definition set_cipher (v : bytes) (s : parseState) : parseState :=
  mkParseState (ps_opt s) (ps_proto s) (ps_remotes s) (ps_remoteRand s) v (ps_dataCiphers s) (ps_reneg s)
    (ps_tlsMinVer s) (ps_tlsMaxVer s) (ps_serverName s) (ps_authUserPass s) (ps_caPEMs s) (ps_certPEM s)
    (ps_keyPEM s) (ps_tlsCrypt s) (ps_tlsCV2 s) (ps_tlsAuth s) (ps_tlsAuthKeyDir s) (ps_authDigest s)
    (ps_peerInfoExtra s) (ps_scramble s) (ps_inlineBytesTotal s) (ps_warned s).
Definition set_dataCiphers (v : list bytes) (s : parseState) : parseState :=
  mkParseState (ps_opt s) (ps_proto s) (ps_remotes s) (ps_remoteRand s) (ps_cipher s) v (ps_reneg s) (ps_tlsMinVer
    s) (ps_tlsMaxVer s) (ps_serverName s) (ps_authUserPass s) (ps_caPEMs s) (ps_certPEM s) (ps_keyPEM s)
    (ps_tlsCrypt s) (ps_tlsCV2 s) (ps_tlsAuth s) (ps_tlsAuthKeyDir s) (ps_authDigest s) (ps_peerInfoExtra s)
    (ps_scramble s) (ps_inlineBytesTotal s) (ps_warned s).
Definition set_reneg (v : Z) (s : parseState) : parseState :=
  mkParseState (ps_opt s) (ps_proto s) (ps_remotes s) (ps_remoteRand s) (ps_cipher s) (ps_dataCiphers s) v
    (ps_tlsMinVer s) (ps_tlsMaxVer s) (ps_serverName s) (ps_authUserPass s) (ps_caPEMs s) (ps_certPEM s)
    (ps_keyPEM s) (ps_tlsCrypt s) (ps_tlsCV2 s) (ps_tlsAuth s) (ps_tlsAuthKeyDir s) (ps_authDigest s)
    (ps_peerInfoExtra s) (ps_scramble s) (ps_inlineBytesTotal s) (ps_warned s).
Definition set_tlsMinVer (v : Z) (s : parseState) : parseState :=
  mkParseState (ps_opt s) (ps_proto s) (ps_remotes s) (ps_remoteRand s) (ps_cipher s) (ps_dataCiphers s) (ps_reneg
    s) v (ps_tlsMaxVer s) (ps_serverName s) (ps_authUserPass s) (ps_caPEMs s) (ps_certPEM s) (ps_keyPEM s)
    (ps_tlsCrypt s) (ps_tlsCV2 s) (ps_tlsAuth s) (ps_tlsAuthKeyDir s) (ps_authDigest s) (ps_peerInfoExtra s)
    (ps_scramble s) (ps_inlineBytesTotal s) (ps_warned s).
Definition set_tlsMaxVer (v : Z) (s : parseState) : parseState :=
  mkParseState (ps_opt s) (ps_proto s) (ps_remotes s) (ps_remoteRand s) (ps_cipher s) (ps_dataCiphers s) (ps_reneg
    s) (ps_tlsMinVer s) v (ps_serverName s) (ps_authUserPass s) (ps_caPEMs s) (ps_certPEM s) (ps_keyPEM s)
    (ps_tlsCrypt s) (ps_tlsCV2 s) (ps_tlsAuth s) (ps_tlsAuthKeyDir s) (ps_authDigest s) (ps_peerInfoExtra s)
    (ps_scramble s) (ps_inlineBytesTotal s) (ps_warned s).
Definition set_serverName (v : bytes) (s : parseState) : parseState :=
  mkParseState (ps_opt s) (ps_proto s) (ps_remotes s) (ps_remoteRand s) (ps_cipher s) (ps_dataCiphers s) (ps_reneg
    s) (ps_tlsMinVer s) (ps_tlsMaxVer s) v (ps_authUserPass s) (ps_caPEMs s) (ps_certPEM s) (ps_keyPEM s)
    (ps_tlsCrypt s) (ps_tlsCV2 s) (ps_tlsAuth s) (ps_tlsAuthKeyDir s) (ps_authDigest s) (ps_peerInfoExtra s)
    (ps_scramble s) (ps_inlineBytesTotal s) (ps_warned s).
Definition set_authUserPass (v : bool) (s : parseState) : parseState :=
  mkParseState (ps_opt s) (ps_proto s) (ps_remotes s) (ps_remoteRand s) (ps_cipher s) (ps_dataCiphers s) (ps_reneg
    s) (ps_tlsMinVer s) (ps_tlsMaxVer s) (ps_serverName s) v (ps_caPEMs s) (ps_certPEM s) (ps_keyPEM s)
    (ps_tlsCrypt s) (ps_tlsCV2 s) (ps_tlsAuth s) (ps_tlsAuthKeyDir s) (ps_authDigest s) (ps_peerInfoExtra s)
    (ps_scramble s) (ps_inlineBytesTotal s) (ps_warned s).
Definition set_caPEMs (v : list bytes) (s : parseState) : parseState :=
  mkParseState (ps_opt s) (ps_proto s) (ps_remotes s) (ps_remoteRand s) (ps_cipher s) (ps_dataCiphers s) (ps_reneg
    s) (ps_tlsMinVer s) (ps_tlsMaxVer s) (ps_serverName s) (ps_authUserPass s) v (ps_certPEM s) (ps_keyPEM s)
    (ps_tlsCrypt s) (ps_tlsCV2 s) (ps_tlsAuth s) (ps_tlsAuthKeyDir s) (ps_authDigest s) (ps_peerInfoExtra s)
    (ps_scramble s) (ps_inlineBytesTotal s) (ps_warned s).
Definition set_certPEM (v : option bytes) (s : parseState) : parseState :=
  mkParseState (ps_opt s) (ps_proto s) (ps_remotes s) (ps_remoteRand s) (ps_cipher s) (ps_dataCiphers s) (ps_reneg
    s) (ps_tlsMinVer s) (ps_tlsMaxVer s) (ps_serverName s) (ps_authUserPass s) (ps_caPEMs s) v (ps_keyPEM s)
    (ps_tlsCrypt s) (ps_tlsCV2 s) (ps_tlsAuth s) (ps_tlsAuthKeyDir s) (ps_authDigest s) (ps_peerInfoExtra s)
    (ps_scramble s) (ps_inlineBytesTotal s) (ps_warned s).
Definition set_keyPEM (v : option bytes) (s : parseState) : parseState :=
  mkParseState (ps_opt s) (ps_proto s) (ps_remotes s) (ps_remoteRand s) (ps_cipher s) (ps_dataCiphers s) (ps_reneg
    s) (ps_tlsMinVer s) (ps_tlsMaxVer s) (ps_serverName s) (ps_authUserPass s) (ps_caPEMs s) (ps_certPEM s) v
    (ps_tlsCrypt s) (ps_tlsCV2 s) (ps_tlsAuth s) (ps_tlsAuthKeyDir s) (ps_authDigest s) (ps_peerInfoExtra s)
    (ps_scramble s) (ps_inlineBytesTotal s) (ps_warned s).
Definition set_tlsCrypt (v : bytes) (s : parseState) : parseState :=
  mkParseState (ps_opt s) (ps_proto s) (ps_remotes s) (ps_remoteRand s) (ps_cipher s) (ps_dataCiphers s) (ps_reneg
    s) (ps_tlsMinVer s) (ps_tlsMaxVer s) (ps_serverName s) (ps_authUserPass s) (ps_caPEMs s) (ps_certPEM s)
    (ps_keyPEM s) v (ps_tlsCV2 s) (ps_tlsAuth s) (ps_tlsAuthKeyDir s) (ps_authDigest s) (ps_peerInfoExtra s)
    (ps_scramble s) (ps_inlineBytesTotal s) (ps_warned s).
Definition set_tlsCV2 (v : bytes) (s : parseState) : parseState :=
  mkParseState (ps_opt s) (ps_proto s) (ps_remotes s) (ps_remoteRand s) (ps_cipher s) (ps_dataCiphers s) (ps_reneg
    s) (ps_tlsMinVer s) (ps_tlsMaxVer s) (ps_serverName s) (ps_authUserPass s) (ps_caPEMs s) (ps_certPEM s)
    (ps_keyPEM s) (ps_tlsCrypt s) v (ps_tlsAuth s) (ps_tlsAuthKeyDir s) (ps_authDigest s) (ps_peerInfoExtra s)
    (ps_scramble s) (ps_inlineBytesTotal s) (ps_warned s).
Definition set_tlsAuth (v : option bytes) (s : parseState) : parseState :=
  mkParseState (ps_opt s) (ps_proto s) (ps_remotes s) (ps_remoteRand s) (ps_cipher s) (ps_dataCiphers s) (ps_reneg
    s) (ps_tlsMinVer s) (ps_tlsMaxVer s) (ps_serverName s) (ps_authUserPass s) (ps_caPEMs s) (ps_certPEM s)
    (ps_keyPEM s) (ps_tlsCrypt s) (ps_tlsCV2 s) v (ps_tlsAuthKeyDir s) (ps_authDigest s) (ps_peerInfoExtra s)
    (ps_scramble s) (ps_inlineBytesTotal s) (ps_warned s).
Definition set_tlsAuthKeyDir (v : Z) (s : parseState) : parseState :=
  mkParseState (ps_opt s) (ps_proto s) (ps_remotes s) (ps_remoteRand s) (ps_cipher s) (ps_dataCiphers s) (ps_reneg
    s) (ps_tlsMinVer s) (ps_tlsMaxVer s) (ps_serverName s) (ps_authUserPass s) (ps_caPEMs s) (ps_certPEM s)
    (ps_keyPEM s) (ps_tlsCrypt s) (ps_tlsCV2 s) (ps_tlsAuth s) v (ps_authDigest s) (ps_peerInfoExtra s)
    (ps_scramble s) (ps_inlineBytesTotal s) (ps_warned s).
Definition set_authDigest (v : string) (s : parseState) : parseState :=
  mkParseState (ps_opt s) (ps_proto s) (ps_remotes s) (ps_remoteRand s) (ps_cipher s) (ps_dataCiphers s) (ps_reneg
    s) (ps_tlsMinVer s) (ps_tlsMaxVer s) (ps_serverName s) (ps_authUserPass s) (ps_caPEMs s) (ps_certPEM s)
    (ps_keyPEM s) (ps_tlsCrypt s) (ps_tlsCV2 s) (ps_tlsAuth s) (ps_tlsAuthKeyDir s) v (ps_peerInfoExtra s)
    (ps_scramble s) (ps_inlineBytesTotal s) (ps_warned s).
Definition set_peerInfoExtra (v : gmap string string) (s : parseState) : parseState :=
  mkParseState (ps_opt s) (ps_proto s) (ps_remotes s) (ps_remoteRand s) (ps_cipher s) (ps_dataCiphers s) (ps_reneg
    s) (ps_tlsMinVer s) (ps_tlsMaxVer s) (ps_serverName s) (ps_authUserPass s) (ps_caPEMs s) (ps_certPEM s)
    (ps_keyPEM s) (ps_tlsCrypt s) (ps_tlsCV2 s) (ps_tlsAuth s) (ps_tlsAuthKeyDir s) (ps_authDigest s) v
    (ps_scramble s) (ps_inlineBytesTotal s) (ps_warned s).
Definition set_scramble (v : option ScrambleConfig) (s : parseState) : parseState :=
  mkParseState (ps_opt s) (ps_proto s) (ps_remotes s) (ps_remoteRand s) (ps_cipher s) (ps_dataCiphers s) (ps_reneg
    s) (ps_tlsMinVer s) (ps_tlsMaxVer s) (ps_serverName s) (ps_authUserPass s) (ps_caPEMs s) (ps_certPEM s)
    (ps_keyPEM s) (ps_tlsCrypt s) (ps_tlsCV2 s) (ps_tlsAuth s) (ps_tlsAuthKeyDir s) (ps_authDigest s)
    (ps_peerInfoExtra s) v (ps_inlineBytesTotal s) (ps_warned s).
Definition set_inlineBytesTotal (v : Z) (s : parseState) : parseState :=
  mkParseState (ps_opt s) (ps_proto s) (ps_remotes s) (ps_remoteRand s) (ps_cipher s) (ps_dataCiphers s) (ps_reneg
    s) (ps_tlsMinVer s) (ps_tlsMaxVer s) (ps_serverName s) (ps_authUserPass s) (ps_caPEMs s) (ps_certPEM s)
    (ps_keyPEM s) (ps_tlsCrypt s) (ps_tlsCV2 s) (ps_tlsAuth s) (ps_tlsAuthKeyDir s) (ps_authDigest s)
    (ps_peerInfoExtra s) (ps_scramble s) v (ps_warned s).
Definition set_warned (v : list (nat * bytes)) (s : parseState) : parseState :=
  mkParseState (ps_opt s) (ps_proto s) (ps_remotes s) (ps_remoteRand s) (ps_cipher s) (ps_dataCiphers s) (ps_reneg
    s) (ps_tlsMinVer s) (ps_tlsMaxVer s) (ps_serverName s) (ps_authUserPass s) (ps_caPEMs s) (ps_certPEM s)
    (ps_keyPEM s) (ps_tlsCrypt s) (ps_tlsCV2 s) (ps_tlsAuth s) (ps_tlsAuthKeyDir s) (ps_authDigest s)
    (ps_peerInfoExtra s) (ps_scramble s) (ps_inlineBytesTotal s) v.

Inductive ovpn_error : Type :=
  | OArgs (directive : bytes)                  (* the number of arguments *)
  | OValue (directive : bytes) (v : bytes)     (* an argument that is not understood *)
  | OUnsupported (directive : bytes)
  | OFile (directive : bytes)                  (* the error of the file system *)
  | OEmptyFile (directive : bytes)
  | OCredentials                               (* not two non-empty lines *)
  | OScan (e : scan_error)
  | OUnterminatedQuote
  | OUnterminatedBlock (name : bytes)
  | OInlineSize
  | OAt (line : nat) (e : ovpn_error)
  | ONoRemote
  | ONoControlKey
  | OManyControlKeys
  | OCA (i : nat)
  | ErrNoServerIdentity
  | OPairIncomplete
  | OPair
  | OCipher (c : bytes).

(** ** Paths ([path/filepath] on Unix) *)

Definition IsAbs (p : bytes) : bool := HasPrefix p [slash].

Definition clean_step (rooted : bool) (stack : list bytes) (comp : bytes) : list bytes :=
  if bool_decide (comp = []) || bool_decide (comp = [dot]) then stack
  else if bool_decide (comp = [dot; dot]) then
    match stack with
    | top :: stack' => if bool_decide (top = [dot; dot]) then comp :: stack else stack'
    | [] => if rooted then [] else [comp]
    end
  else comp :: stack.

Definition Clean (p : bytes) : bytes :=
  let rooted := IsAbs p in
  let out := Join (reverse (foldl (clean_step rooted) [] (Split p slash))) slash in
  if rooted then slash :: out else match out with [] => [dot] | _ => out end.

(** Of two elements, the first not empty. *)
Definition filepath_Join (dir p : bytes) : bytes :=
  match p with [] => Clean dir | _ => Clean (dir ++ slash :: p) end.

Definition filepath_Dir (p : bytes) : bytes :=
  Clean (match LastIndexByte p slash with Some i => take (S i) p | None => [] end).

(** ** Directives *)

Section parse.
(** The file system, and whether a PEM file holds certificates and a pair of PEM
    files a certificate with its key. *)
Variable readFile : bytes → option bytes.
Variable AppendCertsFromPEM : bytes → bool.
Variable X509KeyPair : bytes → bytes → bool.

Definition resolvePath (s : parseState) (p : bytes) : bytes :=
  if IsAbs p then p else filepath_Join (po_BaseDir (ps_opt s)) p.

Definition warn (line : nat) (directive : bytes) (s : parseState) : parseState :=
  set_warned (ps_warned s ++ [(line, directive)]) s.

Definition setProto (args : list bytes) (s : parseState) : res ovpn_error parseState :=
  match args with
  | [a] =>
      guard_err (bool_decide (a = text "tcp-server")) (OUnsupported (text "proto"));;
      let n := normalizeProto a in
      guard_err (bool_decide (n = [])) (OValue (text "proto") a);;
      Ok (set_proto n s)
  | _ => Err (OArgs (text "proto"))
  end.

Definition addRemote (args : list bytes) (s : parseState) : res ovpn_error parseState :=
  match args with
  | [] => Err (OArgs (text "remote"))
  | host :: rest =>
      port ← match rest with
             | [] => Ok (text "1194")
             | p :: _ => match Atoi p with Some _ => Ok p | None => Err (OValue (text "remote") p) end
             end;
      let proto := nth 1 rest [] in
      Ok (set_remotes (ps_remotes s ++ [mkRemote host port proto]) s)
  end.

Definition setRenegSec (args : list bytes) (s : parseState) : res ovpn_error parseState :=
  match args with
  | [a] =>
      n ← or_err (Atoi a) (OValue (text "reneg-sec") a);
      guard_err (n <? 0) (OValue (text "reneg-sec") a);;
      Ok (set_reneg (i64 (n * Second)) s)
  | _ => Err (OArgs (text "reneg-sec"))
  end.

Definition tlsVersionFromString (v : bytes) : res ovpn_error Z :=
  if bool_decide (v = text "1.2") then Ok 0x0303
  else if bool_decide (v = text "1.3") then Ok 0x0304
  else Err (OValue (text "tls-version") v).

Definition setTLSMin (args : list bytes) (s : parseState) : res ovpn_error parseState :=
  match args with
  | [] => Err (OArgs (text "tls-version-min"))
  | a :: _ => v ← tlsVersionFromString a; Ok (set_tlsMinVer v s)
  end.

Definition setTLSMax (args : list bytes) (s : parseState) : res ovpn_error parseState :=
  match args with
  | [] => Err (OArgs (text "tls-version-max"))
  | a :: _ => v ← tlsVersionFromString a; Ok (set_tlsMaxVer v s)
  end.

Definition setVerifyName (args : list bytes) (s : parseState) : res ovpn_error parseState :=
  match args with
  | [] => Err (OArgs (text "verify-x509-name"))
  | a :: rest =>
      guard_err (match rest with t :: _ => negb (bool_decide (t = text "name")) | [] => false end)
        (OUnsupported (text "verify-x509-name"));;
      Ok (set_serverName a s)
  end.

(** [strings.TrimRight(s, CR)]. *)
Fixpoint trim_cr (r : bytes) : bytes :=
  match r with c :: r' => if bool_decide (c = cr) then trim_cr r' else r | [] => [] end.
Definition TrimRightCR (s : bytes) : bytes := reverse (trim_cr (reverse s)).

(** Scanning stops after two lines; an error counts if it came before that. *)
Definition readAuthFile (rel : bytes) (s : parseState) : res ovpn_error parseState :=
  match readFile (resolvePath s rel) with
  | None => Err (OFile (text "auth-user-pass"))
  | Some data =>
      let '(ls, e) := Lines MaxScanTokenSize data None in
      let user := TrimRightCR (nth 0 ls []) in
      let pass := TrimRightCR (nth 1 ls []) in
      match e with
      | Some e => if (length ls <? 2)%nat then Err (OScan e) else Ok s
      | None => Ok s
      end;;
      guard_err (bool_decide (user = []) || bool_decide (pass = [])) OCredentials;;
      Ok (set_opt (set_credentials user pass (ps_opt s)) s)
  end.

Definition load (directive : bytes) (args : list bytes) (s : parseState) : res ovpn_error bytes :=
  match args with
  | [p] => or_err (readFile (resolvePath s p)) (OFile directive)
  | _ => Err (OArgs directive)
  end.

Definition loadCAFile (args : list bytes) (s : parseState) : res ovpn_error parseState :=
  b ← load (text "ca") args s; Ok (set_caPEMs (ps_caPEMs s ++ [b]) s).
Definition loadCertFile (args : list bytes) (s : parseState) : res ovpn_error parseState :=
  b ← load (text "cert") args s; Ok (set_certPEM (Some b) s).
Definition loadKeyFile (args : list bytes) (s : parseState) : res ovpn_error parseState :=
  b ← load (text "key") args s; Ok (set_keyPEM (Some b) s).

(** The first argument is enough here. *)
Definition load_first (directive : bytes) (args : list bytes) (s : parseState) : res ovpn_error bytes :=
  match args with
  | [] => Err (OArgs directive)
  | p :: _ =>
      b ← or_err (readFile (resolvePath s p)) (OFile directive);
      guard_err (bool_decide (b = [])) (OEmptyFile directive);;
      Ok b
  end.

Definition loadTLSCryptFile (args : list bytes) (v2 : bool) (s : parseState) : res ovpn_error parseState :=
  b ← load_first (text "tls-crypt") args s;
  Ok (if v2 then set_tlsCV2 b s else set_tlsCrypt b s).

Definition setKeyDirection (args : list bytes) (s : parseState) : res ovpn_error parseState :=
  match args with
  | [a] =>
      match Atoi a with
      | Some n => guard_err (negb (n =? 0) && negb (n =? 1)) (OValue (text "key-direction") a);;
                  Ok (set_tlsAuthKeyDir n s)
      | None => Err (OValue (text "key-direction") a)
      end
  | _ => Err (OArgs (text "key-direction"))
  end.

Definition loadTLSAuthFile (args : list bytes) (s : parseState) : res ovpn_error parseState :=
  b ← load_first (text "tls-auth") args s;
  let s := set_tlsAuth (Some b) s in
  if (2 <=? length args)%nat then setKeyDirection (take 1 (drop 1 args)) s else Ok s.

Definition str (b : bytes) : string := String.string_of_list_byte b.

Definition addSetenv (args : list bytes) (s : parseState) : parseState :=
  match args with
  | k :: v :: _ =>
      if HasPrefix k (text "UV_") then set_peerInfoExtra (<[str k := str v]> (ps_peerInfoExtra s)) s else s
  | _ => s
  end.

Definition setScramble (args : list bytes) (s : parseState) : res ovpn_error parseState :=
  match args with
  | [] => Err (OArgs (text "scramble"))
  | mode :: rest =>
      let secret := nth 0 rest [] in
      sc ← (if bool_decide (mode = text "xormask") then
              guard_err (bool_decide (secret = [])) (OArgs (text "scramble xormask"));;
              Ok (mkScrambleConfig ScrambleXorMask secret)
            else if bool_decide (mode = text "obfuscate") then
              guard_err (bool_decide (secret = [])) (OArgs (text "scramble obfuscate"));;
              Ok (mkScrambleConfig ScrambleObfuscate secret)
            else if bool_decide (mode = text "xorptrpos") then Ok (mkScrambleConfig ScrambleXorPtrPos [])
            else if bool_decide (mode = text "reverse") then Ok (mkScrambleConfig ScrambleReverse [])
            else Err (OValue (text "scramble") mode));
      Ok (set_scramble (Some sc) s)
  end.

Definition unless (b : bool) (name : bytes) (s : parseState) : res ovpn_error parseState :=
  if b then Err (OUnsupported name) else Ok s.

Definition silent : list string :=
  ["rport"; "lport"; "local"; "nobind"; "remote-cert-tls"; "keepalive"; "ping"; "ping-restart"; "ping-exit";
   "hand-window"; "tran-window"; "explicit-exit-notify"; "auth-retry"; "topology"; "client"; "tls-client"; "pull";
   "nopull"; "persist-key"; "persist-tun"; "resolv-retry"; "script-security"; "mute"; "mute-replay-warnings"; "verb";
   "auth-nocache"; "tun-mtu"; "tun-mtu-extra"; "link-mtu"; "fragment"; "mssfix"; "route"; "route-gateway";
   "route-metric"; "route-delay"; "route-noexec"; "redirect-gateway"; "redirect-private"; "dhcp-option";
   "register-dns"; "sndbuf"; "rcvbuf"; "fast-io"; "connect-retry"; "connect-retry-max"; "connect-timeout";
   "replay-window"; "key-method"; "tls-cipher"; "tls-ciphersuites"].

(** The cases are disjoint: their order does not matter. *)
Definition handleDirective (name : bytes) (args : list bytes) (line : nat) (s : parseState)
  : res ovpn_error parseState :=
  let on w := bool_decide (name = text w) in
  if on "proto" then setProto args s
  else if on "remote" then addRemote args s
  else if on "remote-random" then Ok (set_remoteRand true s)
  else if on "cipher" then
    match args with [a] => Ok (set_cipher a s) | _ => Err (OArgs name) end
  else if on "data-ciphers" || on "ncp-ciphers" then
    match args with
    | [a] =>
        let cs := filter (λ c, c ≠ []) (TrimSpace <$> Split a colon) in
        Ok (set_dataCiphers (ps_dataCiphers s ++ cs) s)
    | _ => Err (OArgs name)
    end
  else if on "auth" then
    match args with [a] => Ok (set_authDigest (ToUpper (str a)) s) | _ => Ok s end
  else if on "ca" then loadCAFile args s
  else if on "cert" then loadCertFile args s
  else if on "key" then loadKeyFile args s
  else if on "tls-crypt" then loadTLSCryptFile args false s
  else if on "tls-crypt-v2" then loadTLSCryptFile args true s
  else if on "tls-auth" then loadTLSAuthFile args s
  else if on "tls-version-min" then setTLSMin args s
  else if on "tls-version-max" then setTLSMax args s
  else if on "verify-x509-name" then setVerifyName args s
  else if on "reneg-sec" then setRenegSec args s
  else if on "reneg-bytes" || on "reneg-pkts" then Ok (warn line name s)
  else if on "scramble" then setScramble args s
  else if on "key-direction" then setKeyDirection args s
  else if on "setenv" then Ok (addSetenv args s)
  else if on "auth-user-pass" then
    let s := set_authUserPass true s in
    match args with
    | [a] => readAuthFile a s
    | [] => Ok s
    | _ => Err (OArgs name)
    end
  else if on "comp-lzo" then
    match args with
    | [a] => unless (negb (among a ["no"; "off"])) name s
    | _ => Err (OUnsupported name)
    end
  else if on "compress" then
    match args with
    | [] => Ok s
    | a :: _ => unless (negb (among a ["stub-v2"; ""])) name s
    end
  else if on "dev" then
    match args with
    | [a] => unless (HasPrefix a (text "tap")) name s
    | _ => Ok s
    end
  else if on "dev-type" then
    match args with
    | [a] => unless (bool_decide (a = text "tap")) name s
    | _ => Ok s
    end
  else if among name silent then Ok s
  else Ok (warn line name s).

(** A block without lines is a nil slice. *)
Definition nil_slice (b : bytes) : option bytes := match b with [] => None | _ => Some b end.

Definition handleInline (name content : bytes) (line : nat) (s : parseState) : res ovpn_error parseState :=
  let on w := bool_decide (name = text w) in
  if on "ca" then Ok (set_caPEMs (ps_caPEMs s ++ [content]) s)
  else if on "cert" then Ok (set_certPEM (nil_slice content) s)
  else if on "key" then Ok (set_keyPEM (nil_slice content) s)
  else if on "tls-crypt" then Ok (set_tlsCrypt content s)
  else if on "tls-crypt-v2" then Ok (set_tlsCV2 content s)
  else if on "tls-auth" then Ok (set_tlsAuth (nil_slice content) s)
  else if on "secret" then Err (OUnsupported (text "secret"))
  else Ok (warn line name s).

(** ** The loop over the lines *)

Definition bom : bytes := [xef; xbb; xbf].

Definition addInline (n : Z) (s : parseState) : parseState := set_inlineBytesTotal (ps_inlineBytesTotal s + n) s.

(** What a line asks for: a block to read, a directive, nothing. *)
Definition block_line (name : bytes) (lines : list bytes) (lineNo : nat) (scan : option scan_error) (s : parseState)
  : res ovpn_error (parseState * nat * list bytes) :=
  match readInlineBlock name lines with
  | None => Err (OAt lineNo (match scan with Some e => OScan e | None => OUnterminatedBlock name end))
  | Some (content, n, rest) =>
      let s := addInline (zlen content) s in
      guard_err (MaxInlineBytesTotal <? ps_inlineBytesTotal s) (OAt lineNo OInlineSize);;
      match handleInline name content lineNo s with
      | Ok s => Ok (s, (lineNo + n)%nat, rest)
      | Err e => Err (OAt lineNo e)
      | Panic => Panic
      end
  end.

Definition directive_line (line : bytes) (lineNo : nat) (s : parseState) : res ovpn_error parseState :=
  match tokenize line with
  | None => Err (OAt lineNo OUnterminatedQuote)
  | Some [] => Ok s
  | Some (name :: args) =>
      match handleDirective name args lineNo s with
      | Ok s => Ok s
      | Err e => Err (OAt lineNo e)
      | Panic => Panic
      end
  end.

(** The state with the outcome: a directive that fails has not written into the
    shared options.  Each round takes at least one line. *)
Fixpoint run_loop (fuel : nat) (lines : list bytes) (lineNo : nat) (scan : option scan_error) (s : parseState)
  : parseState * res ovpn_error unit :=
  match fuel with
  | O => (s, Panic)
  | S fuel' =>
      match lines with
      | [] => (s, match scan with Some e => Err (OScan e) | None => Ok tt end)
      | raw :: lines' =>
          let lineNo := S lineNo in
          let raw := if (lineNo =? 1)%nat then TrimPrefix raw bom else raw in
          let line := TrimSpace (stripComment raw) in
          match line with
          | [] => run_loop fuel' lines' lineNo scan s
          | _ =>
              match openTag line with
              | Some name =>
                  match block_line name lines' lineNo scan s with
                  | Ok (s, lineNo, rest) => run_loop fuel' rest lineNo scan s
                  | Err e => (s, Err e)
                  | Panic => (s, Panic)
                  end
              | None =>
                  match directive_line line lineNo s with
                  | Ok s => run_loop fuel' lines' lineNo scan s
                  | Err e => (s, Err e)
                  | Panic => (s, Panic)
                  end
              end
          end
      end
  end.

Definition run (data : bytes) (failed : option scan_error) (s : parseState) : parseState * res ovpn_error unit :=
  let '(lines, scan) := Lines maxLine data failed in
  run_loop (S (length lines)) lines 0 scan s.

(** ** The checks *)

Definition validateCiphers (cs : list bytes) : res ovpn_error unit :=
  match list_find (λ c, among c ["AES-256-GCM"; "AES-128-GCM"; "CHACHA20-POLY1305"] = false) cs with
  | Some (_, c) => Err (OCipher c)
  | None => Ok tt
  end.

(** [rand.IntN] gives any index below the number of remotes: [rnd] modulo it. *)
Definition pickRemote (rnd : nat) (s : parseState) : res ovpn_error Remote :=
  match po_PickRemote (ps_opt s) with
  | Some f => Ok (f (ps_remotes s))
  | None => if ps_remoteRand s && (1 <? length (ps_remotes s))%nat then index (ps_remotes s) (rnd mod length (ps_remotes s))
            else index (ps_remotes s) 0
  end.

Record Parsed := mkParsed {
  pd_Config : Config;
  pd_Remotes : list Remote;
  pd_AuthUserPass : bool
}.

Definition len_set (b : bytes) : nat := if (0 <? length b)%nat then 1 else 0.

Fixpoint check_cas (i : nat) (pems : list bytes) : res ovpn_error unit :=
  match pems with
  | [] => Ok tt
  | p :: ps => guard_err (negb (AppendCertsFromPEM p)) (OCA i);; check_cas (S i) ps
  end.

Definition serverName (picked : Remote) (s : parseState) : bytes :=
  if negb (bool_decide (po_ServerNameOverride (ps_opt s) = [])) then po_ServerNameOverride (ps_opt s)
  else if negb (bool_decide (ps_serverName s = [])) then ps_serverName s
  else if isHostname (rm_Host picked) then rm_Host picked else [].

Definition chosen_ciphers (s : parseState) : list bytes :=
  let cs := filter (λ c, EqualFold c (text "none") = false) (ps_dataCiphers s) in
  match cs with
  | [] => if negb (bool_decide (ps_cipher s = [])) && negb (EqualFold (ps_cipher s) (text "none"))
          then [ps_cipher s] else []
  | _ => cs
  end.

Definition client_pair (s : parseState) : res ovpn_error (option (bytes * bytes)) :=
  match ps_certPEM s, ps_keyPEM s with
  | None, None => Ok None
  | Some c, Some k => guard_err (negb (X509KeyPair c k)) OPair;; Ok (Some (c, k))
  | _, _ => Err OPairIncomplete
  end.

Definition key_direction (s : parseState) : Z :=
  if ps_tlsAuthKeyDir s <? 0 then match ps_tlsAuth s with Some _ => 1 | None => 0 end else ps_tlsAuthKeyDir s.

Definition finalize (rnd : nat) (s : parseState) : res ovpn_error Parsed :=
  guard_err (bool_decide (ps_remotes s = [])) ONoRemote;;
  let proto := match ps_proto s with [] => text "udp" | p => p end in
  let auth := default [] (ps_tlsAuth s) in
  let ctrlKeys := (len_set (ps_tlsCrypt s) + len_set (ps_tlsCV2 s) + len_set auth)%nat in
  guard_err (ctrlKeys =? 0)%nat ONoControlKey;;
  guard_err (1 <? ctrlKeys)%nat OManyControlKeys;;
  picked ← pickRemote rnd s;
  let minVersion := if negb (ps_tlsMinVer s =? 0) then ps_tlsMinVer s else 0x0303 in
  let name := serverName picked s in
  check_cas 0 (ps_caPEMs s);;
  let roots := match ps_caPEMs s with [] => None | pems => Some pems end in
  let anonymous := bool_decide (name = []) in
  guard_err (anonymous && negb (po_AllowNoServerIdentity (ps_opt s))) ErrNoServerIdentity;;
  pair ← client_pair s;
  let ciphers := chosen_ciphers s in
  validateCiphers ciphers;;
  let network := match normalizeProto (rm_Proto picked) with [] => proto | n => n end in
  let tlsCfg := mkTLSConfig minVersion (ps_tlsMaxVer s) name roots anonymous
                  (if anonymous then Some roots else None) pair in
  Ok (mkParsed
        (Dial.mkConfig network (Remote_Addr picked) (ps_scramble s) (Some tlsCfg)
           (po_Username (ps_opt s)) (po_Password (ps_opt s)) (ps_tlsCrypt s) (ps_tlsCV2 s) auth (ps_authDigest s)
           (key_direction s) (ps_peerInfoExtra s) (str <$> ciphers) 0 (ps_reneg s) false 0 0 0 0 "")
        (ps_remotes s) (ps_authUserPass s)).

(** The options come back as the parser leaves them in the caller's struct. *)
Definition Parse (data : bytes) (failed : option scan_error) (rnd : nat) (opt : ParseOptions)
  : ParseOptions * res ovpn_error Parsed :=
  let opt := if bool_decide (po_BaseDir opt = []) then set_BaseDir [dot] opt else opt in
  let '(st, r) := run data failed (newState opt) in
  (ps_opt st, r;; finalize rnd st).

Definition ParseFile (path : bytes) (rnd : nat) (opt : ParseOptions) : ParseOptions * res ovpn_error Parsed :=
  match readFile path with
  | None => (opt, Err (OFile path))
  | Some data =>
      let opt := if bool_decide (po_BaseDir opt = []) then set_BaseDir (filepath_Dir path) opt else opt in
      Parse data None rnd opt
  end.
End parse.

(** ** Examples *)

Definition no_files : bytes → option bytes := λ _, None.
Definition any_cert : bytes → bool := λ _, true.
Definition any_pair : bytes → bytes → bool := λ _ _, true.
Definition no_options : ParseOptions := mkParseOptions [] [] [] [] false None.
Definition file (ls : list string) : bytes := concat ((λ l, text l ++ [lf]) <$> ls).

Example Parse_ok :
  Parse no_files any_cert any_pair
    (bom ++ file ["client # a profile"; "proto udp6"; "remote vpn.example 443 tcp"; "remote 10.0.0.1"; "cipher none";
       "data-ciphers 'AES-256-GCM:none: AES-128-GCM'"; "reneg-sec 60"; "setenv UV_ID 'a b'"; "<ca>"; "PEM # 1"; "</ca> ";
       "<tls-auth>"; "key"; "</tls-auth>"; "unknown x"]) None 5 no_options =
  (set_BaseDir [dot] no_options,
   Ok (mkParsed
     (Dial.mkConfig (text "tcp") (text "vpn.example:443") None
        (Some (mkTLSConfig 0x0303 0 (text "vpn.example") (Some [text "PEM # 1" ++ [lf]]) false None None))
        [] [] [] [] (text "key" ++ [lf]) "" 1 {["UV_ID" := "a b"]} ["AES-256-GCM"; "AES-128-GCM"] 0 (60 * Second)
        false 0 0 0 0 "")
     [mkRemote (text "vpn.example") (text "443") (text "tcp"); mkRemote (text "10.0.0.1") (text "1194") []] false)).
Proof. by vm_compute. Qed.

Example Parse_errors :
  (Parse no_files any_cert any_pair (file ["remote h"; "<ca>"; "x"]) None 0 no_options).2 =
    Err (OAt 2 (OUnterminatedBlock (text "ca"))) ∧
  (Parse no_files any_cert any_pair (file ["remote 10.0.0.1"; "<tls-crypt>"; "k"; "</tls-crypt>"]) None 0 no_options).2 =
    Err ErrNoServerIdentity ∧
  (Parse no_files any_cert any_pair (file ["remote h"; "<tls-crypt>"; "</tls-crypt>"]) None 0 no_options).2 =
    Err ONoControlKey ∧
  (Parse no_files any_cert any_pair (file ["dev tap0"]) None 0 no_options).2 = Err (OAt 1 (OUnsupported (text "dev"))) ∧
  (Parse no_files any_cert any_pair (file ["remote h 70000x"]) None 0 no_options).2 =
    Err (OAt 1 (OValue (text "remote") (text "70000x"))).
Proof. by vm_compute. Qed.

Example paths :
  filepath_Join (text "/etc/ovpn/") (text "../keys/./ta.key") = text "/etc/keys/ta.key" ∧
  filepath_Join [dot] (text "../ta.key") = text "../ta.key" ∧ filepath_Join (text "a") (text "../..//b/") = text "../b" ∧
  filepath_Dir (text "/home/u/c.ovpn") = text "/home/u" ∧ filepath_Dir (text "c.ovpn") = [dot] ∧
  Clean (text "/../x") = text "/x".
Proof. by vm_compute. Qed.

(** What the checks of [reneg-sec] and [remote] let through. *)
Example accepted_numbers :
  (setRenegSec [text "9223372037"] (newState no_options) = Ok (set_reneg (-9223372036709551616) (newState no_options))) ∧
  (addRemote [text "h"; text "-1"] (newState no_options) =
    Ok (set_remotes [mkRemote (text "h") (text "-1") []] (newState no_options))).
Proof. by vm_compute. Qed.
