(* ===== verification/OvpnFacts.v ===== *)
(** What a parsed configuration file guarantees: the state the directives build
    is well-formed on every input, what [finalize] returns passes the field checks of
    a dial, the server's identity is verified unless the caller opted out, and a
    file written directive by directive is read as those directives. *)
From S2P Require Import Prelude TlsCrypt TlsAuth DataKeys Text Netip Handshake Transport PushReply Dial OvpnLex Ovpn.
Local Open Scope Z_scope.

Section facts.
Variable readFile : bytes → option bytes.
Variable AppendCertsFromPEM : bytes → bool.
Variable X509KeyPair : bytes → bytes → bool.
(** The options of the caller. *)
Variable opt0 : ParseOptions.

(** ** The invariant of the parser *)

Definition tls_version (v : Z) : Prop := v = 0 ∨ v = 0x0303 ∨ v = 0x0304.

(** The options that decide about the identity of the server stay the caller's. *)
Record same_policy (o : ParseOptions) : Prop := {
  sp_override : po_ServerNameOverride o = po_ServerNameOverride opt0;
  sp_allow : po_AllowNoServerIdentity o = po_AllowNoServerIdentity opt0;
  sp_pick : po_PickRemote o = po_PickRemote opt0
}.

Record st_ok (s : parseState) : Prop := {
  so_opt : same_policy (ps_opt s);
  so_proto : ps_proto s ∈ [[]; text "udp"; text "tcp"];
  so_min : tls_version (ps_tlsMinVer s);
  so_max : tls_version (ps_tlsMaxVer s);
  so_dir : ps_tlsAuthKeyDir s ∈ [-1; 0; 1];
  so_scramble : validateScramble (ps_scramble s) = None;
  so_remotes : Forall (λ r, is_Some (Atoi (rm_Port r))) (ps_remotes s);
  so_reneg : - 2 ^ 63 ≤ ps_reneg s < 2 ^ 63;
  so_inline : 0 ≤ ps_inlineBytesTotal s ≤ MaxInlineBytesTotal
}.

(** A step neither panics nor breaks it. *)
Definition keeps (r : res ovpn_error parseState) : Prop :=
  match r with Ok s => st_ok s | Err _ => True | Panic => False end.

Lemma keeps_bind {A} (m : res ovpn_error A) f :
  no_panic m → (∀ a, m = Ok a → keeps (f a)) → keeps (m ≫= f).
Proof. destruct m; cbn; unfold no_panic; naive_solver. Qed.

Lemma keeps_guard b e (f : unit → res ovpn_error parseState) : (b = false → keeps (f tt)) → keeps (guard_err b e ≫= f).
Proof. destruct b; cbn; auto. Qed.

Lemma newState_ok o : same_policy o → st_ok (newState o).
Proof. intros H. split; try done; try (by left); by apply (bool_decide_unpack _). Qed.

(** An assignment to a field the invariant does not constrain, or to a value it allows. *)
Ltac assign H := let s := fresh in destruct H; split; cbn; try done.

Lemma normalizeProto_cases p : normalizeProto p ∈ [[]; text "udp"; text "tcp"].
Proof. unfold normalizeProto. repeat case_match; set_solver. Qed.

Lemma setProto_keeps args s : st_ok s → keeps (setProto args s).
Proof.
  intros H. unfold setProto. destruct args as [|a [|? ?]]; [done| |done].
  do 2 (apply keeps_guard; intros _). assign H. apply normalizeProto_cases.
Qed.

Lemma addRemote_keeps args s : st_ok s → keeps (addRemote args s).
Proof.
  intros H. unfold addRemote. destruct args as [|host rest]; [done|].
  apply keeps_bind; [by repeat case_match|]. intros port Hp. assign H. apply list.Forall_app. split; [done|].
  apply (list.Forall_singleton (λ r, is_Some (Atoi (rm_Port r)))). cbn. destruct rest as [|p rest].
  - injection Hp as <-. by eexists.
  - destruct (Atoi p) as [n|] eqn:Hn; [|done]. injection Hp as <-. by exists n.
Qed.

Lemma i64_range z : - 2 ^ 63 ≤ i64 z < 2 ^ 63.
Proof. unfold i64. pose proof (Z.mod_pos_bound (z + 2 ^ 63) (2 ^ 64) ltac:(lia)). lia. Qed.

Lemma setRenegSec_keeps args s : st_ok s → keeps (setRenegSec args s).
Proof.
  intros H. unfold setRenegSec. destruct args as [|a [|? ?]]; [done| |done].
  apply keeps_bind; [apply or_err_no_panic|]. intros n _. apply keeps_guard. intros _. assign H. apply i64_range.
Qed.

Lemma tlsVersion_cases v : no_panic (tlsVersionFromString v) ∧ ∀ x, tlsVersionFromString v = Ok x → tls_version x.
Proof.
  unfold tlsVersionFromString, tls_version. repeat case_bool_decide; (split; [done|]); intros x [= <-]; tauto.
Qed.

Lemma setTLS_keeps args s : st_ok s → keeps (setTLSMin args s) ∧ keeps (setTLSMax args s).
Proof.
  intros H. unfold setTLSMin, setTLSMax. destruct args as [|a args]; [done|].
  destruct (tlsVersion_cases a) as [Hn Hv].
  split; (apply keeps_bind; [done|]; intros v Hav; assign H; by apply Hv).
Qed.

Lemma setVerifyName_keeps args s : st_ok s → keeps (setVerifyName args s).
Proof.
  intros H. unfold setVerifyName. destruct args as [|a rest]; [done|]. apply keeps_guard. intros _. by assign H.
Qed.

Lemma readAuthFile_keeps rel s : st_ok s → keeps (readAuthFile readFile rel s).
Proof.
  intros H. unfold readAuthFile. destruct (readFile _) as [data|]; [|done].
  destruct (Lines _ _ _) as [ls e]. apply keeps_bind; [by repeat case_match|]. intros _ _.
  apply keeps_guard. intros _. assign H. destruct so_opt0. by split.
Qed.

Lemma load_no_panic d args s : no_panic (load readFile d args s) ∧ no_panic (load_first readFile d args s).
Proof.
  unfold load, load_first. split; [destruct args as [|p [|? ?]]; try done; apply or_err_no_panic|].
  destruct args as [|p args]; [done|]. apply no_panic_bind; [apply or_err_no_panic|]. intros b _.
  by apply no_panic_guard.
Qed.

Lemma load_files_keep args s :
  st_ok s → keeps (loadCAFile readFile args s) ∧ keeps (loadCertFile readFile args s) ∧
    keeps (loadKeyFile readFile args s) ∧ ∀ v2, keeps (loadTLSCryptFile readFile args v2 s).
Proof.
  intros H. unfold loadCAFile, loadCertFile, loadKeyFile, loadTLSCryptFile.
  split_and!; [..|intros v2]; (apply keeps_bind; [apply load_no_panic|]); intros b _; try destruct v2; by assign H.
Qed.

Lemma setKeyDirection_keeps args s : st_ok s → keeps (setKeyDirection args s).
Proof.
  intros H. unfold setKeyDirection. destruct args as [|a [|? ?]]; [done| |done].
  destruct (Atoi a) as [n|]; [|done]. apply keeps_guard. intros Hn. assign H.
  apply andb_false_iff in Hn as [Hn|Hn]; apply negb_false_iff, Z.eqb_eq in Hn; rewrite Hn; set_solver.
Qed.

Lemma loadTLSAuthFile_keeps args s : st_ok s → keeps (loadTLSAuthFile readFile args s).
Proof.
  intros H. unfold loadTLSAuthFile. apply keeps_bind; [apply load_no_panic|]. intros b _.
  assert (st_ok (set_tlsAuth (Some b) s)) as Hs by (by assign H).
  destruct (2 <=? length args)%nat; [by apply setKeyDirection_keeps|done].
Qed.

Lemma setScramble_keeps args s : st_ok s → keeps (setScramble args s).
Proof.
  intros H. unfold setScramble. destruct args as [|mode rest]; [done|].
  apply keeps_bind; [by repeat (case_match || unfold guard_err)|]. intros sc Hsc. assign H.
  repeat case_match; try done; destruct (nth 0 rest []) as [|b k]; try done; by injection Hsc as <-.
Qed.

Lemma unless_keeps b name s : st_ok s → keeps (unless b name s).
Proof. by destruct b. Qed.

Lemma warn_ok line name s : st_ok s → st_ok (warn line name s).
Proof. intros H. by assign H. Qed.

Lemma addSetenv_ok args s : st_ok s → st_ok (addSetenv args s).
Proof. intros H. unfold addSetenv. repeat case_match; try done. by assign H. Qed.

Lemma handleDirective_keeps name args line s : st_ok s → keeps (handleDirective readFile name args line s).
Proof.
  intros H. unfold handleDirective. pose proof (setTLS_keeps args s H) as [? ?].
  pose proof (load_files_keep args s H) as (? & ? & ? & ?).
  assert (st_ok (set_authUserPass true s)) as Ha by (by assign H).
  repeat lazymatch goal with
  | |- keeps (if ?b then _ else _) => destruct b
  | |- keeps (match ?l with [] => _ | _ :: _ => _ end) => destruct l
  end; first
    [ done | by assign H | by apply setProto_keeps | by apply addRemote_keeps | by apply loadTLSAuthFile_keeps
    | by apply setVerifyName_keeps | by apply setRenegSec_keeps | by apply warn_ok | by apply setScramble_keeps
    | by apply setKeyDirection_keeps | by apply addSetenv_ok | by apply readAuthFile_keeps | by apply unless_keeps ].
Qed.

Lemma handleInline_keeps name content line s : st_ok s → keeps (handleInline name content line s).
Proof.
  intros H. unfold handleInline.
  repeat match goal with |- keeps (if ?b then _ else _) => destruct b end; first [done | by assign H | by apply warn_ok].
Qed.

Lemma directive_line_keeps line lineNo s : st_ok s → keeps (directive_line readFile line lineNo s).
Proof.
  intros H. unfold directive_line. destruct (tokenize line) as [[|name args]|]; [done| |done].
  pose proof (handleDirective_keeps name args lineNo s H) as Hk. by destruct (handleDirective _ _ _ _ _).
Qed.

Lemma readInlineBlock_shorter name lines out n rest :
  readInlineBlock name lines = Some (out, n, rest) → (length rest < length lines)%nat.
Proof.
  revert out n. induction lines as [|raw lines IH]; intros out n H; [done|]. cbn in *.
  case_bool_decide; [injection H as _ _ <-; lia|].
  destruct (readInlineBlock name lines) as [[[out' n'] rest']|]; [|done]. cbn in H. injection H as _ _ <-.
  specialize (IH _ _ eq_refl). lia.
Qed.

Lemma block_line_keeps name lines lineNo scan s :
  st_ok s → match block_line name lines lineNo scan s with
            | Ok (s', _, rest) => st_ok s' ∧ (length rest < length lines)%nat
            | Err _ => True
            | Panic => False
            end.
Proof.
  intros H. unfold block_line. destruct (readInlineBlock name lines) as [[[content n] rest]|] eqn:Hb; [|done].
  apply readInlineBlock_shorter in Hb. unfold guard_err.
  destruct (Z.ltb_spec MaxInlineBytesTotal (ps_inlineBytesTotal (addInline (zlen content) s))) as [|Hle]; [done|].
  cbn [mbind res_bind].
  assert (st_ok (addInline (zlen content) s)) as Hs.
  { assign H. unfold zlen in *. cbn in Hle. lia. }
  pose proof (handleInline_keeps name content lineNo _ Hs) as Hk. by destruct (handleInline _ _ _ _).
Qed.

(** Every line read is a round: the fuel is enough. *)
Lemma run_loop_keeps fuel lines lineNo scan s :
  (length lines < fuel)%nat → st_ok s →
  st_ok (run_loop readFile fuel lines lineNo scan s).1 ∧ (run_loop readFile fuel lines lineNo scan s).2 ≠ Panic.
Proof.
  revert lines lineNo s. induction fuel as [|fuel IH]; intros lines lineNo s Hl H; [lia|]. cbn [run_loop].
  destruct lines as [|raw lines]; [by destruct scan|]. cbn [length] in Hl.
  destruct (TrimSpace _) as [|b line]; [apply IH; [lia|done]|].
  destruct (openTag _) as [name|].
  - pose proof (block_line_keeps name lines (S lineNo) scan s H) as Hk.
    destruct (block_line _ _ _ _ _) as [[[s' n] rest]|e|]; [|done|done]. apply IH; [lia|apply Hk].
  - pose proof (directive_line_keeps (b :: line) (S lineNo) s H) as Hk.
    destruct (directive_line _ _ _ _) as [s'|e|]; [|done|done]. apply IH; [lia|done].
Qed.

Lemma run_keeps data failed s :
  st_ok s → st_ok (run readFile data failed s).1 ∧ (run readFile data failed s).2 ≠ Panic.
Proof. intros H. unfold run. destruct (Lines _ _ _) as [lines scan]. apply run_loop_keeps; [lia|done]. Qed.

(** ** What [finalize] checked *)

Abbreviation auth_key s := (default [] (ps_tlsAuth s)).

Definition final_tls (picked : Remote) (pair : option (bytes * bytes)) (s : parseState) : TLSConfig :=
  let roots := match ps_caPEMs s with [] => None | pems => Some pems end in
  let anonymous := bool_decide (serverName picked s = []) in
  mkTLSConfig (if negb (ps_tlsMinVer s =? 0) then ps_tlsMinVer s else 0x0303) (ps_tlsMaxVer s) (serverName picked s)
    roots anonymous (if anonymous then Some roots else None) pair.

Definition final_config (picked : Remote) (pair : option (bytes * bytes)) (s : parseState) : Config :=
  let proto := match ps_proto s with [] => text "udp" | p => p end in
  let network := match normalizeProto (rm_Proto picked) with [] => proto | n => n end in
  Dial.mkConfig network (Remote_Addr picked) (ps_scramble s) (Some (final_tls picked pair s))
    (po_Username (ps_opt s)) (po_Password (ps_opt s)) (ps_tlsCrypt s) (ps_tlsCV2 s) (auth_key s) (ps_authDigest s)
    (key_direction s) (ps_peerInfoExtra s) (str <$> chosen_ciphers s) 0 (ps_reneg s) false 0 0 0 0 "".

Record finalized (rnd : nat) (s : parseState) (p : Parsed) : Prop := {
  fi_remotes : ps_remotes s ≠ [];
  fi_keys : one_control_key (ps_tlsCrypt s) (ps_tlsCV2 s) (auth_key s);
  fi_ciphers : validateCiphers (chosen_ciphers s) = Ok tt;
  fi_result : ∃ picked pair, pickRemote rnd s = Ok picked ∧
    (serverName picked s = [] → po_AllowNoServerIdentity (ps_opt s) = true) ∧
    p = mkParsed (final_config picked pair s) (ps_remotes s) (ps_authUserPass s)
}.

Lemma len_set_keys v1 v2 auth :
  (len_set v1 + len_set v2 + len_set auth =? 0)%nat = false →
  (1 <? len_set v1 + len_set v2 + len_set auth)%nat = false → one_control_key v1 v2 auth.
Proof. unfold one_control_key. destruct v1, v2, auth; cbn; try done; naive_solver. Qed.

Lemma finalize_Ok rnd s p :
  finalize AppendCertsFromPEM X509KeyPair rnd s = Ok p → finalized rnd s p.
Proof.
  unfold finalize. intros H.
  apply bind_Ok in H as (_ & H1%guard_Ok & H). apply bind_Ok in H as (_ & H2%guard_Ok & H).
  apply bind_Ok in H as (_ & H3%guard_Ok & H). apply bind_Ok in H as (picked & H4 & H).
  apply bind_Ok in H as (_ & _ & H). apply bind_Ok in H as (_ & H6%guard_Ok & H).
  apply bind_Ok in H as (pair & _ & H). apply bind_Ok in H as ([] & H8 & [= <-]). split.
  - by apply bool_decide_eq_false in H1.
  - by apply len_set_keys.
  - done.
  - exists picked, pair. split_and!; [done| |done]. intros Hn. rewrite bool_decide_eq_true_2 in H6 by done.
    by apply negb_false_iff in H6.
Qed.

Lemma check_cas_no_panic i pems : no_panic (check_cas AppendCertsFromPEM i pems).
Proof.
  revert i. induction pems as [|q pems IH]; intros i; [done|]. cbn. apply no_panic_guard. intros _. apply IH.
Qed.

Lemma pickRemote_no_panic rnd s : ps_remotes s ≠ [] → no_panic (pickRemote rnd s).
Proof.
  intros Hr. unfold pickRemote. destruct (po_PickRemote _); [done|].
  assert (0 < length (ps_remotes s))%nat by (destruct (ps_remotes s); [done|cbn; lia]).
  destruct (_ && _); apply index_no_panic; [by apply Nat.mod_upper_bound; lia|done].
Qed.

Lemma finalize_no_panic rnd s : no_panic (finalize AppendCertsFromPEM X509KeyPair rnd s).
Proof.
  unfold finalize. apply no_panic_guard. intros Hr%bool_decide_eq_false. do 2 (apply no_panic_guard; intros _).
  apply no_panic_bind; [by apply pickRemote_no_panic|]. intros picked _.
  apply no_panic_bind; [apply check_cas_no_panic|]. intros _ _. apply no_panic_guard. intros _.
  apply no_panic_bind; [unfold client_pair, guard_err; by repeat case_match|]. intros pair _.
  apply no_panic_bind; [unfold validateCiphers; by repeat case_match|]. done.
Qed.

Lemma profile_spec data failed rnd :
  match (Parse readFile AppendCertsFromPEM X509KeyPair data failed rnd opt0).2 with
  | Ok p => ∃ s, st_ok s ∧ finalized rnd s p
  | Err _ => True
  | Panic => False
  end.
Proof.
  unfold Parse. set (opt := if bool_decide _ then _ else _).
  assert (st_ok (newState opt)) as H by (apply newState_ok; subst opt; by case_bool_decide).
  pose proof (run_keeps data failed _ H) as [Hs Hp].
  destruct (run _ _ _ _) as [st [[]|e|]]; [|done|by destruct (Hp eq_refl)]. cbn [fst snd mbind res_bind] in *.
  pose proof (finalize_no_panic rnd st) as Hn.
  destruct (finalize _ _ rnd st) as [p|e|] eqn:Hf; [|done|by destruct (Hn eq_refl)].
  exists st. split; [done|]. by eapply finalize_Ok.
Qed.

Lemma Remote_Addr_ne r : Remote_Addr r ≠ [].
Proof. unfold Remote_Addr, JoinHostPort. case_bool_decide; [done|]. by destruct (unbracket _). Qed.

Lemma validateCiphers_Ok cs :
  validateCiphers cs = Ok tt → Forall (λ c, ∃ n, AEADKeyLen c = Ok n) (str <$> cs).
Proof.
  unfold validateCiphers. destruct (list_find _ cs) as [[i c]|] eqn:Hf; [done|]. intros _.
  apply list_find_None in Hf. apply list.Forall_fmap. eapply list.Forall_impl; [exact Hf|]. intros c Hc.
  cbn in Hc |- *. apply not_false_is_true in Hc. unfold among in Hc. cbn [existsb] in Hc.
  repeat (apply orb_true_iff in Hc as [->%bool_decide_eq_true|Hc]; [by eexists|]). done.
Qed.

(** What passed the checks of [finalize] is ready to dial. *)
Lemma final_ready rnd s p :
  st_ok s → finalized rnd s p →
  let cfg := pd_Config p in
  Dial_checks cfg = Ok tt ∧ validateConfig (sessionCfg cfg) = None ∧
  cf_Network cfg ∈ [text "udp"; text "tcp"] ∧ cf_RemoteAddr cfg ≠ [] ∧
  Forall (λ c, ∃ n, AEADKeyLen c = Ok n) (cf_Ciphers cfg) ∧ cf_KeyDirection cfg ∈ [0; 1] ∧
  (∃ t, cf_TLSConfig cfg = Some t ∧ 0x0303 ≤ tc_MinVersion t ∧ tls_version (tc_MaxVersion t)) ∧
  pd_Remotes p ≠ [] ∧ Forall (λ r, is_Some (Atoi (rm_Port r))) (pd_Remotes p).
Proof.
  intros Hs [Hr Hk Hc (picked & pair & _ & _ & ->)]. cbn [pd_Config pd_Remotes]. unfold final_config. cbn.
  assert (one_control_key_sum := one_control_key_sum (ps_tlsCrypt s) (ps_tlsCV2 s) (auth_key s)).
  split_and!.
  - unfold Dial_checks. cbn. rewrite (so_scramble s Hs). by rewrite (proj2 (validateControlChannel_iff _)).
  - unfold validateConfig. cbn. apply one_control_key_sum in Hk. by rewrite Hk.
  - pose proof (normalizeProto_cases (rm_Proto picked)) as Hn. pose proof (so_proto s Hs) as Hp.
    destruct (normalizeProto _); [|set_solver]. destruct (ps_proto s); set_solver.
  - apply Remote_Addr_ne.
  - by apply validateCiphers_Ok.
  - pose proof (so_dir s Hs) as Hd. unfold key_direction.
    destruct (Z.ltb_spec (ps_tlsAuthKeyDir s) 0) as [|Hge]; [destruct (ps_tlsAuth s); set_solver|].
    apply elem_of_cons in Hd as [Hd|Hd]; [lia|done].
  - eexists. split; [done|]. cbn. split; [|apply Hs]. pose proof (so_min s Hs) as [-> | [-> | ->]]; done.
  - done.
  - apply Hs.
Qed.

(** What the session still asks of a configuration: the text of its control key,
    and the digest where the key is of tls-auth. *)
Definition key_usable (pem_Decode : bytes → option (string * bytes)) (cfg : Config) : Prop :=
  (cf_TLSAuth cfg ≠ [] ∧ (∃ key, ParseStaticKey (cf_TLSAuth cfg) = Ok key) ∧ is_Some (parseDigest (cf_Auth cfg))) ∨
  (cf_TLSCryptV2 cfg ≠ [] ∧ ∃ bundle, ParseClientBundleV2 pem_Decode (cf_TLSCryptV2 cfg) = Ok bundle) ∨
  (cf_TLSCryptV1 cfg ≠ [] ∧ ∃ key, ParseStaticKey (cf_TLSCryptV1 cfg) = Ok key).

Lemma positive_zlen {A} (l : list A) : (0 <? zlen l) = bool_decide (l ≠ []).
Proof. by destruct l. Qed.

Lemma map_err_Ok {E E' A} (f : E → E') (m : res E A) a : map_err f m = Ok a ↔ m = Ok a.
Proof. destruct m; cbn; split; congruence. Qed.

Lemma auth_New_Some raw dir digest : is_Some (auth_New raw dir digest) ↔ is_Some (parseDigest digest).
Proof.
  unfold auth_New. destruct (parseDigest digest) as [h|]; cbn; [|done].
  by destruct (deriveHMACKeys _ _ _).
Qed.

Lemma buildWrapper_iff pem_Decode cfg :
  one_control_key (cf_TLSCryptV1 cfg) (cf_TLSCryptV2 cfg) (cf_TLSAuth cfg) →
  (∃ w, buildWrapper pem_Decode (sessionCfg cfg) = Ok w) ↔ key_usable pem_Decode cfg.
Proof.
  intros Hk. unfold buildWrapper, key_usable. rewrite !positive_zlen. cbn [sessionCfg sf_TLSAuth sf_TLSCryptV2 sf_TLSCryptV1 sf_Auth].
  destruct Hk as [(H1 & H2 & H3)|[(H1 & H2 & H3)|(H1 & H2 & H3)]]; rewrite ?H1, ?H2, ?H3.
  - rewrite !bool_decide_eq_false_2 by (intros H; by apply H).
    split; [|intros [[? _]|[[? _]|[_ [key Hkey]]]]; [done..|rewrite Hkey; by eexists]].
    intros [w (key & Hkey%map_err_Ok & _)%bind_Ok]. right; right. split; [done|by eexists].
  - rewrite bool_decide_eq_false_2 by (intros H; by apply H). rewrite bool_decide_eq_true_2 by done.
    split; [|intros [[? _]|[[_ [b Hb]]|[? _]]]; [done|rewrite Hb; by eexists|done]].
    intros [w (b & Hb%map_err_Ok & _)%bind_Ok]. right; left. split; [done|by eexists].
  - rewrite bool_decide_eq_true_2 by done. split.
    + intros [w (key & Hkey%map_err_Ok & Hw)%bind_Ok]. left. split_and!; [done|by eexists|].
      rewrite <-(auth_New_Some key DirectionInverse). by destruct (auth_New key _ _).
    + intros [(_ & [key Hkey] & Hd)|[[? _]|[? _]]]; [|done..]. rewrite Hkey. cbn.
      apply (auth_New_Some key DirectionInverse) in Hd as [a ->]. by eexists.
Qed.

Lemma final_key rnd s p :
  finalized rnd s p →
  one_control_key (cf_TLSCryptV1 (pd_Config p)) (cf_TLSCryptV2 (pd_Config p)) (cf_TLSAuth (pd_Config p)).
Proof. intros [_ Hk _ (picked & pair & _ & _ & ->)]. exact Hk. Qed.

(** C11: what the parser returns passes the checks on the fields of a
    configuration.  On every input the parser comes back, without a panic; and a
    configuration it returns passes the checks of [Dial] and [validateConfig] of the
    session, names a network and an address, has only supported ciphers, a key
    direction of 0 or 1, no TLS version below 1.2, and remotes whose ports are
    numbers.  The text of its control key is not looked at: the session can build
    its wrapper exactly when the one key that is set is readable and, for tls-auth,
    the digest is one of those supported. *)
Theorem profile_ready data failed rnd :
  match (Parse readFile AppendCertsFromPEM X509KeyPair data failed rnd opt0).2 with
  | Ok p =>
      let cfg := pd_Config p in
      Dial_checks cfg = Ok tt ∧ validateConfig (sessionCfg cfg) = None ∧
      (∀ pem_Decode, (∃ w, buildWrapper pem_Decode (sessionCfg cfg) = Ok w) ↔ key_usable pem_Decode cfg) ∧
      cf_Network cfg ∈ [text "udp"; text "tcp"] ∧ cf_RemoteAddr cfg ≠ [] ∧
      Forall (λ c, ∃ n, AEADKeyLen c = Ok n) (cf_Ciphers cfg) ∧ cf_KeyDirection cfg ∈ [0; 1] ∧
      (∃ t, cf_TLSConfig cfg = Some t ∧ 0x0303 ≤ tc_MinVersion t ∧ tls_version (tc_MaxVersion t)) ∧
      pd_Remotes p ≠ [] ∧ Forall (λ r, is_Some (Atoi (rm_Port r))) (pd_Remotes p)
  | Err _ => True
  | Panic => False
  end.
Proof.
  pose proof (profile_spec data failed rnd) as H. destruct (Parse _ _ _ _ _ _ _).2 as [p|e|]; [|done|done].
  destruct H as (s & Hs & Hf). destruct (final_ready _ _ _ Hs Hf) as (H1 & H2 & H3). cbv zeta.
  do 2 (split; [done|]). split; [|exact H3]. intros pem_Decode. eapply buildWrapper_iff, final_key, Hf.
Qed.

(** ** Files as they are written *)

Definition with_lf (l : bytes) : bytes := l ++ [lf].
Definition file_of (ls : list bytes) : bytes := concat (with_lf <$> ls).

Record line_ok (max : Z) (l : bytes) : Prop := {
  lo_lf : lf ∉ l;
  lo_cr : ∀ r, l ≠ r ++ [cr];
  lo_short : zlen l < max
}.

Lemma dropCR_id l : (∀ r, l ≠ r ++ [cr]) → dropCR l = l.
Proof.
  intros H. unfold dropCR. destruct (reverse l) as [|c r] eqn:Hr; [done|]. case_bool_decide as Hc; [|done]. subst c.
  destruct (H (reverse r)). by rewrite <-(reverse_involutive l), Hr, reverse_cons.
Qed.

Lemma Lines_file max ls : Forall (line_ok max) ls → Lines max (file_of ls) None = (ls, None).
Proof.
  intros Hls. unfold Lines. assert (Split (file_of ls) lf = ls ++ [[]]) as ->.
  { induction Hls as [|l ls [Hlf _ _] _ IH]; [done|]. unfold file_of, with_lf in *. cbn [fmap list_fmap concat].
    rewrite <-app_assoc. cbn [app]. by rewrite Split_app, IH. }
  unfold drop_empty_last. rewrite reverse_app. change (reverse [[]]) with [@nil byte]. cbn [app].
  rewrite reverse_involutive. induction Hls as [|l ls [_ Hcr Hs] _ IH]; [done|]. cbn [scan_raw].
  rewrite (proj2 (Z.leb_gt _ _)), IH, dropCR_id by done. done.
Qed.

(** Bytes that no scanner looks at. *)
Definition plain (c : byte) : Prop := c ∉ [backslash; dquote; squote; hash; semicolon].

Lemma strip_plain l : Forall plain l → stripComment l = l.
Proof.
  unfold stripComment, plain. induction 1 as [|c l Hc _ IH]; [done|]. cbn [strip_loop].
  rewrite !not_elem_of_cons in Hc. destruct Hc as (H1 & H2 & H3 & H4 & H5 & _).
  rewrite escapes_other by done. repeat (rewrite bool_decide_eq_false_2 by done). cbn [andb negb orb]. by rewrite IH.
Qed.

(** The name of a block. *)
Record tag_name (name : bytes) : Prop := {
  tn_word : word name;
  tn_plain : Forall plain name;
  tn_gt : gt ∉ name;
  tn_slash : ∀ r, name ≠ slash :: r
}.

Definition open_line (name : bytes) : bytes := lt :: name ++ [gt].

Lemma open_line_tag name :
  tag_name name → TrimSpace (stripComment (open_line name)) = open_line name ∧ openTag (open_line name) = Some name.
Proof.
  intros [[Hne _] Hp Hgt Hsl]. split.
  - rewrite strip_plain; [by apply TrimSpace_id; apply (bool_decide_unpack _)|]. unfold open_line.
    assert (plain lt ∧ plain gt) as [? ?] by (split; by apply (bool_decide_unpack (_ ∉ _))).
    apply list.Forall_cons. split; [done|]. apply list.Forall_app. split; [done|by apply (list.Forall_singleton plain)].
  - unfold openTag, open_line. destruct name as [|c name]; [done|]. cbn [app].
    rewrite (proj2 (Z.ltb_ge _ _)) by (unfold zlen; cbn [length]; rewrite length_app; cbn; lia).
    rewrite (bool_decide_eq_false_2 (c = slash)) by (intros ->; by destruct (Hsl name)). cbn [orb].
    assert (list_find (gt =.) (lt :: c :: name ++ [gt]) = Some (S (length (c :: name)), gt)) as ->.
    { change (lt :: c :: name ++ [gt]) with ((lt :: c :: name) ++ [gt]).
      rewrite list_find_app_r; [done|]. apply list_find_None, list.Forall_cons. split; [done|].
      apply list.Forall_forall. intros x Hx Heq. apply Hgt. by rewrite Heq. }
    cbn [length]. rewrite length_app. cbn [length].
    replace (S (S (length name)) + 1 =? S (S (length name + 1)))%nat with true by (symmetry; apply Nat.eqb_eq; lia).
    cbn [negb]. replace (S (S (length name)) - 1)%nat with (length (c :: name)) by (cbn; lia).
    cbn [drop]. change (c :: name ++ [gt]) with ((c :: name) ++ [gt]). rewrite take_app_length. done.
Qed.

Lemma closing_trim name : TrimSpace (closing name) = closing name.
Proof.
  change (closing name) with (lt :: (slash :: name) ++ [gt]). by apply TrimSpace_id; apply (bool_decide_unpack _).
Qed.

Lemma readInlineBlock_lines name ls rest :
  Forall (λ l, TrimSpace l ≠ closing name) ls →
  readInlineBlock name (ls ++ closing name :: rest) = Some (file_of ls, S (length ls), rest).
Proof.
  induction 1 as [|l ls Hl _ IH]; cbn [app readInlineBlock].
  - by rewrite closing_trim, bool_decide_eq_true_2.
  - rewrite bool_decide_eq_false_2 by done. rewrite IH. cbn. unfold file_of, with_lf. cbn. by rewrite <-app_assoc.
Qed.

(** A file as a list of directives and blocks. *)
Inductive item : Type :=
  | Directive (name : bytes) (args : list bytes)
  | Block (name : bytes) (content : list bytes).

Definition item_lines (it : item) : list bytes :=
  match it with
  | Directive name args => [quoted_line (name :: args)]
  | Block name content => open_line name :: content ++ [closing name]
  end.

Definition item_ok (it : item) : Prop :=
  Forall (line_ok maxLine) (item_lines it) ∧
  match it with
  | Directive _ _ => True
  | Block name content => tag_name name ∧ Forall (λ l, TrimSpace l ≠ closing name) content
  end.

(** What an item means, at a line number. *)
Definition apply_item (it : item) (lineNo : nat) (s : parseState) : res ovpn_error parseState :=
  map_err (OAt (S lineNo))
    match it with
    | Directive name args => handleDirective readFile name args (S lineNo) s
    | Block name content =>
        let s := addInline (zlen (file_of content)) s in
        guard_err (MaxInlineBytesTotal <? ps_inlineBytesTotal s) OInlineSize;;
        handleInline name (file_of content) (S lineNo) s
    end.

Fixpoint apply_items (items : list item) (lineNo : nat) (s : parseState) : parseState * res ovpn_error unit :=
  match items with
  | [] => (s, Ok tt)
  | it :: items' =>
      match apply_item it lineNo s with
      | Ok s => apply_items items' (lineNo + length (item_lines it)) s
      | Err e => (s, Err e)
      | Panic => (s, Panic)
      end
  end.

Lemma no_bom c l : c ≠ xef → TrimPrefix (c :: l) bom = c :: l.
Proof. intros H. unfold TrimPrefix, bom. by rewrite HasPrefix_head. Qed.

Lemma run_loop_items fuel items lineNo s :
  (length (concat (item_lines <$> items)) < fuel)%nat → Forall item_ok items →
  run_loop readFile fuel (concat (item_lines <$> items)) lineNo None s = apply_items items lineNo s.
Proof.
  intros Hf Hok. revert fuel lineNo s Hf. induction Hok as [|it items [_ Hit] _ IH]; intros fuel lineNo s Hf.
  { by destruct fuel; [lia|]. }
  destruct fuel as [|fuel]; [lia|]. cbn [fmap list_fmap concat] in *. rewrite length_app in Hf.
  destruct it as [name args|name content]; cbn [item_lines app length] in *.
  - destruct (quoted_line_words (name :: args) ltac:(done)) as (Ht & Hne & Hop & Htok).
    destruct (quoted_line_ends (name :: args) ltac:(done)) as [mid Hmid]. cbn [run_loop].
    assert ((if (S lineNo =? 1)%nat then TrimPrefix (quoted_line (name :: args)) bom else quoted_line (name :: args)) =
      quoted_line (name :: args)) as -> by (destruct (S lineNo =? 1)%nat; [rewrite Hmid; by apply no_bom|done]).
    rewrite Ht. destruct (quoted_line (name :: args)) as [|b line] eqn:Hl; [done|]. rewrite Hop.
    unfold directive_line. rewrite Htok. cbn [apply_items]. unfold apply_item.
    destruct (handleDirective _ _ _ _ _) as [s'|e|]; cbn [map_err]; [|done|done].
    rewrite IH by (cbn [fmap] in *; lia). cbn [item_lines length]. by replace (lineNo + 1)%nat with (S lineNo) by lia.
  - destruct Hit as [Htag Hcont]. destruct (open_line_tag name Htag) as [Ht Hop]. cbn [run_loop].
    assert ((if (S lineNo =? 1)%nat then TrimPrefix (open_line name) bom else open_line name) = open_line name) as ->
      by (destruct (S lineNo =? 1)%nat; [by apply no_bom|done]).
    rewrite Ht. unfold open_line at 1. rewrite Hop. unfold block_line. rewrite <-app_assoc. cbn [app].
    rewrite readInlineBlock_lines by done. cbn [apply_items]. unfold apply_item.
    destruct (_ <? _); [done|]. cbn [guard_err mbind res_bind].
    destruct (handleInline _ _ _ _) as [s'|e|]; cbn [map_err]; [|done|done].
    rewrite length_app in Hf. cbn [length] in Hf.
    rewrite IH by (cbn [fmap] in *; lia). cbn [item_lines length]. rewrite length_app. cbn [length].
    by replace (S lineNo + S (length content))%nat with (lineNo + S (length content + 1))%nat by lia.
Qed.

(** C12: a file is read as it is written.  For every list of directives, their
    words between quotes and of any bytes but line feeds, and of inline blocks,
    the parser does exactly what the directives and the contents of the blocks
    say, in order, stops at the first that fails with its line, and then checks
    the result. *)
Theorem profile_as_written items rnd :
  Forall item_ok items →
  Parse readFile AppendCertsFromPEM X509KeyPair (file_of (concat (item_lines <$> items))) None rnd opt0 =
    let opt := if bool_decide (po_BaseDir opt0 = []) then set_BaseDir [dot] opt0 else opt0 in
    let '(st, r) := apply_items items 0 (newState opt) in
    (ps_opt st, r;; finalize AppendCertsFromPEM X509KeyPair rnd st).
Proof.
  intros Hok. unfold Parse, run. rewrite Lines_file.
  - cbn zeta. by rewrite run_loop_items by (done || lia).
  - apply List.Forall_concat, list.Forall_fmap. eapply list.Forall_impl; [exact Hok|]. by intros it [H _].
Qed.

(** ** The identity of the server *)

(** crypto/tls on the client: [verify] builds a chain from the certificates
    presented to the roots, for server authentication; [matches] is the check of
    the name.  Without a name it refuses to verify; with [InsecureSkipVerify] it
    leaves everything to the callback, which is the code's. *)
Context {Cert : Type}.
Variable verify : option (list bytes) → list Cert → bool.
Variable matches : bytes → Cert → bool.

Definition verifyConnection (roots : option (list bytes)) (chain : list Cert) : bool :=
  match chain with [] => false | _ => verify roots chain end.

Definition tls_accepts (cfg : TLSConfig) (chain : list Cert) : bool :=
  match chain with
  | [] => false
  | leaf :: _ =>
      (tc_InsecureSkipVerify cfg ||
       negb (bool_decide (tc_ServerName cfg = [])) && verify (tc_RootCAs cfg) chain && matches (tc_ServerName cfg) leaf) &&
      match tc_VerifyConnection cfg with Some roots => verifyConnection roots chain | None => true end
  end.

Lemma final_name rnd s p t :
  st_ok s → finalized rnd s p → cf_TLSConfig (pd_Config p) = Some t →
  po_ServerNameOverride opt0 ≠ [] → tc_ServerName t = po_ServerNameOverride opt0.
Proof.
  intros Hs [_ _ _ (picked & pair & _ & _ & ->)] Ht Hne. cbn in Ht. injection Ht as <-. cbn.
  unfold serverName. rewrite (sp_override _ (so_opt s Hs)). by rewrite bool_decide_eq_false_2.
Qed.

Lemma final_verifies rnd s p t chain :
  st_ok s → finalized rnd s p → cf_TLSConfig (pd_Config p) = Some t → tls_accepts t chain = true →
  verify (tc_RootCAs t) chain = true ∧
  (po_ServerNameOverride opt0 ≠ [] → tc_ServerName t = po_ServerNameOverride opt0) ∧
  match chain with
  | leaf :: _ => (tc_ServerName t ≠ [] ∧ matches (tc_ServerName t) leaf = true) ∨
                 (tc_ServerName t = [] ∧ po_AllowNoServerIdentity opt0 = true)
  | [] => False
  end.
Proof.
  intros Hs Hf Ht Ha. pose proof (final_name _ _ _ _ Hs Hf Ht) as Hname.
  destruct Hf as [_ _ _ (picked & pair & _ & Hallow & ->)].
  cbn in Ht. injection Ht as <-. unfold final_tls in *. cbn in *.
  destruct (so_opt s Hs) as [Hov Hal _]. unfold tls_accepts in Ha. cbn in Ha. destruct chain as [|leaf chain]; [done|].
  split_and!.
  - case_bool_decide; cbn in Ha; [done|]. by apply andb_true_iff in Ha as [[? _]%andb_true_iff _].
  - exact Hname.
  - case_bool_decide as Hn; cbn in Ha; [right; rewrite <-Hal; auto|left]. split; [done|].
    by apply andb_true_iff in Ha as [[_ ?]%andb_true_iff _].
Qed.
End facts.

(** ** Concrete files *)

Definition sample_items : list item :=
  [Directive (text "remote") [text "vpn.example"; text "443"; text "tcp"]; Directive (text "setenv") [text "UV_ID"; text "a # b"];
   Block (text "ca") [text "PEM"; []]; Block (text "tls-crypt") [text "key"]].
Definition sample_data : bytes := file_of (concat (item_lines <$> sample_items)).
Definition sample_result : parseState :=
  set_tlsCrypt (text "key" ++ [lf]) (addInline 4 (set_caPEMs [text "PEM" ++ [lf; lf]] (addInline 5
    (set_peerInfoExtra {["UV_ID" := "a # b"]} (set_remotes [mkRemote (text "vpn.example") (text "443") (text "tcp")]
       (newState (set_BaseDir [dot] no_options))))))).

Lemma sample_items_ok : Forall item_ok sample_items.
Proof.
  assert (∀ l, bool_decide (lf ∉ l) = true → bool_decide (zlen l < maxLine) = true →
    match reverse l with c :: _ => bool_decide (c ≠ cr) | [] => true end = true → line_ok maxLine l) as Hline.
  { intros l H1%bool_decide_eq_true H2%bool_decide_eq_true H3. split; [done| |done]. intros r ->.
    rewrite reverse_app in H3. cbn in H3. by apply bool_decide_eq_true in H3. }
  assert (∀ r : bytes, text "ca" ≠ slash :: r ∧ text "tls-crypt" ≠ slash :: r) as Hs by (intros r; by split).
  repeat (apply list.Forall_cons; split); try done;
    (split; [repeat (apply list.Forall_cons; split); try done; by apply Hline; vm_compute|]); try done.
  - split; [split; try (apply (bool_decide_unpack _); by vm_compute); by intros r; apply Hs|].
    by apply (bool_decide_unpack _); vm_compute.
  - split; [split; try (apply (bool_decide_unpack _); by vm_compute); by intros r; apply Hs|].
    by apply (bool_decide_unpack _); vm_compute.
Qed.

Lemma profile_as_written_witness :
  Parse no_files any_cert any_pair sample_data None 0 no_options =
    (set_BaseDir [dot] no_options, finalize any_cert any_pair 0 sample_result).
Proof.
  etransitivity; [exact (profile_as_written no_files any_cert any_pair no_options sample_items 0 sample_items_ok)|].
  vm_compute. reflexivity.
Defined.

Definition sample_tls_config : TLSConfig :=
  mkTLSConfig 0x0303 0 (text "vpn.example") (Some [text "PEM" ++ [lf; lf]]) false None None.

(** A certificate is its name; every chain with roots verifies. *)
Definition trusts (roots : option (list bytes)) (chain : list bytes) : bool :=
  match roots with Some (_ :: _) => true | _ => false end.
Definition named (name leaf : bytes) : bool := bool_decide (name = leaf).


(** The options belong to the caller: a second file parsed with the same options
    resolves its paths against the directory of the first. *)
Definition two_directories : bytes → option bytes := λ p,
  if bool_decide (p = text "/a/x.ovpn") || bool_decide (p = text "/b/y.ovpn")
  then Some (file_of [text "remote h"; text "tls-crypt ta.key"])
  else if bool_decide (p = text "/a/ta.key") then Some (text "key of a")
  else if bool_decide (p = text "/b/ta.key") then Some (text "key of b") else None.

Definition parsed_key (r : ParseOptions * res ovpn_error Parsed) : option bytes :=
  match r.2 with Ok p => Some (cf_TLSCryptV1 (pd_Config p)) | _ => None end.

Example options_reused :
  let parse := ParseFile two_directories any_cert any_pair in
  parsed_key (parse (text "/b/y.ovpn") 0%nat no_options) = Some (text "key of b") ∧
  parsed_key (parse (text "/b/y.ovpn") 0%nat (parse (text "/a/x.ovpn") 0%nat no_options).1) = Some (text "key of a").
Proof. by vm_compute. Qed.

(** An escaped blank at the end of a line is trimmed before the words are cut. *)
Example escaped_blank_lost :
  tokenize (text "ca my\ ") = Some [text "ca"; text "my "] ∧
  tokenize (TrimSpace (stripComment (text "ca my\ "))) = Some [text "ca"; text "my\"].
Proof. by vm_compute. Qed.

(** The digest [none] is kept as a digest of that name, which tls-auth does not know:
    the profile parses and the session refuses it.  So does a key that is no key. *)
Definition static_key : list bytes :=
  [text "-----BEGIN OpenVPN Static key V1-----"; concat (replicate 256 (text "0f"));
   text "-----END OpenVPN Static key V1-----"].
Definition auth_profile (digest : list bytes) (key : list bytes) : bytes :=
  file_of (concat (item_lines <$>
    [Directive (text "remote") [text "h"]; Directive (text "auth") digest; Block (text "ca") [text "PEM"];
     Block (text "tls-auth") key])).

Definition wrapper_of (data : bytes) : option (option dial_error) :=
  match (Parse no_files any_cert any_pair data None 0 no_options).2 with
  | Ok p => Some match buildWrapper (λ _, None) (sessionCfg (pd_Config p)) with Err e => Some e | _ => None end
  | _ => None
  end.

Example auth_none_refused :
  wrapper_of (auth_profile [text "sha256"] static_key) = Some None ∧
  wrapper_of (auth_profile [text "none"] static_key) = Some (Some (DDigest "NONE")) ∧
  is_Some (wrapper_of (auth_profile [] [text "zz"]) ≫= id).
Proof. vm_compute. split_and!; [done|done|by eexists]. Qed.
