(* ===== verification/Client.v ===== *)
(** The public client, [openvpn.go] and [conn.go]: one current session, replaced
    by reconnections.  What the client sees of a session is a record in a store
    that only grows; a pointer is an index into it, so that "another goroutine
    already reconnected" is a comparison of pointers, as in the code.
    [reconnectMu] is the field [cl_rc]: the reconnection in progress.  A
    reconnection blocks on timers and dials, so it is several steps; so are
    [Close] and the installation of an ingress handler. *)
From S2P Require Import Prelude Text Wire PushReply Session Dial.
Local Open Scope Z_scope.

(** ** Pure decisions *)

Definition defaultStableSessionThreshold : Z := 60 * Second.
Definition stallRestartReason : bytes := text "data-activity stuck".

(** [counter] is an int32. *)
Definition decideStallSurrender (lifetime : Z) (closeErr : option close_error) (counter maxStalls stableThreshold : Z)
  : Z * bool :=
  if maxStalls <=? 0 then (0, false)
  else
    let stableThreshold := if stableThreshold <=? 0 then defaultStableSessionThreshold else stableThreshold in
    let isStall := match closeErr with
                   | Some (RestartError _ why) => bool_decide (why = stallRestartReason)
                   | _ => false
                   end in
    if negb isStall then (0, false)
    else if stableThreshold <=? lifetime then (0, false)
    else
      let n := i32 (counter + 1) in
      (n, maxStalls <=? n).

Definition backoffDelay (attempt maxInterval : Z) : Z :=
  let attempt := if attempt <? 1 then 1 else attempt in
  let shift := Z.min (attempt - 1) 30 in
  let d := i64 (Z.shiftl Second shift) in
  if d <=? 0 then maxInterval else Z.min d maxInterval.

(** ** Sessions as the client sees them *)

Record counters := mkCounters {
  ct_Forwarded : Z;
  ct_DroppedFull : Z;
  ct_PingIn : Z;
  ct_OpenFailed : Z;
  ct_StrayHandshake : Z;
  ct_HardResetIn : Z
}.
Definition zero_counters : counters := mkCounters 0 0 0 0 0 0.
Definition add_counters (a b : counters) : counters :=
  mkCounters (u64 (ct_Forwarded a + ct_Forwarded b)) (u64 (ct_DroppedFull a + ct_DroppedFull b))
    (u64 (ct_PingIn a + ct_PingIn b)) (u64 (ct_OpenFailed a + ct_OpenFailed b))
    (u64 (ct_StrayHandshake a + ct_StrayHandshake b)) (u64 (ct_HardResetIn a + ct_HardResetIn b)).

(** A handler is known by the token of its registration. *)
Record session := mkSession {
  rs_closeErr : option close_error;
  rs_closed : bool;                 (* the flag [Close] sets first *)
  rs_counters : counters;
  rs_LastInbound : Z;
  rs_LastDataInbound : Z;
  rs_LastUserOutbound : Z;
  rs_handler : option nat;
  rs_push : PushReply
}.

Definition rs_Close (x : session) : session :=
  mkSession (rs_closeErr x) true (rs_counters x) (rs_LastInbound x) (rs_LastDataInbound x) (rs_LastUserOutbound x)
    (rs_handler x) (rs_push x).
Definition rs_SetIngressHandler (h : option nat) (x : session) : session :=
  mkSession (rs_closeErr x) (rs_closed x) (rs_counters x) (rs_LastInbound x) (rs_LastDataInbound x)
    (rs_LastUserOutbound x) h (rs_push x).
(** The first reason is kept ([close_reason] of [SessionSafety]); the session then
    closes itself. *)
Definition rs_RequestRestart (why : bytes) (x : session) : session :=
  if rs_closed x then x
  else
    let why := if bool_decide (why = []) then text "application requested restart" else why in
    mkSession (match rs_closeErr x with None => Some (RestartError 0 why) | e => e end) (rs_closed x) (rs_counters x)
      (rs_LastInbound x) (rs_LastDataInbound x) (rs_LastUserOutbound x) (rs_handler x) (rs_push x).

(** ** The client *)

Inductive rc_phase : Type := Waiting | Dialing.

Record reconnecting := mkReconnecting {
  rc_failed : nat;
  rc_attempt : Z;
  rc_wait : Z;
  rc_phase_of : rc_phase
}.

Record Client := mkClient {
  cl_cfg : Config;
  cl_store : list session;
  cl_s : nat;
  cl_closed : bool;                  (* [closed], and the context cancelled *)
  cl_rc : option reconnecting;
  cl_onReconnect : list nat;         (* the registrations *)
  cl_ingressHandler : option nat;
  cl_cum : counters;
  cl_Reconnects : Z;
  cl_sessionUp : Z;
  cl_consecutiveStalls : Z;
  cl_gaveUp : bool;
  cl_unrecoverable : bool;           (* the channel is closed *)
  cl_fired : list (nat * nat)        (* hooks called: the session and the registration *)
}.

Inductive rc_error : Type :=
  | RcClosed
  | RcGaveUp
  | RcAuthFailed
  | RcCaller             (* the error of the caller's context *)
  | RcCancelled.         (* the error of the client's context *)

Definition set_store (v : list session) (c : Client) : Client :=
  mkClient (cl_cfg c) v (cl_s c) (cl_closed c) (cl_rc c) (cl_onReconnect c) (cl_ingressHandler c) (cl_cum c)
    (cl_Reconnects c) (cl_sessionUp c) (cl_consecutiveStalls c) (cl_gaveUp c) (cl_unrecoverable c) (cl_fired c).
Definition set_closed (c : Client) : Client :=
  mkClient (cl_cfg c) (cl_store c) (cl_s c) true (cl_rc c) (cl_onReconnect c) (cl_ingressHandler c) (cl_cum c)
    (cl_Reconnects c) (cl_sessionUp c) (cl_consecutiveStalls c) (cl_gaveUp c) (cl_unrecoverable c) (cl_fired c).
Definition set_rc (v : option reconnecting) (c : Client) : Client :=
  mkClient (cl_cfg c) (cl_store c) (cl_s c) (cl_closed c) v (cl_onReconnect c) (cl_ingressHandler c) (cl_cum c)
    (cl_Reconnects c) (cl_sessionUp c) (cl_consecutiveStalls c) (cl_gaveUp c) (cl_unrecoverable c) (cl_fired c).
Definition set_hooks (v : list nat) (c : Client) : Client :=
  mkClient (cl_cfg c) (cl_store c) (cl_s c) (cl_closed c) (cl_rc c) v (cl_ingressHandler c) (cl_cum c)
    (cl_Reconnects c) (cl_sessionUp c) (cl_consecutiveStalls c) (cl_gaveUp c) (cl_unrecoverable c) (cl_fired c).
Definition set_handler (v : option nat) (c : Client) : Client :=
  mkClient (cl_cfg c) (cl_store c) (cl_s c) (cl_closed c) (cl_rc c) (cl_onReconnect c) v (cl_cum c)
    (cl_Reconnects c) (cl_sessionUp c) (cl_consecutiveStalls c) (cl_gaveUp c) (cl_unrecoverable c) (cl_fired c).
Definition set_stalls (n : Z) (gaveUp : bool) (c : Client) : Client :=
  mkClient (cl_cfg c) (cl_store c) (cl_s c) (cl_closed c) (cl_rc c) (cl_onReconnect c) (cl_ingressHandler c) (cl_cum c)
    (cl_Reconnects c) (cl_sessionUp c) n (cl_gaveUp c || gaveUp) (cl_unrecoverable c || gaveUp) (cl_fired c).
Definition set_fired (v : list (nat * nat)) (c : Client) : Client :=
  mkClient (cl_cfg c) (cl_store c) (cl_s c) (cl_closed c) (cl_rc c) (cl_onReconnect c) (cl_ingressHandler c) (cl_cum c)
    (cl_Reconnects c) (cl_sessionUp c) (cl_consecutiveStalls c) (cl_gaveUp c) (cl_unrecoverable c) v.

Definition on_session (p : nat) (f : session → session) (c : Client) : Client :=
  set_store (alter f p (cl_store c)) c.
Definition current (c : Client) : option session := cl_store c !! cl_s c.

(** The end of [openvpn.Dial]: a client over its first session. *)
Definition client_new (cfg : Config) (now : Z) (x : session) : Client :=
  mkClient cfg [x] 0 false None [] None zero_counters 0 now 0 false false [].

(** ** Reconnection *)

(** Up to the loop, under [reconnectMu]; [None]: the loop has begun. *)
Definition reconnectInstall (now : Z) (failed : nat) (initialDelay : Z) (c : Client)
  : Client * option (res rc_error (option nat)) :=
  if cl_closed c then (c, Some (Err RcClosed))
  else if negb (cl_s c =? failed)%nat then (c, Some (Ok None))
  else if cl_gaveUp c then (c, Some (Err RcGaveUp))
  else
    let '(c, surrender) :=
      if 0 <? cf_MaxConsecutiveStalls (cl_cfg c) then
        let lifetime := now - cl_sessionUp c in
        let '(n, surrender) :=
          decideStallSurrender lifetime (x ← cl_store c !! failed; rs_closeErr x) (cl_consecutiveStalls c)
            (cf_MaxConsecutiveStalls (cl_cfg c)) (cf_StableSessionThreshold (cl_cfg c)) in
        (set_stalls n surrender c, surrender)
      else (c, false) in
    if surrender then (c, Some (Err RcGaveUp))
    else
      let c := on_session failed rs_Close c in
      (set_rc (Some (mkReconnecting failed 1 initialDelay Waiting)) c, None).

(** How the wait of an attempt ends. *)
Inductive wake : Type := TimerFired | CallerDone | ClientDone.

Definition finish (r : res rc_error (option nat)) (c : Client) : Client * option (res rc_error (option nat)) :=
  (set_rc None c, Some r).

(** From the head of the loop to the dial. *)
Definition reconnect_wait (callerErr : bool) (w : wake) (c : Client) : Client * option (res rc_error (option nat)) :=
  match cl_rc c with
  | Some (mkReconnecting failed attempt wait Waiting) =>
      if cl_closed c then finish (Err RcClosed) c
      else if callerErr then finish (Err RcCaller) c
      else
        match (if 0 <? wait then w else TimerFired) with
        | CallerDone => finish (Err RcCaller) c
        | ClientDone => finish (Err RcCancelled) c
        | TimerFired => (set_rc (Some (mkReconnecting failed attempt wait Dialing)) c, None)
        end
  | _ => (c, None)
  end.

(** The outcome of [dialSession]; a new session is the PUSH_REPLY it got. *)
Inductive dialled : Type :=
  | DialAuthFailed
  | DialFailed
  | DialOk (x : session).

Definition maxInterval (c : Client) : Z :=
  if cf_ReconnectMaxInterval (cl_cfg c) <=? 0 then 60 * Second else cf_ReconnectMaxInterval (cl_cfg c).

(** The swap, under [statsMu] and [mu]. *)
Definition install (failed : nat) (now : Z) (x : session) (c : Client) : Client :=
  let cum := match cl_store c !! failed with
             | Some old => add_counters (cl_cum c) (rs_counters old)
             | None => cl_cum c
             end in
  let x := match cl_ingressHandler c with Some h => rs_SetIngressHandler (Some h) x | None => x end in
  mkClient (cl_cfg c) (cl_store c ++ [x]) (length (cl_store c)) (cl_closed c) (cl_rc c) (cl_onReconnect c)
    (cl_ingressHandler c) cum (u64 (cl_Reconnects c + 1)) now (cl_consecutiveStalls c) (cl_gaveUp c)
    (cl_unrecoverable c) (cl_fired c).

(** From the return of the dial to the end of the iteration. *)
Definition reconnect_dialled (now : Z) (o : dialled) (callerErr : bool) (c : Client)
  : Client * option (res rc_error (option nat)) :=
  match cl_rc c with
  | Some (mkReconnecting failed attempt wait Dialing) =>
      let discard x := set_store (cl_store c ++ [rs_Close x]) c in
      match o with
      | DialAuthFailed => finish (Err RcAuthFailed) c
      | DialOk x =>
          if cl_closed c then finish (Err RcClosed) (discard x)
          else if callerErr then finish (Err RcCaller) (discard x)
          else finish (Ok (Some (length (cl_store c)))) (install failed now x c)
      | DialFailed =>
          if callerErr then finish (Err RcCaller) c
          else
            let maxAttempts := cf_ReconnectMaxAttempts (cl_cfg c) in
            if (0 <? maxAttempts) && (maxAttempts <=? attempt) then finish (Err RcGaveUp) c
            else (set_rc (Some (mkReconnecting failed (attempt + 1) (backoffDelay attempt (maxInterval c)) Waiting)) c, None)
      end
  | _ => (c, None)
  end.

(** ** Hooks *)

Definition OnReconnect (id : nat) (c : Client) : Client := set_hooks (cl_onReconnect c ++ [id]) c.
(** The first registration found, if any. *)
Fixpoint remove_first (id : nat) (l : list nat) : list nat :=
  match l with [] => [] | h :: l' => if (h =? id)%nat then l' else h :: remove_first id l' end.
Definition detach (id : nat) (c : Client) : Client := set_hooks (remove_first id (cl_onReconnect c)) c.

(** The hooks run one after the other, each protected from the panics of the
    others; [fireMu] keeps dispatches apart. *)
Definition FireOnReconnect (p : nat) (c : Client) : Client :=
  set_fired (cl_fired c ++ ((λ id, (p, id)) <$> cl_onReconnect c)) c.
Definition fireHooksFor (p : nat) (c : Client) : Client :=
  if cl_closed c || negb (cl_s c =? p)%nat then c else FireOnReconnect p c.

(** ** Statistics *)

Definition Stats (c : Client) : counters * Z * (Z * Z * Z) :=
  match current c with
  | Some x => (add_counters (cl_cum c) (rs_counters x), cl_Reconnects c,
               (rs_LastInbound x, rs_LastDataInbound x, rs_LastUserOutbound x))
  | None => (cl_cum c, cl_Reconnects c, (0, 0, 0))
  end.

(** ** Closing *)

Definition Close_begin (c : Client) : Client * bool := if cl_closed c then (c, false) else (set_closed c, true).
(** Once [reconnectMu] is free. *)
Definition Close_finish (c : Client) : option Client :=
  match cl_rc c with Some _ => None | None => Some (on_session (cl_s c) rs_Close c) end.

Definition RequestRestart (why : bytes) (c : Client) : Client :=
  if cl_closed c then c else on_session (cl_s c) (rs_RequestRestart why) c.

(** ** The ingress handler

    A call stores the token, reads the current session, and hands it the
    handler: three steps between which others run. *)

Inductive handler_call : Type :=
  | HRead (h : option nat)
  | HApply (p : nat) (h : option nat).

Definition SetIngressHandler (h : option nat) (c : Client) : Client * handler_call := (set_handler h c, HRead h).
(** The function a call with a handler returns. *)
Definition detach_handler (token : nat) (c : Client) : Client * option handler_call :=
  if bool_decide (cl_ingressHandler c = Some token) then (set_handler None c, Some (HRead None)) else (c, None).
Definition handler_step (k : handler_call) (c : Client) : Client * option handler_call :=
  match k with
  | HRead h => (c, Some (HApply (cl_s c) h))
  | HApply p h => (on_session p (rs_SetIngressHandler h) c, None)
  end.

(** ** The watcher *)

Definition sessionWatchWakeGapThreshold : Z := 10 * Second.

Inductive watch_outcome : Type :=
  | WatchExit
  | WatchContinue
  | WatchReconnect (failed : nat) (delay : Z).

(** A tick of [sessionWatcher]: [gap] since the last one on the wall clock. *)
Definition watch_tick (gap : Z) (c : Client) : Client * watch_outcome :=
  if cl_closed c then (c, WatchExit)
  else
    let c := if sessionWatchWakeGapThreshold <? gap
             then on_session (cl_s c) (rs_RequestRestart (text "wake from sleep (client watcher)")) c else c in
    match current c with
    | None => (c, WatchExit)
    | Some x =>
        match rs_closeErr x with
        | None => (c, if rs_closed x then WatchExit else WatchContinue)
        | Some (RestartError delay _) => (c, WatchReconnect (cl_s c) delay)
        | Some _ => (c, WatchExit)
        end
    end.

(** Whether the watcher goes on after a reconnection. *)
Definition watch_after (r : res rc_error (option nat)) : bool :=
  match r with
  | Ok _ => true
  | Err (RcAuthFailed | RcGaveUp | RcClosed | RcCancelled) => false
  | Err RcCaller => false                 (* the caller's context is the client's *)
  | Panic => false
  end.

(** ** The tunnel *)

Inductive io_result : Type :=
  | IoOk (n : nat)
  | IoDeadline                           (* the deadline of the call *)
  | IoErr (e : option close_error).      (* an error of the session *)

Inductive tunnel_result : Type :=
  | TunnelOk (n : nat)
  | TunnelClosed
  | TunnelDeadline
  | TunnelErr (e : option close_error)
  | TunnelRcErr (e : rc_error).

(** One round of [Read] or [Write]: [inr] asks for a reconnection. *)
Definition tunnel_round (c : Client) (r : io_result) : tunnel_result + nat * Z :=
  if cl_closed c then inl TunnelClosed
  else
    match r with
    | IoOk n => inl (TunnelOk n)
    | IoDeadline => inl TunnelDeadline
    | IoErr (Some (RestartError delay why)) =>
        if cf_AutoReconnect (cl_cfg c) then inr (cl_s c, delay) else inl (TunnelErr (Some (RestartError delay why)))
    | IoErr e => inl (TunnelErr e)
    end.

(** [None]: another round, on the session that is then current. *)
Definition tunnel_after (deadline : bool) (r : res rc_error (option nat)) : option tunnel_result :=
  match r with
  | Ok _ => None
  | Err RcCaller => Some (if deadline then TunnelDeadline else TunnelRcErr RcCaller)
  | Err e => Some (TunnelRcErr e)
  | Panic => Some (TunnelErr None)
  end.
