(* ===== verification/ClientSafety.v ===== *)
(** What holds of a client whatever its sessions, its callers and its watcher do:
    the step relation of [Client.v], its invariant, and the theorems about
    reconnection, surrender, closing and hooks. *)
From S2P Require Import Prelude Text Wire PushReply Session Dial Client.
Local Open Scope Z_scope.

(** ** Steps *)

(** A session on its own: a close reason and the closed flag stay, the handler is
    only changed by the client. *)
Record evolves (x x' : session) : Prop := {
  ev_err e : rs_closeErr x = Some e → rs_closeErr x' = Some e;
  ev_closed : rs_closed x = true → rs_closed x' = true;
  ev_handler : rs_handler x' = rs_handler x;
  ev_push : rs_push x' = rs_push x
}.

(** A session as a dial returns it. *)
Definition fresh (x : session) : Prop := rs_handler x = None ∧ rs_counters x = zero_counters.

(** The client and the call that is installing a handler, if any: the handler
    calls of this system come one after the other. *)
Definition world : Type := Client * option handler_call.

Inductive cl_step : world → world → Prop :=
  | cs_session p x x' c k : cl_store c !! p = Some x → evolves x x' →
      cl_step (c, k) (on_session p (λ _, x') c, k)
  | cs_reconnect now failed delay c k : cl_rc c = None →
      cl_step (c, k) ((reconnectInstall now failed delay c).1, k)
  | cs_wait callerErr w c k : cl_step (c, k) ((reconnect_wait callerErr w c).1, k)
  | cs_dialled now o callerErr c k : match o with DialOk x => fresh x | _ => True end →
      cl_step (c, k) ((reconnect_dialled now o callerErr c).1, k)
  | cs_on_reconnect id c k : cl_step (c, k) (OnReconnect id c, k)
  | cs_detach id c k : cl_step (c, k) (detach id c, k)
  | cs_fire p c k : cl_step (c, k) (fireHooksFor p c, k)
  | cs_watch gap c k : cl_step (c, k) ((watch_tick gap c).1, k)
  | cs_restart why c k : cl_step (c, k) (RequestRestart why c, k)
  | cs_close c k : cl_step (c, k) ((Close_begin c).1, k)
  | cs_close_finish c c' k : cl_closed c = true → Close_finish c = Some c' → cl_step (c, k) (c', k)
  | cs_handler h c : cl_step (c, None) ((SetIngressHandler h c).1, Some (SetIngressHandler h c).2)
  | cs_detach_handler t c : cl_step (c, None) (detach_handler t c)
  | cs_handler_step k c : cl_step (c, Some k) (handler_step k c).

Definition reachable (cfg : Config) (now : Z) (x : session) (w : world) : Prop :=
  rtc cl_step (client_new cfg now x, None) w.

(** ** The invariant *)

(** The registered handler is, or is about to be, the handler of the session. *)
Definition handler_ok (c : Client) (k : option handler_call) (x : session) : Prop :=
  match k with
  | None => rs_handler x = cl_ingressHandler c
  | Some (HRead h) => h = cl_ingressHandler c
  | Some (HApply p h) => h = cl_ingressHandler c ∧ (p = cl_s c ∨ rs_handler x = cl_ingressHandler c)
  end.

Definition ordered (l : list nat) : Prop := ∀ i j a b, l !! i = Some a → l !! j = Some b → (i ≤ j)%nat → (a ≤ b)%nat.

Record cl_inv (w : world) : Prop := {
  ci_current : ∃ x, current w.1 = Some x ∧ handler_ok w.1 w.2 x;
  ci_others p x : cl_store w.1 !! p = Some x → p ≠ cl_s w.1 → rs_closed x = true;
  ci_rc r : cl_rc w.1 = Some r → rc_failed r = cl_s w.1 ∧ cl_gaveUp w.1 = false ∧ 1 ≤ rc_attempt r ∧
    ∀ x, current w.1 = Some x → rs_closed x = true;
  ci_gaveUp : cl_gaveUp w.1 = cl_unrecoverable w.1;
  ci_fired : ordered (cl_fired w.1).*1;
  ci_fired_old i : i ∈ (cl_fired w.1).*1 → (i ≤ cl_s w.1)%nat;
  ci_attempts r : cl_rc w.1 = Some r → 0 < cf_ReconnectMaxAttempts (cl_cfg w.1) →
    rc_attempt r ≤ cf_ReconnectMaxAttempts (cl_cfg w.1)
}.

Lemma client_new_inv cfg now x : fresh x → cl_inv (client_new cfg now x, None).
Proof.
  intros [Hh _]. split; cbn; try done.
  - by exists x.
  - intros [|p] y Hp Hne; [done|]. by destruct p.
  - by intros i ?%elem_of_nil.
Qed.

(** A change of one session that keeps its flag. *)
Lemma on_session_inv p f c k :
  cl_inv (c, k) →
  (∀ x, cl_store c !! p = Some x → rs_closed x = true → rs_closed (f x) = true) →
  (∀ x, cl_store c !! p = Some x → p = cl_s c → handler_ok c k x → handler_ok c k (f x)) →
  cl_inv (on_session p f c, k).
Proof.
  intros [(x & Hx & Hk) Ho Hr Hg Hf Hfo Ha] Hcl Hh. unfold current in *. cbn [fst snd] in *. split; cbn [fst snd].
  - unfold current. cbn. destruct (decide (p = cl_s c)) as [->|Hne].
    + exists (f x). rewrite list_lookup_alter_eq, Hx. split; [done|]. by apply Hh.
    + exists x. by rewrite list_lookup_alter_ne.
  - intros q y. cbn. destruct (decide (p = q)) as [->|Hne]; [|rewrite list_lookup_alter_ne by done; apply Ho].
    rewrite list_lookup_alter_eq. intros (z & Hz & ->)%fmap_Some Hq. eapply Hcl; [exact Hz|]. by eapply Ho.
  - intros r Hrc. destruct (Hr r Hrc) as (H1 & H2 & H3 & H4). split_and!; [done..|]. intros y. unfold current. cbn.
    destruct (decide (p = cl_s c)) as [->|Hne]; [|rewrite list_lookup_alter_ne by done; apply H4].
    rewrite list_lookup_alter_eq. intros (z & Hz & ->)%fmap_Some. eapply Hcl; [exact Hz|]. by eapply H4.
  - done.
  - done.
  - done.
  - done.
Qed.

Lemma handler_ok_same c k x y : rs_handler x = rs_handler y → handler_ok c k x → handler_ok c k y.
Proof. intros H. unfold handler_ok. by rewrite H. Qed.

Lemma on_session_same p f c k :
  (∀ x, cl_store c !! p = Some x → (rs_closed x = true → rs_closed (f x) = true) ∧ rs_handler (f x) = rs_handler x) →
  cl_inv (c, k) → cl_inv (on_session p f c, k).
Proof.
  intros H Hi. apply on_session_inv; [done|intros x Hx; by apply H|]. intros x Hx _. apply handler_ok_same.
  symmetry. by apply H.
Qed.

(** Changes to the other fields. *)
Lemma set_closed_inv c k : cl_inv (c, k) → cl_inv (set_closed c, k).
Proof. intros []. by split. Qed.
Lemma set_hooks_inv v c k : cl_inv (c, k) → cl_inv (set_hooks v c, k).
Proof. intros []. by split. Qed.
Lemma set_rc_None_inv c k : cl_inv (c, k) → cl_inv (set_rc None c, k).
Proof. intros []. by split. Qed.
Lemma set_stalls_inv n g c k : cl_rc c = None → cl_inv (c, k) → cl_inv (set_stalls n g c, k).
Proof.
  intros Hn [? ? Hr Hg]. split; cbn [fst snd set_stalls cl_rc cl_gaveUp cl_unrecoverable cl_store cl_s cl_fired cl_cfg]; try done.
  - intros r Hrc. cbn in *. congruence.
  - cbn in Hg. by rewrite Hg.
Qed.

Lemma close_failed_inv c k r :
  cl_inv (c, k) → cl_gaveUp c = false → 1 ≤ rc_attempt r → rc_failed r = cl_s c →
  (0 < cf_ReconnectMaxAttempts (cl_cfg c) → rc_attempt r ≤ cf_ReconnectMaxAttempts (cl_cfg c)) →
  cl_inv (set_rc (Some r) (on_session (cl_s c) rs_Close c), k).
Proof.
  intros Hi Hg Ha Hf Hm. apply (on_session_same (cl_s c) rs_Close) in Hi; [|done].
  destruct Hi as [Hc Ho _ Hgu Hfi Hfo _]. split; try done.
  - intros r' [= <-]. split_and!; [done..|]. intros x. unfold current. cbn. rewrite list_lookup_alter_eq.
    by intros (y & _ & ->)%fmap_Some.
  - by intros r' [= <-].
Qed.

Lemma reconnectInstall_inv now failed delay c k :
  cl_rc c = None → cl_inv (c, k) → cl_inv ((reconnectInstall now failed delay c).1, k).
Proof.
  intros Hn Hi. unfold reconnectInstall. destruct (cl_closed c); [done|].
  destruct (Nat.eqb_spec (cl_s c) failed) as [<-|]; [|done]. cbn [negb]. destruct (cl_gaveUp c) eqn:Hg; [done|].
  destruct (0 <? cf_MaxConsecutiveStalls (cl_cfg c)).
  - destruct (decideStallSurrender _ _ _ _ _) as [n []]; [by apply set_stalls_inv|].
    apply (close_failed_inv (set_stalls n false c)); cbn; [by apply set_stalls_inv|by rewrite Hg|lia..].
  - apply (close_failed_inv c); cbn; done || lia.
Qed.

Lemma set_rc_inv c k r r' :
  cl_rc c = Some r → rc_failed r' = rc_failed r → 1 ≤ rc_attempt r' →
  (0 < cf_ReconnectMaxAttempts (cl_cfg c) → rc_attempt r' ≤ cf_ReconnectMaxAttempts (cl_cfg c)) →
  cl_inv (c, k) → cl_inv (set_rc (Some r') c, k).
Proof.
  intros Hr Hf Ha Hm [? ? Hrc]. destruct (Hrc r Hr) as (? & ? & _ & ?). split; try done; cbn; intros q [= <-]; [|done].
  split_and!; try done. by rewrite Hf.
Qed.

Lemma reconnect_wait_inv callerErr w c k : cl_inv (c, k) → cl_inv ((reconnect_wait callerErr w c).1, k).
Proof.
  intros Hi. unfold reconnect_wait. destruct (cl_rc c) as [[failed attempt wait []]|] eqn:Hr; try done.
  destruct (cl_closed c); [by apply set_rc_None_inv|]. destruct callerErr; [by apply set_rc_None_inv|].
  destruct (if 0 <? wait then w else TimerFired); try (by apply set_rc_None_inv).
  pose proof (ci_rc _ Hi _ Hr) as (_ & _ & ? & _). pose proof (ci_attempts _ Hi _ Hr) as Ha.
  by eapply set_rc_inv.
Qed.

(** A new session behind the others. *)
Lemma discard_inv c k x : rs_closed x = true → cl_inv (c, k) → cl_inv (set_store (cl_store c ++ [x]) c, k).
Proof.
  intros Hx [(y & Hy & Hk) Ho Hr Hg Hf Hfo Ha]. unfold current in *. cbn [fst snd] in *. split; cbn [fst snd]; try done.
  - exists y. split; [|done]. unfold current. cbn. by apply lookup_app_l_Some.
  - intros p z. cbn. intros [Hz|[_ Hz]]%lookup_app_Some; [by apply Ho|]. intros _.
    destruct (p - _)%nat as [|q]; [by injection Hz as <-|by destruct q].
  - intros r Hrc. destruct (Hr r Hrc) as (H1 & H2 & H3 & H4). split_and!; [done..|]. intros z. unfold current. cbn.
    intros Hz. apply H4. rewrite <-Hz. symmetry. apply lookup_app_l. by eapply lookup_lt_Some.
Qed.

Lemma install_inv failed now x c k r :
  cl_rc c = Some r → rc_failed r = failed → fresh x → cl_inv (c, k) → cl_inv (set_rc None (install failed now x c), k).
Proof.
  intros Hrc <- [Hh _] Hi. pose proof (ci_rc _ Hi _ Hrc) as (Hf & _ & _ & Hcl).
  destruct Hi as [(y & Hy & Hk) Ho _ Hg Hfi Hfo _]. unfold current in *. cbn [fst snd] in *.
  set (x' := match cl_ingressHandler c with Some h => rs_SetIngressHandler (Some h) x | None => x end).
  assert (rs_handler x' = cl_ingressHandler c) as Hx' by (subst x'; by destruct (cl_ingressHandler c)).
  split; cbn [fst snd]; try done.
  - exists x'. unfold current. cbn. split; [by rewrite lookup_app_r, Nat.sub_diag by lia|].
    unfold handler_ok in *. destruct k as [[h|p h]|]; cbn in *; [done| |done]. split; [apply Hk|by right].
  - intros p z. cbn. intros [Hz|[Hge Hz]]%lookup_app_Some Hne.
    + destruct (decide (p = cl_s c)) as [->|]; [by apply Hcl|by eapply Ho].
    + destruct (p - length (cl_store c))%nat as [|q] eqn:Hq; [lia|by destruct q].
  - cbn. intros i Hin%Hfo. apply lookup_lt_Some in Hy. lia.
Qed.

Lemma backoff_attempt_inv c k failed attempt wait delay :
  cl_rc c = Some (mkReconnecting failed attempt wait Dialing) →
  (0 <? cf_ReconnectMaxAttempts (cl_cfg c)) && (cf_ReconnectMaxAttempts (cl_cfg c) <=? attempt) = false →
  cl_inv (c, k) → cl_inv (set_rc (Some (mkReconnecting failed (attempt + 1) delay Waiting)) c, k).
Proof.
  intros Hr Hm Hi. pose proof (ci_rc _ Hi _ Hr) as (_ & _ & Ha & _). cbn in Ha.
  eapply set_rc_inv; [exact Hr|done|cbn; lia| |done]. cbn. intros Hp. apply andb_false_iff in Hm as [Hm|Hm]; lia.
Qed.

Lemma reconnect_dialled_inv now o callerErr c k :
  match o with DialOk x => fresh x | _ => True end → cl_inv (c, k) → cl_inv ((reconnect_dialled now o callerErr c).1, k).
Proof.
  intros Hx Hi. unfold reconnect_dialled. destruct (cl_rc c) as [[failed attempt wait []]|] eqn:Hr; try done.
  destruct o as [| |x]; [by apply set_rc_None_inv| |].
  - destruct callerErr; [by apply set_rc_None_inv|].
    destruct ((_ <? _) && _) eqn:Hm; [by apply set_rc_None_inv|]. by eapply backoff_attempt_inv.
  - destruct (cl_closed c); [by apply set_rc_None_inv, discard_inv|].
    destruct callerErr; [by apply set_rc_None_inv, discard_inv|]. by eapply install_inv.
Qed.

Lemma ordered_snoc l m b : ordered l → (∀ a, a ∈ l → (a ≤ b)%nat) → Forall (b =.) m → ordered (l ++ m).
Proof.
  intros Ho Hb Hm i j x y Hi Hj Hij. rewrite list.Forall_forall in Hm.
  apply lookup_app_Some in Hi as [Hi|[Hi1 Hi2]], Hj as [Hj|[Hj1 Hj2]].
  - by eapply Ho.
  - apply list_elem_of_lookup_2 in Hj2. apply Hm in Hj2 as <-. apply Hb. by eapply list_elem_of_lookup_2.
  - apply lookup_lt_Some in Hj. lia.
  - apply list_elem_of_lookup_2 in Hi2, Hj2. apply Hm in Hi2 as <-. by apply Hm in Hj2 as <-.
Qed.

Lemma fire_inv p c k : cl_inv (c, k) → cl_inv (fireHooksFor p c, k).
Proof.
  intros Hi. unfold fireHooksFor. destruct (cl_closed c); [done|]. cbn [orb].
  destruct (Nat.eqb_spec (cl_s c) p) as [<-|]; [|done]. cbn [negb]. destruct Hi as [? ? ? ? Hf Hfo ?].
  assert (Forall (cl_s c =.) ((λ id, (cl_s c, id)) <$> cl_onReconnect c).*1) as Hnew
    by (apply list.Forall_fmap, list.Forall_fmap, list.Forall_true; done).
  split; try done; cbn [fst snd set_fired FireOnReconnect cl_fired cl_s]; rewrite fmap_app.
  - by eapply ordered_snoc.
  - intros i [Hin|Hin]%elem_of_app; [by apply Hfo|]. rewrite list.Forall_forall in Hnew. by apply Hnew in Hin as <-.
Qed.

Lemma restart_inv why c k : cl_inv (c, k) → cl_inv (on_session (cl_s c) (rs_RequestRestart why) c, k).
Proof. apply on_session_same. intros x _. unfold rs_RequestRestart. by destruct (rs_closed x) eqn:?. Qed.

Lemma watch_inv gap c k : cl_inv (c, k) → cl_inv ((watch_tick gap c).1, k).
Proof.
  intros Hi. unfold watch_tick. destruct (cl_closed c); [done|]. cbv zeta.
  destruct (sessionWatchWakeGapThreshold <? gap).
  - apply (restart_inv (text "wake from sleep (client watcher)")) in Hi. by repeat case_match.
  - by repeat case_match.
Qed.

Lemma set_handler_inv h c : cl_inv (c, None) → cl_inv (set_handler h c, Some (HRead h)).
Proof. intros [(x & Hx & Hk) ? ? ? ? ? ?]. split; try done. by exists x. Qed.

Lemma handler_step_inv q c : cl_inv (c, Some q) → cl_inv (handler_step q c).
Proof.
  intros Hi. destruct q as [h|p h]; cbn.
  - destruct Hi as [(x & Hx & Hk) ? ? ? ? ? ?]. split; try done. exists x. split; [done|]. by split; [|left].
  - assert (cl_inv (on_session p (rs_SetIngressHandler h) c, Some (HApply p h))) as Hj
      by (apply on_session_inv; [done|done|]; cbn; intros x _ _ [-> _]; split; [done|by right]).
    destruct Hj as [(x & Hx & Hk) ? ? ? ? ? ?]. split; try done. exists x. split; [done|]. cbn in *.
    destruct Hi as [(y & Hy & Hy') _ _ _ _ _ _]. destruct Hk as [-> [->|Hh]]; [|done].
    unfold current in Hx. cbn in Hx. rewrite list_lookup_alter_eq in Hx. by apply fmap_Some in Hx as (z & _ & ->).
Qed.

Lemma cl_step_inv w w' : cl_step w w' → cl_inv w → cl_inv w'.
Proof.
  intros [] Hi.
  - match goal with H : evolves _ _ |- _ => destruct H end.
    apply on_session_same; [|done]. intros y Hy. by simplify_eq.
  - by apply reconnectInstall_inv.
  - by apply reconnect_wait_inv.
  - by apply reconnect_dialled_inv.
  - by apply set_hooks_inv.
  - by apply set_hooks_inv.
  - by apply fire_inv.
  - by apply watch_inv.
  - unfold RequestRestart. destruct (cl_closed c); [done|by apply restart_inv].
  - unfold Close_begin. destruct (cl_closed c); [done|by apply set_closed_inv].
  - match goal with H : Close_finish _ = _ |- _ => unfold Close_finish in H; destruct (cl_rc c); [done|injection H as <-] end.
    by apply on_session_same.
  - by apply set_handler_inv.
  - unfold detach_handler. case_bool_decide; [by apply set_handler_inv|done].
  - by apply handler_step_inv.
Qed.

Lemma reachable_inv cfg now x w : fresh x → reachable cfg now x w → cl_inv w.
Proof.
  intros Hf H. apply (client_new_inv cfg now) in Hf. unfold reachable in H. revert Hf.
  induction H as [|w1 w2 w3 Hs _ IH]; [done|]. intros Hi. by eapply IH, cl_step_inv.
Qed.

(** ** Closing *)

Definition all_closed (c : Client) : Prop := ∀ p x, cl_store c !! p = Some x → rs_closed x = true.

(** The client once [Close] is through. *)
Record down (c : Client) : Prop := {
  dn_closed : cl_closed c = true;
  dn_rc : cl_rc c = None;
  dn_all : all_closed c
}.

Lemma down_on_session p f c :
  (∀ x, cl_store c !! p = Some x → rs_closed x = true → rs_closed (f x) = true) → down c → down (on_session p f c).
Proof.
  intros Hf [? ? Ha]. split; try done. intros q y. cbn. destruct (decide (p = q)) as [->|Hne].
  - rewrite list_lookup_alter_eq. intros (x & Hx & ->)%fmap_Some. eapply Hf; [exact Hx|]. by eapply Ha.
  - rewrite list_lookup_alter_ne by done. apply Ha.
Qed.

Lemma down_step w w' : cl_step w w' → down w.1 → down w'.1.
Proof.
  intros [] Hd; cbn [fst] in *; pose proof Hd as [Hc Hr Ha].
  - match goal with H : evolves _ _ |- _ => destruct H end. apply down_on_session; [|done]. intros y Hy. by simplify_eq.
  - unfold reconnectInstall. by rewrite Hc.
  - unfold reconnect_wait. by rewrite Hr.
  - unfold reconnect_dialled. by rewrite Hr.
  - by split.
  - by split.
  - unfold fireHooksFor. by rewrite Hc.
  - unfold watch_tick. by rewrite Hc.
  - unfold RequestRestart. by rewrite Hc.
  - unfold Close_begin. by rewrite Hc.
  - match goal with H : Close_finish _ = _ |- _ => unfold Close_finish in H; rewrite Hr in H; injection H as <- end.
    by apply down_on_session.
  - by split.
  - unfold detach_handler. case_bool_decide; by split.
  - destruct k as [h|p h]; cbn; [done|]. by apply down_on_session.
Qed.

Lemma Close_finish_down c k c' : cl_inv (c, k) → cl_closed c = true → Close_finish c = Some c' → down c'.
Proof.
  intros Hi Hc Hf. unfold Close_finish in Hf. destruct (cl_rc c) eqn:Hr; [done|]. injection Hf as <-.
  split; [done|done|]. intros p x. cbn. destruct (decide (cl_s c = p)) as [<-|Hne].
  - rewrite list_lookup_alter_eq. by intros (y & _ & ->)%fmap_Some.
  - rewrite list_lookup_alter_ne by done. intros Hx. by eapply (ci_others _ Hi).
Qed.

(** C5: a client has one session at a time and leaves none behind.  Whatever
    its callers, its watcher and its sessions do, every session other than the
    current one has been closed; hooks are called in the order of the sessions,
    none for an older one after a newer one; when no call is installing a
    handler, the registered handler is the one of the current session; the
    unrecoverable channel is closed exactly when the client gave up; and once
    [Close] is through, every session there is or will be is closed. *)
Theorem client_one_session cfg now x c k :
  fresh x → reachable cfg now x (c, k) →
  (∀ p y, cl_store c !! p = Some y → p ≠ cl_s c → rs_closed y = true) ∧
  ordered (cl_fired c).*1 ∧ (∀ p id, (p, id) ∈ cl_fired c → (p ≤ cl_s c)%nat) ∧
  (k = None → ∃ y, current c = Some y ∧ rs_handler y = cl_ingressHandler c) ∧
  cl_unrecoverable c = cl_gaveUp c ∧
  (∀ c' w, cl_closed c = true → Close_finish c = Some c' → rtc cl_step (c', k) w → all_closed w.1).
Proof.
  intros Hf Hr. apply reachable_inv in Hr as Hi; [|done]. split_and!.
  - apply Hi.
  - apply Hi.
  - intros p id Hin. apply (ci_fired_old _ Hi). cbn [fst]. change p with (p, id).1. by apply list_elem_of_fmap_2.
  - intros ->. destruct (ci_current _ Hi) as (y & Hy & Hk). by exists y.
  - symmetry. apply Hi.
  - intros c' w Hc Hfin Hw. eapply Close_finish_down in Hfin; [|done|done].
    assert (∀ w1 w2, rtc cl_step w1 w2 → down w1.1 → down w2.1) as Hrtc.
    { induction 1 as [|? ? ? Hs _ IH]; [done|]. intros Hd. by eapply IH, down_step. }
    by apply (Hrtc _ _ Hw) in Hfin as [].
Qed.

(** ** A reconnection *)

Lemma u64_idem a b : u64 (u64 (a + b) + 0) = u64 (a + b).
Proof. unfold u64. rewrite Z.add_0_r. by apply Z.mod_mod. Qed.

Lemma add_counters_zero a b : add_counters (add_counters a b) zero_counters = add_counters a b.
Proof. unfold add_counters. cbn. by rewrite !u64_idem. Qed.

(** C13: a successful reconnection swaps the session and loses nothing.  When the
    dial returns a session, the client is open and the caller still waits, that
    session becomes the current one with the registered handler already on it;
    the totals of the statistics are those of before, with one more reconnection;
    no other session changes, and the caller learns which one was installed.
    When the client was closed, or the caller gone, the session just dialled is
    closed and everything else stays. *)
Theorem reconnect_swaps cfg t0 x0 now c k r x callerErr :
  fresh x0 → reachable cfg t0 x0 (c, k) → cl_rc c = Some r → rc_phase_of r = Dialing → fresh x →
  let '(c', result) := reconnect_dialled now (DialOk x) callerErr c in
  cl_rc c' = None ∧ (∀ p, (p < length (cl_store c))%nat → cl_store c' !! p = cl_store c !! p) ∧
  cl_onReconnect c' = cl_onReconnect c ∧ cl_ingressHandler c' = cl_ingressHandler c ∧
  if cl_closed c || callerErr then
    result = Some (Err (if cl_closed c then RcClosed else RcCaller)) ∧ cl_s c' = cl_s c ∧ Stats c' = Stats c ∧
    ∃ y, cl_store c' !! length (cl_store c) = Some y ∧ rs_closed y = true
  else
    result = Some (Ok (Some (cl_s c'))) ∧ cl_s c' = length (cl_store c) ∧ cl_sessionUp c' = now ∧
    (∃ y, current c' = Some y ∧ rs_handler y = cl_ingressHandler c ∧ rs_push y = rs_push x) ∧
    (Stats c').1 = ((Stats c).1.1, u64 ((Stats c).1.2 + 1)).
Proof.
  intros Hf0 Hr Hrc Hph Hf. apply reachable_inv in Hr as Hi; [|done].
  destruct r as [failed attempt wait ph]. cbn in Hph. subst ph. unfold reconnect_dialled. rewrite Hrc.
  pose proof (ci_rc _ Hi _ Hrc) as (Hfa & _). cbn in Hfa. destruct (ci_current _ Hi) as (y & Hy & _).
  assert (∀ z, (cl_store c ++ [z]) !! length (cl_store c) = Some z) as Hend
    by (intros z; by rewrite lookup_app_r, Nat.sub_diag by lia).
  assert (∀ z p, (p < length (cl_store c))%nat → (cl_store c ++ [z]) !! p = cl_store c !! p) as Hold
    by (intros z p Hp; by apply lookup_app_l).
  assert (∀ z, Stats (set_rc None (set_store (cl_store c ++ [rs_Close z]) c)) = Stats c) as Hst.
  { intros z. unfold Stats, current in *. cbn in *. rewrite Hold by (by eapply lookup_lt_Some). by rewrite Hy. }
  destruct (cl_closed c); cbn [orb finish].
  { split_and!; try done; [apply Hold|]. eexists. split; [apply Hend|done]. }
  destruct callerErr; cbn [finish].
  { split_and!; try done; [apply Hold|]. eexists. split; [apply Hend|done]. }
  split_and!; try done; [apply Hold| |].
  - eexists. split; [apply Hend|]. destruct Hf as [Hh _]. by destruct (cl_ingressHandler c).
  - unfold Stats, current in *. cbn in *. rewrite Hend, Hfa, Hy. cbn.
    assert (rs_counters (match cl_ingressHandler c with Some h => rs_SetIngressHandler (Some h) x | None => x end) =
      zero_counters) as -> by (destruct Hf as [_ Hz]; by destruct (cl_ingressHandler c)).
    by rewrite add_counters_zero.
Qed.

(** ** The loop of a reconnection *)

(** An iteration: whether [Close] or the caller ends before its wait, how the wait
    ends, whether [Close] is called while it dials, what the dial gives, whether the
    caller is still there, and the clock. *)
Record attempt := mkAttempt {
  at_close : bool;
  at_before : bool;
  at_wake : wake;
  at_closeDialing : bool;
  at_dial : dialled;
  at_after : bool;
  at_now : Z
}.

Definition may_close (b : bool) (c : Client) : Client := if b then (Close_begin c).1 else c.

(** The loop, with the wait that came before each of its dials. *)
Fixpoint attempts (evs : list attempt) (c : Client) : list Z * option (res rc_error (option nat)) :=
  match evs with
  | [] => ([], None)
  | e :: evs' =>
      match reconnect_wait (at_before e) (at_wake e) (may_close (at_close e) c) with
      | (_, Some r) => ([], Some r)
      | (c1, None) =>
          let waited := from_option rc_wait 0 (cl_rc c) in
          match reconnect_dialled (at_now e) (at_dial e) (at_after e) (may_close (at_closeDialing e) c1) with
          | (_, Some r) => ([waited], Some r)
          | (c2, None) => let '(waits, r) := attempts evs' c2 in (waited :: waits, r)
          end
      end
  end.

Lemma may_close_keeps b c : cl_rc (may_close b c) = cl_rc c ∧ cl_cfg (may_close b c) = cl_cfg c.
Proof. unfold may_close, Close_begin. by destruct b, (cl_closed c). Qed.

Lemma backoffDelay_exact n m :
  1 ≤ n → 0 < m → backoffDelay n m = Z.min (Second * 2 ^ Z.min (n - 1) 30) m.
Proof.
  intros Hn Hm. unfold backoffDelay. rewrite (proj2 (Z.ltb_ge n 1)) by lia.
  assert (0 < 2 ^ Z.min (n - 1) 30 ≤ 2 ^ 30) as [Hp Hle].
  { split; [apply Z.pow_pos_nonneg; lia|apply Z.pow_le_mono_r; lia]. }
  assert (i64 (Z.shiftl Second (Z.min (n - 1) 30)) = Second * 2 ^ Z.min (n - 1) 30) as ->.
  { rewrite Z.shiftl_mul_pow2 by lia. apply i64_small. unfold Second. lia. }
  rewrite (proj2 (Z.leb_gt _ 0)); [done|]. unfold Second. lia.
Qed.

Lemma maxInterval_pos c : 0 < maxInterval c.
Proof. unfold maxInterval. destruct (Z.leb_spec (cf_ReconnectMaxInterval (cl_cfg c)) 0); [done|lia]. Qed.

(** What an iteration does to a client in the loop: it has a result, or a failed
    dial counts and sets the next wait. *)
Lemma attempt_cases e c failed n wait :
  cl_rc c = Some (mkReconnecting failed n wait Waiting) →
  (∃ c1 r, reconnect_wait (at_before e) (at_wake e) (may_close (at_close e) c) = (c1, Some r) ∧ r ≠ Err RcGaveUp) ∨
  ∃ c1, reconnect_wait (at_before e) (at_wake e) (may_close (at_close e) c) = (c1, None) ∧
    let M := cf_ReconnectMaxAttempts (cl_cfg c) in
    let '(c2, o) := reconnect_dialled (at_now e) (at_dial e) (at_after e) (may_close (at_closeDialing e) c1) in
    match o with
    | Some r => r = Err RcGaveUp → 0 < M ≤ n
    | None => (0 < M → n < M) ∧ cl_cfg c2 = cl_cfg c ∧
        cl_rc c2 = Some (mkReconnecting failed (n + 1) (backoffDelay n (maxInterval c)) Waiting)
    end.
Proof.
  intros Hrc. destruct (may_close_keeps (at_close e) c) as [H1 H2]. unfold reconnect_wait. rewrite H1, Hrc.
  generalize dependent (may_close (at_close e) c). intros c0 H1 H2. destruct (cl_closed c0); [left; by eexists _, _|].
  destruct (at_before e); [left; by eexists _, _|].
  destruct (if 0 <? wait then at_wake e else TimerFired); [right|left; by eexists _, _..].
  eexists. split; [reflexivity|]. cbv zeta.
  destruct (may_close_keeps (at_closeDialing e) (set_rc (Some (mkReconnecting failed n wait Dialing)) c0)) as [H3 H4].
  generalize dependent (may_close (at_closeDialing e) (set_rc (Some (mkReconnecting failed n wait Dialing)) c0)).
  intros c1 H3 H4. cbn in H3, H4. unfold reconnect_dialled. rewrite H3.
  assert (maxInterval c1 = maxInterval c) as -> by (unfold maxInterval; by rewrite H4, H2). rewrite H4, H2.
  destruct (at_dial e) as [| |x]; [done| |by destruct (cl_closed c1), (at_after e)].
  destruct (at_after e); [done|]. destruct (Z.ltb_spec 0 (cf_ReconnectMaxAttempts (cl_cfg c))); cbn [andb].
  - destruct (Z.leb_spec (cf_ReconnectMaxAttempts (cl_cfg c)) n); cbn [finish]; [done|].
    split_and!; [done|cbn; congruence|done].
  - split_and!; [lia|cbn; congruence|done].
Qed.

Lemma reconnectInstall_begins now failed delay c c' :
  reconnectInstall now failed delay c = (c', None) →
  cl_rc c' = Some (mkReconnecting failed 1 delay Waiting) ∧ cl_cfg c' = cl_cfg c.
Proof.
  unfold reconnectInstall. destruct (cl_closed c); [done|]. destruct (negb _); [done|]. destruct (cl_gaveUp c); [done|].
  destruct (0 <? cf_MaxConsecutiveStalls (cl_cfg c)); [destruct (decideStallSurrender _ _ _ _ _) as [n []]; [done|]|];
    by intros [= <-].
Qed.

Lemma attempts_spec evs c failed n wait :
  cl_rc c = Some (mkReconnecting failed n wait Waiting) → 1 ≤ n →
  let M := cf_ReconnectMaxAttempts (cl_cfg c) in
  (0 < M → n ≤ M) →
  let '(waits, o) := attempts evs c in
  (waits `prefix_of` wait :: ((λ k, Z.min (Second * 2 ^ Z.min k 30) (maxInterval c)) <$> seqZ (n - 1) (zlen evs))) ∧
  (0 < M → n - 1 + zlen waits ≤ M ∧ (M - n < zlen evs → is_Some o)) ∧
  (o = Some (Err RcGaveUp) → 0 < M ∧ n - 1 + zlen waits = M).
Proof.
  revert c n wait. induction evs as [|e evs IH]; intros c n wait Hrc Hn M HM; cbn [attempts].
  - unfold zlen; cbn [length]. split_and!; [apply prefix_nil|intros ?; split; [lia|intros ?; lia]|done].
  - destruct (attempt_cases e c failed n wait Hrc) as [(c1 & r & -> & Hr)|(c1 & -> & H)].
    { unfold zlen. cbn [length]. split_and!; [apply prefix_nil|intros ?; split; [lia|by eexists]|congruence]. }
    rewrite Hrc. cbn [from_option rc_wait]. cbv zeta in H. fold M in H.
    destruct (reconnect_dialled _ _ _ _) as [c2 [r|]].
    { split_and!; [by apply prefix_cons, prefix_nil|intros ?; split; [unfold zlen; cbn; lia|by eexists]|].
      intros [= ->]. specialize (H eq_refl). unfold zlen. cbn [length]. lia. }
    destruct H as (Hlt & Hcfg & Hrc2). specialize (IH c2 (n + 1) _ Hrc2 ltac:(lia)). cbv zeta in IH. rewrite Hcfg in IH. fold M in IH.
    destruct (attempts evs c2) as [waits o]. destruct IH as (Hp & Hb & Hg); [lia|].
    assert (maxInterval c2 = maxInterval c) as Hmax by (unfold maxInterval; by rewrite Hcfg).
    rewrite Hmax in Hp. pose proof (maxInterval_pos c).
    assert (zlen (e :: evs) = Z.succ (zlen evs)) as Hz by (unfold zlen; cbn; lia).
    assert (zlen (wait :: waits) = zlen waits + 1) as Hw by (unfold zlen; cbn; lia). rewrite Hz, Hw. split_and!.
    + apply prefix_cons. rewrite seqZ_cons by (unfold zlen; lia). rewrite fmap_cons, Z.pred_succ.
      replace (Z.succ (n - 1)) with (n + 1 - 1) by lia. by rewrite <-backoffDelay_exact.
    + intros H0. destruct (Hb H0) as [? Hs]. split; [lia|]. intros ?. apply Hs. lia.
    + intros Ho. destruct (Hg Ho). lia.
Qed.

(** C14: a reconnection with a limit of attempts comes to an end, and its waits are
    the backoff.  Once it has begun, whatever its dials and timers do and whenever
    the client is closed or the caller gone: the wait before its first dial is the
    delay it was given, and the one before its dial number [k + 2] is [2^k] seconds, at
    most [2^30] and at most the configured maximum (a minute if none is set);
    it makes no more dials than the limit, gives up only after exactly that many, and
    has a result after that many iterations. *)
Theorem reconnect_terminates now failed delay c c' evs :
  reconnectInstall now failed delay c = (c', None) →
  let M := cf_ReconnectMaxAttempts (cl_cfg c) in
  let '(waits, result) := attempts evs c' in
  (waits `prefix_of` delay :: ((λ k, Z.min (Second * 2 ^ Z.min k 30) (maxInterval c)) <$> seqZ 0 (zlen evs))) ∧
  (0 < M → zlen waits ≤ M ∧ (M ≤ zlen evs → is_Some result)) ∧
  (result = Some (Err RcGaveUp) → 0 < M ∧ zlen waits = M).
Proof.
  intros H. apply reconnectInstall_begins in H as [Hrc Hcfg]. cbv zeta.
  pose proof (attempts_spec evs c' failed 1 delay Hrc ltac:(lia)) as Hs. cbv zeta in Hs. rewrite Hcfg in Hs.
  destruct (attempts evs c') as [waits o]. destruct Hs as (Hp & Hb & Hg); [lia|].
  assert (maxInterval c' = maxInterval c) as Hmax by (unfold maxInterval; by rewrite Hcfg). rewrite Hmax in Hp.
  split_and!; [done| |intros Ho; destruct (Hg Ho); lia].
  intros H0. destruct (Hb H0) as [? Hs]. split; [lia|]. intros ?. apply Hs. lia.
Qed.

(** ** Giving up *)

Section surrender.
(** The limits of the configuration. *)
Variables maxStalls stableThreshold : Z.
Hypothesis max_pos : 0 < maxStalls < 2 ^ 31.

(** A failed session: how long it lived, and why it ended. *)
Abbreviation failure := (Z * option close_error)%type.

Definition short_stall (f : failure) : Prop :=
  f.1 < (if stableThreshold <=? 0 then defaultStableSessionThreshold else stableThreshold) ∧
  ∃ delay, f.2 = Some (RestartError delay stallRestartReason).

(** The client's reaction to one failure after another, until it gives up. *)
Definition surrender_run (fs : list failure) : Z * bool :=
  foldl (λ '(n, up) f, if up : bool then (n, up) else decideStallSurrender f.1 f.2 n maxStalls stableThreshold) (0, false) fs.

#[local] Instance short_stall_dec f : Decision (short_stall f).
Proof.
  unfold short_stall. refine (and_dec _ _). destruct f.2 as [[| |delay why|]|].
  3: { destruct (decide (why = stallRestartReason)) as [->|Hne]; [left; by eexists|right]. intros [d [= _ ?]]. done. }
  all: right; intros [d ?]; done.
Qed.

Lemma decide_step l e n :
  0 ≤ n < maxStalls →
  decideStallSurrender l e n maxStalls stableThreshold =
    if decide (short_stall (l, e)) then (n + 1, maxStalls <=? n + 1) else (0, false).
Proof.
  intros Hn. unfold decideStallSurrender. rewrite (proj2 (Z.leb_gt _ _)) by lia.
  assert (i32 (n + 1) = n + 1) as -> by (unfold i32; rewrite Z.mod_small; lia).
  destruct (decide _) as [[Hl [d He]]|Hs]; cbn in *.
  - subst e. rewrite bool_decide_eq_true_2 by done. cbn [negb]. by rewrite (proj2 (Z.leb_gt _ _)).
  - destruct e as [[| |delay why|]|]; try done. case_bool_decide as Hw; [|done]. subst why. cbn [negb].
    destruct (Z.leb_spec (if stableThreshold <=? 0 then defaultStableSessionThreshold else stableThreshold) l) as [|Hlt]; [done|].
    destruct Hs. split; [done|by eexists].
Qed.

(** The number of short stalls at the end. *)
Fixpoint streak (rev : list failure) : nat :=
  match rev with f :: rev' => if decide (short_stall f) then S (streak rev') else 0%nat | [] => 0%nat end.

Definition window (fs : list failure) : Prop :=
  ∃ pre mid post, fs = pre ++ mid ++ post ∧ zlen mid = maxStalls ∧ Forall short_stall mid.

Lemma streak_suffix fs : ∃ pre mid, fs = pre ++ mid ∧ length mid = streak (reverse fs) ∧ Forall short_stall mid.
Proof.
  induction fs as [|f fs IH] using rev_ind; [by exists [], []|]. rewrite reverse_app. cbn.
  destruct (decide (short_stall f)) as [Hs|]; [|exists (fs ++ [f]), []; by rewrite app_nil_r].
  destruct IH as (pre & mid & -> & Hl & Hm). exists pre, (mid ++ [f]). rewrite length_app, <-app_assoc, Hl. cbn.
  split_and!; [done|lia|]. apply list.Forall_app. by split; [|apply (list.Forall_singleton short_stall)].
Qed.

Lemma streak_ge fs mid pre : fs = pre ++ mid → Forall short_stall mid → (length mid ≤ streak (reverse fs))%nat.
Proof.
  intros -> Hm. induction mid as [|f mid IH] using rev_ind; [cbn; lia|].
  apply list.Forall_app in Hm as [Hm Hf]. apply (list.Forall_singleton short_stall) in Hf.
  rewrite app_assoc, reverse_app, length_app. cbn. destruct (decide (short_stall f)); [|done]. specialize (IH Hm). lia.
Qed.

Lemma window_snoc fs f : window (fs ++ [f]) ↔ window fs ∨ maxStalls ≤ Z.of_nat (streak (reverse (fs ++ [f]))).
Proof.
  split.
  - intros (pre & mid & post & Heq & Hl & Hm). destruct post as [|g post _] using rev_ind.
    + right. rewrite app_nil_r in Heq. apply streak_ge in Heq; [|done]. unfold zlen in Hl. lia.
    + left. rewrite !app_assoc in Heq. apply app_inj_tail in Heq as [-> _]. exists pre, mid, post. by rewrite <-app_assoc.
  - intros [(pre & mid & post & -> & Hl & Hm)|Hs].
    + exists pre, mid, (post ++ [f]). by rewrite <-!app_assoc.
    + destruct (streak_suffix (fs ++ [f])) as (pre & mid & Heq & Hl & Hm). rewrite <-Hl in Hs.
      exists pre, (take (Z.to_nat maxStalls) mid), (drop (Z.to_nat maxStalls) mid). rewrite take_drop. split_and!; [done| |].
      * unfold zlen. rewrite length_take. lia.
      * by apply list.Forall_take.
Qed.

(** The client gives up exactly after the configured number of sessions in a
    row that stalled early.  Over every sequence of failed sessions, it has given
    up exactly when somewhere in it that many consecutive sessions died of a
    stuck data path before the stability threshold; any other failure, and any
    session that lived longer, starts the count again. *)
Theorem surrender_exact fs : (surrender_run fs).2 = true ↔ window fs.
Proof.
  assert (∀ fs, match surrender_run fs with
                | (_, true) => window fs
                | (n, false) => ¬ window fs ∧ n = Z.of_nat (streak (reverse fs)) ∧ n < maxStalls
                end) as H.
  { clear fs. induction fs as [|f fs IH] using rev_ind.
    - split_and!; [|done|cbn; lia]. intros (pre & mid & post & Heq & Hl & _). symmetry in Heq.
      apply app_nil in Heq as [_ [-> _]%app_nil]. unfold zlen in Hl. cbn in Hl. lia.
    - pose proof (window_snoc fs f) as Hsn. unfold surrender_run in *. rewrite foldl_app.
      destruct (foldl _ (0, false) fs) as [n up]. cbn [foldl]. destruct up; [apply Hsn; by left|].
      destruct IH as (Hw & -> & Hlt), f as [l e]. cbn [fst snd]. rewrite decide_step by lia.
      rewrite reverse_app in *. cbn [reverse rev_append app streak] in *.
      destruct (decide (short_stall (l, e))); cbn [snd].
      + destruct (Z.leb_spec maxStalls (Z.of_nat (streak (reverse fs)) + 1)) as [Hge|Hlt'].
        * apply Hsn. right. lia.
        * split_and!; [intros [|]%Hsn; [done|lia]|lia|lia].
      + split_and!; [intros [|]%Hsn; [done|lia]|lia|lia]. }
  specialize (H fs). destruct (surrender_run fs) as [n []]; cbn; [done|]. split; [done|]. intros Hw. by destruct H.
Qed.
End surrender.

(** ** Concrete runs *)

Definition some_session (closeErr : option close_error) : session :=
  mkSession closeErr false zero_counters 5 5 5 None (empty_reply []).
Definition stalled : option close_error := Some (RestartError 0 stallRestartReason).
Definition some_config : Config :=
  Dial.mkConfig (text "udp") (text "h:1") None None [] [] [] [] [] "" 1 ∅ [] 0 0 true 2 0 3 0 "".
Definition client0 : Client := client_new some_config 0 (some_session stalled).
(** The session fails, a handler is installed, and a reconnection reaches its dial. *)
Definition client1 : Client :=
  (reconnect_wait false TimerFired (reconnectInstall (61 * Second) 0 0
    (on_session 0 (rs_SetIngressHandler (Some 9%nat)) (set_handler (Some 9%nat) client0))).1).1.

Lemma client1_reachable : reachable some_config 0 (some_session stalled) (client1, None).
Proof.
  unfold reachable. eapply rtc_l; [exact (cs_handler (Some 9%nat) client0)|].
  eapply rtc_l; [exact (cs_handler_step (HRead (Some 9%nat)) (set_handler (Some 9%nat) client0))|].
  eapply rtc_l; [exact (cs_handler_step (HApply 0 (Some 9%nat)) (set_handler (Some 9%nat) client0))|].
  eapply rtc_l; [by apply (cs_reconnect (61 * Second) 0 0)|]. eapply rtc_l; [apply (cs_wait false TimerFired)|]. apply rtc_refl.
Qed.

Lemma client_one_session_witness :
  (∃ y, current client1 = Some y ∧ rs_handler y = Some 9%nat) ∧ cl_unrecoverable client1 = cl_gaveUp client1.
Proof.
  destruct (client_one_session some_config 0 (some_session stalled) client1 None) as (_ & _ & _ & H & Hu & _);
    [by split|exact client1_reachable|]. split; [exact (H eq_refl)|exact Hu].
Defined.

Lemma reconnect_swaps_witness :
  let '(c', result) := reconnect_dialled 100 (DialOk (some_session None)) false client1 in
  result = Some (Ok (Some 1%nat)) ∧ cl_Reconnects c' = 1 ∧ cl_s c' = 1%nat.
Proof.
  pose proof (reconnect_swaps some_config 0 (some_session stalled) 100 client1 None (mkReconnecting 0 1 0 Dialing)
    (some_session None) false ltac:(by split) client1_reachable eq_refl eq_refl ltac:(by split)) as H.
  destruct H as (_ & _ & _ & _ & H & Hs & _ & _ & _). split; [exact H|]. split; [vm_compute; reflexivity|exact Hs].
Defined.

Definition client2 : Client := (reconnectInstall (61 * Second) 0 (7 * Second) client0).1.

Lemma reconnect_terminates_witness :
  let '(waits, result) := attempts (replicate 2 (mkAttempt false false TimerFired false DialFailed false 0)) client2 in
  waits = [7 * Second; Second] ∧ is_Some result.
Proof.
  pose proof (reconnect_terminates (61 * Second) 0 (7 * Second) client0 client2
    (replicate 2 (mkAttempt false false TimerFired false DialFailed false 0)) eq_refl) as H.
  destruct (attempts _ client2) as [waits result] eqn:He. destruct H as (_ & H & _).
  destruct H as [_ H]; [by vm_compute|]. split; [|apply H; by vm_compute].
  apply (f_equal fst) in He. change waits with (waits, result).1. rewrite <-He. by vm_compute.
Defined.

Lemma surrender_exact_witness :
  0 < 2 < 2 ^ 31 ∧ (surrender_run 2 0 [(5, stalled); (70 * Second, stalled); (1, stalled); (2, stalled)]).2 = true.
Proof.
  split; [done|]. apply (surrender_exact 2 0); [done|].
  exists [(5, stalled); (70 * Second, stalled)], [(1, stalled); (2, stalled)], []. split_and!; [done|done|].
  repeat constructor; cbn; by eexists.
Defined.

(** Two handler calls at once: the registration made between the
    compare-and-swap of a detach and its last step is wiped from the session,
    although it stays registered. *)
Example handler_race :
  let '(c, detaching) := detach_handler 9 client1 in
  let '(c, setting) := SetIngressHandler (Some 4%nat) c in
  let c := (handler_step (HApply (cl_s c) (Some 4%nat)) c).1 in
  detaching = Some (HRead None) ∧ setting = HRead (Some 4%nat) ∧
  let c := (handler_step (HApply (cl_s c) None) c).1 in
  cl_ingressHandler c = Some 4%nat ∧ (rs_handler <$> current c) = Some None.
Proof. by vm_compute. Qed.
