(* ===== verification/Dns.v ===== *)
(** The DNS codec of the proxy ([cmd/openvpn2socks/resolver.go]): a query for one
    name, and the addresses of a response.  Positions are indices into the
    message, as in the code.  A name may jump backwards through compression
    pointers; the fuel of its loop covers every jump the cap allows. *)
From stdpp Require Import gmap.
From S2P Require Import Prelude Text Netip.
Local Open Scope Z_scope.

#[export] Instance byte_countable : Countable byte.
Proof. exact (inj_countable Byte.to_N Byte.of_N Byte.of_to_N). Defined.

Definition dnsTypeA : Z := 1.
Definition dnsTypeCNAME : Z := 5.
Definition dnsTypeAAAA : Z := 28.

Inductive dns_error : Type :=
  | DnsName (qname : bytes)
  | DnsLabel (qname : bytes)
  | DnsShort
  | DnsID (id want : Z)
  | DnsNotResponse
  | DnsTruncated
  | DnsNXDomain
  | DnsRcode (code : Z)
  | DnsOverrun
  | DnsPointer
  | DnsForward
  | DnsJumps
  | DnsLabelLen
  | DnsLabelOverrun
  | DnsNameLong
  | DnsQuestion
  | DnsAnswerHeader
  | DnsRdata
  | DnsOwner
  | DnsNoAnswer.

(** [errDNSAuthoritativeNoData]: a definitive negative. *)
Definition errDNSAuthoritativeNoData (e : dns_error) : bool :=
  match e with DnsNXDomain | DnsNoAnswer => true | _ => false end.

(** ** Names *)

Definition asciiLower (b : byte) : byte :=
  let c := b2z b in if (65 <=? c) && (c <=? 90) then z2b (c + 32) else b.

(** [strings.TrimSuffix]. *)
Definition TrimSuffix (s suffix : bytes) : bytes :=
  if bool_decide (drop (length s - length suffix) s = suffix) then take (length s - length suffix) s else s.

Definition canonicalDNSName (name : bytes) : bytes := asciiLower <$> TrimSuffix name [dot].

(** [labels]: [cur] is the label since the last dot.  What is after the last dot
    is a label only if it is not empty. *)
Fixpoint labels_loop (cur name : bytes) : list bytes :=
  match name with
  | [] => match cur with [] => [] | _ => [cur] end
  | b :: name' => if bool_decide (b = dot) then cur :: labels_loop [] name' else labels_loop (cur ++ [b]) name'
  end.
Definition labels (name : bytes) : list bytes := labels_loop [] name.

(** ** Queries *)

Fixpoint append_labels (qname : bytes) (ls : list bytes) (buf : bytes) : res dns_error bytes :=
  match ls with
  | [] => Ok buf
  | l :: ls' =>
      guard_err ((zlen l =? 0) || (63 <? zlen l)) (DnsLabel qname);;
      append_labels qname ls' (buf ++ [z2b (zlen l)] ++ l)
  end.

Definition buildDNSQuery (id : Z) (qname : bytes) (qtype : Z) : res dns_error bytes :=
  guard_err ((zlen qname =? 0) || (253 <? zlen qname)) (DnsName qname);;
  let hdr := be_enc 2 id ++ be_enc 2 0x0100 ++ be_enc 2 1 ++ be_enc 6 0 in
  buf ← append_labels qname (labels qname) hdr;
  let buf := buf ++ [x00] in
  Ok (buf ++ be_enc 2 qtype ++ be_enc 2 1).

(** ** Reading names *)

Fixpoint skip_loop (fuel : nat) (buf : bytes) (pos : nat) : res dns_error nat :=
  match fuel with
  | O => Panic
  | S fuel' =>
      guard_err (length buf <=? pos)%nat DnsOverrun;;
      c ← index buf pos;
      if b2z c =? 0 then Ok (pos + 1)%nat
      else if Z.land (b2z c) 0xC0 =? 0xC0 then
        guard_err (length buf <=? pos + 1)%nat DnsPointer;;
        Ok (pos + 2)%nat
      else skip_loop fuel' buf (pos + (1 + Z.to_nat (b2z c)))
  end.
Definition skipName (buf : bytes) (pos : nat) : res dns_error nat := skip_loop (S (length buf)) buf pos.

(** [sb] is the name so far, [next] the position after the first pointer, if one
    was followed. *)
Fixpoint decode_loop (fuel : nat) (buf : bytes) (sb : bytes) (next : option nat) (jumps p : nat)
  : res dns_error (bytes * nat) :=
  match fuel with
  | O => Panic
  | S fuel' =>
      guard_err (length buf <=? p)%nat DnsOverrun;;
      c ← index buf p;
      if b2z c =? 0 then Ok (sb, default (p + 1)%nat next)
      else if Z.land (b2z c) 0xC0 =? 0xC0 then
        guard_err (length buf <=? p + 1)%nat DnsPointer;;
        c1 ← index buf (p + 1);
        let ptr := Z.to_nat (Z.lor (Z.shiftl (Z.land (b2z c) 0x3F) 8) (b2z c1)) in
        let next := Some (default (p + 2)%nat next) in
        guard_err (p <=? ptr)%nat DnsForward;;
        guard_err (32 <? S jumps)%nat DnsJumps;;
        decode_loop fuel' buf sb next (S jumps) ptr
      else
        guard_err (negb (Z.land (b2z c) 0xC0 =? 0)) DnsLabelLen;;
        let ll := Z.to_nat (b2z c) in
        let p := S p in
        guard_err (length buf <? p + ll)%nat DnsLabelOverrun;;
        label ← slice buf p (p + ll);
        let sb := (match sb with [] => [] | _ => sb ++ [dot] end) ++ (asciiLower <$> label) in
        let p := (p + ll)%nat in
        guard_err (253 <? zlen sb) DnsNameLong;;
        decode_loop fuel' buf sb next jumps p
  end.
Definition decodeName (buf : bytes) (pos : nat) : res dns_error (bytes * nat) :=
  decode_loop (34 * S (length buf)) buf [] None 0 pos.

(** ** Responses *)

Record answerRR := mkAnswerRR {
  rr_owner : bytes;
  rr_typ : Z;
  rr_rdata : bytes;
  rr_target : bytes      (* of a CNAME *)
}.

Fixpoint skip_questions (n : nat) (resp : bytes) (pos : nat) : res dns_error nat :=
  match n with
  | O => Ok pos
  | S n' =>
      pos ← skipName resp pos;
      guard_err (length resp <? pos + 4)%nat DnsQuestion;;
      skip_questions n' resp (pos + 4)
  end.

Fixpoint read_answers (n : nat) (resp : bytes) (pos : nat) : res dns_error (list answerRR) :=
  match n with
  | O => Ok []
  | S n' =>
      '(owner, pos) ← decodeName resp pos;
      guard_err (length resp <? pos + 10)%nat DnsAnswerHeader;;
      t ← slice resp pos (pos + 2);
      l ← slice resp (pos + 8) (pos + 10);
      let typ := be_dec t in
      let rdlen := Z.to_nat (be_dec l) in
      let pos := (pos + 10)%nat in
      guard_err (length resp <? pos + rdlen)%nat DnsRdata;;
      rdata ← slice resp pos (pos + rdlen);
      let target := if typ =? dnsTypeCNAME
                    then match decodeName resp pos with Ok (t, _) => t | _ => [] end else [] in
      rrs ← read_answers n' resp (pos + rdlen);
      Ok (mkAnswerRR owner typ rdata target :: rrs)
  end.

(** The header, the questions and the answers. *)
Definition read_response (resp : bytes) (wantID : Z) : res dns_error (list answerRR) :=
  guard_err (length resp <? 12)%nat DnsShort;;
  b ← slice resp 0 2;
  let id := be_dec b in
  guard_err (negb (id =? wantID)) (DnsID id wantID);;
  b ← slice resp 2 4;
  let flags := be_dec b in
  guard_err (Z.land flags 0x8000 =? 0) DnsNotResponse;;
  guard_err (negb (Z.land flags 0x0200 =? 0)) DnsTruncated;;
  let rcode := Z.land flags 0x000F in
  guard_err (rcode =? 3) DnsNXDomain;;
  guard_err (negb (rcode =? 0)) (DnsRcode rcode);;
  qd ← slice resp 4 6;
  an ← slice resp 6 8;
  pos ← skip_questions (Z.to_nat (be_dec qd)) resp 12;
  read_answers (Z.to_nat (be_dec an)) resp pos.

(** One pass over the records, and the passes until nothing is added. *)
Definition accept_step (st : gset bytes * bool) (rr : answerRR) : gset bytes * bool :=
  let '(accepted, grew) := st in
  if (rr_typ rr =? dnsTypeCNAME) && negb (bool_decide (rr_target rr = [])) &&
     bool_decide (rr_owner rr ∈ accepted) && negb (bool_decide (rr_target rr ∈ accepted))
  then ({[rr_target rr]} ∪ accepted, true) else (accepted, grew).
Fixpoint accept_loop (fuel : nat) (rrs : list answerRR) (accepted : gset bytes) : res dns_error (gset bytes) :=
  match fuel with
  | O => Panic
  | S fuel' =>
      match foldl accept_step (accepted, false) rrs with
      | (accepted, true) => accept_loop fuel' rrs accepted
      | (accepted, false) => Ok accepted
      end
  end.

(** The address a record of type A or AAAA holds. *)
Definition rr_addr (rr : answerRR) : option Addr :=
  if rr_typ rr =? dnsTypeA then
    if (length (rr_rdata rr) =? 4)%nat then Some (Addr4 (be_dec (rr_rdata rr))) else None
  else if rr_typ rr =? dnsTypeAAAA then
    if (length (rr_rdata rr) =? 16)%nat then Some (Addr6 (be_dec (rr_rdata rr)) []) else None
  else None.

Definition collect_step (wantType : Z) (accepted : gset bytes) (st : list Addr * bool) (rr : answerRR)
  : list Addr * bool :=
  let '(out, droppedOwner) := st in
  if negb (rr_typ rr =? wantType) then (out, droppedOwner)
  else if negb (bool_decide (rr_owner rr ∈ accepted)) then (out, true)
  else match rr_addr rr with Some a => (out ++ [a], droppedOwner) | None => (out, droppedOwner) end.

(** What the records say about [qname]. *)
Definition select_answers (wantType : Z) (qname : bytes) (rrs : list answerRR) : res dns_error (list Addr) :=
  accepted ← accept_loop (S (length rrs)) rrs {[canonicalDNSName qname]};
  let '(out, droppedOwner) := foldl (collect_step wantType accepted) ([], false) rrs in
  guard_err ((length out =? 0)%nat && droppedOwner) DnsOwner;;
  guard_err (length out =? 0)%nat DnsNoAnswer;;
  Ok out.

Definition parseDNSAnswers (resp : bytes) (wantID wantType : Z) (qname : bytes) : res dns_error (list Addr) :=
  rrs ← read_response resp wantID;
  select_answers wantType qname rrs.

Example query_a : buildDNSQuery 0x1234 (text "eX.org.") dnsTypeA =
  Ok [x12; x34; x01; x00; x00; x01; x00; x00; x00; x00; x00; x00;
      x02; x65; x58; x03; x6f; x72; x67; x00; x00; x01; x00; x01].
Proof. reflexivity. Qed.

(** A pointer to the question, and one that points at itself. *)
Example names :
  decodeName (be_enc 12 0 ++ [x02; x65; x58; x00; xc0; x0c]) 16 = Ok (text "ex", 18%nat) ∧
  decodeName (be_enc 12 0 ++ [x02; x65; x58; x00; xc0; x10]) 16 = Err DnsForward ∧
  skipName (be_enc 12 0 ++ [x02; x65; x58; x00; xc0; x10]) 16 = Ok 18%nat ∧
  canonicalDNSName (text "A.b.") = text "a.b".
Proof. by vm_compute. Qed.
