(* ===== verification/DnsFacts.v ===== *)
(** What holds of the DNS codec: it never panics, the addresses it returns are
    exactly the ones the response ties to the queried name, and an honest
    response is read as it was written. *)
From stdpp Require Import gmap.
From S2P Require Import Prelude Text Netip Dns.
Local Open Scope Z_scope.

(** ** Names are read in bounded time *)

Lemma skip_loop_total fuel buf pos : (length buf - pos < fuel)%nat → no_panic (skip_loop fuel buf pos).
Proof.
  revert pos. induction fuel as [|fuel IH]; intros pos Hf; [lia|]. cbn.
  apply no_panic_guard. intros Hp%Nat.leb_gt. apply no_panic_index; [done|]. intros c.
  destruct (b2z c =? 0); [done|]. destruct (Z.land (b2z c) 0xC0 =? 0xC0).
  - by apply no_panic_guard.
  - apply IH. lia.
Qed.

Lemma skipName_total buf pos : no_panic (skipName buf pos).
Proof. apply skip_loop_total. lia. Qed.

(** Every round goes forward or spends a jump. *)
Lemma decode_loop_total fuel buf sb next jumps p :
  (jumps ≤ 32)%nat → ((33 - jumps) * S (length buf) + (length buf - p) < fuel)%nat →
  no_panic (decode_loop fuel buf sb next jumps p).
Proof.
  revert sb next jumps p. induction fuel as [|fuel IH]; intros sb next jumps p Hj Hf; [by apply Nat.nlt_0_r in Hf|]. cbn [decode_loop].
  apply no_panic_guard. intros Hp%Nat.leb_gt. apply no_panic_index; [done|]. intros c.
  destruct (b2z c =? 0); [done|]. destruct (Z.land (b2z c) 0xC0 =? 0xC0).
  - apply no_panic_guard. intros Hp1%Nat.leb_gt. apply no_panic_index; [exact Hp1|]. intros c1.
    apply no_panic_guard. intros _. apply no_panic_guard. intros Hj1%Nat.ltb_ge.
    replace (33 - jumps)%nat with (S (33 - S jumps)) in Hf by lia. apply IH; lia.
  - apply no_panic_guard. intros _. apply no_panic_guard. intros Hl%Nat.ltb_ge.
    apply no_panic_slice; [lia|]. intros label _. apply no_panic_guard. intros _. apply IH; [done|lia].
Qed.

Lemma decodeName_total buf pos : no_panic (decodeName buf pos).
Proof. apply decode_loop_total; lia. Qed.

Lemma skip_questions_total n resp pos : no_panic (skip_questions n resp pos).
Proof.
  revert pos. induction n as [|n IH]; intros pos; [done|]. cbn [skip_questions].
  apply no_panic_bind; [apply skipName_total|]. intros pos' _. by apply no_panic_guard.
Qed.

Lemma read_answers_total n resp pos : no_panic (read_answers n resp pos).
Proof.
  revert pos. induction n as [|n IH]; intros pos; [done|]. cbn [read_answers].
  apply no_panic_bind; [apply decodeName_total|]. intros [owner p] _.
  apply no_panic_guard. intros H1%Nat.ltb_ge. apply no_panic_slice; [lia|]. intros t Ht.
  apply no_panic_slice; [lia|]. intros l Hl. apply no_panic_guard. intros H2%Nat.ltb_ge.
  apply no_panic_slice; [lia|]. intros rdata _. apply no_panic_bind; [apply IH|done].
Qed.

Lemma read_response_total resp wantID : no_panic (read_response resp wantID).
Proof.
  unfold read_response. apply no_panic_guard. intros Hl%Nat.ltb_ge. safe ltac:(lia).
  apply no_panic_bind; [apply skip_questions_total|]. intros pos _. apply read_answers_total.
Qed.

(** ** The names a response ties to the query *)

Definition cname_edge (rrs : list answerRR) (n m : bytes) : Prop :=
  ∃ rr, rr ∈ rrs ∧ rr_typ rr = dnsTypeCNAME ∧ rr_owner rr = n ∧ rr_target rr = m ∧ m ≠ [].
(** Reached from the queried name along CNAME records, in any order. *)
Definition trusted (qname : bytes) (rrs : list answerRR) : bytes → Prop :=
  rtc (cname_edge rrs) (canonicalDNSName qname).

Lemma accept_step_cases a g rr :
  (cname_edge [rr] (rr_owner rr) (rr_target rr) ∧ rr_owner rr ∈ a ∧ (rr_target rr ∉ a) ∧
     accept_step (a, g) rr = ({[rr_target rr]} ∪ a, true)) ∨
  ((∀ n m, cname_edge [rr] n m → n ∈ a → m ∈ a) ∧ accept_step (a, g) rr = (a, g)).
Proof.
  unfold accept_step. destruct (Z.eqb_spec (rr_typ rr) dnsTypeCNAME) as [Ht|Ht]; cbn [andb].
  2: { right. split; [|done]. by intros n m (r & ->%list_elem_of_singleton & ? & _). }
  case_bool_decide as Hm; cbn [negb andb].
  { right. split; [|done]. intros n m (r & ->%list_elem_of_singleton & _ & _ & <- & ?) _. done. }
  case_bool_decide as Ho; cbn [andb].
  2: { right. split; [|done]. by intros n m (r & ->%list_elem_of_singleton & _ & <- & _) ?. }
  case_bool_decide as Hn; cbn [negb].
  { right. split; [|done]. by intros n m (r & ->%list_elem_of_singleton & _ & _ & <- & _) _. }
  left. split_and!; try done. exists rr. split_and!; try done. by apply list_elem_of_singleton.
Qed.

Lemma cname_edge_incl l l' n m : l ⊆ l' → cname_edge l n m → cname_edge l' n m.
Proof. intros Hl (r & Hr & H). exists r. split; [by apply Hl|done]. Qed.

Lemma accept_grown l a a' g' : foldl accept_step (a, true) l = (a', g') → g' = true.
Proof.
  revert a. induction l as [|r l IH]; intros a; [by intros [= _ <-]|]. cbn [foldl].
  destruct (accept_step_cases a true r) as [(_ & _ & _ & ->)|[_ ->]]; apply IH.
Qed.

(** One pass: what it adds is one edge away, it only adds targets, and when it
    adds nothing the set is closed. *)
Lemma accept_pass l a g a' g' :
  foldl accept_step (a, g) l = (a', g') →
  a ⊆ a' ∧ (∀ P : bytes → Prop, (∀ n, n ∈ a → P n) → (∀ n m, cname_edge l n m → P n → P m) → ∀ n, n ∈ a' → P n) ∧
  (g' = false → a' = a ∧ ∀ n m, cname_edge l n m → n ∈ a → m ∈ a) ∧
  (g = false → g' = true → ∃ rr, rr ∈ l ∧ (rr_target rr ∉ a) ∧ rr_target rr ∈ a').
Proof.
  revert a g. induction l as [|rr l IH]; intros a g Hf.
  { injection Hf as <- <-. split_and!; [done|auto| |intros -> [=]].
    intros _. split; [done|]. by intros n m (r & ?%elem_of_nil & _). }
  assert (∀ n m, cname_edge [rr] n m → cname_edge (rr :: l) n m) as H1
    by (intros n m; apply cname_edge_incl; set_solver).
  assert (∀ n m, cname_edge l n m → cname_edge (rr :: l) n m) as H2
    by (intros n m; apply cname_edge_incl; set_solver).
  cbn [foldl] in Hf. destruct (accept_step_cases a g rr) as [(He & Ho & Hn & Hs)|[Hc Hs]]; rewrite Hs in Hf;
    destruct (IH _ _ Hf) as (Hsub & Hind & Hfalse & Htrue).
  - split_and!; [set_solver| | |].
    + intros P Ha Hstep. apply Hind; [|eauto]. intros n [->%elem_of_singleton|?]%elem_of_union; eauto.
    + intros ->. by apply accept_grown in Hf.
    + intros _ _. exists rr. set_solver.
  - split_and!; [done| | |].
    + intros P Ha Hstep. apply Hind; eauto.
    + intros Hg. destruct (Hfalse Hg) as [-> Hcl]. split; [done|].
      intros n m (r & [Hr|Hr]%elem_of_cons & H); [apply Hc|apply Hcl]; exists r; [|done].
      split; [by apply list_elem_of_singleton|done].
    + intros Hg Hg'. destruct (Htrue Hg Hg') as (r & ? & ?). exists r. set_solver.
Qed.

Definition targets (rrs : list answerRR) : gset bytes := list_to_set (rr_target <$> rrs).

Lemma size_targets rrs : (size (targets rrs) ≤ length rrs)%nat.
Proof.
  unfold targets. induction rrs as [|rr rrs IH]; [by vm_compute|].
  rewrite fmap_cons, list_to_set_cons, size_union_alt, size_singleton. cbn [length].
  assert (size (list_to_set (rr_target <$> rrs) ∖ {[rr_target rr]} : gset bytes) ≤
    size (list_to_set (rr_target <$> rrs) : gset bytes))%nat by (apply subseteq_size; set_solver). lia.
Qed.

Lemma accept_loop_spec fuel rrs a :
  (size (targets rrs ∖ a) < fuel)%nat →
  ∃ a', accept_loop fuel rrs a = Ok a' ∧ a ⊆ a' ∧
    (∀ P : bytes → Prop, (∀ n, n ∈ a → P n) → (∀ n m, cname_edge rrs n m → P n → P m) → ∀ n, n ∈ a' → P n) ∧
    (∀ n m, cname_edge rrs n m → n ∈ a' → m ∈ a').
Proof.
  revert a. induction fuel as [|fuel IH]; intros a Hf; [lia|]. cbn [accept_loop].
  destruct (foldl accept_step (a, false) rrs) as [b grew] eqn:Hp.
  destruct (accept_pass _ _ _ _ _ Hp) as (Hsub & Hind & Hfalse & Htrue). destruct grew.
  - destruct (Htrue eq_refl eq_refl) as (rr & Hrr & Hn & Hy).
    assert (size (targets rrs ∖ b) < size (targets rrs ∖ a))%nat as Hlt.
    { apply subset_size. split; [set_solver|]. intros Hin. specialize (Hin (rr_target rr)).
      assert (rr_target rr ∈ targets rrs) by (by apply elem_of_list_to_set, list_elem_of_fmap_2). set_solver. }
    destruct (IH b ltac:(lia)) as (a' & Ha & Hs & Hi & Hc). exists a'. split_and!; [done|set_solver| |done].
    intros P H1 H2. apply Hi; [by apply Hind|done].
  - destruct (Hfalse eq_refl) as [-> Hc]. exists a. split_and!; auto.
Qed.

(** The set the passes end with is the closure. *)
Lemma accepted_trusted qname rrs :
  ∃ a, accept_loop (S (length rrs)) rrs {[canonicalDNSName qname]} = Ok a ∧ ∀ n, n ∈ a ↔ trusted qname rrs n.
Proof.
  destruct (accept_loop_spec (S (length rrs)) rrs {[canonicalDNSName qname]}) as (a & Ha & Hs & Hi & Hc).
  { pose proof (size_targets rrs). assert (size (targets rrs ∖ {[canonicalDNSName qname]}) ≤ size (targets rrs))%nat
      by (apply subseteq_size; set_solver). lia. }
  exists a. split; [done|]. intros n. split.
  - apply Hi; [intros m ->%elem_of_singleton; apply rtc_refl|]. intros m m' He Hm. by eapply rtc_r.
  - intros Ht. refine (rtc_ind_r (λ n, n ∈ a) _ _ _ n Ht); [set_solver|]. intros y z _ He ?. by eapply Hc.
Qed.

(** ** The addresses of a response *)

(** The records of the wanted type that are well formed and whose owner is
    accepted, in order. *)
Inductive selected (wantType : Z) (ok : bytes → Prop) : list answerRR → list Addr → Prop :=
  | sel_nil : selected wantType ok [] []
  | sel_take rr a rrs out :
      rr_typ rr = wantType → ok (rr_owner rr) → rr_addr rr = Some a →
      selected wantType ok rrs out → selected wantType ok (rr :: rrs) (a :: out)
  | sel_skip rr rrs out :
      ¬ (rr_typ rr = wantType ∧ ok (rr_owner rr) ∧ is_Some (rr_addr rr)) →
      selected wantType ok rrs out → selected wantType ok (rr :: rrs) out.

Definition injected (wantType : Z) (ok : bytes → Prop) (rrs : list answerRR) : Prop :=
  ∃ rr, rr ∈ rrs ∧ rr_typ rr = wantType ∧ ¬ ok (rr_owner rr).

Lemma injected_cons t ok rr rrs :
  injected t ok (rr :: rrs) ↔ (rr_typ rr = t ∧ ¬ ok (rr_owner rr)) ∨ injected t ok rrs.
Proof.
  split.
  - intros (r & [->|Hr]%elem_of_cons & H); [by left|right; by exists r].
  - intros [H|(r & Hr & H)]; [exists rr|exists r]; (split; [|done]); apply elem_of_cons; auto.
Qed.

Lemma collect_spec t accepted rrs out0 d0 :
  ∃ out d, foldl (collect_step t accepted) (out0, d0) rrs = (out0 ++ out, d) ∧ selected t (.∈ accepted) rrs out ∧
    (d = true ↔ d0 = true ∨ injected t (.∈ accepted) rrs).
Proof.
  revert out0 d0. induction rrs as [|rr rrs IH]; intros out0 d0.
  { exists [], d0. rewrite app_nil_r. split_and!; [done|constructor|]. split; [by left|].
    intros [?|(r & ?%elem_of_nil & _)]; done. }
  cbn [foldl]. unfold collect_step at 2. setoid_rewrite injected_cons.
  destruct (Z.eqb_spec (rr_typ rr) t) as [Ht|Ht]; cbn [negb].
  2: { destruct (IH out0 d0) as (out & d & -> & Hs & Hd). exists out, d. split_and!; [done| |naive_solver].
       apply sel_skip; naive_solver. }
  case_bool_decide as Ho; cbn [negb].
  2: { destruct (IH out0 true) as (out & d & -> & Hs & Hd). exists out, d. split_and!; [done| |naive_solver].
       apply sel_skip; naive_solver. }
  destruct (rr_addr rr) as [a|] eqn:Ha.
  - destruct (IH (out0 ++ [a]) d0) as (out & d & -> & Hs & Hd). exists (a :: out), d.
    split_and!; [by rewrite <-app_assoc|by apply sel_take|naive_solver].
  - destruct (IH out0 d0) as (out & d & -> & Hs & Hd). exists out, d. split_and!; [done| |naive_solver].
    apply sel_skip; [|done]. intros (_ & _ & [? ?]). congruence.
Qed.

Lemma selected_iff t (ok ok' : bytes → Prop) rrs out :
  (∀ n, ok n ↔ ok' n) → selected t ok rrs out → selected t ok' rrs out.
Proof.
  intros Hok. induction 1 as [|rr a rrs out Ht Ho Ha _ IH|rr rrs out Hn _ IH].
  - constructor.
  - apply sel_take; [done|by apply Hok|done|done].
  - apply sel_skip; [|done]. by rewrite <-Hok.
Qed.

(** What the records of a response say, whatever their order. *)
Lemma select_answers_spec t qname rrs :
  ∃ out, selected t (trusted qname rrs) rrs out ∧
    match out with
    | _ :: _ => select_answers t qname rrs = Ok out
    | [] => (injected t (trusted qname rrs) rrs ∧ select_answers t qname rrs = Err DnsOwner) ∨
            (¬ injected t (trusted qname rrs) rrs ∧ select_answers t qname rrs = Err DnsNoAnswer)
    end.
Proof.
  destruct (accepted_trusted qname rrs) as (acc & Hacc & Htr).
  destruct (collect_spec t acc rrs [] false) as (out & d & Hc & Hs & Hd). exists out.
  split; [by apply (selected_iff _ (.∈ acc))|]. unfold select_answers. rewrite Hacc. cbn [mbind res_bind].
  rewrite Hc. cbn [app]. destruct out as [|x out]; [|done]. cbn [length Nat.eqb andb].
  assert (injected t (trusted qname rrs) rrs ↔ d = true) as Hi.
  { rewrite Hd. unfold injected. setoid_rewrite Htr. naive_solver. }
  rewrite Hi. destruct d; [by left|right]. by split.
Qed.

(** ** Responses as a server writes them *)

Definition enc_label (l : bytes) : bytes := z2b (zlen l) :: l.
Definition enc_labels (ls : list bytes) : bytes := concat (enc_label <$> ls).
Definition label_ok (l : bytes) : Prop := 1 ≤ zlen l ≤ 63.

(** A name: its labels, and whether it goes on with the name of the question
    (a pointer to offset 12). *)
Definition wname : Type := list bytes * bool.
Definition enc_wname (n : wname) : bytes := enc_labels n.1 ++ if n.2 then [xc0; x0c] else [x00].
Definition wname_labels (q : list bytes) (n : wname) : list bytes := n.1 ++ if n.2 then q else [].
Definition wname_ok (q : list bytes) (n : wname) : Prop :=
  Forall label_ok n.1 ∧ zlen (Join (wname_labels q n) dot) ≤ 253.
Definition dns_name (ls : list bytes) : bytes := asciiLower <$> Join ls dot.

(** A record, its data a name or bytes. *)
Record wrr := mkWrr { wr_owner : wname; wr_typ : Z; wr_class_ttl : bytes; wr_data : wname + bytes }.
Definition enc_data (d : wname + bytes) : bytes := match d with inl n => enc_wname n | inr b => b end.
Definition enc_wrr (r : wrr) : bytes :=
  enc_wname (wr_owner r) ++ be_enc 2 (wr_typ r) ++ wr_class_ttl r ++
  be_enc 2 (zlen (enc_data (wr_data r))) ++ enc_data (wr_data r).
Definition wrr_ok (q : list bytes) (r : wrr) : Prop :=
  wname_ok q (wr_owner r) ∧ is_u16 (wr_typ r) ∧ length (wr_class_ttl r) = 6%nat ∧
  zlen (enc_data (wr_data r)) < 2 ^ 16 ∧
  match wr_data r with inl n => wname_ok q n | inr _ => wr_typ r ≠ dnsTypeCNAME end.
Definition wrr_meaning (q : list bytes) (r : wrr) : answerRR :=
  mkAnswerRR (dns_name (wname_labels q (wr_owner r))) (wr_typ r) (enc_data (wr_data r))
    (match wr_data r with
     | inl n => if wr_typ r =? dnsTypeCNAME then dns_name (wname_labels q n) else []
     | inr _ => []
     end).

(** The reply to a query: its question is echoed, [counts] and [rest] are the
    sections the client does not read. *)
Definition dns_reply (query flags : bytes) (rrs : list wrr) (counts rest : bytes) : bytes :=
  take 2 query ++ flags ++ be_enc 2 1 ++ be_enc 2 (zlen rrs) ++ counts ++ drop 12 query ++
  concat (enc_wrr <$> rrs) ++ rest.

(** The name built up by the decoder. *)
Fixpoint extend (sb : bytes) (ls : list bytes) : bytes :=
  match ls with
  | [] => sb
  | l :: ls' => extend ((match sb with [] => [] | _ => sb ++ [dot] end) ++ (asciiLower <$> l)) ls'
  end.

Lemma extend_len sb ls : zlen sb ≤ zlen (extend sb ls).
Proof.
  revert sb. induction ls as [|l ls IH]; intros sb; cbn; [lia|]. etransitivity; [|apply IH].
  unfold zlen. destruct sb; rewrite ?length_app; cbn [length]; lia.
Qed.

Lemma asciiLower_dot : asciiLower dot = dot.
Proof. reflexivity. Qed.

Lemma extend_ne sb ls : sb ≠ [] → extend sb ls = sb ++ concat ((λ l, dot :: (asciiLower <$> l)) <$> ls).
Proof.
  revert sb. induction ls as [|l ls IH]; intros sb Hsb; cbn; [by rewrite app_nil_r|].
  destruct sb as [|b sb]; [done|]. rewrite IH by done. by rewrite <-!app_assoc.
Qed.

Lemma Join_lower l ls :
  asciiLower <$> Join (l :: ls) dot = (asciiLower <$> l) ++ concat ((λ l, dot :: (asciiLower <$> l)) <$> ls).
Proof.
  revert l. induction ls as [|m ls IH]; intros l; [cbn; by rewrite app_nil_r|].
  rewrite Join_cons by done. rewrite fmap_app, fmap_cons, IH. done.
Qed.

Lemma extend_nil ls : Forall label_ok ls → extend [] ls = dns_name ls.
Proof.
  destruct ls as [|l ls]; [done|]. intros [Hl _]%list.Forall_cons. cbn [extend app].
  unfold dns_name. rewrite Join_lower. apply extend_ne. destruct l; [by destruct Hl|done].
Qed.

Lemma extend_app sb ls ls' : extend sb (ls ++ ls') = extend (extend sb ls) ls'.
Proof. revert sb. induction ls as [|l ls IH]; intros sb; [done|]. apply IH. Qed.

Lemma label_byte b : 1 ≤ b2z b ≤ 63 →
  (b2z b =? 0) = false ∧ (Z.land (b2z b) 0xC0 =? 0xC0) = false ∧ (Z.land (b2z b) 0xC0 =? 0) = true.
Proof. destruct b; vm_compute; intros [H1 H2]; try (by destruct H1); try (by destruct H2); done. Qed.

Lemma decode_label fuel l pre post sb next jumps :
  label_ok l → zlen (extend sb [l]) ≤ 253 →
  decode_loop (S fuel) (pre ++ enc_label l ++ post) sb next jumps (length pre) =
  decode_loop fuel (pre ++ enc_label l ++ post) (extend sb [l]) next jumps (length (pre ++ enc_label l)).
Proof.
  intros Hl Hn. unfold label_ok, zlen in Hl. cbn [decode_loop].
  assert (b2z (z2b (zlen l)) = zlen l) as Hb by (rewrite b2z_z2b; unfold zlen; apply Z.mod_small; lia).
  destruct (label_byte (z2b (zlen l))) as (H1 & H2 & H3); [rewrite Hb; unfold zlen; lia|].
  pass_by ltac:(apply Nat.leb_gt; rewrite length_app; cbn; lia).
  rewrite (index_Ok _ (length pre) (z2b (zlen l))) by exact (list_lookup_middle pre (l ++ post) _ _ eq_refl). bind.
  rewrite H1, H2, H3. cbn [negb]. pass_by ltac:(done). rewrite Hb.
  assert (Z.to_nat (zlen l) = length l) as -> by (unfold zlen; lia).
  pass_by ltac:(apply Nat.ltb_ge; rewrite !length_app; cbn [enc_label length]; lia).
  assert (pre ++ enc_label l ++ post = (pre ++ [z2b (zlen l)]) ++ l ++ post) as -> by by rewrite <-app_assoc.
  rewrite slice_app by (rewrite length_app; cbn [length]; lia). bind.
  pass_by ltac:(by apply Z.ltb_ge). f_equal. rewrite !length_app. cbn [enc_label length]. lia.
Qed.

Lemma decode_labels ls fuel pre post sb next jumps :
  Forall label_ok ls → zlen (extend sb ls) ≤ 253 →
  decode_loop (length ls + fuel) (pre ++ enc_labels ls ++ post) sb next jumps (length pre) =
  decode_loop fuel (pre ++ enc_labels ls ++ post) (extend sb ls) next jumps (length (pre ++ enc_labels ls)).
Proof.
  revert pre sb. induction ls as [|l ls IH]; intros pre sb Hok Hn; [by rewrite app_nil_r|].
  apply list.Forall_cons in Hok as [Hl Hls]. change (l :: ls) with ([l] ++ ls) in Hn. rewrite extend_app in Hn.
  unfold enc_labels. cbn [fmap list_fmap concat length Nat.add]. rewrite <-(app_assoc (enc_label l)), decode_label.
  2: done. 2: { pose proof (extend_len (extend sb [l]) ls). lia. }
  rewrite !app_assoc, <-(app_assoc (pre ++ enc_label l)), IH by done. by rewrite <-!app_assoc.
Qed.

Lemma decode_end fuel pre post sb next jumps :
  decode_loop (S fuel) (pre ++ x00 :: post) sb next jumps (length pre) = Ok (sb, default (length pre + 1)%nat next).
Proof.
  cbn [decode_loop]. pass_by ltac:(apply Nat.leb_gt; rewrite length_app; cbn; lia).
  by rewrite (index_Ok _ (length pre) x00) by exact (list_lookup_middle pre post _ _ eq_refl).
Qed.

Lemma decode_pointer fuel pre post sb next jumps :
  (12 < length pre)%nat → (jumps < 32)%nat →
  decode_loop (S fuel) (pre ++ [xc0; x0c] ++ post) sb next jumps (length pre) =
  decode_loop fuel (pre ++ [xc0; x0c] ++ post) sb (Some (default (length pre + 2)%nat next)) (S jumps) 12.
Proof.
  intros Hp Hj. cbn [decode_loop]. pass_by ltac:(apply Nat.leb_gt; rewrite length_app; cbn; lia).
  rewrite (index_Ok _ (length pre) xc0) by exact (list_lookup_middle pre (x0c :: post) _ _ eq_refl). bind.
  change (b2z xc0 =? 0) with false. change (Z.land (b2z xc0) 192 =? 192) with true. cbv iota.
  pass_by ltac:(apply Nat.leb_gt; rewrite !length_app; cbn [length]; lia).
  rewrite (index_Ok _ (length pre + 1) x0c).
  2: { rewrite lookup_app_r by lia. by replace (length pre + 1 - length pre)%nat with 1%nat by lia. }
  bind. change (Z.to_nat _) with 12%nat. pass_by ltac:(by apply Nat.leb_gt).
  by pass_by ltac:(by apply Nat.ltb_ge; lia).
Qed.

Lemma label_ok_length ls : Forall label_ok ls → (length ls ≤ length (enc_labels ls))%nat.
Proof.
  unfold enc_labels. induction 1 as [|l ls Hl _ IH]; cbn; [done|]. rewrite length_app. cbn. lia.
Qed.

(** Equalities of concatenations. *)
Ltac flat_app := cbn [app]; repeat (rewrite <-!app_assoc; cbn [app]); reflexivity.

(** A name of the message is read, wherever it is, with the position after it. *)
Lemma decode_wname q n h pre post :
  length h = 12%nat → Forall label_ok q → wname_ok q n →
  decodeName (h ++ enc_labels q ++ x00 :: pre ++ enc_wname n ++ post) (length (h ++ enc_labels q ++ x00 :: pre)) =
  Ok (dns_name (wname_labels q n), length (h ++ enc_labels q ++ x00 :: pre ++ enc_wname n)).
Proof.
  intros Hh Hq [Hls Hlen]. destruct n as [ls ptr]. unfold enc_wname, wname_labels in *. cbn [fst snd] in *.
  set (tl := if ptr then [xc0; x0c] else [x00]).
  set (buf := h ++ enc_labels q ++ x00 :: pre ++ (enc_labels ls ++ tl) ++ post).
  set (q' := if ptr then q else []) in *.
  assert (Forall label_ok (ls ++ q')) as Hall by (apply list.Forall_app; split; [done|by destruct ptr]).
  assert (zlen (extend [] (ls ++ q')) ≤ 253) as Hn.
  { rewrite extend_nil by done. unfold dns_name, zlen in *. by rewrite length_fmap. }
  rewrite <-extend_nil by done. rewrite extend_app in *.
  pose proof (extend_len (extend [] ls) q') as Hmono. pose proof (label_ok_length q Hq). pose proof (label_ok_length ls Hls).
  assert (length buf = 12 + length (enc_labels q) + S (length pre) + length (enc_labels ls) + length tl + length post)%nat
    as Hb by (unfold buf; rewrite !length_app; cbn [length]; rewrite !length_app, Hh; lia).
  set (before := h ++ enc_labels q ++ x00 :: pre).
  assert (buf = before ++ enc_labels ls ++ tl ++ post) as Hbuf
    by (unfold buf, before; flat_app).
  unfold decodeName. assert (∃ f, 34 * S (length buf) = length ls + S (length q + S f))%nat as [f ->].
  { exists (34 * S (length buf) - length ls - length q - 2)%nat. lia. }
  rewrite Hbuf, decode_labels by (done || lia). rewrite <-Hbuf.
  assert (length (h ++ enc_labels q ++ x00 :: pre ++ enc_labels ls ++ tl) = length (before ++ enc_labels ls ++ tl)) as ->
    by (unfold before; rewrite !length_app; cbn [length]; rewrite !length_app; lia).
  assert (buf = (before ++ enc_labels ls) ++ tl ++ post) as -> by (rewrite Hbuf; apply app_assoc).
  destruct ptr; unfold tl, q' in *.
  - rewrite decode_pointer by (unfold before; rewrite ?length_app; cbn [length]; lia).
    assert ((before ++ enc_labels ls) ++ [xc0; x0c] ++ post =
      h ++ enc_labels q ++ x00 :: pre ++ enc_labels ls ++ [xc0; x0c] ++ post) as ->
      by (unfold before; flat_app).
    rewrite <-Hh, decode_labels by done. rewrite (app_assoc h), decode_end. cbn [default].
    by rewrite app_assoc, (length_app _ [xc0; x0c]).
  - change ([x00] ++ post) with (x00 :: post). rewrite decode_end. cbn [default extend]. by rewrite app_assoc, (length_app _ [x00]).
Qed.

(** ** Queries *)

Lemma append_labels_Ok qname ls buf out :
  append_labels qname ls buf = Ok out ↔ Forall label_ok ls ∧ out = buf ++ enc_labels ls.
Proof.
  revert buf. induction ls as [|l ls IH]; intros buf.
  - cbn. unfold enc_labels. cbn. rewrite app_nil_r. split; [by intros [= <-]|by intros [_ ->]].
  - cbn [append_labels]. rewrite bind_Ok. setoid_rewrite guard_Ok. setoid_rewrite IH.
    rewrite list.Forall_cons. unfold label_ok, enc_labels. cbn [fmap list_fmap concat enc_label].
    rewrite <-!app_assoc. split.
    + intros ([] & [?%Z.eqb_neq ?%Z.ltb_ge]%orb_false_iff & ? & ->). pose proof (Zle_0_nat (length l)).
      unfold zlen in *. split_and!; [lia|lia|done|done].
    + intros ([[H1 H2] Hls] & ->). exists tt. split_and!; [|done|done].
      apply orb_false_iff. split; [by apply Z.eqb_neq; lia|by apply Z.ltb_ge].
Qed.

Lemma TrimSuffix_app s t c : t ≠ [] → TrimSuffix (s ++ t) [c] = s ++ TrimSuffix t [c].
Proof.
  intros Ht. unfold TrimSuffix. rewrite length_app. cbn [length].
  assert (length s + length t - 1 = length s + (length t - 1))%nat as -> by (destruct t; [done|cbn; lia]).
  rewrite drop_app_add, take_app_add. by case_bool_decide.
Qed.
Lemma TrimSuffix_none s c : c ∉ s → TrimSuffix s [c] = s.
Proof.
  intros Hc. unfold TrimSuffix. case_bool_decide as Hd; [|done]. destruct Hc.
  rewrite <-(take_drop (length s - length [c]) s), Hd. apply elem_of_app. right. by apply list_elem_of_singleton.
Qed.

Lemma labels_loop_ne cur name : cur ≠ [] → labels_loop cur name ≠ [].
Proof.
  revert cur. induction name as [|b name IH]; intros cur Hc; cbn; [by destruct cur|].
  case_bool_decide; [done|]. apply IH. by destruct cur.
Qed.

(** The labels of a name, when none is empty, are its pieces between dots. *)
Lemma labels_loop_Join cur name :
  dot ∉ cur → Forall label_ok (labels_loop cur name) →
  Join (labels_loop cur name) dot = TrimSuffix (cur ++ name) [dot].
Proof.
  revert cur. induction name as [|b name IH]; intros cur Hc Hok; cbn [labels_loop] in *.
  - rewrite app_nil_r, TrimSuffix_none by done. by destruct cur.
  - case_bool_decide as Hb.
    + subst b. apply list.Forall_cons in Hok as [_ Hok]. specialize (IH [] ltac:(set_solver) Hok).
      destruct name as [|b name].
      * cbn in *. rewrite TrimSuffix_app by done. by rewrite app_nil_r.
      * rewrite (cons_middle dot cur), TrimSuffix_app by done. rewrite Join_cons; [by rewrite IH, (TrimSuffix_app [dot])|].
        cbn [labels_loop]. case_bool_decide; [done|]. by apply labels_loop_ne.
    + rewrite IH; [by rewrite <-app_assoc| |done]. by intros [?|<-%list_elem_of_singleton]%elem_of_app.
Qed.

Lemma labels_name q : Forall label_ok (labels q) → dns_name (labels q) = canonicalDNSName q.
Proof. intros H. unfold dns_name, labels, canonicalDNSName. rewrite labels_loop_Join; [done|set_solver|done]. Qed.

Lemma buildDNSQuery_Ok id q t query :
  buildDNSQuery id q t = Ok query ↔
  1 ≤ zlen q ≤ 253 ∧ Forall label_ok (labels q) ∧
  query = (be_enc 2 id ++ be_enc 2 0x0100 ++ be_enc 2 1 ++ be_enc 6 0) ++ enc_labels (labels q) ++ x00 ::
    be_enc 2 t ++ be_enc 2 1.
Proof.
  unfold buildDNSQuery. cbv zeta. rewrite bind_Ok. setoid_rewrite guard_Ok. setoid_rewrite bind_Ok.
  setoid_rewrite append_labels_Ok. setoid_rewrite orb_false_iff. setoid_rewrite Z.eqb_neq. setoid_rewrite Z.ltb_ge.
  assert (0 ≤ zlen q) by (unfold zlen; lia). split.
  - intros ([] & [??] & buf & [? ->] & [= <-]). split_and!; [lia..|done|]. flat_app.
  - intros ([??] & ? & ->). exists tt. split; [lia|]. eexists. split; [by split|]. f_equal. flat_app.
Qed.

(** ** Responses are read as they were written *)

Lemma skip_labels ls fuel pre post :
  Forall label_ok ls →
  skip_loop (length ls + S fuel) (pre ++ enc_labels ls ++ x00 :: post) (length pre) =
    Ok (length (pre ++ enc_labels ls) + 1)%nat.
Proof.
  revert pre. induction ls as [|l ls IH]; intros pre Hok.
  - rewrite app_nil_r. cbn [length Nat.add skip_loop]. pass_by ltac:(apply Nat.leb_gt; rewrite length_app; cbn; lia).
    by rewrite (index_Ok _ (length pre) x00) by exact (list_lookup_middle pre post _ _ eq_refl).
  - apply list.Forall_cons in Hok as [Hl Hls]. unfold label_ok, zlen in Hl.
    change (enc_labels (l :: ls)) with (enc_label l ++ enc_labels ls). cbn [length Nat.add skip_loop].
    rewrite <-(app_assoc (enc_label l)). assert (b2z (z2b (zlen l)) = zlen l) as Hb by (rewrite b2z_z2b; unfold zlen; apply Z.mod_small; lia).
    destruct (label_byte (z2b (zlen l))) as (H1 & H2 & _); [rewrite Hb; unfold zlen; lia|].
    pass_by ltac:(apply Nat.leb_gt; rewrite length_app; cbn; lia).
    rewrite (index_Ok _ (length pre) (z2b (zlen l))) by exact (list_lookup_middle pre (l ++ _) _ _ eq_refl). bind.
    rewrite H1, H2, Hb. specialize (IH (pre ++ enc_label l) Hls).
    rewrite <-!app_assoc in IH. rewrite <-IH. f_equal. rewrite length_app. cbn [enc_label length]. unfold zlen. lia.
Qed.

(** The fields of a record after its owner. *)
Lemma read_fields n buf B typ ct d post p owner target :
  buf = B ++ be_enc 2 typ ++ ct ++ be_enc 2 (zlen d) ++ d ++ post →
  is_u16 typ → length ct = 6%nat → zlen d < 2 ^ 16 →
  decodeName buf p = Ok (owner, length B) →
  (if typ =? dnsTypeCNAME then match decodeName buf (length B + 10) with Ok (t, _) => t | _ => [] end else []) = target →
  read_answers (S n) buf p =
    (rrs ← read_answers n buf (length B + 10 + length d); Ok (mkAnswerRR owner typ d target :: rrs)).
Proof.
  intros Hbuf Ht Hct Hd Hn <-. assert (0 ≤ zlen d) by (unfold zlen; lia).
  assert (length buf = length B + 10 + length d + length post)%nat as Hlen
    by (rewrite Hbuf, !length_app, !length_be_enc, Hct; lia).
  cbn [read_answers]. rewrite Hn. bind. pass_by ltac:(apply Nat.ltb_ge; lia).
  assert (slice (E:=dns_error) buf (length B) (length B + 2) = Ok (be_enc 2 typ)) as ->
    by (rewrite Hbuf; apply slice_app; rewrite ?length_be_enc; lia). bind.
  assert (slice (E:=dns_error) buf (length B + 8) (length B + 10) = Ok (be_enc 2 (zlen d))) as ->.
  { assert (buf = (B ++ be_enc 2 typ ++ ct) ++ be_enc 2 (zlen d) ++ d ++ post) as -> by (rewrite Hbuf; flat_app).
    apply slice_app; rewrite ?length_app, ?length_be_enc, ?Hct; lia. } bind.
  rewrite !be_dec_enc_small by done. assert (Z.to_nat (zlen d) = length d) as -> by (unfold zlen; lia).
  pass_by ltac:(apply Nat.ltb_ge; lia).
  assert (slice (E:=dns_error) buf (length B + 10) (length B + 10 + length d) = Ok d) as ->; [|done].
  assert (buf = (B ++ be_enc 2 typ ++ ct ++ be_enc 2 (zlen d)) ++ d ++ post) as -> by (rewrite Hbuf; flat_app).
  apply slice_app; rewrite ?length_app, ?length_be_enc, ?Hct; lia.
Qed.

Lemma read_wrr q r h pre post n :
  length h = 12%nat → Forall label_ok q → wrr_ok q r →
  read_answers (S n) (h ++ enc_labels q ++ x00 :: pre ++ enc_wrr r ++ post)
    (length (h ++ enc_labels q ++ x00 :: pre)) =
  (rrs ← read_answers n (h ++ enc_labels q ++ x00 :: (pre ++ enc_wrr r) ++ post)
           (length (h ++ enc_labels q ++ x00 :: pre ++ enc_wrr r));
   Ok (wrr_meaning q r :: rrs)).
Proof.
  intros Hh Hq (Ho & Ht & Hct & Hd & Hw). destruct r as [owner typ ct data]. unfold wrr_meaning, enc_wrr in *.
  cbn [wr_owner wr_typ wr_class_ttl wr_data] in *. set (d := enc_data data) in *.
  set (B := h ++ enc_labels q ++ x00 :: pre ++ enc_wname owner).
  set (buf := h ++ enc_labels q ++ x00 :: pre ++ (enc_wname owner ++ be_enc 2 typ ++ ct ++ be_enc 2 (zlen d) ++ d) ++ post).
  assert (buf = B ++ be_enc 2 typ ++ ct ++ be_enc 2 (zlen d) ++ d ++ post) as Hbuf by (unfold buf, B; flat_app).
  assert (zlen d = Z.of_nat (length d)) as Hz by done.
  assert (length buf = length B + 10 + length d + length post)%nat as Hlen
    by (rewrite Hbuf, !length_app, !length_be_enc, Hct; lia).
  assert (decodeName buf (length (h ++ enc_labels q ++ x00 :: pre)) = Ok (dns_name (wname_labels q owner), length B)) as Hn.
  { assert (buf = h ++ enc_labels q ++ x00 :: pre ++ enc_wname owner ++
      (be_enc 2 typ ++ ct ++ be_enc 2 (zlen d) ++ d ++ post)) as -> by (unfold buf; flat_app). by apply decode_wname. }
  assert (∀ nm, data = inl nm → decodeName buf (length B + 10) =
    Ok (dns_name (wname_labels q nm), (length B + 10 + length d)%nat)) as Hnm.
  { intros nm ->. set (pre' := pre ++ enc_wname owner ++ be_enc 2 typ ++ ct ++ be_enc 2 (zlen d)).
    assert (buf = h ++ enc_labels q ++ x00 :: pre' ++ enc_wname nm ++ post) as -> by (unfold buf, pre', d; cbn [enc_data]; flat_app).
    assert (length B + 10 = length (h ++ enc_labels q ++ x00 :: pre'))%nat as ->
      by (unfold B, pre'; rewrite !length_app; cbn [length]; rewrite !length_app, !length_be_enc, Hct; lia).
    rewrite decode_wname by done. f_equal. f_equal. unfold d. cbn [enc_data].
    rewrite !length_app. cbn [length]. rewrite !length_app. lia. }
  rewrite (read_fields n buf B typ ct d post _ _ _ Hbuf Ht Hct Hd Hn eq_refl).
  assert (h ++ enc_labels q ++ x00 :: (pre ++ enc_wname owner ++ be_enc 2 typ ++ ct ++ be_enc 2 (zlen d) ++ d) ++ post
    = buf) as -> by (unfold buf; flat_app).
  assert (length (h ++ enc_labels q ++ x00 :: pre ++ enc_wname owner ++ be_enc 2 typ ++ ct ++ be_enc 2 (zlen d) ++ d) =
    length B + 10 + length d)%nat as ->
    by (unfold B; rewrite !length_app; cbn [length]; rewrite !length_app, !length_be_enc, Hct; lia).
  destruct data as [nm|b].
  - by rewrite (Hnm nm eq_refl).
  - by destruct (Z.eqb_spec typ dnsTypeCNAME).
Qed.

Lemma read_wrrs q rrs h pre rest :
  length h = 12%nat → Forall label_ok q → Forall (wrr_ok q) rrs →
  read_answers (length rrs) (h ++ enc_labels q ++ x00 :: pre ++ concat (enc_wrr <$> rrs) ++ rest)
    (length (h ++ enc_labels q ++ x00 :: pre)) = Ok (wrr_meaning q <$> rrs).
Proof.
  intros Hh Hq Hok. revert pre. induction Hok as [|r rrs Hr _ IH]; intros pre; [done|].
  cbn [length fmap list_fmap concat]. rewrite <-app_assoc, read_wrr by done. by rewrite IH.
Qed.

(** Flags of a good answer: a response, not truncated, without error. *)
Definition answer_flags (flags : bytes) : Prop :=
  length flags = 2%nat ∧ Z.land (be_dec flags) 0x8000 ≠ 0 ∧ Z.land (be_dec flags) 0x0200 = 0 ∧
  Z.land (be_dec flags) 0x000F = 0.

Lemma read_header id flags n counts body :
  is_u16 id → answer_flags flags → 0 ≤ n < 2 ^ 16 → length counts = 4%nat →
  read_response (be_enc 2 id ++ flags ++ be_enc 2 1 ++ be_enc 2 n ++ counts ++ body) id =
    (pos ← skip_questions 1 (be_enc 2 id ++ flags ++ be_enc 2 1 ++ be_enc 2 n ++ counts ++ body) 12;
     read_answers (Z.to_nat n) (be_enc 2 id ++ flags ++ be_enc 2 1 ++ be_enc 2 n ++ counts ++ body) pos).
Proof.
  intros Hid (Hf & Hqr & Htc & Hrc) Hn Hc. set (resp := be_enc 2 id ++ _).
  unfold read_response. pass_by ltac:(apply Nat.ltb_ge; unfold resp; rewrite !length_app, !length_be_enc; lia).
  assert (slice (E:=dns_error) resp 0 2 = Ok (be_enc 2 id)) as ->
    by (apply (slice_app []); by rewrite ?length_be_enc). bind.
  rewrite be_dec_enc_small by done. pass_by ltac:(by rewrite Z.eqb_refl).
  assert (slice (E:=dns_error) resp 2 4 = Ok flags) as ->
    by (apply slice_app; rewrite ?length_be_enc; lia). bind.
  pass_by ltac:(by apply Z.eqb_neq). rewrite Htc, Hrc. cbn [Z.eqb negb]. bind.
  do 3 pass_by ltac:(done).
  assert (slice (E:=dns_error) resp 4 6 = Ok (be_enc 2 1)) as ->.
  { assert (resp = (be_enc 2 id ++ flags) ++ be_enc 2 1 ++ be_enc 2 n ++ counts ++ body) as -> by (unfold resp; flat_app).
    apply slice_app; rewrite ?length_app, ?length_be_enc, ?Hf; lia. } bind.
  assert (slice (E:=dns_error) resp 6 8 = Ok (be_enc 2 n)) as ->.
  { assert (resp = (be_enc 2 id ++ flags ++ be_enc 2 1) ++ be_enc 2 n ++ counts ++ body) as -> by (unfold resp; flat_app).
    apply slice_app; rewrite ?length_app, ?length_be_enc, ?Hf; lia. } bind.
  by rewrite !be_dec_enc_small.
Qed.

Lemma skip_question_ok q h pre body :
  length h = 12%nat → Forall label_ok q → length pre = 4%nat →
  skip_questions 1 (h ++ enc_labels q ++ x00 :: pre ++ body) 12 = Ok (length (h ++ enc_labels q ++ x00 :: pre)).
Proof.
  intros Hh Hq Hp. cbn [skip_questions]. set (buf := h ++ _). pose proof (label_ok_length q Hq).
  assert (length buf = length h + (length (enc_labels q) + S (length pre + length body)))%nat as Hb
    by (unfold buf; rewrite !length_app; cbn [length]; by rewrite length_app).
  assert (skipName buf 12 = Ok (length (h ++ enc_labels q) + 1)%nat) as ->.
  { unfold skipName. assert (∃ f, S (length buf) = length q + S f)%nat as [f ->].
    { exists (length buf - length q)%nat. lia. }
    rewrite <-Hh. by apply skip_labels. }
  bind. pass_by ltac:(apply Nat.ltb_ge; rewrite length_app; lia). f_equal. rewrite !length_app. cbn [length]. lia.
Qed.

Lemma dns_reply_eq id q t flags rrs counts rest :
  dns_reply ((be_enc 2 id ++ be_enc 2 0x0100 ++ be_enc 2 1 ++ be_enc 6 0) ++ enc_labels (labels q) ++ x00 ::
    be_enc 2 t ++ be_enc 2 1) flags rrs counts rest =
  be_enc 2 id ++ flags ++ be_enc 2 1 ++ be_enc 2 (zlen rrs) ++ counts ++ enc_labels (labels q) ++
    x00 :: (be_enc 2 t ++ be_enc 2 1) ++ concat (enc_wrr <$> rrs) ++ rest.
Proof.
  unfold dns_reply. rewrite (drop_app_length' (be_enc 2 id ++ _)) by by rewrite !length_app, !length_be_enc.
  rewrite <-(app_assoc (be_enc 2 id)), take_app_length' by by rewrite length_be_enc. flat_app.
Qed.

(** The addresses the records of the wanted type hold. *)
Definition addresses (t : Z) (rrs : list answerRR) : list Addr :=
  omap (λ rr, if rr_typ rr =? t then rr_addr rr else None) rrs.

Lemma selected_all t ok rrs out :
  (∀ rr, rr ∈ rrs → rr_typ rr = t → ok (rr_owner rr)) → selected t ok rrs out → out = addresses t rrs.
Proof.
  intros Hall. induction 1 as [|rr a rrs out Ht Ho Ha _ IH|rr rrs out Hn _ IH]; [done|..]; unfold addresses; cbn.
  - rewrite Ht, Z.eqb_refl, Ha. f_equal. apply IH. set_solver.
  - destruct (Z.eqb_spec (rr_typ rr) t) as [Ht|]; [|apply IH; set_solver].
    destruct (rr_addr rr) eqn:Ha; [|apply IH; set_solver].
    destruct Hn. split_and!; [done|apply Hall; [set_solver|done]|by eexists].
Qed.

(** C22: the answers of a response are exactly the ones it ties to the query.  On
    every input the parser comes back without a panic.  A response whose header
    is an error, or whose records do not decode, gives that error; otherwise the
    addresses are those of the records of the wanted type whose owner is the
    queried name or reached from it along CNAME records, in the order of the
    records, wherever the CNAMEs stand.  Without any, the answer is an
    authoritative negative exactly when no record of that type was found under
    another name. *)
Theorem dns_answers_exact resp id t q :
  match read_response resp id with
  | Ok rrs =>
      ∃ out, selected t (trusted q rrs) rrs out ∧
        match out with
        | _ :: _ => parseDNSAnswers resp id t q = Ok out
        | [] => (injected t (trusted q rrs) rrs ∧ parseDNSAnswers resp id t q = Err DnsOwner) ∨
                (¬ injected t (trusted q rrs) rrs ∧ parseDNSAnswers resp id t q = Err DnsNoAnswer)
        end
  | Err e => parseDNSAnswers resp id t q = Err e
  | Panic => False
  end.
Proof.
  unfold parseDNSAnswers. pose proof (read_response_total resp id) as Hp.
  destruct (read_response resp id) as [rrs|e|]; [apply select_answers_spec|done|by destruct Hp].
Qed.

(** The reply to a query is read as the server wrote it.  For every name
    that can be asked, and every list of records with well-formed names, written
    out or with a pointer to the question, the records read are the ones written;
    and when those of the asked type belong to the name or its aliases, their
    addresses are the result. *)
Theorem dns_reply_read id q t query flags rrs counts rest :
  buildDNSQuery id q t = Ok query → is_u16 id → answer_flags flags → length counts = 4%nat →
  Forall (wrr_ok (labels q)) rrs → zlen rrs < 2 ^ 16 →
  let reply := dns_reply query flags rrs counts rest in
  let read := wrr_meaning (labels q) <$> rrs in
  read_response reply id = Ok read ∧
  ((∀ rr, rr ∈ read → rr_typ rr = t → trusted q read (rr_owner rr)) → addresses t read ≠ [] →
   parseDNSAnswers reply id t q = Ok (addresses t read)).
Proof.
  intros Hq Hid Hf Hc Hok Hn reply read.
  assert (read_response reply id = Ok read) as Hread.
  { apply buildDNSQuery_Ok in Hq as (_ & Hl & ->). unfold reply.
    assert (0 ≤ zlen rrs) by (unfold zlen; lia). rewrite dns_reply_eq, read_header by (done || lia).
    set (h := be_enc 2 id ++ flags ++ be_enc 2 1 ++ be_enc 2 (zlen rrs) ++ counts).
    assert (length h = 12%nat) as Hh by (unfold h; destruct Hf as [Hf _]; rewrite !length_app, !length_be_enc, Hf, Hc; done).
    set (body := concat (enc_wrr <$> rrs) ++ rest).
    assert (be_enc 2 id ++ flags ++ be_enc 2 1 ++ be_enc 2 (zlen rrs) ++ counts ++ enc_labels (labels q) ++
      x00 :: (be_enc 2 t ++ be_enc 2 1) ++ body = h ++ enc_labels (labels q) ++ x00 :: (be_enc 2 t ++ be_enc 2 1) ++ body)
      as -> by (unfold h; flat_app).
    rewrite skip_question_ok by done. bind. unfold body, zlen. rewrite Nat2Z.id. by apply read_wrrs. }
  split; [done|]. intros Hall Hne. unfold parseDNSAnswers. rewrite Hread. bind.
  destruct (select_answers_spec t q read) as (out & Hs & H). apply selected_all in Hs as ->; [|done].
  by destruct (addresses t read).
Qed.

(** ** A concrete reply: an alias and its address, in either order. *)
Definition sample_query : bytes := default [] (match buildDNSQuery 7 (text "WWW.ex.") dnsTypeA with Ok b => Some b | _ => None end).
Definition sample_flags : bytes := [x81; x80].
Definition sample_rrs : list wrr :=
  [mkWrr ([text "a"], true) dnsTypeA [x00; x01; x00; x00; x00; x3c] (inr [x0a; x00; x00; x01]);
   mkWrr ([], true) dnsTypeCNAME [x00; x01; x00; x00; x00; x3c] (inl ([text "A"], true))].

Lemma dns_reply_read_witness :
  buildDNSQuery 7 (text "WWW.ex.") dnsTypeA = Ok sample_query ∧
  parseDNSAnswers (dns_reply sample_query sample_flags sample_rrs (be_enc 4 0) []) 7 dnsTypeA (text "WWW.ex.") =
    Ok [Addr4 0x0a000001].
Proof.
  split; [reflexivity|].
  refine (proj2 (dns_reply_read 7 (text "WWW.ex.") dnsTypeA sample_query sample_flags sample_rrs (be_enc 4 0) []
    eq_refl _ _ eq_refl _ _) _ _).
  - by vm_compute.
  - split_and!; by vm_compute.
  - repeat constructor; by vm_compute.
  - by vm_compute.
  - intros rr [->|[->|H]%elem_of_cons]%elem_of_cons Ht; [|discriminate Ht|by apply elem_of_nil in H].
    apply rtc_once. eexists. split; [apply elem_of_cons; right; by apply list_elem_of_singleton|].
    split_and!; by vm_compute.
  - by vm_compute.
Defined.
