(* ===== verification/Resolver.v ===== *)
(** The resolver of the proxy ([cmd/openvpn2socks/resolver.go]): the queries of a
    name over the tunnel, the order in which resolvers are tried, the cache and
    the last resort, the resolver of the system.  What the network answers, the
    clock and the iteration order of a map are arguments. *)
From stdpp Require Import gmap.
From S2P Require Import Prelude Text Netip Dns.
Local Open Scope Z_scope.

Definition dnsCacheTTL : Z := 60 * Second.
Definition systemWarnThrottle : Z := 60 * Second.
Definition dnsCacheMaxEntries : nat := Z.to_nat 8192.
Definition evictSample : nat := 8.

Definition publicDNSFallback : AddrPort := mkAddrPort (Addr4 (be_dec [x01; x01; x01; x01])) 53.

(** ** Addresses *)

Definition isProxiableLiteral (ip : Addr) : bool :=
  if negb (IsValid ip) then false
  else negb (IsLoopback ip || IsUnspecified ip || IsMulticast ip || IsLinkLocalUnicast ip || IsLinkLocalMulticast ip).

(** [socks5_tcp.go]. *)
Definition filterUsableIPs (ips : list Addr) (haveV4 haveV6 : bool) : list Addr :=
  filter (λ ip, (Is4 ip && haveV4) || (Is6 ip && haveV6) = true) ips.

(** ** A query over the tunnel *)

Inductive query_error : Type :=
  | QDns (e : dns_error)
  | QTransport.

Definition pickQueryTypes (hasV4 hasV6 : bool) : list Z :=
  (if hasV4 then [dnsTypeA] else []) ++ (if hasV6 then [dnsTypeAAAA] else []).

(** [id] is the random transaction id, [exchange] what the connection gives back
    for what is written to it. *)
Definition queryOne (id : option Z) (exchange : bytes → option bytes) (host : bytes) (qtype : Z)
  : res query_error (list Addr) :=
  match id with
  | None => Err QTransport
  | Some id =>
      query ← map_err QDns (buildDNSQuery id host qtype);
      match exchange query with
      | None => Err QTransport
      | Some resp => map_err QDns (parseDNSAnswers (take 1500 resp) id qtype host)
      end
  end.

Inductive tunnel_error : Type :=
  | TNoFamily
  | TCancelled
  | TAuthoritative      (* wraps errDNSAuthoritativeNoData *)
  | TNoRecords.

(** The loop that receives one result per type: [arrivals] is what its select
    sees, a result or ([None]) the end of the context. *)
Fixpoint merge (n : nat) (arrivals : list (option (res query_error (list Addr)))) (out : list Addr)
    (authoritativeNegatives : nat) (hadTransportErr : bool) : res tunnel_error (list Addr) :=
  match n with
  | O =>
      match out with
      | _ :: _ => Ok out
      | [] => if (0 <? authoritativeNegatives)%nat && negb hadTransportErr then Err TAuthoritative else Err TNoRecords
      end
  | S n' =>
      match arrivals with
      | [] | None :: _ => Err TCancelled
      | Some (Ok ips) :: arrivals' => merge n' arrivals' (out ++ ips) authoritativeNegatives hadTransportErr
      | Some (Err (QDns e)) :: arrivals' =>
          if errDNSAuthoritativeNoData e
          then merge n' arrivals' out (S authoritativeNegatives) hadTransportErr
          else merge n' arrivals' out authoritativeNegatives true
      | Some (Err QTransport) :: arrivals' => merge n' arrivals' out authoritativeNegatives true
      | Some Panic :: _ => Panic
      end
  end.

(** [arrivals]: the types in the order their goroutines are done, cut where the
    context ends. *)
Definition queryOverTunnel (hasV4 hasV6 : bool) (arrivals : list Z) (query : Z → res query_error (list Addr))
  : res tunnel_error (list Addr) :=
  let qtypes := pickQueryTypes hasV4 hasV6 in
  match qtypes with
  | [] => Err TNoFamily
  | _ => merge (length qtypes) ((λ t, Some (query t)) <$> arrivals) [] 0 false
  end.

(** ** The resolver *)

Record cacheEntry := mkCacheEntry { ce_ips : list Addr; ce_expires : Z }.

Record resolver := mkResolver {
  rv_pushed : list Addr;
  rv_override : AddrPort;
  rv_cache : gmap bytes cacheEntry;
  rv_hits : Z;
  rv_misses : Z;
  rv_lastSystemWarn : Z
}.
Definition newResolver (pushed : list Addr) (override : AddrPort) : resolver := mkResolver pushed override ∅ 0 0 0.

Definition set_cache (m : gmap bytes cacheEntry) (r : resolver) : resolver :=
  mkResolver (rv_pushed r) (rv_override r) m (rv_hits r) (rv_misses r) (rv_lastSystemWarn r).

Definition cacheGet (now : Z) (host : bytes) (r : resolver) : resolver * option (list Addr) :=
  match rv_cache r !! host with
  | None => (r, None)
  | Some e => if ce_expires e <? now then (set_cache (delete host (rv_cache r)) r, None) else (r, Some (ce_ips e))
  end.

(** The eviction loop over [order], the keys as the iteration of the map gives
    them; the empty key stands for "none yet". *)
Fixpoint evict_loop (n : nat) (order : list bytes) (cache : gmap bytes cacheEntry) (key : bytes) (at_ : Z) : bytes :=
  match n, order with
  | S n', k :: order' =>
      match cache !! k with
      | Some e =>
          if bool_decide (key = []) || (ce_expires e <? at_)
          then evict_loop n' order' cache k (ce_expires e) else evict_loop n' order' cache key at_
      | None => evict_loop n order' cache key at_
      end
  | _, _ => key
  end.

(** Room for [host] in a full cache. *)
Definition make_room (order : list bytes) (host : bytes) (m : gmap bytes cacheEntry) : gmap bytes cacheEntry :=
  if bool_decide (m !! host = None) && (dnsCacheMaxEntries <=? size m)%nat
  then match evict_loop evictSample order m [] 0 with [] => m | k => delete k m end else m.

Definition cacheSet (now : Z) (order : list bytes) (host : bytes) (ips : list Addr) (r : resolver) : resolver :=
  match ips with
  | [] => r
  | _ =>
      set_cache (<[host := mkCacheEntry ips (now + dnsCacheTTL)]> (make_room order host (rv_cache r))) r
  end.

Definition cacheSweep (now : Z) (r : resolver) : resolver :=
  set_cache (filter (λ '(_, e), (ce_expires e <? now) = false) (rv_cache r)) r.

Definition maybeWarnSystemFallback (now : Z) (r : resolver) : resolver * bool :=
  if now - rv_lastSystemWarn r <? systemWarnThrottle then (r, false)
  else (mkResolver (rv_pushed r) (rv_override r) (rv_cache r) (rv_hits r) (rv_misses r) now, true).

Inductive lookup_error : Type :=
  | LLiteral            (* errDNSDisallowedLiteral *)
  | LAuthoritative
  | LSystem
  | LNoFamily.

Inductive lookup_result : Type :=
  | FromTunnel (ips : list Addr)
  | FromSystem (ips : list Addr)
  | LookupFailed (e : lookup_error)
  | LookupPanicked.

(** The servers asked over the tunnel, in order. *)
Definition tunnel_servers (r : resolver) : list AddrPort :=
  (if AddrPort_IsValid (rv_override r) then [rv_override r] else []) ++
  ((λ a, mkAddrPort a 53) <$> filter (λ a, IsValid a = true) (rv_pushed r)) ++
  (if AddrPort_IsValid (rv_override r) then [] else [publicDNSFallback]).

(** Asks them in turn: the ones asked, and the addresses or whether an
    authoritative negative was seen. *)
Fixpoint ask (run : nat → AddrPort → res tunnel_error (list Addr)) (k : nat) (servers : list AddrPort) (denied : bool)
  : list AddrPort * res bool (list Addr) :=
  match servers with
  | [] => ([], Err denied)
  | srv :: servers' =>
      match run k srv with
      | Panic => ([srv], Panic)
      | Ok ((_ :: _) as ips) => ([srv], Ok ips)
      | Ok [] => let '(asked, o) := ask run (S k) servers' denied in (srv :: asked, o)
      | Err e =>
          let denied := denied || match e with TAuthoritative => true | _ => false end in
          let '(asked, o) := ask run (S k) servers' denied in (srv :: asked, o)
      end
  end.

(** The last resort. *)
Definition system_lookup (system : option (list Addr)) (hasV4 hasV6 : bool) : lookup_result :=
  match system with
  | None => LookupFailed LSystem
  | Some ips =>
      match filterUsableIPs ips hasV4 hasV6 with
      | [] => LookupFailed LNoFamily
      | ips => FromSystem ips
      end
  end.

(** [run] is [runTunneledQuery] for this name, [system] the system's resolver:
    the servers asked, whether the system was, and the outcome. *)
Definition lookupIPUncached (run : nat → AddrPort → res tunnel_error (list Addr)) (system : option (list Addr))
    (hasV4 hasV6 : bool) (r : resolver) : list AddrPort * bool * lookup_result :=
  match ask run 0 (tunnel_servers r) false with
  | (asked, Ok ips) => (asked, false, FromTunnel ips)
  | (asked, Err true) => (asked, false, LookupFailed LAuthoritative)
  | (asked, Err false) => (asked, true, system_lookup system hasV4 hasV6)
  | (asked, Panic) => (asked, false, LookupPanicked)
  end.

(** [LookupIP] up to the shared resolution: [None] starts it. *)
Definition LookupIP_begin (now : Z) (host : bytes) (r : resolver) : resolver * option (res lookup_error (list Addr)) :=
  match ParseAddr host with
  | Some ip => (r, Some (if isProxiableLiteral ip then Ok [ip] else Err LLiteral))
  | None =>
      match cacheGet now host r with
      | (r, Some ips) =>
          (mkResolver (rv_pushed r) (rv_override r) (rv_cache r) (u64 (rv_hits r + 1)) (rv_misses r) (rv_lastSystemWarn r),
           Some (Ok ips))
      | (r, None) =>
          (mkResolver (rv_pushed r) (rv_override r) (rv_cache r) (rv_hits r) (u64 (rv_misses r + 1)) (rv_lastSystemWarn r),
           None)
      end
  end.

(** What the resolution leaves behind: only answers of the tunnel are cached. *)
Definition lookup_effect (now : Z) (order : list bytes) (host : bytes) (asked : list AddrPort) (leaked : bool)
    (o : lookup_result) (r : resolver) : resolver :=
  match o with
  | FromTunnel ips => cacheSet now order host ips r
  | _ => if leaked && negb (bool_decide (asked = [])) then (maybeWarnSystemFallback now r).1 else r
  end.

Example literals :
  (isProxiableLiteral <$> ParseAddr (text "127.0.0.1")) = Some false ∧
  (isProxiableLiteral <$> ParseAddr (text "::ffff:127.0.0.1")) = Some false ∧
  (isProxiableLiteral <$> ParseAddr (text "fe80::1%eth0")) = Some false ∧
  (isProxiableLiteral <$> ParseAddr (text "ff02::1")) = Some false ∧
  (isProxiableLiteral <$> ParseAddr (text "0.0.0.0")) = Some false ∧
  (isProxiableLiteral <$> ParseAddr (text "10.1.2.3")) = Some true ∧
  (isProxiableLiteral <$> ParseAddr (text "fd00::1")) = Some true.
Proof. by vm_compute. Qed.

(** An unspecified address with a zone, or mapped into IPv6, is let through. *)
Example unspecified_let_through :
  (isProxiableLiteral <$> ParseAddr (text "::%1")) = Some true ∧
  (isProxiableLiteral <$> ParseAddr (text "::ffff:0.0.0.0")) = Some true.
Proof. by vm_compute. Qed.
