(* ===== verification/ResolverFacts.v ===== *)
(** What holds of the resolver: a name leaves the tunnel only when every resolver
    in it failed to answer, and the cache holds a bounded number of answers, each
    for a minute. *)
From stdpp Require Import gmap.
From S2P Require Import Prelude Text Netip Dns DnsFacts Resolver.
Local Open Scope Z_scope.

(** ** Queries over the tunnel *)

Lemma map_err_no_panic {E E' A} (f : E → E') (m : res E A) : no_panic m → no_panic (map_err f m).
Proof. by destruct m. Qed.

Lemma append_labels_total qname ls buf : no_panic (append_labels qname ls buf).
Proof. revert buf. induction ls as [|l ls IH]; intros buf; [done|]. cbn. by apply no_panic_guard. Qed.

Lemma buildDNSQuery_total id q t : no_panic (buildDNSQuery id q t).
Proof.
  unfold buildDNSQuery. apply no_panic_guard. intros _. by apply no_panic_bind; [apply append_labels_total|].
Qed.

Lemma select_answers_total t q rrs : no_panic (select_answers t q rrs).
Proof.
  destruct (select_answers_spec t q rrs) as ([|a out] & _ & H); [destruct H as [[_ ->]|[_ ->]]|rewrite H]; done.
Qed.

Lemma queryOne_total id ex host t : no_panic (queryOne id ex host t).
Proof.
  unfold queryOne. destruct id as [id|]; [|done]. apply no_panic_bind; [apply map_err_no_panic, buildDNSQuery_total|].
  intros query _. destruct (ex query) as [resp|]; [|done]. apply map_err_no_panic, no_panic_bind.
  - apply read_response_total.
  - intros rrs _. apply select_answers_total.
Qed.

(** A name that cannot be asked has no answer. *)
Lemma queryOne_Ok id ex host t ips : queryOne id ex host t = Ok ips → ips ≠ [] ∧ host ≠ [].
Proof.
  unfold queryOne. destruct id as [id|]; [|done]. intros (query & Hq & H)%bind_Ok. split.
  - destruct (ex query) as [resp|]; [|done]. unfold parseDNSAnswers in H.
    destruct (read_response _ _) as [rrs| |]; [|done..]. bind.
    cbn [mbind res_bind] in H. destruct (select_answers_spec t host rrs) as ([|a out] & _ & Hs).
    + destruct Hs as [[_ Hs]|[_ Hs]]; by rewrite Hs in H.
    + rewrite Hs in H. by injection H as <-.
  - destruct (buildDNSQuery id host t) as [b|e|] eqn:Hb; [|done..].
    apply buildDNSQuery_Ok in Hb as ([Hl _] & _). by intros ->.
Qed.

Section merge.
Variable query : Z → res query_error (list Addr).
Hypothesis query_total : ∀ t, no_panic (query t).
Hypothesis query_Ok : ∀ t ips, query t = Ok ips → ips ≠ [].

(** A definitive negative for one type. *)
Definition negative (t : Z) : Prop := ∃ e, query t = Err (QDns e) ∧ errDNSAuthoritativeNoData e = true.

(** An address of an answer. *)
Definition answered (arrivals : list Z) (a : Addr) : Prop := ∃ t l, t ∈ arrivals ∧ query t = Ok l ∧ a ∈ l.

Lemma answered_cons t arrivals a : answered arrivals a → answered (t :: arrivals) a.
Proof. intros (t' & l & ? & ?). exists t', l. set_solver. Qed.

(** What a result of the merge says, [out] being merged already. *)
Definition merged (n : nat) (arrivals : list Z) (out : list Addr) (bad : bool) (r : res tunnel_error (list Addr)) : Prop :=
  match r with
  | Panic => False
  | Ok ips => ips ≠ [] ∧ ∀ a, a ∈ ips → a ∈ out ∨ answered arrivals a
  | Err TAuthoritative => out = [] ∧ bad = false ∧ ∀ t, t ∈ take n arrivals → negative t
  | Err _ => True
  end.

Lemma merge_spec n arrivals out neg bad :
  merged n arrivals out bad (merge n ((λ t, Some (query t)) <$> arrivals) out neg bad).
Proof.
  revert arrivals out neg bad. induction n as [|n IH]; intros arrivals out neg bad; cbn [merge].
  { destruct out as [|a out]; [|split; [done|by left]]. destruct (0 <? neg)%nat, bad; try done.
    split_and!; [done..|]. by intros t ?%elem_of_nil. }
  destruct arrivals as [|t arrivals]; [done|]. cbn [fmap list_fmap].
  assert (∀ bad' r, merged n arrivals out bad' r → (bad' = true ∨ bad' = bad ∧ negative t) →
    merged (S n) (t :: arrivals) out bad r) as Hstep.
  { intros bad' [ips|[]|]; cbn [merged]; try done.
    - intros [Hne Hin] _. split; [done|]. intros a [?|?]%Hin; [by left|right; by apply answered_cons].
    - intros (-> & -> & Hneg) [[=]|[<- Ht]]. split_and!; [done..|]. cbn [take].
      intros t' [->|?]%elem_of_cons; [done|by apply Hneg]. }
  destruct (query t) as [ips|[e|]|] eqn:Hq.
  - specialize (IH arrivals (out ++ ips) neg bad). destruct (merge _ _ _ _ _) as [ips'|[]|]; cbn in IH |- *; try done.
    + destruct IH as [Hne Hin]. split; [done|]. intros a [[?|?]%elem_of_app|?]%Hin; [by left|right..].
      * exists t, ips. set_solver.
      * by apply answered_cons.
    + destruct IH as ([_ Hips]%app_nil & _). by apply query_Ok in Hq.
  - destruct (errDNSAuthoritativeNoData e) eqn:He; (eapply Hstep; [apply IH|]); [right|by left]. split; [done|by exists e].
  - eapply Hstep; [apply IH|by left].
  - by destruct (query_total t).
Qed.

(** Every type answered negatively is a negative of the server. *)
Lemma merge_negative n arrivals neg :
  (0 < n + neg)%nat → length arrivals = n → (∀ t, t ∈ arrivals → negative t) →
  merge n ((λ t, Some (query t)) <$> arrivals) [] neg false = Err TAuthoritative.
Proof.
  clear query_total query_Ok. revert n neg. induction arrivals as [|t arrivals IH]; intros n neg Hn <- Hneg; cbn [length merge fmap list_fmap].
  { cbn in Hn. by rewrite (proj2 (Nat.ltb_lt 0 neg)) by lia. }
  destruct (Hneg t ltac:(set_solver)) as (e & -> & ->). apply IH; [lia|done|]. set_solver.
Qed.
End merge.

(** ** The order of the resolvers *)

(** What the servers reply, asked in turn. *)
Fixpoint replies (run : nat → AddrPort → res tunnel_error (list Addr)) (k : nat) (servers : list AddrPort)
  : list (res tunnel_error (list Addr)) :=
  match servers with [] => [] | srv :: servers' => run k srv :: replies run (S k) servers' end.

(** A reply that gives no address. *)
Definition useless (r : res tunnel_error (list Addr)) : Prop := r = Ok [] ∨ ∃ e, r = Err e.

Definition asked_post run (k : nat) (servers : list AddrPort) (denied : bool)
    (x : list AddrPort * res bool (list Addr)) : Prop :=
  x.1 `prefix_of` servers ∧
  match x.2 with
  | Ok ips => ips ≠ [] ∧ Ok ips ∈ replies run k x.1
  | Err d =>
      x.1 = servers ∧ Forall useless (replies run k servers) ∧
      (d = true ↔ denied = true ∨ Err TAuthoritative ∈ replies run k servers)
  | Panic => Panic ∈ replies run k x.1
  end.

Lemma ask_more run k srv servers denied d asked o :
  useless (run k srv) → (d = true ↔ denied = true ∨ Err TAuthoritative = run k srv) →
  asked_post run (S k) servers d (asked, o) → asked_post run k (srv :: servers) denied (srv :: asked, o).
Proof.
  intros Hu Hd [Hpre Ho]. split; [by apply prefix_cons|]. cbn [fst snd replies] in *. destruct o as [ips|d'|].
  - destruct Ho as [? ?]. split; [done|]. by apply elem_of_cons; right.
  - destruct Ho as (-> & Hall & ->). split_and!; [done|by apply list.Forall_cons|]. rewrite elem_of_cons, Hd. tauto.
  - by apply elem_of_cons; right.
Qed.

Lemma ask_spec run k servers denied : asked_post run k servers denied (ask run k servers denied).
Proof.
  revert k denied. induction servers as [|srv servers IH]; intros k denied; cbn [ask].
  { split; [done|]. split_and!; [done|constructor|]. split; [by left|]. by intros [?|?%elem_of_nil]. }
  destruct (run k srv) as [[|a ips]|e|] eqn:Hr.
  - specialize (IH (S k) denied). destruct (ask run (S k) servers denied) as [asked o].
    eapply ask_more; [by left| |done]. rewrite Hr. naive_solver.
  - split; [by apply prefix_cons, prefix_nil|]. cbn. rewrite Hr. split; [done|]. by apply list_elem_of_singleton.
  - specialize (IH (S k) (denied || match e with TAuthoritative => true | _ => false end)).
    destruct (ask run (S k) servers _) as [asked o]. eapply ask_more; [by right; exists e| |done].
    rewrite Hr, orb_true_iff. destruct e; naive_solver.
  - split; [by apply prefix_cons, prefix_nil|]. cbn. rewrite Hr. by apply list_elem_of_singleton.
Qed.

Lemma replies_elem run k servers r :
  r ∈ replies run k servers ↔ ∃ i srv, servers !! i = Some srv ∧ r = run (k + i)%nat srv.
Proof.
  revert k. induction servers as [|srv servers IH]; intros k; cbn [replies].
  { split; [by intros ?%elem_of_nil|]. intros (i & srv & H & _). by rewrite lookup_nil in H. }
  rewrite elem_of_cons, IH. split.
  - intros [->|(i & srv' & Hi & ->)]; [exists 0%nat, srv; by rewrite Nat.add_0_r|]. exists (S i), srv'.
    split; [done|]. f_equal. lia.
  - intros ([|i] & srv' & Hi & ->); cbn in Hi; [left; injection Hi as <-; by rewrite Nat.add_0_r|right].
    exists i, srv'. split; [done|]. f_equal. lia.
Qed.

(** ** Names stay in the tunnel *)

Section lookup.
(** One lookup: the transaction id of each query, what the network gives back
    for it, and the types in the order they are done, for the [k]-th server. *)
Variables (host : bytes) (id : nat → Z → option Z) (exchange : nat → AddrPort → Z → bytes → option bytes).
Variables (arrivals : nat → list Z) (hasV4 hasV6 : bool).

Definition answer (k : nat) (srv : AddrPort) (t : Z) : res query_error (list Addr) :=
  queryOne (id k t) (exchange k srv t) host t.
Definition run (k : nat) (srv : AddrPort) : res tunnel_error (list Addr) :=
  queryOverTunnel hasV4 hasV6 (arrivals k) (answer k srv).

(** The server says definitively that the name has no address. *)
Definition denied (k : nat) (srv : AddrPort) : Prop :=
  arrivals k ≡ₚ pickQueryTypes hasV4 hasV6 ∧ arrivals k ≠ [] ∧ ∀ t, t ∈ arrivals k → negative (answer k srv) t.

Lemma run_cases k srv :
  match run k srv with
  | Ok ips => ips ≠ [] ∧ host ≠ [] ∧ ∀ a, a ∈ ips → ∃ t l, answer k srv t = Ok l ∧ a ∈ l
  | Err _ => True
  | Panic => False
  end.
Proof.
  unfold run, queryOverTunnel. destruct (pickQueryTypes hasV4 hasV6) as [|t ts]; [done|].
  pose proof (merge_spec (answer k srv) ltac:(intros; apply queryOne_total) ltac:(intros t' ips H; by apply queryOne_Ok in H as [])
    (length (t :: ts)) (arrivals k) [] 0 false) as H. destruct (merge _ _ _ _ _) as [ips| |]; [|done..].
  destruct H as [Hne Hin].
  assert (∀ a, a ∈ ips → ∃ t l, answer k srv t = Ok l ∧ a ∈ l) as Hall
    by (intros a [?%elem_of_nil|(t' & l & _ & ? & ?)]%Hin; [done|by exists t', l]).
  split_and!; [done| |done]. destruct ips as [|a ips]; [done|].
  destruct (Hall a ltac:(set_solver)) as (t' & l & Hq & _). by apply queryOne_Ok in Hq as [].
Qed.

Lemma run_denied k srv : denied k srv → run k srv = Err TAuthoritative.
Proof.
  intros (Hp & Hne & Hneg). unfold run, queryOverTunnel. apply Permutation_length in Hp.
  revert Hp. destruct (pickQueryTypes hasV4 hasV6) as [|t ts]; intros Hp; [by destruct (arrivals k)|].
  apply (merge_negative (answer k srv)); [|done|done].
  cbn [length]. lia.
Qed.

(** What a lookup asks, and whom it believes. *)
Lemma lookup_asks system r :
  let '(asked, leaked, o) := lookupIPUncached run system hasV4 hasV6 r in
  asked `prefix_of` tunnel_servers r ∧
  (leaked = true ↔ asked = tunnel_servers r ∧
    ∀ i srv, tunnel_servers r !! i = Some srv → ∃ e, run i srv = Err e ∧ e ≠ TAuthoritative) ∧
  (∀ i srv, tunnel_servers r !! i = Some srv → denied i srv → leaked = false) ∧
  match o with
  | FromTunnel ips => leaked = false ∧ ips ≠ [] ∧ ∃ i srv, asked !! i = Some srv ∧
      ∀ a, a ∈ ips → ∃ t l, answer i srv t = Ok l ∧ a ∈ l
  | FromSystem ips => leaked = true ∧ ips ≠ [] ∧ ∃ l, system = Some l ∧
      ∀ a, a ∈ ips → a ∈ l ∧ (Is4 a && hasV4) || (Is6 a && hasV6) = true
  | LookupFailed _ => True
  | LookupPanicked => False
  end.
Proof.
  unfold lookupIPUncached. pose proof (ask_spec run 0 (tunnel_servers r) false) as [Hpre H].
  destruct (ask run 0 (tunnel_servers r) false) as [asked o]. cbn [fst snd] in *.
  destruct o as [ips|d|].
  - destruct H as [Hne (i & srv & Hi & Hr)%replies_elem]. cbn [Nat.add] in Hr. symmetry in Hr.
    assert (∀ e, run i srv ≠ Err e) as Hno by (intros e; by rewrite Hr).
    assert (tunnel_servers r !! i = Some srv) as Hi' by (by eapply prefix_lookup_Some).
    split_and!; [done| |done|done|done|].
    + split; [done|]. intros [-> Hall]. by destruct (Hall i srv Hi) as (e & ? & _); edestruct Hno.
    + exists i, srv. split; [done|]. pose proof (run_cases i srv) as Hc. rewrite Hr in Hc. apply Hc.
  - destruct H as (-> & Hall & Hd). rewrite list.Forall_forall in Hall. setoid_rewrite replies_elem in Hall. rewrite replies_elem in Hd.
    assert (∀ i srv, tunnel_servers r !! i = Some srv → ∃ e, run i srv = Err e) as Herr.
    { intros i srv Hi. destruct (Hall (run i srv)) as [Hok|He]; [by exists i, srv| |done].
      pose proof (run_cases i srv) as Hc. rewrite Hok in Hc. by destruct Hc. }
    assert (d = false → ∀ i srv, tunnel_servers r !! i = Some srv → ∃ e, run i srv = Err e ∧ e ≠ TAuthoritative) as Hfalse.
    { intros -> i srv Hi. destruct (Herr i srv Hi) as [e He]. exists e. split; [done|]. intros ->.
      assert (false = true); [apply Hd; right; by exists i, srv|done]. }
    assert (d = true → ∃ i srv, tunnel_servers r !! i = Some srv ∧ run i srv = Err TAuthoritative) as Htrue
      by (intros [[=]|(i & srv & ? & ?)]%Hd; by exists i, srv).
    destruct d.
    + destruct (Htrue eq_refl) as (i & srv & Hi & He). split_and!; [done| |done|done].
      split; [done|]. intros [_ H]. destruct (H i srv Hi) as (e & ? & ?). congruence.
    + split_and!; [done|by split; [split; [done|by apply Hfalse]|]| |].
      * intros i srv Hi Hden%run_denied. destruct (Hfalse eq_refl i srv Hi) as (e & ? & ?). congruence.
      * unfold system_lookup. destruct system as [l|]; [|done].
        destruct (filterUsableIPs l hasV4 hasV6) as [|a ips] eqn:Hf; [done|].
        split_and!; [done..|]. exists l. split; [done|]. intros b. rewrite <-Hf. unfold filterUsableIPs.
        rewrite list_elem_of_filter. by intros [? ?].
  - apply replies_elem in H as (i & srv & _ & Hr). pose proof (run_cases (0 + i) srv) as Hc. by rewrite <-Hr in Hc.
Qed.

Lemma maybeWarn_cache now r : rv_cache (maybeWarnSystemFallback now r).1 = rv_cache r.
Proof. unfold maybeWarnSystemFallback. by case_match. Qed.

(** Only an answer of the tunnel changes the cache. *)
Lemma lookup_effect_cache now order asked leaked o r :
  (∀ ips, o = FromTunnel ips → ips ≠ []) →
  match o with
  | FromTunnel ips => rv_cache (lookup_effect now order host asked leaked o r) !! host = Some (mkCacheEntry ips (now + dnsCacheTTL))
  | _ => rv_cache (lookup_effect now order host asked leaked o r) = rv_cache r
  end.
Proof.
  intros Hne. destruct o as [ips| | |]; cbn [lookup_effect]; [|by case_match; [apply maybeWarn_cache|]..].
  unfold cacheSet. destruct ips as [|x ips]; [by destruct (Hne [])|]. apply lookup_insert_eq.
Qed.

(** C17: a name leaves the tunnel only when every resolver inside it failed to
    answer.  Whatever the network does, a lookup asks the configured resolvers in
    order and comes back without a panic; the resolver of the system is asked
    exactly when all of them were asked and each failed without a definitive
    answer, so never after one of them denied the name for every address family
    of the tunnel; addresses from the tunnel were in a response to this name, and
    addresses from the system are of a family the tunnel carries.  The answer of the
    tunnel is cached for this name; after any other end of the lookup, an answer of the
    system included, the cache is what it was. *)
Theorem no_dns_leak system r :
  let '(asked, leaked, o) := lookupIPUncached run system hasV4 hasV6 r in
  asked `prefix_of` tunnel_servers r ∧
  (leaked = true ↔ asked = tunnel_servers r ∧
    ∀ i srv, tunnel_servers r !! i = Some srv → ∃ e, run i srv = Err e ∧ e ≠ TAuthoritative) ∧
  (∀ i srv, tunnel_servers r !! i = Some srv → denied i srv → leaked = false) ∧
  match o with
  | FromTunnel ips => leaked = false ∧ ips ≠ [] ∧ ∃ i srv, asked !! i = Some srv ∧
      ∀ a, a ∈ ips → ∃ t l, answer i srv t = Ok l ∧ a ∈ l
  | FromSystem ips => leaked = true ∧ ips ≠ [] ∧ ∃ l, system = Some l ∧
      ∀ a, a ∈ ips → a ∈ l ∧ (Is4 a && hasV4) || (Is6 a && hasV6) = true
  | LookupFailed _ => True
  | LookupPanicked => False
  end ∧
  ∀ now order,
    let cache := rv_cache (lookup_effect now order host asked leaked o r) in
    match o with
    | FromTunnel ips => cache !! host = Some (mkCacheEntry ips (now + dnsCacheTTL))
    | _ => cache = rv_cache r
    end.
Proof.
  pose proof (lookup_asks system r) as H. destruct (lookupIPUncached run system hasV4 hasV6 r) as [[asked leaked] o].
  destruct H as (H1 & H2 & H3 & H4). split_and!; [done..|]. intros now order. apply lookup_effect_cache.
  intros ips ->. by destruct H4 as (_ & ? & _).
Qed.
End lookup.

(** ** The cache *)

(** What the tunnel answered: when, for which name, what. *)
Abbreviation history := (list (Z * bytes * list Addr)).

(** The last answer for a name. *)
Definition latest (h : history) (host : bytes) (t : Z) (ips : list Addr) : Prop :=
  ∃ h1 h2, h = h1 ++ (t, host, ips) :: h2 ∧ ∀ x, x ∈ h2 → x.1.2 ≠ host.

(** The resolver with its history and the clock.  Lookups begin and end at any
    time and overlap; an iteration of a map meets all its keys. *)
Definition cache_world : Type := resolver * history * Z.
Definition iterates (order : list bytes) (m : gmap bytes cacheEntry) : Prop := ∀ k, k ∈ order ↔ is_Some (m !! k).

Inductive cache_step : cache_world → cache_world → Prop :=
  | ck_begin now now' host r h : now ≤ now' → cache_step (r, h, now) ((LookupIP_begin now' host r).1, h, now')
  | ck_end now now' order host id exchange arrivals hasV4 hasV6 system asked leaked o r h :
      now ≤ now' → iterates order (rv_cache r) →
      lookupIPUncached (run host id exchange arrivals hasV4 hasV6) system hasV4 hasV6 r = (asked, leaked, o) →
      cache_step (r, h, now)
        (lookup_effect now' order host asked leaked o r,
         h ++ match o with FromTunnel ips => [(now', host, ips)] | _ => [] end, now')
  | ck_sweep now now' r h : now ≤ now' → cache_step (r, h, now) (cacheSweep now' r, h, now').

Definition cache_reachable (pushed : list Addr) (override : AddrPort) (t0 : Z) : cache_world → Prop :=
  rtc cache_step (newResolver pushed override, [], t0).

Record entry_ok (h : history) (now : Z) (host : bytes) (e : cacheEntry) : Prop := {
  eo_host : host ≠ [];
  eo_ips : ce_ips e ≠ [];
  eo_latest : ∃ t, ce_expires e = t + dnsCacheTTL ∧ t ≤ now ∧ latest h host t (ce_ips e)
}.
Definition cache_inv (w : cache_world) : Prop :=
  let '(r, h, now) := w in
  (size (rv_cache r) ≤ dnsCacheMaxEntries)%nat ∧ map_Forall (entry_ok h now) (rv_cache r).

Lemma entry_ok_later h now now' k e : now ≤ now' → entry_ok h now k e → entry_ok h now' k e.
Proof. intros Hn [? ? (t & ? & ? & ?)]. split; [done|done|]. exists t. split_and!; [done|lia|done]. Qed.

Lemma latest_other h k t ips x : x.1.2 ≠ k → latest h k t ips → latest (h ++ [x]) k t ips.
Proof.
  intros Hx (h1 & h2 & -> & Hh). exists h1, (h2 ++ [x]). rewrite <-app_assoc. split; [done|].
  intros y [Hy|Hy%list_elem_of_singleton]%elem_of_app; [by apply Hh|by subst y].
Qed.
Lemma latest_new h k t ips : latest (h ++ [(t, k, ips)]) k t ips.
Proof. exists h, []. split; [done|]. by intros x ?%elem_of_nil. Qed.

(** The eviction finds a key when no key is empty. *)
Lemma evict_in n order m key at_ :
  (∀ k, k ∈ order → is_Some (m !! k)) → (∀ k, is_Some (m !! k) → k ≠ []) →
  (is_Some (m !! key) ∨ (key = [] ∧ n ≠ 0%nat ∧ order ≠ [])) → is_Some (m !! evict_loop n order m key at_).
Proof.
  revert n key at_. induction order as [|k order IH]; intros n key at_ Ho Hk Hkey.
  { destruct Hkey as [?|(_ & _ & ?)]; [by destruct n|done]. }
  destruct n as [|n]; [by destruct Hkey as [?|(_ & ? & _)]|]. cbn [evict_loop].
  destruct (Ho k ltac:(set_solver)) as [e He]. rewrite He.
  destruct (bool_decide (key = []) || (ce_expires e <? at_)) eqn:Hb.
  - apply IH; [set_solver|done|left; by exists e].
  - apply orb_false_iff in Hb as [Hne%bool_decide_eq_false _]. apply IH; [set_solver|done|].
    left. by destruct Hkey as [?|(? & _)].
Qed.

Lemma make_room_spec order host m x :
  iterates order m → map_Forall (λ k _, k ≠ []) m → (size m ≤ dnsCacheMaxEntries)%nat →
  make_room order host m ⊆ m ∧ (size (<[host := x]> (make_room order host m)) ≤ dnsCacheMaxEntries)%nat.
Proof.
  intros Ho Hk Hs. unfold make_room. case_bool_decide as Hn; cbn [andb].
  2: { split; [done|]. destruct (m !! host) eqn:Hm; [|done]. by rewrite map_size_insert_Some by by eexists. }
  destruct (Nat.leb_spec dnsCacheMaxEntries (size m)) as [Hfull|Hroom].
  2: { split; [done|]. rewrite map_size_insert_None by done. lia. }
  assert (is_Some (m !! evict_loop evictSample order m [] 0)) as [e He].
  { apply evict_in; [intros k; apply Ho|intros k [y Hy]; by apply (Hk k y)|]. right. split_and!; [done|done|].
    intros ->. assert (m = ∅) as ->; [|rewrite map_size_empty in Hfull; by apply Nat.leb_le in Hfull; vm_compute in Hfull].
    apply map_empty. intros k. destruct (m !! k) eqn:Hm; [|done]. exfalso.
    assert (k ∈ ([] : list bytes)) as Hin by (apply Ho; by eexists). by apply elem_of_nil in Hin. }
  destruct (evict_loop evictSample order m [] 0) as [|b k]; [by destruct (Hk _ _ He)|].
  split; [apply delete_subseteq|]. rewrite map_size_insert_None by (apply lookup_delete_None; by right).
  rewrite map_size_delete_Some by by eexists. destruct (size m) eqn:Hz; [|cbn; lia].
  apply map_size_empty_inv in Hz. by rewrite Hz in He.
Qed.

Lemma cacheSet_inv now order host ips r h :
  iterates order (rv_cache r) → ips ≠ [] → host ≠ [] → cache_inv (r, h, now) →
  cache_inv (cacheSet now order host ips r, h ++ [(now, host, ips)], now).
Proof.
  intros Ho Hne Hh [Hs He]. destruct ips as [|a ips]; [done|].
  destruct (make_room_spec order host (rv_cache r) (mkCacheEntry (a :: ips) (now + dnsCacheTTL)) Ho) as [Hsub Hsz];
    [intros k e Hk; apply (He k e Hk)|done|].
  unfold cacheSet. split; [exact Hsz|]. cbn [set_cache rv_cache]. intros k e [[<- <-]|[Hk Hm]]%lookup_insert_Some.
  - split; cbn; [done|done|]. exists now. split_and!; [done|done|apply latest_new].
  - destruct (He k e) as [? ? (t & ? & ? & Hl)]; [by eapply lookup_weaken|]. split; [done|done|].
    exists t. split_and!; [done|done|]. by apply latest_other.
Qed.

(** Entries only disappear. *)
Lemma shrink_inv r m h now now' :
  now ≤ now' → m ⊆ rv_cache r → cache_inv (r, h, now) → cache_inv (set_cache m r, h, now').
Proof.
  intros Hn Hm [Hs He]. split; cbn.
  - etransitivity; [by apply map_subseteq_size|done].
  - intros k e Hk. eapply entry_ok_later; [exact Hn|]. apply He. by eapply lookup_weaken.
Qed.

Lemma same_cache_inv r r' h now now' :
  now ≤ now' → rv_cache r' = rv_cache r → cache_inv (r, h, now) → cache_inv (r', h, now').
Proof. intros Hn Hc Hi. apply (shrink_inv r (rv_cache r) h now now') in Hi; [|done|done]. unfold cache_inv in *. by rewrite Hc. Qed.

(** What a lookup of the tunnel gives. *)
Lemma lookup_tunnel host id exchange arrivals hasV4 hasV6 system r asked leaked ips :
  lookupIPUncached (run host id exchange arrivals hasV4 hasV6) system hasV4 hasV6 r = (asked, leaked, FromTunnel ips) →
  ips ≠ [] ∧ host ≠ [].
Proof.
  unfold lookupIPUncached. pose proof (ask_spec (run host id exchange arrivals hasV4 hasV6) 0 (tunnel_servers r) false) as [_ H].
  destruct (ask _ _ _ _) as [as_ o]. cbn [fst snd] in H. destruct o as [ips'|[]|]; intros [= <- <- Ho].
  - subst ips'. destruct H as [_ (i & srv & _ & Hr)%replies_elem].
    pose proof (run_cases host id exchange arrivals hasV4 hasV6 (0 + i) srv) as Hc. rewrite <-Hr in Hc. by destruct Hc as (? & ? & _).
  - unfold system_lookup in Ho. destruct system; [|done]. by destruct (filterUsableIPs _ _ _).
Qed.

Lemma cache_step_inv w w' : cache_step w w' → cache_inv w → cache_inv w'.
Proof.
  intros [now now' host r h Hn|now now' order host id ex arr h4 h6 system asked leaked o r h Hn Ho Hl|now now' r h Hn] Hi.
  - unfold LookupIP_begin. destruct (ParseAddr host); [by eapply same_cache_inv|]. unfold cacheGet.
    destruct (rv_cache r !! host) as [e|]; [destruct (ce_expires e <? now')|]; cbn [fst]; [|by eapply same_cache_inv..].
    eapply same_cache_inv; [reflexivity| |eapply (shrink_inv _ (delete host (rv_cache r))); [exact Hn|apply delete_subseteq|exact Hi]].
    done.
  - destruct o as [ips| | |]; cbn [lookup_effect]; rewrite ?app_nil_r.
    + apply lookup_tunnel in Hl as [? ?]. apply cacheSet_inv; [done..|]. by eapply same_cache_inv.
    + case_match; [|by eapply same_cache_inv]. unfold maybeWarnSystemFallback. case_match; by eapply same_cache_inv.
    + case_match; [|by eapply same_cache_inv]. unfold maybeWarnSystemFallback. case_match; by eapply same_cache_inv.
    + case_match; [|by eapply same_cache_inv]. unfold maybeWarnSystemFallback. case_match; by eapply same_cache_inv.
  - eapply shrink_inv; [exact Hn|apply map_filter_subseteq|exact Hi].
Qed.

(** C23: the cache is bounded, and what it gives is the last answer of the tunnel,
    at most a minute old.  Whatever lookups begin and end, in any order and with
    any names, it never holds more than 8192 names; and a lookup served from it
    gives the addresses that a resolver inside the tunnel last gave for that name,
    no more than 60 seconds ago. *)
Theorem cache_fresh pushed override t0 r h now now' host ips :
  cache_reachable pushed override t0 (r, h, now) → now ≤ now' → ParseAddr host = None →
  (LookupIP_begin now' host r).2 = Some (Ok ips) →
  (size (rv_cache r) ≤ dnsCacheMaxEntries)%nat ∧ ips ≠ [] ∧
  ∃ t, latest h host t ips ∧ t ≤ now' ≤ t + dnsCacheTTL.
Proof.
  intros Hr Hn Hp Hb. assert (cache_inv (r, h, now)) as [Hs He].
  { remember (r, h, now) as w eqn:Hw. clear Hw. unfold cache_reachable in Hr.
    refine (rtc_ind_r cache_inv _ _ _ w Hr); [|by intros; eapply cache_step_inv]. split; cbn; [apply Nat.le_0_l|done]. }
  unfold LookupIP_begin in Hb. rewrite Hp in Hb. unfold cacheGet in Hb.
  destruct (rv_cache r !! host) as [e|] eqn:Hc; [|done]. destruct (Z.ltb_spec (ce_expires e) now'); [done|].
  injection Hb as <-. destruct (He host e Hc) as [? ? (t & Ht & ? & Hl)]. split_and!; [done|done|].
  exists t. split; [done|lia].
Qed.

(** ** A concrete run: a resolution, and a lookup half a minute later *)
Definition one_answer : nat → AddrPort → Z → bytes → option bytes :=
  λ _ _ _ query, Some (dns_reply query sample_flags [mkWrr ([], true) dnsTypeA (replicate 6 x00) (inr [x0a; x00; x00; x01])] (be_enc 4 0) []).
Definition sample_run := run (text "a") (λ _ _, Some 7) one_answer (λ _, [dnsTypeA]) true false.
Definition resolver0 : resolver := newResolver [] (mkAddrPort AddrZero 0).
Definition resolver1 : resolver :=
  lookup_effect 5 [] (text "a") [publicDNSFallback] false (FromTunnel [Addr4 0x0a000001]) resolver0.

Lemma cache_fresh_witness :
  (LookupIP_begin (30 * Second) (text "a") resolver1).2 = Some (Ok [Addr4 0x0a000001]) ∧
  (size (rv_cache resolver1) ≤ dnsCacheMaxEntries)%nat.
Proof.
  assert ((LookupIP_begin (30 * Second) (text "a") resolver1).2 = Some (Ok [Addr4 0x0a000001])) as Hb
    by (vm_compute; reflexivity).
  split; [exact Hb|]. refine (proj1 (cache_fresh [] (mkAddrPort AddrZero 0) 0 resolver1 [(5, text "a", [Addr4 0x0a000001])]
    5 (30 * Second) (text "a") [Addr4 0x0a000001] _ _ _ Hb)); [|done|vm_compute; reflexivity].
  apply rtc_once. eapply (ck_end 0 5 [] (text "a") (λ _ _, Some 7) one_answer (λ _, [dnsTypeA]) true false None
    [publicDNSFallback] false (FromTunnel [Addr4 0x0a000001]) resolver0 []); [done| |vm_compute; reflexivity].
  intros k. split; [by intros ?%elem_of_nil|]. by intros [e He].
Defined.
