(* ===== verification/Socks.v ===== *)
(** The SOCKS5 side of the proxy ([cmd/openvpn2socks/socks5.go], [socks5_tcp.go]):
    greeting and authentication, the request, the reply, and the decisions of
    CONNECT.  A connection is the bytes the client still sends, and whether the
    [k]-th write to it succeeds; what is written comes back in order. *)
From S2P Require Import Prelude Text Netip Resolver.
Local Open Scope Z_scope.

Definition socksVer : byte := x05.
Definition authVer : byte := x01.
Definition authNone : byte := x00.
Definition authUserPass : byte := x02.
Definition authNoAcc : byte := xff.
Definition cmdConnect : byte := x01.
Definition cmdBind : byte := x02.
Definition cmdAssociate : byte := x03.
Definition atypIPv4 : byte := x01.
Definition atypDomain : byte := x03.
Definition atypIPv6 : byte := x04.
Definition rsv : byte := x00.

Definition repSucceeded : byte := x00.
Definition repGeneralFailure : byte := x01.
Definition repNetworkUnreach : byte := x03.
Definition repHostUnreach : byte := x04.
Definition repConnRefused : byte := x05.
Definition repTTLExpired : byte := x06.
Definition repCmdNotSupported : byte := x07.

(** The credentials of the server; no user name, no authentication. *)
Record socks5Server := mkServer { sv_authUser : bytes; sv_authPass : bytes }.

Inductive socks_error : Type :=
  | SkShort                    (* the stream ended or timed out *)
  | SkWrite
  | SkVersion (v : byte)
  | SkZeroMethods
  | SkNoMethod (want : byte)
  | SkSubnegVersion (v : byte)
  | SkCredentials
  | SkATYP (t : byte).

(** [newSOCKS5]: the [user:pass] of the command line. *)
Definition newSOCKS5 (authSpec : bytes) : option socks5Server :=
  match authSpec with
  | [] => Some (mkServer [] [])
  | _ =>
      match Cut authSpec colon with
      | (_, _, false) => None
      | ([], _, true) => None
      | (u, p, true) => Some (mkServer u p)
      end
  end.

(** [io.ReadFull] of [n] bytes. *)
Definition ReadFull (n : nat) (s : bytes) : res socks_error (bytes * bytes) :=
  if (length s <? n)%nat then Err SkShort else Ok (take n s, drop n s).

(** [readByte]: a buffer of one byte. *)
Definition ReadByte (s : bytes) : res socks_error (byte * bytes) :=
  match s with [] => Err SkShort | b :: s' => Ok (b, s') end.

(** What is written, and what follows: the protocol steps write before they fail. *)
Definition reply (A : Type) : Type := list bytes * res socks_error A.

(** [subnegUserPass]; the comparison of the secrets is constant-time equality. *)
Definition subnegUserPass (sv : socks5Server) (up : bool) (s : bytes) : reply bytes :=
  match
    '(v, s) ← ReadByte s;
    '(ulen, s) ← ReadByte s;
    guard_err (negb (bool_decide (v = authVer))) (SkSubnegVersion v);;
    '(user, s) ← ReadFull (Z.to_nat (b2z ulen)) s;
    '(plen, s) ← ReadByte s;
    '(pass, s) ← ReadFull (Z.to_nat (b2z plen)) s;
    Ok (user, pass, s)
  with
  | Ok (user, pass, s) =>
      let ok := bool_decide (user = sv_authUser sv) && bool_decide (pass = sv_authPass sv) in
      ([[authVer; if ok then x00 else x01]],
       if negb up then Err SkWrite else if negb ok then Err SkCredentials else Ok s)
  | Err e => ([], Err e)
  | Panic => ([], Panic)
  end.

Definition greet (sv : socks5Server) (up : nat → bool) (s : bytes) : reply bytes :=
  match
    '(v, s) ← ReadByte s;
    '(n, s) ← ReadByte s;
    guard_err (negb (bool_decide (v = socksVer))) (SkVersion v);;
    guard_err (b2z n =? 0) SkZeroMethods;;
    ReadFull (Z.to_nat (b2z n)) s
  with
  | Ok (methods, s) =>
      let want := if bool_decide (sv_authUser sv = []) then authNone else authUserPass in
      if negb (bool_decide (want ∈ methods)) then ([[socksVer; authNoAcc]], Err (SkNoMethod want))
      else if negb (up 0%nat) then ([[socksVer; want]], Err SkWrite)
      else if bool_decide (want = authUserPass) then
        let '(out, r) := subnegUserPass sv (up 1%nat) s in ([socksVer; want] :: out, r)
      else ([[socksVer; want]], Ok s)
  | Err e => ([], Err e)
  | Panic => ([], Panic)
  end.

(** ** Requests *)

Record socksRequest := mkRequest { rq_cmd : byte; rq_atyp : byte; rq_host : bytes; rq_port : Z }.

Definition AddrFrom4 (b : bytes) : Addr := Addr4 (be_dec b).
Definition AddrFrom16 (b : bytes) : Addr := Addr6 (be_dec b) [].

Definition readHost (atyp : byte) (s : bytes) : res socks_error (bytes * bytes) :=
  if bool_decide (atyp = atypIPv4) then
    '(b, s) ← ReadFull 4 s; Ok (Addr_String (AddrFrom4 b), s)
  else if bool_decide (atyp = atypIPv6) then
    '(b, s) ← ReadFull 16 s; Ok (Addr_String (AddrFrom16 b), s)
  else if bool_decide (atyp = atypDomain) then
    '(l, s) ← ReadByte s; ReadFull (Z.to_nat (b2z l)) s
  else Err (SkATYP atyp).

Definition readRequest (s : bytes) : res socks_error (socksRequest * bytes) :=
  '(hdr, s) ← ReadFull 4 s;
  v ← index hdr 0;
  cmd ← index hdr 1;
  atyp ← index hdr 3;
  guard_err (negb (bool_decide (v = socksVer))) (SkVersion v);;
  '(host, s) ← readHost atyp s;
  '(p, s) ← ReadFull 2 s;
  Ok (mkRequest cmd atyp host (be_dec p), s).

Definition writeReply (rep : byte) (addr : Addr) (port : Z) : bytes :=
  match addr with
  | Addr4 v => [socksVer; rep; rsv; atypIPv4] ++ be_enc 4 v ++ be_enc 2 port
  | Addr6 v _ => [socksVer; rep; rsv; atypIPv6] ++ be_enc 16 v ++ be_enc 2 port
  | AddrZero => [socksVer; rep; rsv; atypIPv4] ++ [x00; x00; x00; x00] ++ be_enc 2 port
  end.
Definition failure (rep : byte) : bytes := writeReply rep (Addr4 0) 0.

(** ** A connection up to its command *)

Inductive action : Type :=
  | Hangup
  | HandleConnect (req : socksRequest)
  | HandleAssociate (req : socksRequest).

(** What is written, what is done and, for a command, the bytes not read yet. *)
Definition handle (sv : socks5Server) (up : nat → bool) (s : bytes) : list bytes * action * bytes :=
  match greet sv up s with
  | (out, Ok s) =>
      match readRequest s with
      | Ok (req, s) =>
          if bool_decide (rq_cmd req = cmdConnect) then (out, HandleConnect req, s)
          else if bool_decide (rq_cmd req = cmdAssociate) then (out, HandleAssociate req, s)
          else (out ++ [failure repCmdNotSupported], Hangup, s)
      | _ => (out ++ [failure repGeneralFailure], Hangup, s)
      end
  | (out, _) => (out, Hangup, s)
  end.

(** ** CONNECT *)

Inductive errno : Type := ECONNREFUSED | EHOSTUNREACH | ENETUNREACH | OtherErrno.

(** What [mapDialError] looks at in an error; its text is ASCII. *)
Record dialErr := mkDialErr {
  de_tunnelIPChanged : bool;
  de_ctx : bool;                (* context.DeadlineExceeded or context.Canceled *)
  de_osDeadline : bool;
  de_errno : option errno;
  de_timeout : bool;            (* a net.OpError that timed out *)
  de_text : bytes
}.

Definition mapDialError (e : dialErr) : byte :=
  if de_tunnelIPChanged e then repHostUnreach
  else if de_ctx e then repTTLExpired
  else if de_osDeadline e then repTTLExpired
  else
    match de_errno e with
    | Some ECONNREFUSED => repConnRefused
    | Some EHOSTUNREACH => repHostUnreach
    | Some ENETUNREACH => repNetworkUnreach
    | _ =>
        if de_timeout e then repTTLExpired
        else
          let msg := lower <$> de_text e in
          let says s := Contains msg (text s) in
          if says "refused" then repConnRefused
          else if says "no route" || says "host is unreachable" || says "unreachable host" || says "no such host"
               then repHostUnreach
          else if says "network is unreachable" || says "unreach" then repNetworkUnreach
          else if says "timed out" || says "deadline exceeded" || says "context canceled" then repTTLExpired
          else repGeneralFailure
    end.

(** The decisions up to the copying of bytes: the lookup, the address families of
    the tunnel, the limiter, the dial (the local address of the connection, or
    its error) and whether the reply could be written.  What is written, and the
    address whose connection is proxied. *)
Definition handleConnect (lookup : option (list Addr)) (hasV4 hasV6 : bool) (allow : Addr → bool)
    (dial : bytes → dialErr + Addr * Z) (up : bool) (req : socksRequest) : list bytes * option bytes :=
  match lookup with
  | None | Some [] => ([failure repHostUnreach], None)
  | Some ips =>
      match filterUsableIPs ips hasV4 hasV6 with
      | [] => ([failure repHostUnreach], None)
      | target :: _ =>
          if negb (allow target) then ([failure repConnRefused], None)
          else
            let addr := JoinHostPort (Addr_String target) (dec (rq_port req)) in
            match dial addr with
            | inl e => ([failure (mapDialError e)], None)
            | inr (bnd, port) => ([writeReply repSucceeded bnd port], if up then Some addr else None)
            end
      end
  end.

Example dial_errors :
  mapDialError (mkDialErr false false false None false (text "connect tcp: Connection Refused")) = repConnRefused ∧
  mapDialError (mkDialErr false false false (Some ENETUNREACH) false []) = repNetworkUnreach ∧
  mapDialError (mkDialErr false false false None false (text "host is unreachable")) = repHostUnreach ∧
  mapDialError (mkDialErr false true false (Some ECONNREFUSED) false []) = repTTLExpired ∧
  mapDialError (mkDialErr false false false None false (text "boom")) = repGeneralFailure.
Proof. by vm_compute. Qed.
