(* ===== verification/SocksFacts.v ===== *)
(** What a SOCKS5 client has to say to get a command through: exactly a greeting
    that offers the method of the server, its credentials if it has any, and a
    well-formed request. *)
From S2P Require Import Prelude Text Netip Resolver Socks.
Local Open Scope Z_scope.

(** ** Reading *)

Lemma ReadFull_Ok n s x rest : ReadFull n s = Ok (x, rest) ↔ length x = n ∧ s = x ++ rest.
Proof.
  unfold ReadFull. destruct (Nat.ltb_spec (length s) n) as [Hl|Hl].
  - split; [done|]. intros [<- ->]. rewrite length_app in Hl. lia.
  - split.
    + intros [= <- <-]. rewrite length_take, take_drop. split; [lia|done].
    + intros [<- ->]. by rewrite take_app_length, drop_app_length.
Qed.
Lemma ReadByte_Ok s b rest : ReadByte s = Ok (b, rest) ↔ s = b :: rest.
Proof. destruct s; cbn; naive_solver. Qed.

(** A byte that counts what follows. *)
Lemma ReadCounted s n x rest :
  (length x = Z.to_nat (b2z n) ∧ s = n :: x ++ rest) ↔ (zlen x < 256 ∧ n = z2b (zlen x) ∧ s = z2b (zlen x) :: x ++ rest).
Proof.
  pose proof (b2z_range n). unfold zlen. split.
  - intros [Hl ->]. assert (Z.of_nat (length x) = b2z n) as -> by lia. rewrite z2b_b2z. split; [lia|done].
  - intros (Hl & -> & ->). rewrite b2z_z2b, Z.mod_small by lia. split; [lia|done].
Qed.

(** ** What a client sends *)

Definition want (sv : socks5Server) : byte := if bool_decide (sv_authUser sv = []) then authNone else authUserPass.

Definition greeting (methods : bytes) : bytes := [socksVer; z2b (zlen methods)] ++ methods.
Definition credentials (user pass : bytes) : bytes :=
  [authVer; z2b (zlen user)] ++ user ++ [z2b (zlen pass)] ++ pass.

Inductive waddr : Type :=
  | WAddr4 (b : bytes)
  | WAddr6 (b : bytes)
  | WDomain (d : bytes).
Definition waddr_ok (a : waddr) : Prop :=
  match a with WAddr4 b => length b = 4%nat | WAddr6 b => length b = 16%nat | WDomain d => zlen d < 256 end.
Definition waddr_type (a : waddr) : byte :=
  match a with WAddr4 _ => atypIPv4 | WAddr6 _ => atypIPv6 | WDomain _ => atypDomain end.
Definition enc_waddr (a : waddr) : bytes :=
  match a with WAddr4 b => b | WAddr6 b => b | WDomain d => z2b (zlen d) :: d end.
Definition waddr_host (a : waddr) : bytes :=
  match a with
  | WAddr4 b => Addr_String (AddrFrom4 b)
  | WAddr6 b => Addr_String (AddrFrom16 b)
  | WDomain d => d
  end.

Lemma readHost_Ok t s host rest :
  readHost t s = Ok (host, rest) ↔
  ∃ a, waddr_ok a ∧ t = waddr_type a ∧ host = waddr_host a ∧ s = enc_waddr a ++ rest.
Proof.
  unfold readHost. split.
  - case_bool_decide as H4; [|case_bool_decide as H6; [|case_bool_decide as Hd; [|done]]].
    + intros ([b s'] & [Hb ->]%ReadFull_Ok & [= <- <-])%bind_Ok. by exists (WAddr4 b).
    + intros ([b s'] & [Hb ->]%ReadFull_Ok & [= <- <-])%bind_Ok. by exists (WAddr6 b).
    + intros ([l s'] & ->%ReadByte_Ok & [Hl ->]%ReadFull_Ok)%bind_Ok.
      destruct (proj1 (ReadCounted (l :: host ++ rest) l host rest) (conj Hl eq_refl)) as (? & -> & _). by exists (WDomain host).
  - intros (a & Hok & -> & -> & ->). destruct a as [b|b|d]; cbn [waddr_type waddr_ok enc_waddr waddr_host] in *.
    + apply bind_Ok. exists (b, rest). split; [by apply ReadFull_Ok|done].
    + apply bind_Ok. exists (b, rest). split; [by apply ReadFull_Ok|done].
    + apply bind_Ok. exists (z2b (zlen d), d ++ rest). split; [done|].
      apply ReadFull_Ok. split; [|done]. unfold zlen in *. rewrite b2z_z2b, Z.mod_small by lia. lia.
Qed.

(** A request on the wire and what the server makes of it. *)
Definition request_wire (req : socksRequest) (w : bytes) : Prop :=
  ∃ r a p, waddr_ok a ∧ length p = 2%nat ∧ w = [socksVer; rq_cmd req; r; rq_atyp req] ++ enc_waddr a ++ p ∧
    rq_atyp req = waddr_type a ∧ rq_host req = waddr_host a ∧ rq_port req = be_dec p.

Lemma readRequest_Ok s req rest : readRequest s = Ok (req, rest) ↔ ∃ w, request_wire req w ∧ s = w ++ rest.
Proof.
  unfold readRequest. split.
  - intros ([hdr s'] & [Hh ->]%ReadFull_Ok & H)%bind_Ok.
    destruct hdr as [|v [|cmd [|r [|t [|]]]]]; try done. cbn [index lookup list_lookup mbind res_bind] in H.
    apply bind_Ok in H as ([] & Hv%guard_Ok & H). apply negb_false_iff, bool_decide_eq_true in Hv as ->.
    apply bind_Ok in H as ([host s2] & (a & Hok & -> & -> & ->)%readHost_Ok & H).
    apply bind_Ok in H as ([p s3] & [Hp ->]%ReadFull_Ok & [= <- <-]).
    exists ([socksVer; cmd; r; waddr_type a] ++ enc_waddr a ++ p). split; [by exists r, a, p|].
    cbn [app]. by rewrite <-app_assoc.
  - intros (w & (r & a & p & Hok & Hp & -> & Ht & Hh & Hport) & ->). rewrite <-!app_assoc.
    apply bind_Ok. exists ([socksVer; rq_cmd req; r; rq_atyp req], enc_waddr a ++ p ++ rest).
    split; [by apply ReadFull_Ok|]. cbn [index lookup list_lookup mbind res_bind].
    rewrite guard_pass by (by rewrite bool_decide_eq_true_2). bind. apply bind_Ok.
    exists (waddr_host a, p ++ rest). split; [apply readHost_Ok; by exists a|].
    apply bind_Ok. exists (p, rest). split; [by apply ReadFull_Ok|]. destruct req. cbn in *. by subst.
Qed.

(** ** Getting through *)

(** What precedes the request: the greeting, and the credentials if asked for. *)
Definition admitted (sv : socks5Server) (up : nat → bool) (s : bytes) : Prop :=
  ∃ methods, 0 < zlen methods < 256 ∧ want sv ∈ methods ∧ up 0%nat = true ∧
    if bool_decide (want sv = authUserPass)
    then up 1%nat = true ∧ zlen (sv_authUser sv) < 256 ∧ zlen (sv_authPass sv) < 256 ∧
         s = greeting methods ++ credentials (sv_authUser sv) (sv_authPass sv)
    else s = greeting methods.

(** What the server writes to a client it lets in. *)
Definition welcome (sv : socks5Server) : list bytes :=
  [socksVer; want sv] :: if bool_decide (want sv = authUserPass) then [[authVer; x00]] else [].

Lemma subneg_Ok sv up s out rest :
  subnegUserPass sv up s = (out, Ok rest) ↔
  out = [[authVer; x00]] ∧ up = true ∧ zlen (sv_authUser sv) < 256 ∧ zlen (sv_authPass sv) < 256 ∧
  s = credentials (sv_authUser sv) (sv_authPass sv) ++ rest.
Proof.
  unfold subnegUserPass. split.
  - destruct (_ ≫= _) as [[[user pass] s']|e|] eqn:Hr; [|done..].
    apply bind_Ok in Hr as ([v s1] & ->%ReadByte_Ok & Hr). apply bind_Ok in Hr as ([ulen s2] & ->%ReadByte_Ok & Hr).
    apply bind_Ok in Hr as ([] & Hv%guard_Ok & Hr). apply negb_false_iff, bool_decide_eq_true in Hv as ->.
    apply bind_Ok in Hr as ([u s3] & [Hu ->]%ReadFull_Ok & Hr). apply bind_Ok in Hr as ([plen s4] & ->%ReadByte_Ok & Hr).
    apply bind_Ok in Hr as ([p s5] & [Hp ->]%ReadFull_Ok & [= <- <- <-]).
    destruct up; cbn [negb]; [|done]. case_bool_decide as Eu; cbn [andb negb]; [|done].
    case_bool_decide as Ep; cbn [negb]; [|done]. subst u p. intros [= <- <-].
    destruct (proj1 (ReadCounted (plen :: sv_authPass sv ++ s5) plen _ s5) (conj Hp eq_refl)) as (? & -> & _).
    destruct (proj1 (ReadCounted (ulen :: sv_authUser sv ++ []) ulen _ []) (conj Hu eq_refl)) as (? & -> & _).
    split_and!; try done. unfold credentials. cbn [app]. by rewrite <-!app_assoc.
  - intros (-> & -> & Hu & Hp & ->). unfold credentials. cbn [app]. rewrite <-!app_assoc. cbn [app].
    do 2 (cbn [ReadByte]; bind).
    pass_by ltac:(by rewrite bool_decide_eq_true_2).
    assert (∀ x (r : bytes), zlen x < 256 → ReadFull (Z.to_nat (b2z (z2b (zlen x)))) (x ++ r) = Ok (x, r)) as Hread.
    { intros x r Hx. apply ReadFull_Ok. split; [|done]. unfold zlen in *. rewrite b2z_z2b, Z.mod_small by lia. lia. }
    rewrite Hread by done. bind. cbn [ReadByte]. bind. rewrite Hread by done. bind.
    by rewrite !bool_decide_eq_true_2.
Qed.

Lemma greet_Ok sv up s out rest :
  greet sv up s = (out, Ok rest) ↔ out = welcome sv ∧ ∃ pre, admitted sv up pre ∧ s = pre ++ rest.
Proof.
  unfold greet, welcome, admitted. fold (want sv). split.
  - destruct (_ ≫= _) as [[methods s']|e|] eqn:Hr; [|done..].
    apply bind_Ok in Hr as ([v s1] & ->%ReadByte_Ok & Hr). apply bind_Ok in Hr as ([n s2] & ->%ReadByte_Ok & Hr).
    apply bind_Ok in Hr as ([] & Hv%guard_Ok & Hr). apply negb_false_iff, bool_decide_eq_true in Hv as ->.
    apply bind_Ok in Hr as ([] & Hn%guard_Ok & [Hm ->]%ReadFull_Ok). apply Z.eqb_neq in Hn. pose proof (b2z_range n).
    destruct (proj1 (ReadCounted (n :: methods ++ s') n methods s') (conj Hm eq_refl)) as (Hlt & -> & _).
    case_bool_decide as Hw; cbn [negb]; [|done]. destruct (up 0%nat); cbn [negb]; [|done].
    assert (0 < zlen methods) by (unfold zlen; lia).
    case_bool_decide as Ha.
    + destruct (subnegUserPass sv (up 1%nat) s') as [o r] eqn:Hs. intros [= <- ->].
      apply subneg_Ok in Hs as (-> & ? & ? & ? & ->). split; [done|].
      exists (greeting methods ++ credentials (sv_authUser sv) (sv_authPass sv)).
      split; [by exists methods|]. cbn [greeting app]. by rewrite <-app_assoc.
    + intros [= <- <-]. split; [done|]. exists (greeting methods). by split; [exists methods|].
  - intros (-> & pre & (methods & Hm & Hw & Hup & Hpre) & ->).
    assert (∃ body, pre ++ rest = socksVer :: z2b (zlen methods) :: methods ++ body ∧
      if bool_decide (want sv = authUserPass)
      then subnegUserPass sv (up 1%nat) body = ([[authVer; x00]], Ok rest) else body = rest) as (body & -> & Hbody).
    { case_bool_decide; [|subst pre; by exists rest]. destruct Hpre as (? & ? & ? & ->).
      exists (credentials (sv_authUser sv) (sv_authPass sv) ++ rest). rewrite <-app_assoc. split; [done|]. by apply subneg_Ok. }
    do 2 (cbn [ReadByte]; bind). pass_by ltac:(by rewrite bool_decide_eq_true_2).
    assert (b2z (z2b (zlen methods)) = zlen methods) as -> by (rewrite b2z_z2b, Z.mod_small by lia; done).
    pass_by ltac:(apply Z.eqb_neq; lia).
    assert (ReadFull (Z.to_nat (zlen methods)) (methods ++ body) = Ok (methods, body)) as ->
      by (apply ReadFull_Ok; split; [unfold zlen; lia|done]).
    rewrite bool_decide_eq_true_2, Hup by done. cbn [negb]. case_bool_decide; [by rewrite Hbody|by subst body].
Qed.

(** A command gets through exactly for a client that says the right things.
    The server hands a CONNECT or UDP ASSOCIATE on precisely when the client has
    sent a greeting with the method of the server, the configured user name and
    password if there is one, byte for byte, and a well-formed request; it has
    then answered the greeting and the credentials and nothing else, the request
    is the one sent, and the bytes after it are still to be read. *)
Theorem socks_admission sv up s out act req rest :
  act = HandleConnect req ∨ act = HandleAssociate req →
  handle sv up s = (out, act, rest) ↔
  out = welcome sv ∧
  (∃ pre w, admitted sv up pre ∧ request_wire req w ∧ s = pre ++ w ++ rest) ∧
  rq_cmd req = match act with HandleConnect _ => cmdConnect | _ => cmdAssociate end.
Proof.
  intros Hact. unfold handle. split.
  - destruct (greet sv up s) as [o [s1|e|]] eqn:Hg; [|destruct Hact; subst; done..].
    apply greet_Ok in Hg as (-> & pre & Hpre & ->).
    destruct (readRequest s1) as [[req' s2]|e|] eqn:Hr; [|destruct Hact; subst; done..].
    apply readRequest_Ok in Hr as (w & Hw & ->).
    case_bool_decide as Hc; [|case_bool_decide as Ha; [|destruct Hact; subst; done]].
    + intros [= <- <- <-]. destruct Hact as [[= <-]|[=]]. split_and!; [done| |done]. by exists pre, w.
    + intros [= <- <- <-]. destruct Hact as [[=]|[= <-]]. split_and!; [done| |done]. by exists pre, w.
  - intros (-> & (pre & w & Hpre & Hw & ->) & Hc).
    assert (greet sv up (pre ++ w ++ rest) = (welcome sv, Ok (w ++ rest))) as ->
      by (apply greet_Ok; split; [done|by exists pre]).
    assert (readRequest (w ++ rest) = Ok (req, rest)) as -> by (apply readRequest_Ok; by exists w).
    by destruct Hact; subst act; rewrite Hc.
Qed.

(** A client with credentials, asking for a name. *)
Definition sample_server : socks5Server := mkServer (text "u") (text "pw").
Definition sample_stream : bytes :=
  greeting [x00; x02] ++ credentials (text "u") (text "pw") ++
  [x05; x01; x00; x03; x02; x65; x78; x01; xbb] ++ text "GET".
Definition sample_request : socksRequest := mkRequest cmdConnect atypDomain (text "ex") 443.

Lemma socks_admission_witness :
  handle sample_server (λ _, true) sample_stream = ([[x05; x02]; [x01; x00]], HandleConnect sample_request, text "GET") ∧
  newSOCKS5 (text "u:pw") = Some sample_server.
Proof.
  split; [|vm_compute; reflexivity].
  apply (socks_admission sample_server (λ _, true) sample_stream [[x05; x02]; [x01; x00]] (HandleConnect sample_request)
    sample_request (text "GET")); [by left|].
  split_and!; [vm_compute; reflexivity| |reflexivity].
  exists (greeting [x00; x02] ++ credentials (text "u") (text "pw")), [x05; x01; x00; x03; x02; x65; x78; x01; xbb].
  split_and!; [| |vm_compute; reflexivity].
  - exists [x00; x02]. split_and!; [done|done| |done|]; [apply (bool_decide_unpack _); vm_compute; exact I|].
    by split_and!.
  - exists x00, (WDomain (text "ex")), [x01; xbb]. by split_and!.
Defined.
