(* ===== verification/SocksUdp.v ===== *)
(** UDP ASSOCIATE ([cmd/openvpn2socks/socks5_udp.go]): the header of the wrapped
    datagrams, the check of their source, and the relays of one association.  The
    manager is shared by the loop that reads the client, one reader per relay and
    [closeAll]; each operation is cut where the code releases its lock to dial,
    to close a connection or to wait.  Connections are numbered as they open. *)
From stdpp Require Import gmap.
From S2P Require Import Prelude Text Netip Dns Resolver Socks.
Local Open Scope Z_scope.

(** ** The header *)

Inductive udp_error : Type :=
  | UdpShort
  | UdpFragment (f : byte)
  | UdpTruncated
  | UdpATYP (t : byte).

(** The destination, by its type, and the position after it. *)
Definition udp_address (atyp : byte) (b : bytes) : res udp_error (bytes * nat) :=
  if bool_decide (atyp = atypIPv4) then
    guard_err (length b <? 4 + 4 + 2)%nat UdpTruncated;;
    a ← slice b 4 8;
    Ok (Addr_String (AddrFrom4 a), 8%nat)
  else if bool_decide (atyp = atypIPv6) then
    guard_err (length b <? 4 + 16 + 2)%nat UdpTruncated;;
    a ← slice b 4 20;
    Ok (Addr_String (AddrFrom16 a), 20%nat)
  else if bool_decide (atyp = atypDomain) then
    guard_err (length b <? 4 + 1)%nat UdpTruncated;;
    l ← index b 4;
    let l := Z.to_nat (b2z l) in
    guard_err (length b <? 5 + l + 2)%nat UdpTruncated;;
    d ← slice b 5 (5 + l);
    Ok (d, (5 + l)%nat)
  else Err (UdpATYP atyp).

Definition parseUDPRequest (b : bytes) : res udp_error (bytes * Z * bytes) :=
  guard_err (length b <? 4)%nat UdpShort;;
  frag ← index b 2;
  guard_err (negb (b2z frag =? 0)) (UdpFragment frag);;
  atyp ← index b 3;
  '(host, pos) ← udp_address atyp b;
  p ← slice b pos (pos + 2);
  payload ← slice b (pos + 2) (length b);
  Ok (host, be_dec p, payload).

Definition buildUDPReply (dstHost : bytes) (dstPort : Z) (data : bytes) : bytes :=
  [x00; x00; x00] ++
  match ParseAddr dstHost with
  | Some (Addr4 v) => atypIPv4 :: be_enc 4 v
  | Some (Addr6 v _) => atypIPv6 :: be_enc 16 v
  | Some AddrZero => []
  | None => let h := take 255 dstHost in [atypDomain; z2b (zlen h)] ++ h
  end ++ be_enc 2 dstPort ++ data.

(** ** Sources *)

(** [net.UDPAddr]. *)
Record UDPAddr := mkUDPAddr { ua_IP : bytes; ua_Port : Z }.

Definition AddrFromSlice (b : bytes) : option Addr :=
  if (length b =? 4)%nat then Some (AddrFrom4 b)
  else if (length b =? 16)%nat then Some (AddrFrom16 b) else None.

(** [net.IP.Equal]: an IPv4 address equals its mapped form. *)
Definition v4InV6Prefix : bytes := replicate 10 x00 ++ [xff; xff].
Definition IP_Equal (x y : bytes) : bool :=
  if (length x =? length y)%nat then bool_decide (x = y)
  else if (length x =? 4)%nat && (length y =? 16)%nat
       then bool_decide (take 12 y = v4InV6Prefix) && bool_decide (x = drop 12 y)
  else if (length x =? 16)%nat && (length y =? 4)%nat
       then bool_decide (take 12 x = v4InV6Prefix) && bool_decide (y = drop 12 x)
  else false.

Definition tcpRemoteIP (ip : option bytes) : Addr :=
  match ip with
  | Some b => match AddrFromSlice b with Some a => Unmap a | None => AddrZero end
  | None => AddrZero
  end.

Definition parseHostAsIP (host : bytes) : option Addr :=
  match host with
  | [] => None
  | _ => match ParseAddr host with Some a => Some (Unmap a) | None => None end
  end.

(** What the request tells of the source ([handleAssociate]). *)
Definition expected_source (ctrl : Addr) (req : socksRequest) : Addr * Z :=
  (match parseHostAsIP (rq_host req) with
   | Some ip => if IsUnspecified ip then ctrl else ip
   | None => ctrl
   end, rq_port req).

(** ** The manager *)

Record udpRelay := mkRelay { rl_conn : nat; rl_host : bytes; rl_port : Z; rl_client : UDPAddr }.

#[export] Instance UDPAddr_eq_dec : EqDecision UDPAddr.
Proof. solve_decision. Defined.
#[export] Instance udpRelay_eq_dec : EqDecision udpRelay.
Proof. solve_decision. Defined.

(** The loop that reads the client: it waits for a datagram, resolves the name of
    a new flow, dials it, or is gone. *)
Record flow := mkFlow { fl_key : bytes; fl_host : bytes; fl_port : Z; fl_client : UDPAddr; fl_payload : bytes }.
Inductive pump : Type :=
  | Reading
  | Resolving (f : flow)
  | Connecting (f : flow) (target : bytes)
  | Stopped.

Inductive closing : Type :=
  | Open
  | Closing (targets : list nat)   (* snapshot taken, to be closed *)
  | Waiting                        (* for the goroutines *)
  | Closed.

Record udpRelayMgr := mkMgr {
  m_expectedIP : Addr;
  m_expectedPort : Z;
  m_client : option UDPAddr;
  m_relays : option (gmap bytes udpRelay);   (* [None] is the nil map *)
  m_closing : closing;                       (* [closed] unless [Open] *)
  m_pump : pump;
  m_readers : list (bytes * udpRelay);       (* pumpTunnelToClient: its key and relay *)
  m_opened : nat;
  m_dialled : list bytes;                    (* the address each of them was dialled at *)
  m_shut : gset nat
}.

Definition newUDPRelayMgr (expectedIP : Addr) (expectedPort : Z) : udpRelayMgr :=
  mkMgr expectedIP expectedPort None (Some ∅) Open Reading [] 0 [] ∅.

Definition set_client v m := mkMgr (m_expectedIP m) (m_expectedPort m) v (m_relays m) (m_closing m) (m_pump m)
  (m_readers m) (m_opened m) (m_dialled m) (m_shut m).
Definition set_relays v m := mkMgr (m_expectedIP m) (m_expectedPort m) (m_client m) v (m_closing m) (m_pump m)
  (m_readers m) (m_opened m) (m_dialled m) (m_shut m).
Definition set_closing v m := mkMgr (m_expectedIP m) (m_expectedPort m) (m_client m) (m_relays m) v (m_pump m)
  (m_readers m) (m_opened m) (m_dialled m) (m_shut m).
Definition set_pump v m := mkMgr (m_expectedIP m) (m_expectedPort m) (m_client m) (m_relays m) (m_closing m) v
  (m_readers m) (m_opened m) (m_dialled m) (m_shut m).
Definition set_readers v m := mkMgr (m_expectedIP m) (m_expectedPort m) (m_client m) (m_relays m) (m_closing m) (m_pump m)
  v (m_opened m) (m_dialled m) (m_shut m).
Definition set_opened v m := mkMgr (m_expectedIP m) (m_expectedPort m) (m_client m) (m_relays m) (m_closing m) (m_pump m)
  (m_readers m) v (m_dialled m) (m_shut m).
Definition set_shut v m := mkMgr (m_expectedIP m) (m_expectedPort m) (m_client m) (m_relays m) (m_closing m) (m_pump m)
  (m_readers m) (m_opened m) (m_dialled m) v.
Definition set_dialled v m := mkMgr (m_expectedIP m) (m_expectedPort m) (m_client m) (m_relays m) (m_closing m) (m_pump m)
  (m_readers m) (m_opened m) v (m_shut m).

Definition closed (m : udpRelayMgr) : bool := match m_closing m with Open => false | _ => true end.

Definition authorise (src : UDPAddr) (m : udpRelayMgr) : udpRelayMgr * option UDPAddr :=
  match AddrFromSlice (ua_IP src) with
  | None => (m, None)
  | Some ip =>
      if IsValid (m_expectedIP m) && negb (bool_decide (Unmap ip = m_expectedIP m)) then (m, None)
      else if negb (m_expectedPort m =? 0) && negb (u16 (ua_Port src) =? m_expectedPort m) then (m, None)
      else
        match m_client m with
        | None => (set_client (Some src) m, Some src)
        | Some c => if IP_Equal (ua_IP c) (ua_IP src) && (ua_Port c =? ua_Port src) then (m, Some c) else (m, None)
        end
  end.

Definition lookupRelay (key : bytes) (m : udpRelayMgr) : option udpRelay := rs ← m_relays m; rs !! key.

(** What is written to a target. *)
Definition forward : Type := option (nat * bytes).

(** A datagram of the client, up to the write or the resolution of a new flow. *)
Definition client_datagram (src : UDPAddr) (data : bytes) (m : udpRelayMgr) : udpRelayMgr * forward :=
  match authorise src m with
  | (m, None) => (m, None)
  | (m, Some client) =>
      match parseUDPRequest data with
      | Ok (host, port, payload) =>
          let key := JoinHostPort host (dec port) in
          match lookupRelay key m with
          | Some r => (m, Some (rl_conn r, payload))
          | None => (set_pump (Resolving (mkFlow key host port client payload)) m, None)
          end
      | _ => (m, None)
      end
  end.

(** [createRelay] before the dial: the address of the target, if it is to be
    dialled. *)
Definition createRelay (lookup : option (list Addr)) (hasV4 hasV6 : bool) (allow : Addr → bool) (port : Z) : option bytes :=
  match lookup with
  | None => None
  | Some ips =>
      match filterUsableIPs ips hasV4 hasV6 with
      | [] => None
      | ip :: _ => if allow ip then Some (JoinHostPort (Addr_String ip) (dec port)) else None
      end
  end.

(** The end of the resolution, and [getOrCreate] up to its dial. *)
Definition flow_resolved (target : option bytes) (m : udpRelayMgr) : udpRelayMgr * forward :=
  match m_pump m with
  | Resolving f =>
      match target with
      | None => (set_pump Reading m, None)
      | Some t =>
          if closed m then (set_pump Stopped m, None)
          else
            match lookupRelay (fl_key f) m with
            | Some r => (set_pump Reading m, Some (rl_conn r, fl_payload f))
            | None => (set_pump (Connecting f t) m, None)
            end
      end
  | _ => (m, None)
  end.

(** [getOrCreate] after its dial, and the first write. *)
Definition flow_dialled (ok : bool) (m : udpRelayMgr) : res udp_error (udpRelayMgr * forward) :=
  match m_pump m with
  | Connecting f t =>
      if negb ok then Ok (set_pump Reading m, None)
      else
        let conn := m_opened m in
        let m := set_dialled (m_dialled m ++ [t]) (set_opened (S conn) m) in
        if closed m then Ok (set_pump Stopped (set_shut ({[conn]} ∪ m_shut m) m), None)
        else
          match m_relays m with
          | None => Panic                        (* a write to the nil map *)
          | Some rs =>
              let r := mkRelay conn (fl_host f) (fl_port f) (fl_client f) in
              Ok (set_pump Reading (set_readers (m_readers m ++ [(fl_key f, r)])
                    (set_relays (Some (<[fl_key f := r]> rs)) m)), Some (conn, fl_payload f))
          end
  | _ => Ok (m, None)
  end.

(** The loop ends when its context does, between two datagrams. *)
Definition pump_stop (m : udpRelayMgr) : udpRelayMgr := match m_pump m with Reading => set_pump Stopped m | _ => m end.

(** [removeRelay], at the end of a reader. *)
Definition removeRelay (key : bytes) (m : udpRelayMgr) : udpRelayMgr :=
  match m_relays m with
  | Some rs =>
      match rs !! key with
      | Some r => set_shut ({[rl_conn r]} ∪ m_shut m) (set_relays (Some (delete key rs)) m)
      | None => m
      end
  | None => m
  end.
(** The [i]-th reader ends. *)
Definition reader_exit (i : nat) (m : udpRelayMgr) : udpRelayMgr :=
  match m_readers m !! i with
  | Some (key, _) => let m := removeRelay key m in set_readers (delete i (m_readers m)) m
  | None => m
  end.

(** A reader has a datagram of its target: what is written, and to whom. *)
Definition target_reply (r : udpRelay) (data : bytes) (m : udpRelayMgr) : option (UDPAddr * bytes) :=
  client ← m_client m;
  Some (client, buildUDPReply (rl_host r) (rl_port r) data).

Definition closeAll_begin (m : udpRelayMgr) : udpRelayMgr :=
  match m_closing m with
  | Open => set_closing (Closing (match m_relays m with Some rs => (λ kr, rl_conn kr.2) <$> map_to_list rs | None => [] end)) m
  | _ => m
  end.
Definition closeAll_close (m : udpRelayMgr) : udpRelayMgr :=
  match m_closing m with
  | Closing targets => set_closing Waiting (set_shut (list_to_set targets ∪ m_shut m) m)
  | _ => m
  end.
(** Once every goroutine has returned. *)
Definition closeAll_end (m : udpRelayMgr) : udpRelayMgr :=
  match m_closing m, m_pump m with
  | Waiting, Stopped => if bool_decide (m_readers m = []) then set_closing Closed (set_relays None m) else m
  | _, _ => m
  end.

Example datagrams :
  parseUDPRequest [x00; x00; x00; x03; x02; x65; x78; x00; x35; x61] = Ok (text "ex", 53, text "a") ∧
  parseUDPRequest [x00; x00; x01; x01] = Err (UdpFragment x01) ∧
  parseUDPRequest [x00; x00; x00; x03; x09; x65; x78; x00] = Err UdpTruncated ∧
  buildUDPReply (text "10.0.0.1") 53 (text "a") = [x00; x00; x00; x01; x0a; x00; x00; x01; x00; x35; x61] ∧
  buildUDPReply (text "ex") 53 (text "a") = [x00; x00; x00; x03; x02; x65; x78; x00; x35; x61] ∧
  expected_source (Addr4 1) (mkRequest x03 x01 (text "0.0.0.0") 0) = (Addr4 1, 0).
Proof. by vm_compute. Qed.
