(* ===== verification/SocksUdpFacts.v ===== *)
(** What holds of UDP ASSOCIATE: the header is read as it is written, datagrams go
    through for one source only, each over the relay of its own destination, and
    when an association is closed no connection of it is left. *)
From stdpp Require Import gmap.
From S2P Require Import Prelude Text Netip Dns Resolver Socks SocksFacts SocksUdp.
Local Open Scope Z_scope.

(** ** The header *)

(** A wrapped datagram: the two reserved bytes may be anything. *)
Definition wrapped (r1 r2 : byte) (a : waddr) (port data : bytes) : bytes :=
  [r1; r2; x00; waddr_type a] ++ enc_waddr a ++ port ++ data.

(** The destination is read as it is written, and only so. *)
Lemma udp_address_Ok r1 r2 a port data :
  waddr_ok a → length port = 2%nat →
  udp_address (waddr_type a) (wrapped r1 r2 a port data) = Ok (waddr_host a, (4 + length (enc_waddr a))%nat).
Proof.
  intros Ha Hp. set (b := wrapped r1 r2 a port data).
  assert (length b = 4 + length (enc_waddr a) + 2 + length data)%nat as Hlen
    by (unfold b, wrapped; rewrite !length_app, Hp; cbn [length]; lia).
  assert (∀ pre d, b = pre ++ d ++ port ++ data → slice (E:=udp_error) b (length pre) (length pre + length d) = Ok d) as Hs
    by (intros pre d ->; by apply slice_app).
  unfold udp_address. destruct a as [v|v|d]; cbn [waddr_ok waddr_type waddr_host enc_waddr] in *.
  - rewrite bool_decide_eq_true_2 by done. pass_by ltac:(apply Nat.ltb_ge; lia).
    specialize (Hs [r1; r2; x00; atypIPv4] v eq_refl). rewrite Ha in *. cbn [length Nat.add] in Hs. by rewrite Hs.
  - rewrite bool_decide_eq_false_2, bool_decide_eq_true_2 by done. pass_by ltac:(apply Nat.ltb_ge; lia).
    specialize (Hs [r1; r2; x00; atypIPv6] v eq_refl). rewrite Ha in *. cbn [length Nat.add] in Hs. by rewrite Hs.
  - rewrite !bool_decide_eq_false_2, bool_decide_eq_true_2 by done. cbn [length] in Hlen. pass_by ltac:(apply Nat.ltb_ge; lia).
    change (index b 4) with (@Ok udp_error _ (z2b (zlen d))). bind. cbv zeta.
    assert (Z.to_nat (b2z (z2b (zlen d))) = length d) as -> by (unfold zlen in *; rewrite b2z_z2b, Z.mod_small by lia; lia).
    pass_by ltac:(apply Nat.ltb_ge; lia).
    specialize (Hs [r1; r2; x00; atypDomain; z2b (zlen d)] d eq_refl). cbn [length] in Hs. by rewrite Hs.
Qed.

Lemma udp_address_inv r1 r2 t b host pos :
  udp_address t (r1 :: r2 :: x00 :: t :: b) = Ok (host, pos) →
  ∃ a, waddr_ok a ∧ t = waddr_type a ∧ host = waddr_host a ∧ (4 ≤ pos)%nat ∧ take (pos - 4) b = enc_waddr a.
Proof.
  unfold udp_address. intros Hh. case_bool_decide as H4; [|case_bool_decide as H6; [|case_bool_decide as Hd; [|done]]].
  - apply bind_Ok in Hh as ([] & Hl%guard_Ok & Hh). apply bind_Ok in Hh as (v & Hv & [= <- <-]).
    pose proof (length_slice _ _ _ _ Hv) as Hlv. apply slice_Ok_inv in Hv as [_ Hv]. exists (WAddr4 v). split_and!; try done; lia.
  - apply bind_Ok in Hh as ([] & Hl%guard_Ok & Hh). apply bind_Ok in Hh as (v & Hv & [= <- <-]).
    pose proof (length_slice _ _ _ _ Hv) as Hlv. apply slice_Ok_inv in Hv as [_ Hv]. exists (WAddr6 v). split_and!; try done; lia.
  - apply bind_Ok in Hh as ([] & Hl%guard_Ok & Hh). apply bind_Ok in Hh as (l & Hi & Hh). cbv zeta in Hh.
    apply bind_Ok in Hh as ([] & Hl2%guard_Ok & Hh). apply bind_Ok in Hh as (d & Hd' & [= <- <-]).
    pose proof (length_slice _ _ _ _ Hd') as Hld. apply slice_Ok_inv in Hd' as [_ Hd'].
    destruct b as [|l' b]; [done|]. cbn in Hi. injection Hi as ->. pose proof (b2z_range l).
    exists (WDomain d). unfold waddr_ok, enc_waddr, zlen. split_and!; try done; [lia..|].
    assert (length d = Z.to_nat (b2z l)) as Hn by lia. assert (Z.of_nat (length d) = b2z l) as -> by lia.
    rewrite z2b_b2z. replace (S (S (S (S (S (Z.to_nat (b2z l)))))) - 4)%nat with (S (Z.to_nat (b2z l))) by lia.
    cbn [take]. f_equal. rewrite Hd'. by replace (5 + Z.to_nat (b2z l) - 5)%nat with (Z.to_nat (b2z l)) by lia.
Qed.

Lemma parse_wrapped r1 r2 a port data :
  waddr_ok a → length port = 2%nat →
  parseUDPRequest (wrapped r1 r2 a port data) = Ok (waddr_host a, be_dec port, data).
Proof.
  intros Ha Hp. unfold parseUDPRequest. pass_by ltac:(apply Nat.ltb_ge; unfold wrapped; rewrite length_app; cbn [length]; lia).
  change (index (wrapped r1 r2 a port data) 2) with (@Ok udp_error _ x00). bind. pass_by ltac:(done).
  change (index (wrapped r1 r2 a port data) 3) with (@Ok udp_error _ (waddr_type a)). bind.
  rewrite udp_address_Ok by done. bind. set (pre := [r1; r2; x00; waddr_type a] ++ enc_waddr a).
  assert (wrapped r1 r2 a port data = pre ++ port ++ data) as -> by (unfold pre; by rewrite <-app_assoc).
  replace (4 + length (enc_waddr a))%nat with (length pre) by (by unfold pre; rewrite length_app).
  rewrite (slice_app pre port data _ _ eq_refl) by (by rewrite Hp). bind.
  rewrite app_assoc, slice_to_end; [done|by rewrite length_app, Hp|by rewrite !length_app].
Qed.

(** Nothing else is read. *)
Lemma parse_inv b host port payload :
  parseUDPRequest b = Ok (host, port, payload) →
  ∃ r1 r2 a p, waddr_ok a ∧ length p = 2%nat ∧ b = wrapped r1 r2 a p payload ∧ host = waddr_host a ∧ port = be_dec p.
Proof.
  unfold parseUDPRequest. intros ([] & Hl%guard_Ok & H)%bind_Ok. apply Nat.ltb_ge in Hl.
  destruct b as [|r1 [|r2 [|f [|t b]]]]; cbn [length] in Hl; try lia. clear Hl.
  cbn [index lookup list_lookup mbind res_bind] in H. apply bind_Ok in H as ([] & Hf%guard_Ok & H).
  assert (f = x00) as ->.
  { apply negb_false_iff, Z.eqb_eq in Hf. by apply b2z_inj. }
  apply bind_Ok in H as ([h pos] & Hh & H). apply bind_Ok in H as (p & Hp & H).
  apply bind_Ok in H as (pl & Hpl & [= <- <- <-]).
  assert (length p = 2%nat) as Hp2 by (apply length_slice in Hp; lia).
  apply slice_Ok_inv in Hp as [[_ Hlen] Hp], Hpl as [_ Hpl].
  assert (drop pos (r1 :: r2 :: x00 :: t :: b) = p ++ pl) as Hrest.
  { replace (pos + 2 - pos)%nat with 2%nat in Hp by lia. rewrite take_ge in Hpl by (rewrite length_drop; lia).
    rewrite <-drop_drop in Hpl. rewrite Hp, Hpl. by rewrite take_drop. }
  clear Hp Hpl.
  assert (∃ a, waddr_ok a ∧ t = waddr_type a ∧ h = waddr_host a ∧ (4 ≤ pos)%nat ∧ take (pos - 4) b = enc_waddr a) as
    (a & Hok & -> & -> & Hpos & Ht) by by eapply udp_address_inv.
  exists r1, r2, a, p. split_and!; try done. unfold wrapped. cbn [app]. do 4 f_equal.
  rewrite <-(take_drop (pos - 4) b), Ht. f_equal. rewrite <-Hrest.
  replace pos with (4 + (pos - 4))%nat at 2 by lia. done.
Qed.

Lemma parse_total b : no_panic (parseUDPRequest b).
Proof.
  unfold parseUDPRequest. apply no_panic_guard. intros Hl%Nat.ltb_ge. apply no_panic_index; [lia|]. intros f.
  apply no_panic_guard. intros _. apply no_panic_index; [lia|]. intros t.
  assert (no_panic (udp_address t b) ∧ ∀ h pos, udp_address t b = Ok (h, pos) → (pos + 2 ≤ length b)%nat) as [Hn Hpos].
  { unfold udp_address. repeat case_bool_decide; [| | |by split].
    1,2: split; [apply no_panic_guard; intros Hg%Nat.ltb_ge; by apply no_panic_slice; [lia|]|];
      intros h pos ([] & Hg%guard_Ok & (v & _ & [= <- <-])%bind_Ok)%bind_Ok; apply Nat.ltb_ge in Hg; lia.
    split.
      + apply no_panic_guard. intros Hg%Nat.ltb_ge. apply no_panic_index; [lia|]. intros l. cbv zeta.
        apply no_panic_guard. intros Hg2%Nat.ltb_ge. by apply no_panic_slice; [lia|].
      + intros h pos. intros ([] & _ & (l & _ & ([] & Hg%guard_Ok & (v & _ & [= <- <-])%bind_Ok)%bind_Ok)%bind_Ok)%bind_Ok.
        apply Nat.ltb_ge in Hg. lia. }
  destruct (udp_address t b) as [[h pos]|e|] eqn:Ha; [|done|by destruct Hn]. bind. specialize (Hpos h pos eq_refl).
  apply no_panic_slice; [lia|]. intros p _. by apply no_panic_slice; [lia|].
Qed.

(** ** Keys *)

Lemma app_colon_inj a b p q :
  colon ∉ p → colon ∉ q → a ++ colon :: p = b ++ colon :: q → a = b ∧ p = q.
Proof.
  intros Hp Hq [k [[-> Hk]|[-> Hk]]]%app_eq_app; (destruct k as [|x k]; [by rewrite app_nil_r; simplify_eq/=|]);
    exfalso; cbn in Hk; simplify_eq/=; set_solver.
Qed.

Lemma dec_no_colon n : colon ∉ dec n.
Proof. intros Hin. pose proof (proj1 (list.Forall_forall _ _) (dec_chars n) _ Hin) as Hd. by apply Hd. Qed.

Lemma dec_inj p q : 0 ≤ p < 65536 → 0 ≤ q < 65536 → dec p = dec q → p = q.
Proof. intros Hp Hq H. apply (f_equal Atoi) in H. rewrite !Atoi_dec in H by lia. by injection H. Qed.

(** Two destinations have one key only if they are one. *)
Lemma key_inj h1 h2 p1 p2 :
  0 ≤ p1 < 65536 → 0 ≤ p2 < 65536 →
  JoinHostPort h1 (dec p1) = JoinHostPort h2 (dec p2) → h1 = h2 ∧ p1 = p2.
Proof.
  intros Hp1 Hp2. unfold JoinHostPort. pose proof (dec_no_colon p1). pose proof (dec_no_colon p2).
  assert (∀ h p, [x5b] ++ h ++ [x5d; colon] ++ p = (x5b :: h ++ [x5d]) ++ colon :: p) as Hb
    by (intros; cbn [app]; f_equal; by rewrite <-app_assoc).
  rewrite !Hb. repeat case_bool_decide; intros [Hh Hp]%app_colon_inj; try done.
  - apply dec_inj in Hp as ->; [|done..]. injection Hh as Hh. by apply app_inj_2 in Hh as [-> _].
  - subst h2. set_solver.
  - subst h1. set_solver.
  - by apply dec_inj in Hp as ->.
Qed.

(** A wrapped datagram is read exactly as it is written, and a reply carries
    the header of the request.  The parser never panics; it succeeds exactly on
    two reserved bytes, no fragment, a destination of one of the three types, a
    port and a payload, and returns those; and the reply to a destination given
    as an IPv4 address, or as a name that is no address, has the same destination
    and port, byte for byte, before its own payload. *)
Theorem udp_header_exact :
  (∀ b, no_panic (parseUDPRequest b)) ∧
  (∀ b host port payload, parseUDPRequest b = Ok (host, port, payload) ↔
    ∃ r1 r2 a p, waddr_ok a ∧ length p = 2%nat ∧ b = wrapped r1 r2 a p payload ∧ host = waddr_host a ∧ port = be_dec p) ∧
  (∀ a p data, waddr_ok a → length p = 2%nat →
    match a with WAddr4 _ => True | WAddr6 _ => False | WDomain d => ParseAddr d = None end →
    buildUDPReply (waddr_host a) (be_dec p) data = wrapped x00 x00 a p data).
Proof.
  split_and!.
  - apply parse_total.
  - intros b host port payload. split; [apply parse_inv|].
    intros (r1 & r2 & a & p & Ha & Hp & -> & -> & ->). by apply parse_wrapped.
  - intros a p data Ha Hp Hd. unfold buildUDPReply, wrapped.
    assert (be_enc 2 (be_dec p) = p) as -> by (by apply be_enc_dec_len).
    destruct a as [v| |d]; cbn [waddr_ok waddr_host enc_waddr waddr_type] in *; [|done|].
    + unfold Addr_String, AddrFrom4. rewrite ParseAddr_quad.
      * by rewrite be_enc_dec_len.
      * pose proof (be_dec_range v) as Hr. unfold zlen in Hr. rewrite Ha in Hr. exact Hr.
    + rewrite Hd. rewrite take_ge by (unfold zlen in Ha; lia). done.
Qed.
