(* ===== verification/SocksRelays.v ===== *)
(** The relays of one association as a transition system: the loop that reads the
    client, the readers of the targets and [closeAll], in any order.  Datagrams go
    through for one source only, each over the connection of its own destination;
    and once an association is closed no connection of it is left open. *)
From stdpp Require Import gmap.
From S2P Require Import Prelude Text Netip Dns Resolver Socks SocksFacts SocksUdp SocksUdpFacts.
Local Open Scope Z_scope.
Local Arguments dec : simpl never.

(** ** Steps *)

Section association.
(** The answers of the resolver and of the limiter, the [n]-th time they are asked,
    and the address families of the tunnel. *)
Variable lookup : nat → bytes → option (list Addr).
Variable allow : nat → Addr → bool.
Variables hasV4 hasV6 : bool.

Inductive move : Type :=
  | Datagram (src : UDPAddr) (data : bytes)
  | Resolved (n : nat)
  | Dialled (ok : bool)
  | Stop
  | Reply (i : nat) (data : bytes)
  | Exit (i : nat)
  | CloseBegin
  | CloseTargets
  | CloseEnd.

Record sent := mkSent { sn_src : UDPAddr; sn_data : bytes; sn_conn : nat; sn_payload : bytes }.

(** The manager, and what an observer notes: the datagram being handled, the
    destination each connection was opened for, what was forwarded and what was
    sent back. *)
Record association := mkAssoc {
  as_mgr : udpRelayMgr;
  as_current : UDPAddr * bytes;
  as_dials : list (bytes * Z);
  as_forwarded : list sent;
  as_replies : list (UDPAddr * bytes * nat)
}.

Definition as_init (ip : Addr) (port : Z) : association :=
  mkAssoc (newUDPRelayMgr ip port) (mkUDPAddr [] 0, []) [] [] [].

(** What the resolution of the new flow gave. *)
Definition resolution (n : nat) (m : udpRelayMgr) : option bytes :=
  match m_pump m with
  | Resolving f => createRelay (lookup n (fl_host f)) hasV4 hasV6 (allow n) (fl_port f)
  | _ => None
  end.

Definition forwarding (cur : UDPAddr * bytes) (f : forward) (l : list sent) : list sent :=
  match f with Some (conn, payload) => mkSent cur.1 cur.2 conn payload :: l | None => l end.

Definition act (mv : move) (a : association) : res udp_error association :=
  let m := as_mgr a in
  let quiet m' := Ok (mkAssoc m' (as_current a) (as_dials a) (as_forwarded a) (as_replies a)) in
  match mv with
  | Datagram src data =>
      match m_pump m with
      | Reading =>
          let '(m', f) := client_datagram src data m in
          Ok (mkAssoc m' (src, data) (as_dials a) (forwarding (src, data) f (as_forwarded a)) (as_replies a))
      | _ => Ok a
      end
  | Resolved n =>
      let '(m', f) := flow_resolved (resolution n m) m in
      Ok (mkAssoc m' (as_current a) (as_dials a) (forwarding (as_current a) f (as_forwarded a)) (as_replies a))
  | Dialled ok =>
      '(m', f) ← flow_dialled ok m;
      let dials := match m_pump m with
                   | Connecting fl _ => if ok then as_dials a ++ [(fl_host fl, fl_port fl)] else as_dials a
                   | _ => as_dials a
                   end in
      Ok (mkAssoc m' (as_current a) dials (forwarding (as_current a) f (as_forwarded a)) (as_replies a))
  | Reply i data =>
      match m_readers m !! i with
      | Some (_, r) =>
          match target_reply r data m with
          | Some (client, out) =>
              Ok (mkAssoc m (as_current a) (as_dials a) (as_forwarded a) ((client, out, rl_conn r) :: as_replies a))
          | None => Ok a
          end
      | None => Ok a
      end
  | Stop => quiet (pump_stop m)
  | Exit i => quiet (reader_exit i m)
  | CloseBegin => quiet (closeAll_begin m)
  | CloseTargets => quiet (closeAll_close m)
  | CloseEnd => quiet (closeAll_end m)
  end.

Fixpoint acts (mvs : list move) (a : association) : res udp_error association :=
  match mvs with
  | [] => Ok a
  | mv :: mvs => a' ← act mv a; acts mvs a'
  end.

(** ** Sources *)

Definition allowed (ip : Addr) (port : Z) (src : UDPAddr) : Prop :=
  ∃ a, AddrFromSlice (ua_IP src) = Some a ∧ (IsValid ip = true → Unmap a = ip) ∧
       (port ≠ 0 → u16 (ua_Port src) = port).
Definition same (c src : UDPAddr) : Prop := IP_Equal (ua_IP c) (ua_IP src) = true ∧ ua_Port c = ua_Port src.

Lemma same_refl c : same c c.
Proof. split; [|done]. unfold IP_Equal. by rewrite Nat.eqb_refl, bool_decide_eq_true_2. Qed.

Lemma authorise_Some src m m' c :
  authorise src m = (m', Some c) →
  allowed (m_expectedIP m) (m_expectedPort m) src ∧ same c src ∧ m' = set_client (Some c) m ∧
  (m_client m = None ∨ m_client m = Some c).
Proof.
  unfold authorise. destruct (AddrFromSlice _) as [a|] eqn:Ha; [|done].
  destruct (IsValid _ && _) eqn:Hip; [done|]. destruct (negb (m_expectedPort m =? 0) && _) eqn:Hport; [done|].
  intros H. assert (allowed (m_expectedIP m) (m_expectedPort m) src) as Hal.
  { exists a. split_and!; [done| |].
    - intros Hv. rewrite Hv in Hip. apply negb_false_iff in Hip. by apply bool_decide_eq_true in Hip.
    - intros Hp. apply andb_false_iff in Hport as [H0|Hq]; apply negb_false_iff, Z.eqb_eq in H0 || apply negb_false_iff, Z.eqb_eq in Hq; done. }
  split; [done|]. destruct (m_client m) as [c'|] eqn:Hc.
  - destruct (_ && _) eqn:Hs in H; [|done]. injection H as <- <-. apply andb_true_iff in Hs as [Hs1 Hs2%Z.eqb_eq].
    split_and!; [done| |by right]. destruct m; cbn in *; by subst.
  - injection H as <- <-. split_and!; [apply same_refl|done|by left].
Qed.

Lemma authorise_None src m m' : authorise src m = (m', None) → m' = m.
Proof.
  unfold authorise. intros H.
  repeat match type of H with
         | context [match ?x with _ => _ end] => destruct x
         end; by simplify_eq.
Qed.

(** ** The relays *)

(** The flow being opened. *)
Definition flow_of (m : udpRelayMgr) : option flow :=
  match m_pump m with Resolving f | Connecting f _ => Some f | _ => None end.

(** The map of relays is the readers that run, one per key; a connection not yet
    closed has its reader, and once [closeAll] has begun it has all of them. *)
Record relays_ok (m : udpRelayMgr) (dials : list (bytes * Z)) : Prop := {
  ro_dials : length dials = m_opened m;
  ro_map rs k r : m_relays m = Some rs → rs !! k = Some r ↔ (k, r) ∈ m_readers m;
  ro_keys : NoDup (m_readers m).*1;
  ro_nil : m_relays m = None ↔ m_closing m = Closed;
  ro_dest k r : (k, r) ∈ m_readers m →
    dials !! rl_conn r = Some (rl_host r, rl_port r) ∧ k = JoinHostPort (rl_host r) (dec (rl_port r)) ∧ 0 ≤ rl_port r < 65536;
  ro_live c : (c < m_opened m)%nat → c ∈ m_shut m ∨ ∃ kr, kr ∈ m_readers m ∧ rl_conn kr.2 = c;
  ro_fresh f t : m_pump m = Connecting f t → lookupRelay (fl_key f) m = None;
  ro_flow f : flow_of m = Some f →
    fl_key f = JoinHostPort (fl_host f) (dec (fl_port f)) ∧ 0 ≤ fl_port f < 65536;
  ro_closing kr : kr ∈ m_readers m →
    match m_closing m with
    | Open => True
    | Closing ts => rl_conn kr.2 ∈ ts ∨ rl_conn kr.2 ∈ m_shut m
    | Waiting => rl_conn kr.2 ∈ m_shut m
    | Closed => False
    end;
  ro_stopped : m_closing m = Closed → m_pump m = Stopped
}.

Lemma ok_init ip port : relays_ok (newUDPRelayMgr ip port) [].
Proof.
  split; cbn; try done.
  - intros rs k r [= <-]. split; [done|]. by intros ?%not_elem_of_nil.
  - constructor.
  - by intros k r ?%not_elem_of_nil.
  - lia.
Qed.

Lemma ok_client c m d : relays_ok m d → relays_ok (set_client c m) d.
Proof. intros []. by split. Qed.

Lemma ok_pump p m d :
  relays_ok m d →
  match p with
  | Reading => m_closing m ≠ Closed
  | Resolving f => m_closing m ≠ Closed ∧ fl_key f = JoinHostPort (fl_host f) (dec (fl_port f)) ∧ 0 ≤ fl_port f < 65536
  | Connecting f _ => m_closing m ≠ Closed ∧ fl_key f = JoinHostPort (fl_host f) (dec (fl_port f)) ∧ 0 ≤ fl_port f < 65536 ∧
      lookupRelay (fl_key f) m = None
  | Stopped => True
  end → relays_ok (set_pump p m) d.
Proof.
  intros [] Hp. split; cbn; try done.
  - intros f t ->. by destruct Hp as (_ & _ & _ & Hp).
  - unfold flow_of. cbn. intros f Hf. destruct p; simplify_eq; by destruct_and?.
  - intros Hc. destruct p; [done|..|done]; by destruct Hp.
Qed.

Lemma key_port b host port payload : parseUDPRequest b = Ok (host, port, payload) → 0 ≤ port < 65536.
Proof.
  intros (r1 & r2 & a & p & _ & Hp & _ & _ & ->)%parse_inv. pose proof (be_dec_range p) as H. unfold zlen in H. by rewrite Hp in H.
Qed.

(** Where a datagram goes: over the relay of its own destination. *)
Lemma lookup_dest m d k r : relays_ok m d → lookupRelay k m = Some r → (k, r) ∈ m_readers m.
Proof.
  intros [] H. unfold lookupRelay in H. destruct (m_relays m) as [rs|] eqn:Hrs; [|done]. by apply (ro_map0 rs).
Qed.

Lemma reading_open m d : relays_ok m d → m_pump m ≠ Stopped → m_closing m ≠ Closed.
Proof. intros Ho Hp Hc. by apply Hp, (ro_stopped _ _ Ho). Qed.

Lemma ok_datagram src data m m' f d :
  relays_ok m d → m_pump m = Reading → client_datagram src data m = (m', f) → relays_ok m' d.
Proof.
  intros Ho Hp. unfold client_datagram. destruct (authorise src m) as [m1 [c|]] eqn:Ha.
  - apply authorise_Some in Ha as (_ & _ & -> & _). apply (ok_client (Some c)) in Ho.
    destruct (parseUDPRequest data) as [[[host port] payload]|e|] eqn:Hd; [|by intros [= <- <-]..].
    cbv zeta. destruct (lookupRelay _ _); intros [= <- <-]; [done|]. apply ok_pump; [done|]. split_and!; [|done|by eapply key_port..].
    eapply reading_open; [done|]. cbn. by rewrite Hp.
  - apply authorise_None in Ha as ->. by intros [= <- <-].
Qed.

Lemma ok_resolved t m m' f d : relays_ok m d → flow_resolved t m = (m', f) → relays_ok m' d.
Proof.
  intros Ho. unfold flow_resolved. destruct (m_pump m) as [|fl| |] eqn:Hp; [by intros [= <- <-]| |by intros [= <- <-]..].
  assert (m_closing m ≠ Closed) as Hc by (eapply reading_open; [done|by rewrite Hp]).
  destruct (ro_flow _ _ Ho fl) as [Hk Hr]; [by unfold flow_of; rewrite Hp|].
  destruct t as [t|]; [|intros [= <- <-]; by apply ok_pump].
  destruct (closed m); [intros [= <- <-]; by apply ok_pump|].
  destruct (lookupRelay _ _) eqn:Hl; intros [= <- <-]; by apply ok_pump.
Qed.

Lemma ok_shut s m d : relays_ok m d → relays_ok (set_shut (s ∪ m_shut m) m) d.
Proof.
  intros []. split; cbn; try done.
  - intros c [H|H]%ro_live0; [left; set_solver|by right].
  - intros kr H%ro_closing0. destruct (m_closing m); set_solver.
Qed.

(** A connection opened after [closeAll] began is closed at once. *)
Lemma ok_refused t dest m d :
  relays_ok m d →
  relays_ok (set_pump Stopped (set_shut ({[m_opened m]} ∪ m_shut m) (set_dialled t (set_opened (S (m_opened m)) m)))) (d ++ [dest]).
Proof.
  intros []. split; cbn; try done.
  - rewrite length_app. cbn. lia.
  - intros k r (H1 & H2 & H3)%ro_dest0. split; [by apply lookup_app_l_Some|by split].
  - intros c Hc. destruct (decide (c = m_opened m)) as [->|]; [left; set_solver|].
    destruct (ro_live0 c) as [H|H]; [lia|left; set_solver|by right].
  - intros kr H%ro_closing0. destruct (m_closing m); set_solver.
Qed.

(** Otherwise it gets its relay and its reader. *)
Lemma ok_connected f t rs m d :
  relays_ok m d → m_pump m = Connecting f t → m_closing m = Open → m_relays m = Some rs →
  let r := mkRelay (m_opened m) (fl_host f) (fl_port f) (fl_client f) in
  relays_ok (set_pump Reading (set_readers (m_readers m ++ [(fl_key f, r)])
      (set_relays (Some (<[fl_key f := r]> rs)) (set_dialled (m_dialled m ++ [t]) (set_opened (S (m_opened m)) m))))) (d ++ [(fl_host f, fl_port f)]).
Proof.
  intros [] Hp Hc Hrs r. pose proof (ro_fresh0 f t Hp) as Hf. unfold lookupRelay in Hf. rewrite Hrs in Hf. cbn in Hf.
  assert (∀ r', (fl_key f, r') ∉ m_readers m) as Hno.
  { intros r' Hin%(ro_map0 rs); [|done]. by rewrite Hf in Hin. }
  destruct (ro_flow0 f) as [Hk Hr]; [by unfold flow_of; rewrite Hp|].
  split; cbn; try done.
  - rewrite length_app. cbn. lia.
  - intros rs' k r' [= <-]. rewrite elem_of_app, list_elem_of_singleton.
    destruct (decide (k = fl_key f)) as [->|Hne].
    + rewrite lookup_insert_eq. split; [intros [= <-]; by right|]. intros [H|[= ->]]; [by apply Hno in H|done].
    + rewrite lookup_insert_ne by done. rewrite (ro_map0 rs) by done. split; [by left|]. intros [H|[= -> ->]]; done.
  - rewrite fmap_app. apply list.NoDup_app. split_and!; [done| |apply NoDup_singleton].
    intros k ([k' r'] & -> & H)%list_elem_of_fmap Hk'%list_elem_of_singleton. cbn in Hk'. subst k'. by apply Hno in H.
  - split; [done|]. by rewrite Hc.
  - intros k r' [H|[= -> ->]%list_elem_of_singleton]%elem_of_app.
    + destruct (ro_dest0 _ _ H) as (H1 & H2 & H3). split; [by apply lookup_app_l_Some|by split].
    + cbn. split; [|by split]. rewrite lookup_app_r by lia. by rewrite ro_dials0, Nat.sub_diag.
  - intros c Hlt. destruct (decide (c = m_opened m)) as [->|].
    + right. exists (fl_key f, r). split; [|done]. apply elem_of_app. right. by apply list_elem_of_singleton.
    + destruct (ro_live0 c) as [H|(kr & H & He)]; [lia|by left|]. right. exists kr. split; [|done].
      apply elem_of_app. by left.
  - intros kr _. by rewrite Hc.
  - by rewrite Hc.
Qed.

Lemma ok_dialled ok m d :
  relays_ok m d →
  ∃ m' f, flow_dialled ok m = Ok (m', f) ∧
    relays_ok m' (match m_pump m with
                  | Connecting fl _ => if ok then d ++ [(fl_host fl, fl_port fl)] else d
                  | _ => d
                  end).
Proof.
  intros Ho. unfold flow_dialled. destruct (m_pump m) as [| |f t|] eqn:Hp; [by eexists _, _..| |by eexists _, _].
  assert (m_closing m ≠ Closed) as Hc by (eapply reading_open; [done|by rewrite Hp]).
  destruct ok; cbn [negb]; [|eexists _, _; split; [done|by apply ok_pump]]. cbv zeta.
  destruct (m_closing m) as [|ts| |] eqn:Hcl; [| | |done]; unfold closed; cbn [m_closing set_opened set_dialled]; rewrite Hcl.
  2,3: eexists _, _; (split; [done|exact (ok_refused _ _ m d Ho)]).
  cbn [m_relays set_opened set_dialled]. destruct (m_relays m) as [rs|] eqn:Hrs.
  - eexists _, _. split; [done|]. exact (ok_connected f t rs m d Ho Hp Hcl Hrs).
  - exfalso. apply (ro_nil _ _ Ho) in Hrs. by rewrite Hcl in Hrs.
Qed.

Lemma elem_of_delete_key (l : list (bytes * udpRelay)) i k r x :
  NoDup l.*1 → l !! i = Some (k, r) → x ∈ delete i l ↔ x ∈ l ∧ x.1 ≠ k.
Proof.
  intros Hnd Hi. rewrite delete_take_drop. pose proof (take_drop_middle _ _ _ Hi) as Hl. rewrite <-Hl in Hnd.
  rewrite fmap_app, fmap_cons in Hnd. apply list.NoDup_app in Hnd as (_ & H1 & [H2 _]%list.NoDup_cons).
  rewrite <-Hl at 3. rewrite !elem_of_app, elem_of_cons. split.
  - intros [H|H]; (split; [tauto|]); intros Hx.
    + apply (H1 x.1); [by apply list_elem_of_fmap_2|]. rewrite Hx. by left.
    + apply H2. cbn. rewrite <-Hx. by apply list_elem_of_fmap_2.
  - intros [[H|[->|H]] Hx]; [by left|done|by right].
Qed.

Lemma ok_exit i m d : relays_ok m d → relays_ok (reader_exit i m) d.
Proof.
  intros Ho. unfold reader_exit. destruct (m_readers m !! i) as [[k r]|] eqn:Hi; [|done]. cbv zeta.
  destruct Ho. pose proof (list_elem_of_lookup_2 _ _ _ Hi) as Hin.
  destruct (m_relays m) as [rs|] eqn:Hrs; [|by pose proof (ro_closing0 _ Hin) as H; rewrite (proj1 ro_nil0 eq_refl) in H].
  unfold removeRelay. rewrite Hrs, (proj2 (ro_map0 rs k r eq_refl) Hin).
  pose proof (λ x, elem_of_delete_key _ _ _ _ x ro_keys0 Hi) as Hdel. split; cbn; try done.
  - intros rs' k' r' [= <-]. rewrite Hdel, <-(ro_map0 rs) by done. cbn. rewrite lookup_delete_Some. naive_solver.
  - rewrite list_fmap_delete. eapply sublist_NoDup; [exact ro_keys0|apply sublist_delete].
  - split; [done|]. intros Hc. by apply ro_nil0 in Hc.
  - intros k' r' [H _]%Hdel. by apply ro_dest0.
  - intros c Hc. destruct (ro_live0 c Hc) as [H|([k' r'] & H & He)]; [left; set_solver|].
    destruct (decide (k' = k)) as [->|Hne].
    + left. apply (ro_map0 rs) in H, Hin; [|done..]. rewrite H in Hin. injection Hin as ->. set_solver.
    + right. exists (k', r'). by rewrite Hdel.
  - intros f t Hp. apply ro_fresh0 in Hp. unfold lookupRelay in *. rewrite Hrs in Hp. cbn in *. by apply lookup_delete_None; right.
  - intros kr [H _]%Hdel. apply ro_closing0 in H. destruct (m_closing m); set_solver.
Qed.

Lemma ok_begin m d : relays_ok m d → relays_ok (closeAll_begin m) d.
Proof.
  intros Ho. unfold closeAll_begin. destruct (m_closing m) eqn:Hc; try done. destruct Ho. split; cbn; try done.
  - rewrite ro_nil0, Hc. done.
  - intros [k r] Hin. left. destruct (m_relays m) as [rs|] eqn:Hrs; [|by rewrite (proj1 ro_nil0 eq_refl) in Hc].
    apply list_elem_of_fmap. exists (k, r). split; [done|]. apply elem_of_map_to_list. by apply (ro_map0 rs).
Qed.

Lemma ok_targets m d : relays_ok m d → relays_ok (closeAll_close m) d.
Proof.
  intros Ho. unfold closeAll_close. destruct (m_closing m) as [|ts| |] eqn:Hc; try done.
  destruct (ok_shut (list_to_set ts) _ _ Ho). clear Ho. cbn in *. split; cbn; try done.
  - rewrite ro_nil0, Hc. done.
  - intros kr H%ro_closing0. rewrite Hc in H. set_solver.
Qed.

Lemma ok_end m d : relays_ok m d → relays_ok (closeAll_end m) d.
Proof.
  intros Ho. unfold closeAll_end. destruct (m_closing m) eqn:Hc; try done. destruct (m_pump m) eqn:Hp; try done.
  case_bool_decide as Hr; [|done]. destruct Ho. split; cbn; try done.
  - intros kr. by rewrite Hr, elem_of_nil.
Qed.

Lemma ok_stop m d : relays_ok m d → relays_ok (pump_stop m) d.
Proof. intros Ho. unfold pump_stop. destruct (m_pump m); try done. by apply ok_pump. Qed.

(** ** What the observer notes *)

(** Only a datagram of the client changes whom the manager trusts, or opens a flow. *)
Definition frame (m m' : udpRelayMgr) : Prop :=
  m_expectedIP m' = m_expectedIP m ∧ m_expectedPort m' = m_expectedPort m ∧ m_client m' = m_client m ∧
  (∀ f, flow_of m' = Some f → flow_of m = Some f).

Lemma frame_refl m : frame m m.
Proof. by split_and!. Qed.

Ltac by_frame :=
  repeat match goal with
         | |- context [match ?x with _ => _ end] => destruct x eqn:?
         end; unfold frame; split_and!; cbn; try done.

Lemma frame_stop m : frame m (pump_stop m).
Proof. unfold pump_stop. by_frame. Qed.
Lemma frame_exit i m : frame m (reader_exit i m).
Proof. unfold reader_exit, removeRelay. by_frame. Qed.
Lemma frame_begin m : frame m (closeAll_begin m).
Proof. unfold closeAll_begin. by_frame. Qed.
Lemma frame_targets m : frame m (closeAll_close m).
Proof. unfold closeAll_close. by_frame. Qed.
Lemma frame_end m : frame m (closeAll_end m).
Proof. unfold closeAll_end. by_frame. Qed.

(** A datagram comes from the source the association is bound to. *)
Definition accepted (ip : Addr) (port : Z) (m : udpRelayMgr) (src : UDPAddr) : Prop :=
  allowed ip port src ∧ ∃ c, m_client m = Some c ∧ same c src.

(** It is forwarded with its own payload, over a connection to its own
    destination. *)
Definition routed (dials : list (bytes * Z)) (data : bytes) (conn : nat) (payload : bytes) : Prop :=
  ∃ host port, parseUDPRequest data = Ok (host, port, payload) ∧ dials !! conn = Some (host, port).

Definition answered (dials : list (bytes * Z)) (out : bytes) (conn : nat) : Prop :=
  ∃ host port data, out = buildUDPReply host port data ∧ dials !! conn = Some (host, port).

Record audit (ip : Addr) (port : Z) (a : association) : Prop := {
  au_relays : relays_ok (as_mgr a) (as_dials a);
  au_ip : m_expectedIP (as_mgr a) = ip;
  au_port : m_expectedPort (as_mgr a) = port;
  au_flow f : flow_of (as_mgr a) = Some f →
    accepted ip port (as_mgr a) (as_current a).1 ∧
    parseUDPRequest (as_current a).2 = Ok (fl_host f, fl_port f, fl_payload f);
  au_sent s : s ∈ as_forwarded a →
    accepted ip port (as_mgr a) (sn_src s) ∧ routed (as_dials a) (sn_data s) (sn_conn s) (sn_payload s);
  au_reply c out conn : (c, out, conn) ∈ as_replies a →
    m_client (as_mgr a) = Some c ∧ answered (as_dials a) out conn
}.

Lemma accepted_frame ip port m m' src : m_client m' = m_client m → accepted ip port m src → accepted ip port m' src.
Proof. unfold accepted. by intros ->. Qed.
Lemma routed_more dials dials' data conn payload : routed dials data conn payload → routed (dials ++ dials') data conn payload.
Proof. intros (h & p & H1 & H2). exists h, p. split; [done|]. by apply lookup_app_l_Some. Qed.
Lemma answered_more dials dials' out conn : answered dials out conn → answered (dials ++ dials') out conn.
Proof. intros (h & p & d & H1 & H2). exists h, p, d. split; [done|]. by apply lookup_app_l_Some. Qed.

(** A step of another than the client keeps the notes, and adds at most the
    datagram being handled. *)
Lemma audit_frame ip port a m' dials' f :
  audit ip port a → frame (as_mgr a) m' → relays_ok m' (as_dials a ++ dials') →
  (∀ conn payload, f = Some (conn, payload) →
     accepted ip port (as_mgr a) (as_current a).1 ∧ routed (as_dials a ++ dials') (as_current a).2 conn payload) →
  audit ip port (mkAssoc m' (as_current a) (as_dials a ++ dials') (forwarding (as_current a) f (as_forwarded a)) (as_replies a)).
Proof.
  intros [] (Hip & Hport & Hc & Hf) Hr Hs. split; cbn; [done|congruence..| | |].
  - intros fl Hfl%Hf. apply au_flow0 in Hfl as [H1 H2]. split; [by eapply accepted_frame|done].
  - intros s Hin. destruct f as [[conn payload]|]; cbn in Hin; [apply elem_of_cons in Hin as [->|Hin]|].
    + destruct (Hs _ _ eq_refl) as [H1 H2]. split; [by eapply accepted_frame|done].
    + apply au_sent0 in Hin as [H1 H2]. split; [by eapply accepted_frame|by apply routed_more].
    + apply au_sent0 in Hin as [H1 H2]. split; [by eapply accepted_frame|by apply routed_more].
  - intros c out conn Hin%au_reply0. destruct Hin. split; [congruence|by apply answered_more].
Qed.

Lemma audit_quiet ip port a m' :
  audit ip port a → frame (as_mgr a) m' → relays_ok m' (as_dials a) →
  audit ip port (mkAssoc m' (as_current a) (as_dials a) (as_forwarded a) (as_replies a)).
Proof.
  intros Ha Hf Hr. pose proof (audit_frame ip port a m' [] None Ha Hf) as H. rewrite app_nil_r in H. by apply H.
Qed.

Lemma lookup_routed m d data host port payload r :
  relays_ok m d → parseUDPRequest data = Ok (host, port, payload) →
  lookupRelay (JoinHostPort host (dec port)) m = Some r → routed d data (rl_conn r) payload.
Proof.
  intros Ho Hd Hl%(lookup_dest _ _ _ _ Ho). apply (ro_dest _ _ Ho) in Hl as (Hdl & Hk & Hr).
  apply key_inj in Hk as [-> ->]; [|by eapply key_port|done]. by exists (rl_host r), (rl_port r).
Qed.

Lemma audit_datagram ip port a src data m' f :
  audit ip port a → m_pump (as_mgr a) = Reading → client_datagram src data (as_mgr a) = (m', f) →
  audit ip port (mkAssoc m' (src, data) (as_dials a) (forwarding (src, data) f (as_forwarded a)) (as_replies a)).
Proof.
  intros Ha Hp Hd. pose proof (ok_datagram _ _ _ _ _ _ (au_relays _ _ _ Ha) Hp Hd) as Hr. destruct Ha. unfold client_datagram in Hd.
  destruct (authorise src (as_mgr a)) as [m1 [c|]] eqn:Hau.
  - apply authorise_Some in Hau as (Hal & Hsame & -> & Hcl). rewrite au_ip0, au_port0 in Hal.
    assert (∀ m2 s, m_client m2 = Some c → accepted ip port (as_mgr a) s → accepted ip port m2 s) as Hkeep.
    { intros m2 s Hm2 (H1 & c' & H2 & H3). split; [done|]. exists c. destruct Hcl; simplify_eq. by rewrite Hm2. }
    assert (m_client m' = Some c ∧ m_expectedIP m' = ip ∧ m_expectedPort m' = port) as (Hc & Hip & Hport).
    { destruct (parseUDPRequest data) as [[[h p] pl]|e|]; [cbv zeta in Hd; destruct (lookupRelay _ _)|..]; by simplify_eq. }
    assert (accepted ip port m' src) as Hacc by (split; [done|by exists c]).
    split; cbn; try done.
    + intros fl Hfl. split; [done|]. unfold flow_of in Hfl.
      destruct (parseUDPRequest data) as [[[h p] pl]|e|]; [cbv zeta in Hd; destruct (lookupRelay _ _)|..]; simplify_eq/=;
        first [done|by rewrite Hp in Hfl].
    + intros s Hin. destruct f as [[conn payload]|]; cbn in Hin; [apply elem_of_cons in Hin as [->|Hin]|].
      * split; [done|]. cbn. destruct (parseUDPRequest data) as [[[h p] pl]|e|] eqn:Hparse; try done. cbv zeta in Hd.
        destruct (lookupRelay _ _) eqn:Hl; [|done]. injection Hd as <- <- <-.
        by eapply (lookup_routed (set_client (Some c) (as_mgr a))).
      * apply au_sent0 in Hin as [H1 H2]. split; [by apply Hkeep|done].
      * apply au_sent0 in Hin as [H1 H2]. split; [by apply Hkeep|done].
    + intros c' out conn Hin%au_reply0. destruct Hin as [H1 H2]. split; [|done]. destruct Hcl; congruence.
  - apply authorise_None in Hau as ->. injection Hd as <- <-. split; cbn; try done.
    intros fl Hfl. unfold flow_of in Hfl. by rewrite Hp in Hfl.
Qed.

Lemma audit_resolved ip port a t m' f :
  audit ip port a → flow_resolved t (as_mgr a) = (m', f) →
  audit ip port (mkAssoc m' (as_current a) (as_dials a) (forwarding (as_current a) f (as_forwarded a)) (as_replies a)).
Proof.
  intros Ha Hf. pose proof (ok_resolved _ _ _ _ _ (au_relays _ _ _ Ha) Hf) as Hr. rewrite <-(app_nil_r (as_dials a)).
  assert (frame (as_mgr a) m' ∧ (∀ conn payload, f = Some (conn, payload) → ∃ fl r, flow_of (as_mgr a) = Some fl ∧
      lookupRelay (fl_key fl) (as_mgr a) = Some r ∧ conn = rl_conn r ∧ payload = fl_payload fl)) as [Hfr Hfl].
  { revert Hf. unfold flow_resolved. destruct (m_pump (as_mgr a)) as [|fl| |] eqn:Hp; [by intros [= <- <-]| |by intros [= <- <-]..].
    assert (flow_of (as_mgr a) = Some fl) as Hfl by (unfold flow_of; by rewrite Hp).
    destruct t as [t|]; [destruct (closed _); [|destruct (lookupRelay _ _) eqn:Hl]|]; intros [= <- <-].
    all: split; [split_and!; cbn; try done|naive_solver]. unfold flow_of. cbn. intros f' [= <-]. by rewrite Hp. }
  apply audit_frame; [done..|by rewrite app_nil_r|]. intros conn payload (fl & r & Hflow & Hl & -> & ->)%Hfl.
  destruct (au_flow _ _ _ Ha _ Hflow) as [H1 H2]. split; [done|]. rewrite app_nil_r.
  destruct (ro_flow _ _ (au_relays _ _ _ Ha) _ Hflow) as [Hk _]. rewrite Hk in Hl.
  exact (lookup_routed _ _ _ _ _ _ _ (au_relays _ _ _ Ha) H2 Hl).
Qed.

Lemma audit_dialled ip port a ok :
  audit ip port a → ∃ a', act (Dialled ok) a = Ok a' ∧ audit ip port a'.
Proof.
  intros Ha. destruct (ok_dialled ok _ _ (au_relays _ _ _ Ha)) as (m' & f & Hd & Hr). cbn [act]. rewrite Hd. bind.
  set (dials := match m_pump (as_mgr a) with Connecting _ _ => _ | _ => _ end) in Hr |- *. eexists; split; [done|].
  assert (frame (as_mgr a) m' ∧ ∃ more, dials = as_dials a ++ more ∧
      ∀ conn payload, f = Some (conn, payload) → ∃ fl, flow_of (as_mgr a) = Some fl ∧
        more = [(fl_host fl, fl_port fl)] ∧ conn = m_opened (as_mgr a) ∧ payload = fl_payload fl) as (Hfr & more & Hm & Hfl).
  { revert Hd. subst dials. unfold flow_dialled, flow_of. clear Hr Ha.
    destruct (m_pump (as_mgr a)) as [| |fl t|]; [intros [= <- <-]; split; [done|exists []; by rewrite app_nil_r]..| |
      intros [= <- <-]; split; [done|exists []; by rewrite app_nil_r]].
    destruct ok; cbn [negb]; cbv zeta; [|intros [= <- <-]; split; [done|exists []; by rewrite app_nil_r]].
    destruct (closed _); [intros [= <- <-]; split; [done|by eexists]|].
    destruct (m_relays _); [|done]. intros [= <- <-]. split; [done|]. eexists. split; [done|]. intros ?? [= <- <-]. by exists fl. }
  rewrite Hm in *. apply audit_frame; [done..|]. intros conn payload (fl & Hflow & -> & -> & ->)%Hfl.
  destruct (au_flow _ _ _ Ha fl Hflow) as [H1 H2]. split; [done|].
  exists (fl_host fl), (fl_port fl). split; [done|]. rewrite <-(ro_dials _ _ (au_relays _ _ _ Ha)). by apply list_lookup_middle.
Qed.

Lemma audit_act ip port a mv : audit ip port a → ∃ a', act mv a = Ok a' ∧ audit ip port a'.
Proof.
  intros Ha. pose proof (au_relays _ _ _ Ha) as Hr. destruct mv as [src data|t|ok| |i data|i| | |].
  - cbn [act]. destruct (m_pump (as_mgr a)) eqn:Hp; try by eexists. destruct (client_datagram _ _ _) as [m' f] eqn:Hd.
    eexists; split; [done|]. by apply audit_datagram.
  - cbn [act]. destruct (flow_resolved _ _) as [m' f] eqn:Hd. eexists; split; [done|]. by eapply audit_resolved.
  - by apply audit_dialled.
  - eexists; split; [done|]. by apply audit_quiet; [|apply frame_stop|apply ok_stop].
  - cbn [act]. destruct (m_readers _ !! i) as [[k r]|] eqn:Hi; [|by eexists]. unfold target_reply.
    destruct (m_client (as_mgr a)) as [c|] eqn:Hc; [|by eexists]. cbn. eexists; split; [done|].
    apply list_elem_of_lookup_2, (ro_dest _ _ Hr) in Hi as [Hd _]. destruct Ha. split; cbn; try done.
    intros c' out conn [[= -> -> ->]|H]%elem_of_cons; [|by apply au_reply0]. split; [done|]. by eexists _, _, _.
  - eexists; split; [done|]. by apply audit_quiet; [|apply frame_exit|apply ok_exit].
  - eexists; split; [done|]. by apply audit_quiet; [|apply frame_begin|apply ok_begin].
  - eexists; split; [done|]. by apply audit_quiet; [|apply frame_targets|apply ok_targets].
  - eexists; split; [done|]. by apply audit_quiet; [|apply frame_end|apply ok_end].
Qed.

Lemma audit_acts ip port mvs : ∀ a, audit ip port a → ∃ a', acts mvs a = Ok a' ∧ audit ip port a'.
Proof.
  induction mvs as [|mv mvs IH]; intros a Ha; cbn [acts]; [by eexists|].
  destruct (audit_act _ _ _ mv Ha) as (a1 & -> & H1). bind. by apply IH.
Qed.

Lemma audit_init ip port mvs : ∃ a, acts mvs (as_init ip port) = Ok a ∧ audit ip port a.
Proof.
  apply audit_acts. split; cbn; try done; [apply ok_init|by intros s ?%not_elem_of_nil|by intros c out conn ?%not_elem_of_nil].
Qed.

(** ** The end of an association *)

(** Once [closeAll] has begun, no reader starts. *)
Lemma no_new_reader mv a a' :
  closed (as_mgr a) = true → act mv a = Ok a' → m_readers (as_mgr a') `sublist_of` m_readers (as_mgr a).
Proof.
  intros Hc. destruct mv as [src data|t|ok| |i data|i| | |]; cbn [act];
    [| | | |destruct (m_readers (as_mgr a) !! i) as [[? ?]|]; [destruct (target_reply _ _ _) as [[? ?]|]|]; by intros [= <-]|..];
    try (intros [= <-]; cbn [as_mgr]).
  - destruct (m_pump (as_mgr a)); try by intros [= <-]. unfold client_datagram.
    destruct (authorise _ _) as [m1 [c|]] eqn:Hau; [apply authorise_Some in Hau as (_ & _ & -> & _)|apply authorise_None in Hau as ->; by intros [= <-]].
    destruct (parseUDPRequest data) as [[[h p] pl]|e|]; [cbv zeta; destruct (lookupRelay _ _)|..]; by intros [= <-].
  - unfold flow_resolved. rewrite Hc. destruct (m_pump (as_mgr a)); try by intros [= <-].
    destruct (resolution _ _); by intros [= <-].
  - unfold flow_dialled. destruct (m_pump (as_mgr a)); try by intros [= <-]. destruct ok; cbn [negb]; cbv zeta; [|by intros [= <-]].
    assert (∀ t n, closed (set_dialled t (set_opened n (as_mgr a))) = true) as -> by done. by intros [= <-].
  - unfold pump_stop. by destruct (m_pump (as_mgr a)).
  - unfold reader_exit. destruct (m_readers (as_mgr a) !! i) as [[k r]|]; [|done]. cbv zeta.
    unfold removeRelay. destruct (m_relays (as_mgr a)) as [rs|]; [destruct (rs !! k)|]; apply sublist_delete.
  - unfold closeAll_begin. by destruct (m_closing (as_mgr a)).
  - unfold closeAll_close. by destruct (m_closing (as_mgr a)).
  - unfold closeAll_end. destruct (m_closing (as_mgr a)), (m_pump (as_mgr a)); try done. by case_bool_decide.
Qed.

(** What is left to happen before it ends: the client's loop stops, the readers do. *)
Definition pump_moves (p : pump) : list move :=
  match p with
  | Reading => [Stop]
  | Resolving _ => [Resolved 0; Stop]
  | Connecting _ _ => [Dialled false; Stop]
  | Stopped => []
  end.

Lemma exits_end n : ∀ a,
  length (m_readers (as_mgr a)) = n → m_closing (as_mgr a) = Waiting → m_pump (as_mgr a) = Stopped →
  ∃ a', acts (replicate n (Exit 0) ++ [CloseEnd]) a = Ok a' ∧ m_closing (as_mgr a') = Closed.
Proof.
  induction n as [|n IH]; intros a Hl Hc Hp.
  - apply length_zero_iff_nil in Hl. eexists. split; [done|]. cbn. unfold closeAll_end. rewrite Hc, Hp, bool_decide_eq_true_2; done.
  - cbn [replicate app acts act]. bind. destruct (m_readers (as_mgr a)) as [|[k r] rest] eqn:Hrd; [done|]. cbn in Hl.
    assert (∃ m, reader_exit 0 (as_mgr a) = set_readers rest m ∧ m_closing m = m_closing (as_mgr a) ∧ m_pump m = m_pump (as_mgr a)) as (m & -> & Hc' & Hp').
    { unfold reader_exit. rewrite Hrd. cbn. unfold removeRelay.
      destruct (m_relays _) as [rs|]; [destruct (rs !! k)|]; cbn; rewrite ?Hrd; by eexists. }
    apply IH; cbn; [lia|congruence..].
Qed.

Lemma waiting_ends a :
  m_closing (as_mgr a) = Waiting →
  ∃ a', acts (pump_moves (m_pump (as_mgr a)) ++ replicate (length (m_readers (as_mgr a))) (Exit 0) ++ [CloseEnd]) a = Ok a' ∧
    m_closing (as_mgr a') = Closed.
Proof.
  intros Hc. assert (closed (as_mgr a) = true) as Hcl by (unfold closed; by rewrite Hc).
  destruct (m_pump (as_mgr a)) eqn:Hp; cbn [pump_moves app acts act]; bind;
    unfold flow_resolved, flow_dialled, pump_stop; rewrite ?Hp, ?Hcl; cbn [negb];
    try (destruct (resolution 0 (as_mgr a))); bind; try by apply exits_end.
  all: unfold pump_stop; cbn [m_pump set_pump as_mgr]; apply exits_end; cbn; by rewrite ?Hp.
Qed.

(** ** Where a connection goes *)

(** The address of a destination: the first of the addresses the resolver gave for
    its host that the tunnel can carry, if the limiter allows it. *)
Definition reaches (host : bytes) (port : Z) (target : bytes) : Prop :=
  ∃ n ips ip rest, lookup n host = Some ips ∧ filterUsableIPs ips hasV4 hasV6 = ip :: rest ∧ allow n ip = true ∧
    target = JoinHostPort (Addr_String ip) (dec port).

Lemma createRelay_reaches n host port t :
  createRelay (lookup n host) hasV4 hasV6 (allow n) port = Some t → reaches host port t.
Proof.
  unfold createRelay, reaches. destruct (lookup n host) as [ips|] eqn:Hl; [|done].
  destruct (filterUsableIPs ips hasV4 hasV6) as [|ip rest] eqn:Hf; [done|]. destruct (allow n ip) eqn:Ha; [|done].
  intros [= <-]. by exists n, ips, ip, rest.
Qed.

(** Every connection was dialled at an address of its destination, and the one being
    opened is. *)
Record aimed (a : association) : Prop := {
  am_pump f t : m_pump (as_mgr a) = Connecting f t → reaches (fl_host f) (fl_port f) t;
  am_dials : Forall2 (λ d t, reaches d.1 d.2 t) (as_dials a) (m_dialled (as_mgr a))
}.

(** A step that dials nothing. *)
Lemma aimed_same a m' cur fwd rep :
  aimed a → m_dialled m' = m_dialled (as_mgr a) →
  (∀ f t, m_pump m' = Connecting f t → m_pump (as_mgr a) = Connecting f t) →
  aimed (mkAssoc m' cur (as_dials a) fwd rep).
Proof. intros [Hp Hd] He Hf. split; cbn; [intros f t H; by apply Hp, Hf|by rewrite He]. Qed.

Lemma aimed_resolved n a m' f :
  aimed a → flow_resolved (resolution n (as_mgr a)) (as_mgr a) = (m', f) →
  aimed (mkAssoc m' (as_current a) (as_dials a) (forwarding (as_current a) f (as_forwarded a)) (as_replies a)).
Proof.
  intros Ha. unfold flow_resolved, resolution. destruct (m_pump (as_mgr a)) as [|fl|fl t|] eqn:Hp;
    [by intros [= <- <-]; apply aimed_same| |by intros [= <- <-]; apply aimed_same..].
  destruct (createRelay _ _ _ _ _) as [t|] eqn:Hc; [|by intros [= <- <-]; apply aimed_same].
  destruct (closed (as_mgr a)); [by intros [= <- <-]; apply aimed_same|].
  destruct (lookupRelay _ _); intros [= <- <-]; [by apply aimed_same|].
  split; cbn; [|apply Ha]. intros f' t' [= <- <-]. by eapply createRelay_reaches.
Qed.

Lemma aimed_dialled ok a a' : aimed a → act (Dialled ok) a = Ok a' → aimed a'.
Proof.
  intros Ha. cbn [act]. unfold flow_dialled. destruct (m_pump (as_mgr a)) as [| |fl t|] eqn:Hp;
    [by intros [= <-]; apply aimed_same..| |by intros [= <-]; apply aimed_same].
  destruct ok; cbn [negb]; bind; [|by intros [= <-]; apply aimed_same].
  assert (Forall2 (λ d t, reaches d.1 d.2 t) (as_dials a ++ [(fl_host fl, fl_port fl)]) (m_dialled (as_mgr a) ++ [t])) as Hd.
  { apply Forall2_app; [apply Ha|]. constructor; [|constructor]. by apply (am_pump _ Ha). }
  destruct (closed _); bind; [by intros [= <-]|]. destruct (m_relays _); [|done]. bind. by intros [= <-].
Qed.

Lemma aimed_act mv a a' : aimed a → act mv a = Ok a' → aimed a'.
Proof.
  intros Ha. destruct mv as [src data|n|ok| |i data|i| | |]; cbn [act];
    [| |by apply aimed_dialled|intros [= <-]; apply aimed_same; [done|..]| |intros [= <-]; apply aimed_same; [done|..]..].
  - destruct (m_pump (as_mgr a)) eqn:Hp; try by intros [= <-]. unfold client_datagram.
    destruct (authorise src (as_mgr a)) as [m1 [c|]] eqn:Hau;
      [apply authorise_Some in Hau as (_ & _ & -> & _)|apply authorise_None in Hau as ->; intros [= <-]; by apply aimed_same].
    destruct (parseUDPRequest data) as [[[h p] pl]|e|];
      [cbv zeta; destruct (lookupRelay _ _)|..]; intros [= <-]; by apply aimed_same.
  - destruct (flow_resolved _ _) as [m' f] eqn:Hf. intros [= <-]. by eapply aimed_resolved.
  - unfold pump_stop. by destruct (m_pump (as_mgr a)).
  - intros f t. unfold pump_stop. by destruct (m_pump (as_mgr a)) eqn:Hp; cbn; rewrite ?Hp.
  - destruct (m_readers (as_mgr a) !! i) as [[k r]|]; [|by intros [= <-]].
    destruct (target_reply r data (as_mgr a)) as [[c out]|]; intros [= <-]; [by apply aimed_same|done].
  - unfold reader_exit, removeRelay. by repeat case_match.
  - intros f t. unfold reader_exit, removeRelay. by repeat case_match.
  - unfold closeAll_begin. by repeat case_match.
  - intros f t. unfold closeAll_begin. by repeat case_match.
  - unfold closeAll_close. by repeat case_match.
  - intros f t. unfold closeAll_close. by repeat case_match.
  - unfold closeAll_end. by repeat case_match.
  - intros f t. unfold closeAll_end. destruct (m_closing (as_mgr a)), (m_pump (as_mgr a)) eqn:Hp; rewrite ?Hp; try done.
    destruct (bool_decide (m_readers (as_mgr a) = [])); cbn; by rewrite Hp.
Qed.

Lemma aimed_acts mvs : ∀ a a', aimed a → acts mvs a = Ok a' → aimed a'.
Proof.
  induction mvs as [|mv mvs IH]; intros a a' Ha; cbn [acts]; [by intros [= <-]|].
  intros (a1 & H1 & H2)%bind_Ok. by eapply IH, H2; eapply aimed_act.
Qed.

Lemma aimed_init ip port mvs a : acts mvs (as_init ip port) = Ok a → aimed a.
Proof. apply aimed_acts. by split; [|constructor]. Qed.

Lemma aimed_target a conn host port :
  aimed a → as_dials a !! conn = Some (host, port) →
  ∃ target, m_dialled (as_mgr a) !! conn = Some target ∧ reaches host port target.
Proof. intros [_ Hd] Hc. by destruct (Forall2_lookup_l _ _ _ _ _ Hd Hc) as (t & H1 & H2); exists t. Qed.

(** C16: an association relays for one source only, and each datagram to its own
    destination.  Whatever the client, the targets, the resolver, the limiter, the
    dials and [closeAll] do, in any order, every datagram forwarded came from an allowed
    address and port (those the request or the control connection gave) and from the
    one source locked by the first; it was forwarded with its own payload over a
    connection opened for the host and port of its header and dialled at that port of
    the first usable address the resolver gave for that host; and every reply went to
    that source with the header of the destination its connection was opened for. *)
Theorem udp_one_source ip port mvs :
  ∃ a, acts mvs (as_init ip port) = Ok a ∧
    (∀ s, s ∈ as_forwarded a →
       (allowed ip port (sn_src s) ∧ ∃ c, m_client (as_mgr a) = Some c ∧ same c (sn_src s)) ∧
       ∃ host dport, parseUDPRequest (sn_data s) = Ok (host, dport, sn_payload s) ∧
                     as_dials a !! sn_conn s = Some (host, dport) ∧
                     ∃ target, m_dialled (as_mgr a) !! sn_conn s = Some target ∧ reaches host dport target) ∧
    (∀ c out conn, (c, out, conn) ∈ as_replies a → m_client (as_mgr a) = Some c ∧
       ∃ host dport data, out = buildUDPReply host dport data ∧ as_dials a !! conn = Some (host, dport)).
Proof.
  destruct (audit_init ip port mvs) as (a & Ha & []). exists a. split; [done|]. split; [|done].
  apply aimed_init in Ha. intros s (H1 & host & dport & H2 & H3)%au_sent0. split; [done|].
  exists host, dport. split_and!; [done..|]. by apply aimed_target.
Qed.

(** C15: an association leaks no connection.  No order of the steps panics, in
    particular a dial that ends after [closeAll] never writes to the nil map; a
    connection not yet closed belongs to a running reader; once [closeAll] has begun
    no reader starts; while it waits, the connection of every reader is closed, so
    that each ends, and then it ends; and when it has ended, every connection ever
    opened is closed. *)
Theorem relays_released ip port mvs :
  ∃ a, acts mvs (as_init ip port) = Ok a ∧
    (∀ mv, ∃ a', act mv a = Ok a' ∧
       (closed (as_mgr a) = true → m_readers (as_mgr a') `sublist_of` m_readers (as_mgr a))) ∧
    (∀ c, (c < m_opened (as_mgr a))%nat → c ∈ m_shut (as_mgr a) ∨ ∃ kr, kr ∈ m_readers (as_mgr a) ∧ rl_conn kr.2 = c) ∧
    (m_closing (as_mgr a) = Waiting →
       (∀ kr, kr ∈ m_readers (as_mgr a) → rl_conn kr.2 ∈ m_shut (as_mgr a)) ∧
       ∃ mvs' a', acts mvs' a = Ok a' ∧ m_closing (as_mgr a') = Closed) ∧
    (m_closing (as_mgr a) = Closed → ∀ c, (c < m_opened (as_mgr a))%nat → c ∈ m_shut (as_mgr a)).
Proof.
  destruct (audit_init ip port mvs) as (a & Ha & Hau). exists a. split; [done|]. pose proof (au_relays _ _ _ Hau) as Hr. split_and!.
  - intros mv. destruct (audit_act _ _ _ mv Hau) as (a' & Hact & _). exists a'. split; [done|]. intros Hc. by eapply no_new_reader.
  - exact (ro_live _ _ Hr).
  - intros Hw. split; [intros kr Hkr%(ro_closing _ _ Hr); by rewrite Hw in Hkr|].
    destruct (waiting_ends a Hw) as (a' & H1 & H2). by eexists _, _.
  - intros Hcl c Hc. destruct (ro_live _ _ Hr c Hc) as [H|(kr & Hkr & _)]; [done|].
    apply (ro_closing _ _ Hr) in Hkr. by rewrite Hcl in Hkr.
Qed.
End association.

(** Two datagrams of one flow, a stranger's between them, a reply, and a dial that
    ends too late. *)
Definition client0 := mkUDPAddr [x7f; x00; x00; x01] 4000.
Definition to_ex : bytes := [x00; x00; x00; x03; x02; x65; x78; x00; x35; x61].
Definition to_quad : bytes := [x00; x00; x00; x01; x0a; x00; x00; x01; x00; x35; x62].
Definition some_names (n : nat) (host : bytes) : option (list Addr) :=
  Some [Addr6 1 (text "eth0"); if bool_decide (host = text "ex") then Addr4 167772162 else Addr4 167772161].
Example a_run :
  match acts some_names (λ _ _, true) true false [Datagram client0 to_ex; Resolved 0; Dialled true;
              Datagram (mkUDPAddr [x7f; x00; x00; x01] 4001) to_ex; Datagram client0 to_ex; Reply 0 (text "z");
              Datagram client0 to_quad; Resolved 1; CloseBegin; Dialled true;
              CloseTargets; Exit 0; CloseEnd] (as_init (Addr4 2130706433) 0) with
  | Ok a => sn_payload <$> as_forwarded a = [text "a"; text "a"] ∧
            as_replies a = [(client0, [x00; x00; x00; x03; x02; x65; x78; x00; x35; x7a], 0%nat)] ∧
            m_dialled (as_mgr a) = [text "10.0.0.2:53"; text "10.0.0.1:53"] ∧
            m_opened (as_mgr a) = 2%nat ∧ m_closing (as_mgr a) = Closed ∧ m_shut (as_mgr a) = {[0; 1]}%nat
  | _ => False
  end.
Proof. by vm_compute. Qed.
