(* ===== verification/SocksProxy.v ===== *)
(** The copying of a connected stream ([cmd/openvpn2socks/socks5_tcp.go], [proxy]):
    two goroutines, the deadlines they set, and the watcher of the context, as a
    transition system on the client and the tunnelled connection.  A direction is
    named by the side it reads from. *)
From S2P Require Import Prelude.
Local Open Scope Z_scope.

Inductive side : Type := ClientSide | RemoteSide.
#[export] Instance side_eq_dec : EqDecision side.
Proof. solve_decision. Defined.
Definition peer (s : side) : side := match s with ClientSide => RemoteSide | RemoteSide => ClientSide end.

(** A TCP connection, seen from the proxy: what its peer sent in all and what of
    it was not read yet, whether the peer is done, what the kernel took from the
    proxy, the two deadlines, and how it ended. *)
Record pconn := mkPconn {
  pk_sent : bytes;
  pk_pending : bytes;
  pk_fin : bool;
  pk_out : bytes;
  pk_readDeadline : option Z;
  pk_writeDeadline : option Z;
  pk_writeClosed : bool;
  pk_closed : bool;
  pk_reset : bool;
  pk_halfClose : bool     (* it implements [CloseWrite] *)
}.

(** A goroutine of [proxy]: writing what the reader of the greeting had read
    ahead; in the [Read] or in a [Write] of [io.Copy]; returned, after an end of
    stream or an error. *)
Inductive pump : Type :=
  | Flushing (b : bytes)
  | Reading
  | Writing (b : bytes)
  | Returned (eof : bool).

Record proxied := mkProxied {
  px_now : Z;
  px_cancelled : bool;
  px_client : pconn;
  px_remote : pconn;
  px_up : pump;
  px_down : pump
}.

Definition conn (s : side) (p : proxied) : pconn := match s with ClientSide => px_client p | RemoteSide => px_remote p end.
Definition pump_of (s : side) (p : proxied) : pump := match s with ClientSide => px_up p | RemoteSide => px_down p end.
Definition put_conn (s : side) (c : pconn) (p : proxied) : proxied :=
  match s with
  | ClientSide => mkProxied (px_now p) (px_cancelled p) c (px_remote p) (px_up p) (px_down p)
  | RemoteSide => mkProxied (px_now p) (px_cancelled p) (px_client p) c (px_up p) (px_down p)
  end.
Definition put_pump (s : side) (g : pump) (p : proxied) : proxied :=
  match s with
  | ClientSide => mkProxied (px_now p) (px_cancelled p) (px_client p) (px_remote p) g (px_down p)
  | RemoteSide => mkProxied (px_now p) (px_cancelled p) (px_client p) (px_remote p) (px_up p) g
  end.

Definition expired (d : option Z) (now : Z) : bool := match d with Some t => t <=? now | None => false end.

(** ** Operations of a connection *)

Definition set_input (sent pending : bytes) (fin : bool) (c : pconn) : pconn :=
  mkPconn sent pending fin (pk_out c) (pk_readDeadline c) (pk_writeDeadline c) (pk_writeClosed c) (pk_closed c) (pk_reset c) (pk_halfClose c).
Definition put_output (out : bytes) (c : pconn) : pconn :=
  mkPconn (pk_sent c) (pk_pending c) (pk_fin c) out (pk_readDeadline c) (pk_writeDeadline c) (pk_writeClosed c) (pk_closed c) (pk_reset c) (pk_halfClose c).
Definition set_deadlines (r w : option Z) (c : pconn) : pconn :=
  mkPconn (pk_sent c) (pk_pending c) (pk_fin c) (pk_out c) r w (pk_writeClosed c) (pk_closed c) (pk_reset c) (pk_halfClose c).
Definition set_ends (writeClosed closed reset : bool) (c : pconn) : pconn :=
  mkPconn (pk_sent c) (pk_pending c) (pk_fin c) (pk_out c) (pk_readDeadline c) (pk_writeDeadline c) writeClosed closed reset (pk_halfClose c).

Definition live (c : pconn) : bool := negb (pk_closed c || pk_reset c).
Definition writable (now : Z) (c : pconn) : bool :=
  live c && negb (pk_writeClosed c) && negb (expired (pk_writeDeadline c) now).
Definition readable (now : Z) (c : pconn) : bool := live c && negb (expired (pk_readDeadline c) now).

Definition conn_Close (c : pconn) : pconn := set_ends (pk_writeClosed c) true (pk_reset c) c.
(** [CloseWrite] where the connection has it, [Close] elsewhere. *)
Definition end_writes (c : pconn) : pconn :=
  if pk_halfClose c then set_ends true (pk_closed c) (pk_reset c) c else conn_Close c.

(** ** The program *)

(** [idleDeadline], with the clock readings of its two calls. *)
Definition idleDeadline (idle t1 t2 : Z) (client remote : pconn) : pconn * pconn :=
  if 0 <? idle
  then (set_deadlines (Some (t1 + idle)) (Some (t1 + idle)) client,
        set_deadlines (Some (t2 + idle)) (Some (t2 + idle)) remote)
  else (client, remote).

(** The beginning of [proxy]; [buffered] is what the reader of the greeting holds. *)
Definition proxy (idle t1 t2 : Z) (buffered : bytes) (client remote : pconn) : proxied :=
  let '(client, remote) := idleDeadline idle t1 t2 client remote in
  mkProxied t2 false client remote (if bool_decide (buffered = []) then Reading else Flushing buffered) Reading.

(** A goroutine ends its [io.Copy], and the writes to the other side with it. *)
Definition copy_returns (s : side) (eof : bool) (p : proxied) : proxied :=
  put_pump s (Returned eof) (put_conn (peer s) (end_writes (conn (peer s) p)) p).

(** What a [Read] into the 32 KiB of [io.Copy] returns when [n] bytes are there. *)
Definition copy_size (n : nat) : nat := Z.to_nat (Z.max 1 (Z.min (Z.of_nat n) 32768)).

(** A [Read] of [io.Copy] that gets up to [n] bytes; when it returns data, [writeDeadliner]
    sets the deadline of the [Write] that follows. *)
Definition copy_read (idle : Z) (s : side) (n : nat) (p : proxied) : proxied :=
  match pump_of s p with
  | Reading =>
      let src := conn s p in
      if negb (readable (px_now p) src) then copy_returns s false p
      else
        match pk_pending src with
        | [] => if pk_fin src then copy_returns s true p else p
        | _ =>
            let n := copy_size n in
            let chunk := take n (pk_pending src) in
            let p := put_conn s (set_input (pk_sent src) (drop n (pk_pending src)) (pk_fin src) src) p in
            let dst := conn (peer s) p in
            let p := put_conn (peer s) (if 0 <? idle then set_deadlines (pk_readDeadline dst) (Some (px_now p + idle)) dst else dst) p in
            put_pump s (Writing chunk) p
        end
  | _ => p
  end.

(** The kernel takes [n] bytes of a [Write]; when it has them all the goroutine
    goes on to its next [Read]. *)
Definition write_some (s : side) (n : nat) (p : proxied) : proxied :=
  let dst := conn (peer s) p in
  if negb (writable (px_now p) dst) then p
  else
    let go b wrap :=
      let p := put_conn (peer s) (put_output (pk_out dst ++ take n b) dst) p in
      put_pump s (if bool_decide (drop n b = []) then Reading else wrap (drop n b)) p in
    match pump_of s p with
    | Flushing b => go b Flushing
    | Writing b => go b Writing
    | _ => p
    end.

(** A [Write] fails: its connection is closed or reset, or its deadline passed.
    The write of the buffered bytes ignores that. *)
Definition write_fails (s : side) (p : proxied) : proxied :=
  if writable (px_now p) (conn (peer s) p) then p
  else
    match pump_of s p with
    | Flushing _ => put_pump s Reading p
    | Writing _ => copy_returns s false p
    | _ => p
    end.

Definition returned (g : pump) : bool := match g with Returned _ => true | _ => false end.

(** The watcher of the context, until both goroutines are done. *)
Definition proxy_watch (p : proxied) : proxied :=
  if px_cancelled p && negb (returned (px_up p) && returned (px_down p))
  then put_conn ClientSide (conn_Close (px_client p)) (put_conn RemoteSide (conn_Close (px_remote p)) p) else p.

Inductive pxstep : Type :=
  | PSend (s : side) (b : bytes)    (* the peer of a connection sends *)
  | PFin (s : side)
  | PReset (s : side)
  | PTime (d : nat)
  | PCancel
  | PWatch
  | PRead (s : side) (n : nat)
  | PWrite (s : side) (n : nat)
  | PFail (s : side).

Definition pxact (idle : Z) (st : pxstep) (p : proxied) : proxied :=
  match st with
  | PSend s b =>
      let c := conn s p in
      if live c && negb (pk_fin c) then put_conn s (set_input (pk_sent c ++ b) (pk_pending c ++ b) false c) p else p
  | PFin s => let c := conn s p in put_conn s (set_input (pk_sent c) (pk_pending c) true c) p
  | PReset s => let c := conn s p in put_conn s (set_ends (pk_writeClosed c) (pk_closed c) true c) p
  | PTime d => mkProxied (px_now p + Z.of_nat d) (px_cancelled p) (px_client p) (px_remote p) (px_up p) (px_down p)
  | PCancel => mkProxied (px_now p) true (px_client p) (px_remote p) (px_up p) (px_down p)
  | PWatch => proxy_watch p
  | PRead s n => copy_read idle s n p
  | PWrite s n => write_some s n p
  | PFail s => write_fails s p
  end.
Definition pxacts (idle : Z) (sts : list pxstep) (p : proxied) : proxied := foldl (λ p st, pxact idle st p) p sts.

(** ** What is carried *)

(** The bytes a direction is to carry: those read ahead, and those sent since. *)
Definition to_carry (buffered : bytes) (s : side) (p : proxied) : bytes :=
  match s with ClientSide => buffered | RemoteSide => [] end ++ pk_sent (conn s p).
Definition in_hand (g : pump) : bytes := match g with Flushing b | Writing b => b | _ => [] end.

Lemma expired_later d now now' : now ≤ now' → expired d now = true → expired d now' = true.
Proof. destruct d; cbn; [|done]. rewrite !Z.leb_le. lia. Qed.

Lemma conn_put s c p : conn s (put_conn s c p) = c.
Proof. by destruct s. Qed.
Lemma conn_put_peer s c p : conn s (put_conn (peer s) c p) = conn s p.
Proof. by destruct s. Qed.
Lemma conn_peer_put s c p : conn (peer s) (put_conn s c p) = conn (peer s) p.
Proof. by destruct s. Qed.
Lemma pump_put s g p : pump_of s (put_pump s g p) = g.
Proof. by destruct s. Qed.
Lemma pump_put_conn s s' c p : pump_of s (put_conn s' c p) = pump_of s p.
Proof. by destruct s, s'. Qed.
Lemma conn_put_pump s s' g p : conn s (put_pump s' g p) = conn s p.
Proof. by destruct s, s'. Qed.
Lemma now_put_conn s c p : px_now (put_conn s c p) = px_now p.
Proof. by destruct s. Qed.
Lemma now_put_pump s g p : px_now (put_pump s g p) = px_now p.
Proof. by destruct s. Qed.
Create Rewrite HintDb proxied.
#[export] Hint Rewrite conn_put conn_put_peer conn_peer_put pump_put pump_put_conn conn_put_pump now_put_conn now_put_pump : proxied.

Section carried.
Variable idle : Z.
Variable buffered : bytes.

(** A direction has its bytes in order, or has failed and writes no more. *)
Definition flows (s : side) (p : proxied) : Prop :=
  to_carry buffered s p = pk_out (conn (peer s) p) ++ in_hand (pump_of s p) ++ pk_pending (conn s p).
Definition stopped (s : side) (p : proxied) : Prop :=
  pk_out (conn (peer s) p) `prefix_of` to_carry buffered s p ∧
  (returned (pump_of s p) = true ∨ live (conn (peer s) p) = false ∨
   (pump_of s p = Reading ∧ expired (pk_readDeadline (conn s p)) (px_now p) = true)).

Record carried (s : side) (p : proxied) : Prop := {
  cv_flow : flows s p ∨ stopped s p;
  cv_eof : pump_of s p = Returned true →
    (pk_fin (conn s p) = true ∧ pk_out (conn (peer s) p) = to_carry buffered s p) ∨ live (conn (peer s) p) = false;
  cv_half : pk_writeClosed (conn (peer s) p) = true → returned (pump_of s p) = true;
  cv_flush b : pump_of s p = Flushing b →
    match pk_writeDeadline (conn (peer s) p) with
    | Some w => ∃ r, pk_readDeadline (conn s p) = Some r ∧ r ≤ w
    | None => True
    end
}.

(** What the other side, the clock and the peers do leaves a direction alone. *)
Lemma carried_ext s p p' :
  carried s p → pump_of s p' = pump_of s p → px_now p ≤ px_now p' →
  pk_sent (conn s p') = pk_sent (conn s p) → pk_pending (conn s p') = pk_pending (conn s p) →
  pk_readDeadline (conn s p') = pk_readDeadline (conn s p) →
  (pk_fin (conn s p) = true → pk_fin (conn s p') = true) →
  pk_out (conn (peer s) p') = pk_out (conn (peer s) p) →
  pk_writeDeadline (conn (peer s) p') = pk_writeDeadline (conn (peer s) p) →
  pk_writeClosed (conn (peer s) p') = pk_writeClosed (conn (peer s) p) →
  (live (conn (peer s) p) = false → live (conn (peer s) p') = false) → carried s p'.
Proof.
  intros [Hf He Hh Hb] Hg Hn Hs Hp Hr Hfin Ho Hw Hc Hl. split.
  - unfold flows, stopped, to_carry in *. rewrite Hg, Hs, Hp, Hr, Ho. destruct Hf as [Hf|[Hf Hd]]; [by left|right]. split; [done|].
    destruct Hd as [?|[?|[? ?]]]; [by left|right; left; auto|]. do 2 right. split; [done|]. by eapply expired_later.
  - unfold to_carry in *. rewrite Hg, Hs, Ho. intros H. destruct (He H) as [[? ?]|?]; auto.
  - rewrite Hg, Hc. done.
  - rewrite Hg, Hw, Hr. done.
Qed.

(** A direction that returns. *)
Lemma copy_returns_carried s eof p :
  carried s p → returned (pump_of s p) = false →
  (eof = true → pk_fin (conn s p) = true ∧ pump_of s p = Reading ∧ pk_pending (conn s p) = [] ∧
                (live (conn s p) && negb (expired (pk_readDeadline (conn s p)) (px_now p)) = true)) →
  carried s (copy_returns s eof p).
Proof.
  intros [Hf He Hh Hb] Hg Heof. unfold copy_returns. set (c := end_writes _).
  assert (pk_out c = pk_out (conn (peer s) p)) as Ho by (subst c; unfold end_writes; by destruct (pk_halfClose _)).
  assert (live (conn (peer s) p) = false → live c = false) as Hl.
  { subst c. unfold end_writes, live. intros H. destruct (pk_halfClose _); [done|]. done. }
  split; unfold flows, stopped, to_carry in *; autorewrite with proxied; rewrite ?Ho.
  - right. split; [|by left]. destruct Hf as [->|[? _]]; [by apply prefix_app_r|done].
  - intros [= ->]. destruct (Heof eq_refl) as (Hfin & Hr & Hp & Hx%andb_true_iff). destruct Hf as [Hf|[_ [Hd|[Hd|[_ Hd]]]]].
    + left. split; [done|]. by rewrite Hr, Hp, app_nil_r in Hf.
    + by rewrite Hr in Hd.
    + right. auto.
    + destruct Hx as [_ Hx]. by rewrite Hd in Hx.
  - done.
  - done.
Qed.

Lemma copy_size_pos n : (0 < copy_size n)%nat.
Proof. unfold copy_size. lia. Qed.

Lemma copy_read_carried s n p : carried s p → carried s (copy_read idle s n p).
Proof.
  intros Hc. unfold copy_read. destruct (pump_of s p) eqn:Hg; try done.
  destruct (readable (px_now p) (conn s p)) eqn:Hr; cbn [negb].
  2: { apply copy_returns_carried; [done|by rewrite Hg|done]. }
  destruct (pk_pending (conn s p)) as [|x l] eqn:Hp.
  { destruct (pk_fin (conn s p)) eqn:Hfin; [|done]. apply copy_returns_carried; [done|by rewrite Hg|]. by intros _. }
  rewrite <-Hp. set (k := copy_size n). cbv zeta. destruct Hc as [Hf He Hh Hb].
  assert (pk_writeClosed (conn (peer s) p) = false) as Hwc.
  { apply not_true_is_false. intros H%Hh. by rewrite Hg in H. }
  split; unfold flows, stopped, to_carry in *; autorewrite with proxied; cbn [set_input pk_sent pk_pending pk_fin pk_readDeadline returned in_hand].
  - replace (pk_out (if 0 <? idle then _ else _)) with (pk_out (conn (peer s) p)) by (by destruct (0 <? idle)).
    replace (live (if 0 <? idle then _ else _)) with (live (conn (peer s) p)) by (by destruct (0 <? idle)).
    rewrite Hg in Hf. destruct Hf as [Hf|[Hf [Hd|[Hd|[_ Hd]]]]]; [left|done|right|exfalso].
    + by rewrite Hf, take_drop.
    + split; [done|]. by right; left.
    + unfold readable in Hr. rewrite Hd in Hr. by rewrite andb_false_r in Hr.
  - done.
  - replace (pk_writeClosed (if 0 <? idle then _ else _)) with (pk_writeClosed (conn (peer s) p)) by (by destruct (0 <? idle)).
    by rewrite Hwc.
  - done.
Qed.

(** The kernel takes bytes only of a direction that flows. *)
Lemma write_some_carried s n p : carried s p → carried s (write_some s n p).
Proof.
  intros Hc. pose proof Hc as [Hf He Hh Hb]. unfold write_some. destruct (writable _ _) eqn:Hw; [cbn [negb]|done]. unfold writable in Hw.
  apply andb_true_iff in Hw as [[Hl Hwc]%andb_true_iff Hx].
  assert (∀ b, in_hand (pump_of s p) = b → returned (pump_of s p) = false → pump_of s p ≠ Reading →
    to_carry buffered s p = pk_out (conn (peer s) p) ++ b ++ pk_pending (conn s p)) as Hflow.
  { intros b <- Hnr Hng. destruct Hf as [Hf|[_ [Hd|[Hd|[Hd _]]]]]; [done|by rewrite Hnr in Hd|by rewrite Hd in Hl|done]. }
  destruct (pump_of s p) as [b| |b|] eqn:Hg; try done; specialize (Hflow b eq_refl eq_refl ltac:(done)).
  all: split; unfold flows, stopped, to_carry in *; autorewrite with proxied; cbn [put_output pk_out pk_writeClosed pk_writeDeadline];
    try (by case_bool_decide); try (intros H%Hh; by rewrite H in Hwc).
  all: try (left; rewrite Hflow, <-(take_drop n b) at 1; case_bool_decide as Hd; cbn [in_hand]; rewrite ?Hd, <-?app_assoc; done).
  intros b'. case_bool_decide; [done|]. intros _. by apply (Hb b).
Qed.

Lemma write_fails_carried s p : carried s p → carried s (write_fails s p).
Proof.
  intros Hc. unfold write_fails. destruct (writable _ _) eqn:Hw; [done|]. destruct (pump_of s p) as [b| |b|] eqn:Hg; try done.
  2: { apply copy_returns_carried; [done|by rewrite Hg|done]. }
  destruct Hc as [Hf He Hh Hb]. split; unfold flows, stopped, to_carry in *; autorewrite with proxied; try done.
  - right. split; [destruct Hf as [->|[? _]]; [by apply prefix_app_r|done]|]. right.
    destruct (live (conn (peer s) p)) eqn:Hl; [right|by left]. split; [done|]. unfold writable in Hw. rewrite Hl in Hw.
    destruct (pk_writeClosed (conn (peer s) p)) eqn:Hwc; [by specialize (Hh eq_refl); rewrite Hg in Hh|]. cbn in Hw.
    apply negb_false_iff in Hw. specialize (Hb b Hg). destruct (pk_writeDeadline _) as [w|]; [|done].
    destruct Hb as (r & -> & Hr). cbn in Hw |- *. rewrite Z.leb_le in *. lia.
  - intros H%Hh. by rewrite Hg in H.
Qed.

(** More from the peer. *)
Lemma send_carried s b p :
  live (conn s p) = true → pk_fin (conn s p) = false → carried s p →
  carried s (put_conn s (set_input (pk_sent (conn s p) ++ b) (pk_pending (conn s p) ++ b) false (conn s p)) p).
Proof.
  intros Hl Hfin [Hf He Hh Hb]. split; unfold flows, stopped, to_carry in *; autorewrite with proxied; cbn [set_input pk_sent pk_pending pk_fin pk_readDeadline]; try done.
  - destruct Hf as [Hf|[Hf Hd]]; [left|right; split; [|done]].
    + by rewrite app_assoc, Hf, <-!app_assoc.
    + rewrite app_assoc. by apply prefix_app_r.
  - intros H. right. destruct (He H) as [[H' _]|?]; [by rewrite Hfin in H'|done].
Qed.
End carried.

(** ** Every step *)

Ltac other_side H := apply (carried_ext _ _ _ _ H); cbn; try done; try lia; intros; auto.

Lemma live_end_writes c : live c = false → live (end_writes c) = false.
Proof. unfold end_writes, live. by destruct (pk_halfClose c). Qed.

Lemma end_writes_same c :
  pk_sent (end_writes c) = pk_sent c ∧ pk_pending (end_writes c) = pk_pending c ∧ pk_fin (end_writes c) = pk_fin c ∧
  pk_readDeadline (end_writes c) = pk_readDeadline c ∧ pk_writeDeadline (end_writes c) = pk_writeDeadline c.
Proof. unfold end_writes. by destruct (pk_halfClose c). Qed.

(** A direction does not disturb the other. *)
Lemma copy_returns_other buffered s eof p :
  carried buffered s p → carried buffered s (copy_returns (peer s) eof p).
Proof.
  intros H. destruct s; unfold copy_returns; cbn [peer conn].
  - destruct (end_writes_same (px_client p)) as (H1 & H2 & H3 & H4 & H5). other_side H. by rewrite H3.
  - destruct (end_writes_same (px_remote p)) as (H1 & H2 & H3 & H4 & H5). other_side H. by rewrite H3.
Qed.

Lemma other_direction idle buffered s p :
  carried buffered s p →
  (∀ n, carried buffered s (copy_read idle (peer s) n p)) ∧ (∀ n, carried buffered s (write_some (peer s) n p)) ∧
  carried buffered s (write_fails (peer s) p).
Proof.
  intros H. split_and!.
  - intros n. unfold copy_read. destruct (pump_of (peer s) p); try done. destruct (readable _ _); cbn [negb]; [|by apply copy_returns_other].
    destruct (pk_pending _); [destruct (pk_fin _); [by apply copy_returns_other|done]|].
    destruct s; cbn [peer conn put_conn put_pump px_client px_remote px_now]; destruct (0 <? idle); other_side H.
  - intros n. unfold write_some. destruct (writable _ _); [|done]. destruct s; cbn [negb peer conn pump_of]; case_match; try done; other_side H.
  - unfold write_fails. destruct (writable _ _); [done|]. destruct (pump_of (peer s) p) eqn:?; try done; [|by apply copy_returns_other].
    destruct s; other_side H.
Qed.

Lemma carried_step idle buffered st s p : carried buffered s p → carried buffered s (pxact idle st p).
Proof.
  intros H. destruct (other_direction idle _ _ _ H) as (Hr & Hw & Hx).
  destruct st as [s' b|s'|s'|d| | |s' n|s' n|s']; cbn [pxact].
  - destruct (live (conn s' p)) eqn:Hl; [|done]. destruct (pk_fin (conn s' p)) eqn:Hfin; [done|]. cbn [andb negb].
    destruct (decide (s' = s)) as [->|]; [by apply send_carried|]. destruct s, s'; try done; other_side H.
  - destruct s, s'; other_side H.
  - destruct s, s'; other_side H; unfold live; cbn; by rewrite orb_true_r.
  - destruct s; other_side H.
  - destruct s; other_side H.
  - unfold proxy_watch. destruct (px_cancelled p && _); [|done]. destruct s; other_side H.
  - destruct (decide (s' = s)) as [->|]; [by apply copy_read_carried|]. destruct s, s'; try done; apply Hr.
  - destruct (decide (s' = s)) as [->|]; [by apply write_some_carried|]. destruct s, s'; try done; apply Hw.
  - destruct (decide (s' = s)) as [->|]; [by apply write_fails_carried|]. destruct s, s'; try done; apply Hx.
Qed.

Lemma carried_all idle buffered sts s p : carried buffered s p → carried buffered s (pxacts idle sts p).
Proof. revert p. induction sts as [|st sts IH]; intros p H; [done|]. cbn. by apply IH, carried_step. Qed.

(** A connection as [handleConnect] hands it over. *)
Record handed_over (c : pconn) : Prop := {
  ho_input : pk_pending c = pk_sent c;
  ho_output : pk_out c = [] ∧ pk_writeClosed c = false;
  ho_deadlines : pk_readDeadline c = None ∧ pk_writeDeadline c = None
}.

Lemma carried_init idle t1 t2 buffered client remote s :
  t1 ≤ t2 → handed_over client → handed_over remote → carried buffered s (proxy idle t1 t2 buffered client remote).
Proof.
  intros Ht [Hc1 [Hc2 Hc3] [Hc4 Hc5]] [Hr1 [Hr2 Hr3] [Hr4 Hr5]]. unfold proxy, idleDeadline.
  destruct (0 <? idle); destruct s; split; unfold flows, stopped, to_carry; cbn; rewrite ?Hc1, ?Hc2, ?Hc3, ?Hr1, ?Hr2, ?Hr3, ?Hr5; try done.
  all: try by left. all: try (left; case_bool_decide as Hb; cbn; rewrite ?Hb; done). all: try by case_bool_decide.
  intros b _. exists (t1 + idle). split; [done|lia].
Qed.

(** What [carried] says of what was written. *)
Lemma carried_told buffered s p :
  carried buffered s p →
  pk_out (conn (peer s) p) `prefix_of` to_carry buffered s p ∧
  (pump_of s p = Returned true → live (conn (peer s) p) = true →
     pk_fin (conn s p) = true ∧ pk_out (conn (peer s) p) = to_carry buffered s p).
Proof.
  intros [Hf He _ _]. split.
  - destruct Hf as [Hf|[? _]]; [|done]. rewrite Hf. by apply prefix_app_r.
  - intros Hg Hl. destruct (He Hg) as [?|H]; [done|by rewrite Hl in H].
Qed.

(** The proxy carries a connection faithfully.  However the two peers, the
    clock, the kernel and the goroutines take turns, what each side was given is at
    every moment the beginning of what the other sent, the bytes read ahead during
    the greeting first; and a direction that ended by an end of stream delivered
    all of it, unless the connection it writes to is gone. *)
Theorem proxy_carries idle t1 t2 buffered client remote sts s :
  t1 ≤ t2 → handed_over client → handed_over remote →
  let p := pxacts idle sts (proxy idle t1 t2 buffered client remote) in
  pk_out (conn (peer s) p) `prefix_of` to_carry buffered s p ∧
  (pump_of s p = Returned true → live (conn (peer s) p) = true →
     pk_fin (conn s p) = true ∧ pk_out (conn (peer s) p) = to_carry buffered s p).
Proof.
  intros Ht Hc Hr p. by apply carried_told, carried_all, carried_init.
Qed.

(** ** How long *)

Section deadlines.
Variables idle t1 t2 : Z.

(** The deadline of the reads from a side is the one of the start. *)
Definition read_deadline (s : side) : option Z :=
  if 0 <? idle then Some (match s with ClientSide => t1 | RemoteSide => t2 end + idle) else None.
Definition timed (p : proxied) : Prop :=
  ∀ s, pk_readDeadline (conn s p) = read_deadline s ∧
       match pk_writeDeadline (conn s p) with Some w => 0 < idle ∧ w ≤ px_now p + idle | None => idle ≤ 0 end.

Lemma timed_ext p p' :
  timed p → px_now p ≤ px_now p' →
  (∀ s, pk_readDeadline (conn s p') = pk_readDeadline (conn s p) ∧
        (pk_writeDeadline (conn s p') = pk_writeDeadline (conn s p) ∨
         (0 < idle ∧ pk_writeDeadline (conn s p') = Some (px_now p + idle)))) → timed p'.
Proof.
  intros H Hn Hs s. destruct (H s) as [H1 H2], (Hs s) as [-> [->|[Hi ->]]].
  - split; [done|]. destruct (pk_writeDeadline _); [lia|done].
  - split; [done|lia].
Qed.

Lemma copy_returns_timed s eof p : timed p → timed (copy_returns s eof p).
Proof.
  intros H. apply (timed_ext p); [done|by destruct s|]. intros s'. pose proof (end_writes_same (px_client p)) as (_ & _ & _ & H1 & H2).
  pose proof (end_writes_same (px_remote p)) as (_ & _ & _ & H3 & H4). destruct s, s'; cbn; rewrite ?H1, ?H2, ?H3, ?H4; by split; [|left].
Qed.

Lemma timed_step st p : timed p → timed (pxact idle st p).
Proof.
  intros H. destruct st as [s b|s|s|d| | |s n|s n|s]; cbn [pxact]; unfold proxy_watch, copy_read, write_some, write_fails.
  all: repeat case_match; try done; try (by apply copy_returns_timed); cbv zeta.
  all: apply (timed_ext p); [done|try destruct s; cbn; lia|]; intros s'.
  all: try destruct s; destruct s'; cbn; rewrite ?Z.ltb_lt in *; auto.
Qed.

Lemma timed_all sts p : timed p → timed (pxacts idle sts p).
Proof. revert p. induction sts as [|st sts IH]; intros p H; [done|]. cbn. by apply IH, timed_step. Qed.

Lemma timed_init buffered client remote :
  t1 ≤ t2 → handed_over client → handed_over remote → timed (proxy idle t1 t2 buffered client remote).
Proof.
  intros Ht [_ _ [H1 H2]] [_ _ [H3 H4]] s. unfold proxy, idleDeadline, read_deadline.
  destruct (Z.ltb_spec 0 idle); destruct s; cbn; rewrite ?H1, ?H2, ?H3, ?H4; (split; [done|lia]).
Qed.
End deadlines.

(** No connection can be read or written any more. *)
Definition unusable (p : proxied) : Prop :=
  ∀ s, readable (px_now p) (conn s p) = false ∧ writable (px_now p) (conn s p) = false.

Lemma unusable_returns s eof p :
  unusable p →
  unusable (copy_returns s eof p) ∧ pump_of s (copy_returns s eof p) = Returned eof ∧
  pump_of (peer s) (copy_returns s eof p) = pump_of (peer s) p.
Proof.
  intros H. split; [|by destruct s]. intros s'. destruct (H s') as [H1 H2].
  assert (∀ c now, readable now c = false ∧ writable now c = false → readable now (end_writes c) = false ∧ writable now (end_writes c) = false) as He.
  { intros c now [H3 H4]. unfold end_writes, readable, writable, live in *. destruct (pk_halfClose c); cbn; [|done].
    split; [done|]. by rewrite andb_false_r. }
  unfold copy_returns. destruct s, s'; cbn; try (by split); by apply He.
Qed.

(** The end of one side: the write in progress fails, then the next read. *)
Definition end_side (s : side) : list pxstep := [PFail s; PRead s 1].

Lemma end_side_returns idle s p :
  unusable p →
  let p' := pxacts idle (end_side s) p in
  unusable p' ∧ returned (pump_of s p') = true ∧ pump_of (peer s) p' = pump_of (peer s) p.
Proof.
  intros H. cbn. unfold write_fails. destruct (H (peer s)) as [_ ->].
  assert (∀ q, unusable q → pump_of s q = Reading → copy_read idle s 1 q = copy_returns s false q) as Hr.
  { intros q Hq Hg. unfold copy_read. rewrite Hg. by destruct (Hq s) as [-> _]. }
  destruct (pump_of s p) as [b| |b|eof] eqn:Hg.
  - assert (unusable (put_pump s Reading p)) as Hu.
    { intros s'. destruct (H s') as [H1 H2]. by destruct s, s'. }
    rewrite Hr by (done || by autorewrite with proxied). destruct (unusable_returns s false _ Hu) as (H1 & -> & ->).
    split_and!; [done|done|by destruct s].
  - rewrite Hr by done. destruct (unusable_returns s false _ H) as (H1 & -> & H2). by split_and!.
  - destruct (unusable_returns s false _ H) as (H1 & H2 & H3). unfold copy_read. rewrite H2. by split_and!; [|rewrite H2|].
  - unfold copy_read. rewrite Hg. by split_and!; [|rewrite Hg|].
Qed.

Definition both_returned (p : proxied) : Prop := returned (px_up p) = true ∧ returned (px_down p) = true.

Lemma unusable_ends idle p : unusable p → both_returned (pxacts idle (end_side ClientSide ++ end_side RemoteSide) p).
Proof.
  intros H. unfold pxacts. rewrite foldl_app. destruct (end_side_returns idle ClientSide p H) as (H1 & H2 & _).
  destruct (end_side_returns idle RemoteSide _ H1) as (_ & H3 & H4). split; [|done]. cbn [pump_of peer] in H2, H4.
  unfold pxacts in H2, H4. by rewrite H4.
Qed.

Lemma proxy_watch_closes p : px_cancelled p = true → both_returned p ∨ unusable (proxy_watch p).
Proof.
  intros Hc. unfold proxy_watch. rewrite Hc. destruct (returned (px_up p) && returned (px_down p)) eqn:Hr.
  - left. by apply andb_true_iff in Hr.
  - right. by intros [].
Qed.

Lemma now_step idle st p : px_now p ≤ px_now (pxact idle st p).
Proof.
  destruct st as [s b|s|s|d| | |s n|s n|s]; cbn [pxact]; unfold proxy_watch, copy_read, write_some, write_fails, copy_returns.
  all: repeat case_match; try destruct s; cbn; lia.
Qed.
Lemma now_all idle sts p : px_now p ≤ px_now (pxacts idle sts p).
Proof. revert p. induction sts as [|st sts IH]; intros p; [done|]. cbn. etrans; [apply now_step|apply IH]. Qed.

Lemma both_returned_step idle st p : both_returned p → both_returned (pxact idle st p).
Proof.
  destruct p as [now x cl re [| | |] [| | |]]; intros [H1 H2]; cbn in H1, H2; try done.
  destruct st as [s b|s|s|d| | |s n|s n|s]; cbn [pxact]; unfold proxy_watch, copy_read, write_some, write_fails.
  all: try destruct s; cbn; repeat case_match; by split.
Qed.
Lemma both_returned_all idle sts p : both_returned p → both_returned (pxacts idle sts p).
Proof. revert p. induction sts as [|st sts IH]; intros p H; [done|]. cbn. by apply IH, both_returned_step. Qed.

(** The steps that end both goroutines. *)
Definition ending : list pxstep := end_side ClientSide ++ end_side RemoteSide.

(** ** No early end *)

Section early.
Variables idle t1 t2 : Z.

(** Why a goroutine may give up: a connection is gone, or [-idle] has passed since the
    copying began. *)
Definition spent (p : proxied) : Prop :=
  live (px_client p) = false ∨ live (px_remote p) = false ∨ (0 < idle ∧ t1 + idle ≤ px_now p).

Record patient (p : proxied) : Prop := {
  pt_timed : timed idle t1 t2 p;
  pt_now : t1 ≤ px_now p;
  pt_write s w : pk_writeDeadline (conn s p) = Some w → t1 + idle ≤ w;
  pt_half s : pk_writeClosed (conn (peer s) p) = true → returned (pump_of s p) = true;
  pt_gone s : pump_of s p = Returned false → spent p
}.

Lemma spent_step st p : spent p → spent (pxact idle st p).
Proof.
  intros H. assert (∀ s, live (conn s p) = false → live (conn s (pxact idle st p)) = false) as Hl.
  { intros s Hs. destruct st as [s' b|s'|s'|d| | |s' n|s' n|s']; cbn [pxact]; unfold proxy_watch, copy_read, write_some, write_fails, copy_returns.
    all: repeat case_match; try done; try destruct s'; destruct s; cbn in *; try done; try by apply live_end_writes.
    all: unfold live; cbn; by rewrite orb_true_r. }
  pose proof (now_step idle st p). destruct H as [H|[H|[H H']]].
  - left. exact (Hl ClientSide H).
  - right; left. exact (Hl RemoteSide H).
  - do 2 right. lia.
Qed.

Lemma live_spent s p : live (conn s p) = false → spent p.
Proof. destruct s; [by left|by right; left]. Qed.

Lemma unreadable_spent s p : t1 ≤ t2 → timed idle t1 t2 p → readable (px_now p) (conn s p) = false → spent p.
Proof.
  intros Ht Hd. unfold readable. destruct (live (conn s p)) eqn:Hl; [|intros _; by eapply live_spent].
  destruct (Hd s) as [-> _]. unfold read_deadline. destruct (Z.ltb_spec 0 idle); [|done]. cbn. intros He%negb_false_iff%Z.leb_le.
  do 2 right. destruct s; lia.
Qed.

Lemma unwritable_spent s p :
  patient p → returned (pump_of s p) = false → writable (px_now p) (conn (peer s) p) = false → spent p.
Proof.
  intros [Hd Hn Hw Hh Hg] Hr. unfold writable. destruct (live (conn (peer s) p)) eqn:Hl; [|intros _; by eapply live_spent].
  destruct (pk_writeClosed (conn (peer s) p)) eqn:Hc; [by rewrite (Hh s Hc) in Hr|]. destruct (Hd (peer s)) as [_ Hx].
  destruct (pk_writeDeadline (conn (peer s) p)) as [w|] eqn:Hwd; [|done]. cbn. intros He%negb_false_iff%Z.leb_le.
  apply Hw in Hwd. do 2 right. lia.
Qed.

Lemma gives_up_spent st p s :
  t1 ≤ t2 → patient p → pump_of s (pxact idle st p) = Returned false → spent p.
Proof.
  intros Ht Hp Hg.
  assert (pump_of s p = Returned false ∨ pump_of s p ≠ Returned false) as [He|Hne]
    by (destruct (pump_of s p) as [| | |[]]; by (left + right)); [by eapply pt_gone|].
  destruct st as [s' b|s'|s'|d| | |s' n|s' n|s']; cbn [pxact] in Hg;
    try (exfalso; apply Hne; rewrite <-Hg; repeat case_match; by autorewrite with proxied); try (exfalso; apply Hne, Hg).
  - exfalso. apply Hne. rewrite <-Hg. unfold proxy_watch. case_match; [|done]. by destruct s.
  - unfold copy_read in Hg. destruct (pump_of s' p) eqn:Hs'; try done. destruct (readable (px_now p) (conn s' p)) eqn:Hr; [|by eapply unreadable_spent, Hr; [|apply Hp]].
    exfalso. cbn [negb] in Hg. destruct (pk_pending (conn s' p)); [destruct (pk_fin (conn s' p)); [|done]|];
      destruct s, s'; cbn in *; try done; by destruct (0 <? idle).
  - exfalso. unfold write_some in Hg. destruct (writable _ _); [|done]. cbn [negb] in Hg.
    destruct (pump_of s' p) eqn:Hs'; try done; destruct s, s'; cbn in *; try done; by case_bool_decide.
  - unfold write_fails in Hg. destruct (writable _ _) eqn:Hw; [done|]. eapply (unwritable_spent s'); [done| |done].
    by destruct (pump_of s' p).
Qed.

Lemma end_writes_deadline c : pk_writeDeadline (end_writes c) = pk_writeDeadline c.
Proof. apply end_writes_same. Qed.

Lemma deadline_step st p s w :
  pk_writeDeadline (conn s (pxact idle st p)) = Some w →
  pk_writeDeadline (conn s p) = Some w ∨ w = px_now p + idle.
Proof.
  destruct st as [s' b|s'|s'|d| | |s' n|s' n|s']; cbn [pxact]; unfold proxy_watch, copy_read, write_some, write_fails, copy_returns.
  all: repeat case_match; try destruct s'; destruct s; cbn; rewrite ?end_writes_deadline; try (by left).
  all: intros [= <-]; by right.
Qed.

Lemma patient_step buffered st p :
  t1 ≤ t2 → (∀ s, carried buffered s (pxact idle st p)) → patient p → patient (pxact idle st p).
Proof.
  intros Ht Hc Hp. pose proof (now_step idle st p). split.
  - by apply timed_step, Hp.
  - etrans; [apply Hp|done].
  - intros s w [Hw| ->]%deadline_step; [by eapply (pt_write _ Hp)|]. pose proof (pt_now _ Hp). lia.
  - intros s. apply (cv_half _ _ _ (Hc s)).
  - intros s Hg. by eapply spent_step, gives_up_spent.
Qed.

Lemma patient_init buffered client remote :
  t1 ≤ t2 → handed_over client → handed_over remote → patient (proxy idle t1 t2 buffered client remote).
Proof.
  intros Ht Hc Hr. split; [by apply timed_init|..]; destruct Hc as [_ [_ H1] [_ H2]], Hr as [_ [_ H3] [_ H4]];
    unfold proxy, idleDeadline; destruct (0 <? idle); cbn; try done; intros [].
  all: cbn; rewrite ?H1, ?H2, ?H3, ?H4; try done; try (intros ? [= <-]; lia); by case_bool_decide.
Qed.

Lemma patient_all buffered client remote sts :
  t1 ≤ t2 → handed_over client → handed_over remote →
  patient (pxacts idle sts (proxy idle t1 t2 buffered client remote)).
Proof.
  intros Ht Hc Hr. pose proof (patient_init buffered _ _ Ht Hc Hr) as Hp.
  assert (∀ s, carried buffered s (proxy idle t1 t2 buffered client remote)) as Hcar by (intros s; by apply carried_init).
  revert Hp Hcar. generalize (proxy idle t1 t2 buffered client remote). induction sts as [|st sts IH]; intros p Hp Hcar; [done|].
  cbn. assert (∀ s, carried buffered s (pxact idle st p)) as Hcar' by (intros s; by apply carried_step).
  apply IH; [by eapply patient_step|done].
Qed.
End early.
(** C19: a proxied connection ends, and not too soon.  A goroutine that gives up, on
    an error and not at an end of stream, does so only when a connection was closed or
    reset or, with [-idle], when that much time has passed since the copying began;
    without it, time ends nothing.  And the goroutines can always end: after a
    cancelled context the watcher unblocks both, and otherwise [-idle] without
    progress does. *)
Theorem proxy_lifetime idle t1 t2 buffered client remote sts :
  t1 ≤ t2 → handed_over client → handed_over remote →
  let p := pxacts idle sts (proxy idle t1 t2 buffered client remote) in
  (∀ s, pump_of s p = Returned false →
     live (px_client p) = false ∨ live (px_remote p) = false ∨ (0 < idle ∧ t1 + idle ≤ px_now p)) ∧
  (px_cancelled p = true → both_returned (pxacts idle (PWatch :: ending) p)) ∧
  (0 < idle → both_returned (pxacts idle (PTime (Z.to_nat idle) :: ending) p)).
Proof.
  intros Ht Hc Hr p. pose proof (patient_all idle t1 t2 buffered client remote sts Ht Hc Hr) as Hp. fold p in Hp.
  assert (timed idle t1 t2 p) as Hd by apply Hp. split_and!.
  - exact (pt_gone _ _ _ _ Hp).
  - intros Hx. cbn [pxacts foldl pxact]. destruct (proxy_watch_closes p Hx) as [H|H]; [|by apply unusable_ends].
    by apply both_returned_all, (both_returned_step idle PWatch).
  - intros Hi. cbn [pxacts foldl]. apply unusable_ends. intros s. destruct (Hd s) as [H1 H2].
    pose proof (now_all idle sts (proxy idle t1 t2 buffered client remote)) as Hn. change (pxacts _ _ _) with p in Hn.
    assert (px_now (proxy idle t1 t2 buffered client remote) = t2) as Hn0 by (unfold proxy; by destruct (idleDeadline _ _ _ _ _)).
    rewrite Hn0 in Hn. assert (conn s (pxact idle (PTime (Z.to_nat idle)) p) = conn s p) as -> by (by destruct s).
    change (px_now (pxact _ _ _)) with (px_now p + Z.of_nat (Z.to_nat idle)). unfold readable, writable. rewrite H1. unfold read_deadline.
    rewrite (proj2 (Z.ltb_lt _ _) Hi). destruct (pk_writeDeadline (conn s p)) as [w|]; [|lia]. cbn [expired].
    rewrite (proj2 (Z.leb_le _ _)) by (destruct s; lia). rewrite (proj2 (Z.leb_le w _)) by lia. by rewrite !andb_false_r.
Qed.

(** ** Concrete connections *)

Definition idle0 : Z := 600.
Definition tcp (sent : bytes) (fin : bool) : pconn := mkPconn sent sent fin [] None None false false false true.
(** A minute of traffic: the client sends a byte and the proxy delivers it. *)
Definition minute : list pxstep := [PTime 59; PSend ClientSide [x01]; PRead ClientSide 9; PWrite ClientSide 9; PTime 1].

Definition flushed : list pxstep :=
  [PWrite ClientSide 1; PRead ClientSide 5; PWrite ClientSide 5; PRead ClientSide 5; PWrite ClientSide 5; PRead ClientSide 5].

Lemma proxy_carries_witness :
  pk_out (px_remote (pxacts 600 flushed (proxy 600 0 1 [x01; x02] (tcp [x03] true) (tcp [] false)))) = [x01; x02; x03].
Proof.
  destruct (proxy_carries 600 0 1 [x01; x02] (tcp [x03] true) (tcp [] false) flushed ClientSide
    ltac:(lia) ltac:(by repeat split) ltac:(by repeat split)) as [_ H].
  destruct (H ltac:(vm_compute; reflexivity) ltac:(vm_compute; reflexivity)) as [_ He].
  etrans; [exact He|]. vm_compute. reflexivity.
Defined.

(** The deadline of the reads is not moved by what they return: ten minutes of
    traffic end a connection with [-idle 10m], a second after its last byte. *)
Example busy_connection_cut :
  let p := pxacts idle0 (concat (replicate 9 minute) ++ [PTime 59; PSend ClientSide [x01]; PRead ClientSide 9; PWrite ClientSide 9]) (proxy idle0 0 0 [] (tcp [] false) (tcp [] false)) in
  length (pk_out (px_remote p)) = 10%nat ∧ px_up p = Reading ∧
  px_up (pxacts idle0 [PTime 1; PSend ClientSide [x02]; PRead ClientSide 9] p) = Returned false.
Proof. by vm_compute. Qed.

Lemma proxy_lifetime_witness :
  let p := pxacts idle0 minute (proxy idle0 0 0 [] (tcp [] false) (tcp [] false)) in
  px_up p = Reading ∧ px_down p = Reading ∧ both_returned (pxacts idle0 (PTime 600 :: ending) p).
Proof.
  intros p. split_and!; [by vm_compute..|].
  exact (proj2 (proj2 (proxy_lifetime idle0 0 0 [] (tcp [] false) (tcp [] false) minute
    ltac:(lia) ltac:(by repeat split) ltac:(by repeat split))) ltac:(done)).
Defined.
