(* ===== verification/Cli.v ===== *)
(** The command line of the proxy ([cmd/openvpn2socks/config.go], [main.go]): the
    configuration it dials, from a profile or from flags, and what [run] builds
    from the options once the tunnel is up.  Files, certificates and the tunnel
    are arguments. *)
From S2P Require Import Prelude Text Netip Dial OvpnLex Ovpn.
From S2P Require Import Resolver Socks.
Local Open Scope Z_scope.

Record cliOpts := mkCliOpts {
  co_configFile : bytes;
  co_server : bytes;
  co_network : bytes;
  co_user : bytes;
  co_pass : bytes;
  co_caFile : bytes;
  co_certFile : bytes;
  co_keyFile : bytes;
  co_tlsCryptFile : bytes;
  co_tlsCryptV2File : bytes;
  co_tlsAuthFile : bytes;
  co_auth : bytes;
  co_ciphers : bytes;
  co_port : bytes;
  co_sni : bytes;
  co_handshakeT : Z;
  co_listen : bytes;
  co_socksAuth : bytes;
  co_dns : bytes;
  co_idle : Z;
  co_verbose : bool;
  co_allowNoServerIdentity : bool
}.

(** The defaults of [parseFlags], with the two environment variables. *)
Definition parseFlags_defaults (user pass : bytes) : cliOpts :=
  mkCliOpts [] [] (text "udp") user pass [] [] [] [] [] [] [] [] [] [] (45 * Second) (text "127.0.0.1:1080") [] []
    (10 * 60 * Second) false false.

Inductive cli_error : Type :=
  | CParse (e : ovpn_error)
  | CNeedsAuth
  | CRead (path : bytes)
  | CNoServer
  | CControlKeys
  | CNoCertificates
  | CPairIncomplete
  | CPair
  | CDial
  | CDns
  | CDnsFamily
  | CSocksAuth.

Definition blank (b : bytes) : bool := bool_decide (b = []).

(** Fields of a configuration the flags replace. *)
Definition with_ciphers (cs : list string) (c : Config) : Config :=
  mkConfig (cf_Network c) (cf_RemoteAddr c) (cf_Scramble c) (cf_TLSConfig c) (cf_Username c) (cf_Password c)
    (cf_TLSCryptV1 c) (cf_TLSCryptV2 c) (cf_TLSAuth c) (cf_Auth c) (cf_KeyDirection c) (cf_PeerInfoExtra c) cs
    (cf_HandshakeTimeout c) (cf_Reneg c) (cf_AutoReconnect c) (cf_ReconnectMaxAttempts c) (cf_ReconnectMaxInterval c)
    (cf_MaxConsecutiveStalls c) (cf_StableSessionThreshold c) (cf_PeerInfoVersion c).
Definition with_auth (a : string) (c : Config) : Config :=
  mkConfig (cf_Network c) (cf_RemoteAddr c) (cf_Scramble c) (cf_TLSConfig c) (cf_Username c) (cf_Password c)
    (cf_TLSCryptV1 c) (cf_TLSCryptV2 c) (cf_TLSAuth c) a (cf_KeyDirection c) (cf_PeerInfoExtra c) (cf_Ciphers c)
    (cf_HandshakeTimeout c) (cf_Reneg c) (cf_AutoReconnect c) (cf_ReconnectMaxAttempts c) (cf_ReconnectMaxInterval c)
    (cf_MaxConsecutiveStalls c) (cf_StableSessionThreshold c) (cf_PeerInfoVersion c).
Definition with_keys (v1 v2 auth : bytes) (dir : Z) (c : Config) : Config :=
  mkConfig (cf_Network c) (cf_RemoteAddr c) (cf_Scramble c) (cf_TLSConfig c) (cf_Username c) (cf_Password c)
    v1 v2 auth (cf_Auth c) dir (cf_PeerInfoExtra c) (cf_Ciphers c)
    (cf_HandshakeTimeout c) (cf_Reneg c) (cf_AutoReconnect c) (cf_ReconnectMaxAttempts c) (cf_ReconnectMaxInterval c)
    (cf_MaxConsecutiveStalls c) (cf_StableSessionThreshold c) (cf_PeerInfoVersion c).
Definition with_run (timeout : Z) (reconnect : bool) (stalls : Z) (c : Config) : Config :=
  mkConfig (cf_Network c) (cf_RemoteAddr c) (cf_Scramble c) (cf_TLSConfig c) (cf_Username c) (cf_Password c)
    (cf_TLSCryptV1 c) (cf_TLSCryptV2 c) (cf_TLSAuth c) (cf_Auth c) (cf_KeyDirection c) (cf_PeerInfoExtra c) (cf_Ciphers c)
    timeout (cf_Reneg c) reconnect (cf_ReconnectMaxAttempts c) (cf_ReconnectMaxInterval c)
    stalls (cf_StableSessionThreshold c) (cf_PeerInfoVersion c).

(** The remote of the profile: the one with the port of [-port], or the first.
    The parser calls it with at least one remote. *)
Definition pick_port (port : bytes) (remotes : list Remote) : Remote :=
  let first := hd (mkRemote [] [] []) remotes in
  if blank port then first
  else match list_find (λ r, rm_Port r = port) remotes with Some (_, r) => r | None => first end.

Definition parse_options (o : cliOpts) : ParseOptions :=
  mkParseOptions [] (co_user o) (co_pass o) (co_sni o) (co_allowNoServerIdentity o) (Some (pick_port (co_port o))).

Section cli.
(** [os.ReadFile], and the checks of crypto/x509 and crypto/tls on PEM data. *)
Variable readFile : bytes → option bytes.
Variable AppendCertsFromPEM : bytes → bool.
Variable X509KeyPair : bytes → bytes → bool.

Definition ReadFile (path : bytes) : res cli_error bytes :=
  match readFile path with Some b => Ok b | None => Err (CRead path) end.

(** A file if its flag is given. *)
Definition read_flag (path : bytes) : res cli_error bytes := if blank path then Ok [] else ReadFile path.

Definition loadFromOvpnFile (rnd : nat) (o : cliOpts) : res cli_error Config :=
  parsed ← map_err CParse (ParseFile readFile AppendCertsFromPEM X509KeyPair (co_configFile o) rnd (parse_options o)).2;
  let cfg := pd_Config parsed in
  guard_err (pd_AuthUserPass parsed && (blank (cf_Username cfg) || blank (cf_Password cfg))) CNeedsAuth;;
  let cfg := if blank (co_ciphers o) then cfg else with_ciphers (str <$> Split (co_ciphers o) colon) cfg in
  let cfg := if blank (co_auth o) then cfg else with_auth (str (co_auth o)) cfg in
  if blank (co_tlsAuthFile o) then Ok cfg
  else
    b ← ReadFile (co_tlsAuthFile o);
    Ok (with_keys [] [] b (if cf_KeyDirection cfg =? 0 then 1 else cf_KeyDirection cfg) cfg).

Definition flag_roots (o : cliOpts) : res cli_error (option (list bytes)) :=
  if blank (co_caFile o) then Ok None
  else
    b ← ReadFile (co_caFile o);
    guard_err (negb (AppendCertsFromPEM b)) CNoCertificates;;
    Ok (Some [b]).

(** [tls.LoadX509KeyPair] reads the certificate, then the key. *)
Definition flag_pair (o : cliOpts) : res cli_error (option (bytes * bytes)) :=
  guard_err (negb (Bool.eqb (blank (co_certFile o)) (blank (co_keyFile o)))) CPairIncomplete;;
  if blank (co_certFile o) then Ok None
  else
    c ← ReadFile (co_certFile o);
    k ← ReadFile (co_keyFile o);
    guard_err (negb (X509KeyPair c k)) CPair;;
    Ok (Some (c, k)).

Definition loadFromFlags (o : cliOpts) : res cli_error Config :=
  guard_err (blank (co_server o)) CNoServer;;
  let ctrlKeys := length (filter (λ f, f ≠ []) [co_tlsCryptFile o; co_tlsCryptV2File o; co_tlsAuthFile o]) in
  guard_err (negb (ctrlKeys =? 1)%nat) CControlKeys;;
  roots ← flag_roots o;
  pair ← flag_pair o;
  let tlsCfg := mkTLSConfig 0x0303 0 (co_sni o) roots false None pair in
  v1 ← read_flag (co_tlsCryptFile o);
  v2 ← read_flag (co_tlsCryptV2File o);
  auth ← read_flag (co_tlsAuthFile o);
  let withAuth := negb (blank (co_tlsAuthFile o)) in
  Ok (mkConfig (co_network o) (co_server o) None (Some tlsCfg) (co_user o) (co_pass o) v1 v2 auth
        (if withAuth then str (co_auth o) else "") (if withAuth then 1 else 0) ∅
        (if blank (co_ciphers o) then [] else str <$> Split (co_ciphers o) colon) 0 0 false 0 0 0 0 "").

Definition loadConfig (rnd : nat) (o : cliOpts) : res cli_error Config :=
  if blank (co_configFile o) then loadFromFlags o else loadFromOvpnFile rnd o.

(** ** [run] *)

(** What the tunnel gives once it is up. *)
Record tunnel_up := mkTunnelUp { tu_dns : list Addr; tu_hasV4 : bool; tu_hasV6 : bool }.

Definition isLoopbackListen (addr : bytes) : bool :=
  match ParseAddrPort addr with
  | Some ap => IsLoopback (ap_addr ap)
  | None =>
      match SplitHostPort addr with
      | Ok (host, _) =>
          if blank host then false
          else if bool_decide (host = text "localhost") then true
          else match ParseAddr host with Some ip => IsLoopback ip | None => false end
      | _ => false
      end
  end.

Definition parseDNSFlag (s : bytes) : option AddrPort :=
  match ParseAddrPort s with
  | Some ap => Some ap
  | None => match ParseAddr s with Some ip => Some (mkAddrPort ip 53) | None => None end
  end.

(** The [-dns] override, which must be of a family of the tunnel. *)
Definition dns_override (o : cliOpts) (up : tunnel_up) : res cli_error AddrPort :=
  if blank (co_dns o) then Ok (mkAddrPort AddrZero 0)
  else
    match parseDNSFlag (co_dns o) with
    | None => Err CDns
    | Some ap =>
        guard_err (Is4 (ap_addr ap) && negb (tu_hasV4 up)) CDnsFamily;;
        guard_err (Is6 (ap_addr ap) && negb (tu_hasV6 up)) CDnsFamily;;
        Ok ap
    end.

(** What serves the clients, and whether the operator was warned. *)
Record started := mkStarted {
  st_config : Config;
  st_resolver : resolver;
  st_server : socks5Server;
  st_warned : bool
}.

(** [run] up to the accept loop; [dial] is the dial of the client and of the
    network stack on top of it. *)
Definition run (rnd : nat) (dial : Config → option tunnel_up) (o : cliOpts) : res cli_error started :=
  cfg ← loadConfig rnd o;
  let cfg := with_run (co_handshakeT o) true 3 cfg in
  match dial cfg with
  | None => Err CDial
  | Some up =>
      override ← dns_override o up;
      let r := newResolver (tu_dns up) override in
      let warned := blank (co_socksAuth o) && negb (isLoopbackListen (co_listen o)) in
      match newSOCKS5 (co_socksAuth o) with
      | None => Err CSocksAuth
      | Some srv => Ok (mkStarted cfg r srv warned)
      end
  end.
End cli.

Example listens :
  (isLoopbackListen ∘ text) <$> ["127.0.0.1:1080"; "[::1]:1080"; "localhost:1080"; "[::ffff:127.0.0.1]:1"; "127.9.9.9:http"] =
    [true; true; true; true; true] ∧
  (isLoopbackListen ∘ text) <$> [":1080"; "0.0.0.0:1080"; "[::]:1080"; "127.0.0.1"; "Localhost:1"; "[::1:1"] =
    [false; false; false; false; false; false] ∧
  parseDNSFlag (text "9.9.9.9") = Some (mkAddrPort (Addr4 0x09090909) 53) ∧
  parseDNSFlag (text "[fd00::1]:5353") = Some (mkAddrPort (Addr6 0xfd000000000000000000000000000001 []) 5353) ∧
  parseDNSFlag (text "fd00::1") = Some (mkAddrPort (Addr6 0xfd000000000000000000000000000001 []) 53) ∧
  parseDNSFlag (text "dns.example") = None.
Proof. by vm_compute. Qed.
