(* ===== verification/CliFacts.v ===== *)
(** What holds of the command line of the proxy: the configuration it dials is one
    the client accepts and never trusts an unverified server, and a proxy without
    credentials listens on the loopback interface only, or the operator is warned. *)
From S2P Require Import Prelude Text Netip DataKeys Dial OvpnLex Ovpn OvpnFacts Resolver Socks Cli.
Local Open Scope Z_scope.

(** ** The configuration *)

Section cli_facts.
Variable readFile : bytes → option bytes.
Variable AppendCertsFromPEM : bytes → bool.
Variable X509KeyPair : bytes → bytes → bool.

Lemma blank_true b : blank b = true ↔ b = [].
Proof. unfold blank. by rewrite bool_decide_eq_true. Qed.
Lemma blank_false b : blank b = false ↔ b ≠ [].
Proof. unfold blank. by rewrite bool_decide_eq_false. Qed.

Lemma ReadFile_no_panic path : no_panic (ReadFile readFile path).
Proof. unfold ReadFile. by destruct (readFile path). Qed.
Lemma read_flag_no_panic path : no_panic (read_flag readFile path).
Proof. unfold read_flag. destruct (blank path); [done|apply ReadFile_no_panic]. Qed.
Lemma ReadFile_Ok path b : ReadFile readFile path = Ok b ↔ readFile path = Some b.
Proof. unfold ReadFile. destruct (readFile path); naive_solver. Qed.
Lemma read_flag_Ok path b :
  read_flag readFile path = Ok b → (path = [] ∧ b = []) ∨ (path ≠ [] ∧ readFile path = Some b).
Proof.
  unfold read_flag. destruct (blank path) eqn:Hp; [apply blank_true in Hp|apply blank_false in Hp].
  - intros [= <-]. by left.
  - intros H%ReadFile_Ok. by right.
Qed.

(** The profile, as [ParseFile] leaves it. *)
Lemma file_spec path rnd opt :
  match (ParseFile readFile AppendCertsFromPEM X509KeyPair path rnd opt).2 with
  | Ok p => ∃ s opt', po_ServerNameOverride opt' = po_ServerNameOverride opt ∧
      po_AllowNoServerIdentity opt' = po_AllowNoServerIdentity opt ∧ st_ok opt' s ∧ finalized rnd s p
  | Err _ => True
  | Panic => False
  end.
Proof.
  unfold ParseFile. destruct (readFile path) as [data|]; [|done]. cbv zeta. set (opt' := if bool_decide _ then _ else _).
  pose proof (profile_spec readFile AppendCertsFromPEM X509KeyPair opt' data None rnd) as H.
  destruct (Parse _ _ _ _ _ _ _).2 as [p|e|]; [|done|done]. destruct H as (s & Hs & Hf). exists s, opt'.
  split_and!; try done; subst opt'; by case_bool_decide.
Qed.

(** What the client makes of a configuration: its own checks pass, unless the key
    file of a flag is empty. *)
Record cli_ready (o : cliOpts) (cfg : Config) : Prop := {
  cr_tls : ∃ t, cf_TLSConfig cfg = Some t ∧ 0x0303 ≤ tc_MinVersion t ∧ (co_sni o ≠ [] → tc_ServerName t = co_sni o);
  cr_keys : Dial_checks cfg = Ok tt ∨
    (Dial_checks cfg = Err DNoControlKey ∧
     ∃ path, path ∈ [co_tlsCryptFile o; co_tlsCryptV2File o; co_tlsAuthFile o] ∧ path ≠ [] ∧ readFile path = Some []);
  cr_ciphers : if blank (co_ciphers o) then Forall (λ c, ∃ n, AEADKeyLen c = Ok n) (cf_Ciphers cfg)
               else cf_Ciphers cfg = str <$> Split (co_ciphers o) colon;
  cr_auth : co_tlsAuthFile o ≠ [] → readFile (co_tlsAuthFile o) = Some (cf_TLSAuth cfg) ∧
    cf_TLSCryptV1 cfg = [] ∧ cf_TLSCryptV2 cfg = [] ∧ cf_KeyDirection cfg = 1
}.

(** A configuration before the key of [-tls-auth]. *)
Record base_ok (o : cliOpts) (cfg : Config) : Prop := {
  bo_tls : ∃ t, cf_TLSConfig cfg = Some t ∧ 0x0303 ≤ tc_MinVersion t ∧ (co_sni o ≠ [] → tc_ServerName t = co_sni o);
  bo_scramble : validateScramble (cf_Scramble cfg) = None;
  bo_ciphers : if blank (co_ciphers o) then Forall (λ c, ∃ n, AEADKeyLen c = Ok n) (cf_Ciphers cfg)
               else cf_Ciphers cfg = str <$> Split (co_ciphers o) colon;
  bo_dir : cf_KeyDirection cfg ∈ [0; 1]
}.

Lemma checks_Ok cfg :
  validateScramble (cf_Scramble cfg) = None →
  one_control_key (cf_TLSCryptV1 cfg) (cf_TLSCryptV2 cfg) (cf_TLSAuth cfg) → Dial_checks cfg = Ok tt.
Proof. intros Hs Hk. unfold Dial_checks. by rewrite Hs, (proj2 (validateControlChannel_iff cfg)). Qed.

Lemma checks_empty cfg :
  validateScramble (cf_Scramble cfg) = None →
  cf_TLSCryptV1 cfg = [] → cf_TLSCryptV2 cfg = [] → cf_TLSAuth cfg = [] → Dial_checks cfg = Err DNoControlKey.
Proof. intros Hs H1 H2 H3. unfold Dial_checks, validateControlChannel. by rewrite Hs, H1, H2, H3. Qed.

Lemma profile_base o p s opt' rnd :
  po_ServerNameOverride opt' = co_sni o → st_ok opt' s → finalized rnd s p →
  let cfg := pd_Config p in
  let cfg := if blank (co_ciphers o) then cfg else with_ciphers (str <$> Split (co_ciphers o) colon) cfg in
  let cfg := if blank (co_auth o) then cfg else with_auth (str (co_auth o)) cfg in
  base_ok o cfg ∧ one_control_key (cf_TLSCryptV1 cfg) (cf_TLSCryptV2 cfg) (cf_TLSAuth cfg).
Proof.
  intros Hov Hs Hf. pose proof (final_ready readFile AppendCertsFromPEM X509KeyPair _ _ _ _ Hs Hf) as (Hd & _ & _ & _ & Hc & Hdir & (t & Ht & Hm & _) & _).
  pose proof (λ t, final_name _ _ _ _ t Hs Hf) as Hname. cbv zeta in Hd, Hc, Hdir, Ht.
  assert (validateScramble (cf_Scramble (pd_Config p)) = None) as Hsc.
  { unfold Dial_checks in Hd. by destruct (validateScramble _). }
  assert (validateControlChannel (pd_Config p) = None) as Hk%validateControlChannel_iff.
  { unfold Dial_checks in Hd. rewrite Hsc in Hd. by destruct (validateControlChannel _). }
  cbv zeta. split.
  - split.
    + exists t. rewrite <-Hov. split_and!; [by destruct (blank (co_ciphers o)), (blank (co_auth o))|done|by apply Hname].
    + by destruct (blank (co_ciphers o)), (blank (co_auth o)).
    + by destruct (blank (co_ciphers o)), (blank (co_auth o)).
    + by destruct (blank (co_ciphers o)), (blank (co_auth o)).
  - by destruct (blank (co_ciphers o)), (blank (co_auth o)).
Qed.

Lemma loadFromOvpnFile_ready rnd o cfg :
  loadFromOvpnFile readFile AppendCertsFromPEM X509KeyPair rnd o = Ok cfg → cli_ready o cfg.
Proof.
  unfold loadFromOvpnFile. pose proof (file_spec (co_configFile o) rnd (parse_options o)) as Hp.
  destruct (ParseFile _ _ _ _ _ _).2 as [p|e|]; [|done|done]. cbn [map_err]. bind. cbv zeta.
  destruct Hp as (s & opt' & Hov & _ & Hs & Hf). destruct (profile_base o p s opt' rnd Hov Hs Hf) as [[Ht Hsc Hc Hdir] Hk].
  intros H. apply bind_Ok in H as ([] & _ & H). set (cfg1 := if blank (co_auth o) then _ else _) in *.
  destruct (blank (co_tlsAuthFile o)) eqn:Hb; [apply blank_true in Hb|apply blank_false in Hb].
  - injection H as <-. split; [done|left; by apply checks_Ok|done|done].
  - apply bind_Ok in H as (b & Hr%ReadFile_Ok & [= <-]). split; [done| |done|].
    + destruct b as [|c b]; [right|left; by apply checks_Ok; [|right; right]].
      split; [by apply checks_empty|]. exists (co_tlsAuthFile o). split; [set_solver|done].
    + intros _. split_and!; [done..|]. cbn. apply elem_of_cons in Hdir as [->|[->|[]%elem_of_nil]%elem_of_cons]; done.
Qed.

(** One flag of the three is given, so one key is read. *)
Lemma one_flag o v1 v2 auth :
  length (filter (λ f, f ≠ []) [co_tlsCryptFile o; co_tlsCryptV2File o; co_tlsAuthFile o]) = 1%nat →
  (co_tlsCryptFile o = [] ∧ v1 = [] ∨ co_tlsCryptFile o ≠ [] ∧ readFile (co_tlsCryptFile o) = Some v1) →
  (co_tlsCryptV2File o = [] ∧ v2 = [] ∨ co_tlsCryptV2File o ≠ [] ∧ readFile (co_tlsCryptV2File o) = Some v2) →
  (co_tlsAuthFile o = [] ∧ auth = [] ∨ co_tlsAuthFile o ≠ [] ∧ readFile (co_tlsAuthFile o) = Some auth) →
  (co_tlsAuthFile o ≠ [] → v1 = [] ∧ v2 = []) ∧
  (one_control_key v1 v2 auth ∨
   v1 = [] ∧ v2 = [] ∧ auth = [] ∧
   ∃ path, path ∈ [co_tlsCryptFile o; co_tlsCryptV2File o; co_tlsAuthFile o] ∧ path ≠ [] ∧ readFile path = Some []).
Proof.
  intros Hn H1 H2 H3. rewrite !filter_cons in Hn. repeat case_decide; cbn in Hn; try lia; destruct H1 as [[? ?]|[? ?]]; try done;
    destruct H2 as [[? ?]|[? ?]]; try done; destruct H3 as [[? ?]|[? ?]]; try done; subst; (split; [done|]).
  - destruct v1 as [|c v1]; [right|left; by left]. split_and!; try done. exists (co_tlsCryptFile o). set_solver.
  - destruct v2 as [|c v2]; [right|left; by right; left]. split_and!; try done. exists (co_tlsCryptV2File o). set_solver.
  - destruct auth as [|c auth]; [right|left; by right; right]. split_and!; try done. exists (co_tlsAuthFile o). set_solver.
Qed.

Lemma loadFromFlags_ready o cfg : loadFromFlags readFile AppendCertsFromPEM X509KeyPair o = Ok cfg → cli_ready o cfg.
Proof.
  unfold loadFromFlags. intros ([] & _ & H)%bind_Ok. cbv zeta in H. apply bind_Ok in H as ([] & Hn%guard_Ok & H).
  apply bind_Ok in H as (roots & _ & H). apply bind_Ok in H as (pair & _ & H).
  apply bind_Ok in H as (v1 & H1%read_flag_Ok & H). apply bind_Ok in H as (v2 & H2%read_flag_Ok & H).
  apply bind_Ok in H as (auth & H3%read_flag_Ok & [= <-]). apply negb_false_iff, Nat.eqb_eq in Hn.
  destruct (one_flag _ _ _ _ Hn H1 H2 H3) as [Hauth Hk]. split.
  - eexists. split; [done|]. by split.
  - destruct Hk as [Hk|(Hv1 & Hv2 & Ha & Hp)]; [left; by apply checks_Ok|right]. split; [by apply checks_empty|done].
  - cbn. by destruct (blank (co_ciphers o)).
  - intros Ha. destruct (Hauth Ha). destruct H3 as [[? _]|[_ H3]]; [done|]. cbn. apply blank_false in Ha. by rewrite Ha.
Qed.

Lemma flag_roots_no_panic o : no_panic (flag_roots readFile AppendCertsFromPEM o).
Proof.
  unfold flag_roots. destruct (blank _); [done|]. apply no_panic_bind; [apply ReadFile_no_panic|]. intros b _.
  by apply no_panic_guard.
Qed.
Lemma flag_pair_no_panic o : no_panic (flag_pair readFile X509KeyPair o).
Proof.
  unfold flag_pair. apply no_panic_guard. intros _. destruct (blank _); [done|].
  do 2 (apply no_panic_bind; [apply ReadFile_no_panic|]; intros ? _). by apply no_panic_guard.
Qed.

Lemma loadConfig_no_panic rnd o : no_panic (loadConfig readFile AppendCertsFromPEM X509KeyPair rnd o).
Proof.
  unfold loadConfig. destruct (blank (co_configFile o)).
  - unfold loadFromFlags. apply no_panic_guard. intros _. apply no_panic_guard. intros _.
    apply no_panic_bind; [apply flag_roots_no_panic|]. intros roots _.
    apply no_panic_bind; [apply flag_pair_no_panic|]. intros pair _.
    do 3 (apply no_panic_bind; [apply read_flag_no_panic|]; intros ? _). done.
  - unfold loadFromOvpnFile. pose proof (file_spec (co_configFile o) rnd (parse_options o)) as Hp.
    destruct (ParseFile _ _ _ _ _ _).2 as [p|e|]; [|done|done]. cbn [map_err]. bind. apply no_panic_guard. intros _. cbv zeta.
    destruct (blank (co_tlsAuthFile o)); [done|]. by apply no_panic_bind; [apply ReadFile_no_panic|].
Qed.

(** The command line gives a configuration the client can dial.  Loading
    never panics; what it gives has TLS 1.2 or later, the server name of [-sni] if
    there is one, the ciphers of [-ciphers] or else supported ones; it passes the
    checks of the dial unless the key file a flag names is empty; and the key of
    [-tls-auth] replaces every key of the profile, in the orientation of a client. *)
Theorem cli_config_ready rnd o :
  match loadConfig readFile AppendCertsFromPEM X509KeyPair rnd o with
  | Ok cfg =>
      (∃ t, cf_TLSConfig cfg = Some t ∧ 0x0303 ≤ tc_MinVersion t ∧ (co_sni o ≠ [] → tc_ServerName t = co_sni o)) ∧
      (Dial_checks cfg = Ok tt ∨
       Dial_checks cfg = Err DNoControlKey ∧
       ∃ path, path ∈ [co_tlsCryptFile o; co_tlsCryptV2File o; co_tlsAuthFile o] ∧ path ≠ [] ∧ readFile path = Some []) ∧
      (if blank (co_ciphers o) then Forall (λ c, ∃ n, AEADKeyLen c = Ok n) (cf_Ciphers cfg)
       else cf_Ciphers cfg = str <$> Split (co_ciphers o) colon) ∧
      (co_tlsAuthFile o ≠ [] → readFile (co_tlsAuthFile o) = Some (cf_TLSAuth cfg) ∧
         cf_TLSCryptV1 cfg = [] ∧ cf_TLSCryptV2 cfg = [] ∧ cf_KeyDirection cfg = 1)
  | Err _ => True
  | Panic => False
  end.
Proof.
  pose proof (loadConfig_no_panic rnd o) as Hn. destruct (loadConfig _ _ _ rnd o) as [cfg|e|] eqn:Hl; [|done|by destruct Hn].
  assert (cli_ready o cfg) as []; [|done]. unfold loadConfig in Hl.
  destruct (blank (co_configFile o)); [by apply loadFromFlags_ready|by eapply loadFromOvpnFile_ready].
Qed.
End cli_facts.

(** ** The identity of the server *)

Section identity.
Variable readFile : bytes → option bytes.
Variable AppendCertsFromPEM : bytes → bool.
Variable X509KeyPair : bytes → bytes → bool.
Context {Cert : Type}.
Variable verify : option (list bytes) → list Cert → bool.
Variable matches : bytes → Cert → bool.

Lemma loadFromFlags_tls o cfg t :
  loadFromFlags readFile AppendCertsFromPEM X509KeyPair o = Ok cfg → cf_TLSConfig cfg = Some t →
  tc_ServerName t = co_sni o ∧ tc_InsecureSkipVerify t = false ∧ tc_VerifyConnection t = None.
Proof.
  unfold loadFromFlags. intros ([] & _ & H)%bind_Ok. cbv zeta in H. apply bind_Ok in H as ([] & _ & H).
  apply bind_Ok in H as (roots & _ & H). apply bind_Ok in H as (pair & _ & H). apply bind_Ok in H as (v1 & _ & H).
  apply bind_Ok in H as (v2 & _ & H). apply bind_Ok in H as (auth & _ & [= <-]). cbn. by intros [= <-].
Qed.

Lemma loadFromOvpnFile_tls rnd o cfg :
  loadFromOvpnFile readFile AppendCertsFromPEM X509KeyPair rnd o = Ok cfg →
  ∃ p, (ParseFile readFile AppendCertsFromPEM X509KeyPair (co_configFile o) rnd (parse_options o)).2 = Ok p ∧
       cf_TLSConfig cfg = cf_TLSConfig (pd_Config p).
Proof.
  unfold loadFromOvpnFile. intros (p & Hp & H)%bind_Ok.
  destruct (ParseFile _ _ _ _ _ _).2 as [p'|e|]; [|done|done]. injection Hp as ->. exists p. split; [done|].
  cbv zeta in H. apply bind_Ok in H as ([] & _ & H).
  destruct (blank (co_tlsAuthFile o)); [injection H as <-|apply bind_Ok in H as (b & _ & [= <-])];
    by destruct (blank (co_ciphers o)), (blank (co_auth o)).
Qed.


(** Without [-sni], a configuration from flags accepts no server at all. *)
Lemma flags_without_sni_refused o cfg t chain :
  loadFromFlags readFile AppendCertsFromPEM X509KeyPair o = Ok cfg → cf_TLSConfig cfg = Some t → co_sni o = [] →
  tls_accepts verify matches t chain = false.
Proof.
  intros Hl Ht Hs. destruct (loadFromFlags_tls _ _ _ Hl Ht) as (Hn & Hi & _). unfold tls_accepts.
  destruct chain; [done|]. by rewrite Hi, Hn, Hs.
Qed.
End identity.

(** ** Open proxies *)

Definition loopback_host (host : bytes) : Prop :=
  host = text "localhost" ∨ ∃ ip, ParseAddr host = Some ip ∧ IsLoopback ip = true.

Lemma isLoopbackListen_Join host port :
  bracketless host → bracketless port → colon ∉ port →
  isLoopbackListen (JoinHostPort host port) = true ↔ loopback_host host.
Proof.
  intros Hh Hp Hc. unfold isLoopbackListen, loopback_host.
  destruct (ParseAddrPort (JoinHostPort host port)) as [ap|] eqn:Ha.
  - apply ParseAddrPort_Join in Ha; [|done..]. rewrite Ha. split; [intros H; right; by eexists|].
    intros [->|(ip & [= <-] & H)]; [done|done].
  - rewrite SplitHostPort_Join by done. destruct (blank host) eqn:Hb.
    + apply blank_true in Hb as ->. split; [done|]. by intros [?|(ip & ? & _)].
    + case_bool_decide as Hl; [split; [by left|done]|]. destruct (ParseAddr host) as [ip|].
      * split; [intros H; right; by eexists|]. by intros [?|(ip' & [= <-] & H)].
      * split; [done|]. by intros [?|(ip' & ? & _)].
Qed.

Lemma Cut_inv s c a b : Cut s c = (a, b, true) → s = a ++ c :: b ∧ (c ∉ a).
Proof.
  revert a. induction s as [|x s IH]; intros a H; [done|]. cbn in H. case_bool_decide as Hx.
  - injection H as <- <-. subst x. split; [done|]. set_solver.
  - destruct (Cut s c) as [[before after] found]. injection H as <- <- ->. destruct (IH _ eq_refl) as [-> Hn]. split; [done|]. set_solver.
Qed.

Lemma newSOCKS5_Some spec srv :
  newSOCKS5 spec = Some srv →
  (spec = [] ∧ sv_authUser srv = []) ∨
  (spec = sv_authUser srv ++ colon :: sv_authPass srv ∧ sv_authUser srv ≠ [] ∧ (colon ∉ sv_authUser srv)).
Proof.
  unfold newSOCKS5. destruct spec as [|c spec]; [intros [= <-]; by left|].
  destruct (Cut (c :: spec) colon) as [[[|u us] p] [|]] eqn:Hc; try done. intros [= <-]. apply Cut_inv in Hc as [Hc Hn]. right. by split.
Qed.

Lemma dns_override_Ok o up ap :
  dns_override o up = Ok ap → AddrPort_IsValid ap = true →
  parseDNSFlag (co_dns o) = Some ap ∧ (Is4 (ap_addr ap) && tu_hasV4 up) || (Is6 (ap_addr ap) && tu_hasV6 up) = true.
Proof.
  unfold dns_override. destruct (blank (co_dns o)); [by intros [= <-]|]. destruct (parseDNSFlag _) as [ap'|]; [|done].
  intros ([] & H4%guard_Ok & ([] & H6%guard_Ok & [= <-])%bind_Ok)%bind_Ok Hv. split; [done|].
  unfold AddrPort_IsValid, IsValid in Hv. apply negb_true_iff, bool_decide_eq_false in Hv.
  destruct (ap_addr ap') as [|v|v z]; cbn in *; [done|by destruct (tu_hasV4 up)|by destruct (tu_hasV6 up)].
Qed.

(** C10: no proxy is open to the network unnoticed.  Starting never panics.  A
    proxy that starts has the credentials of [-socks-auth], with a user name that
    is not empty, or none if the flag is empty; without credentials the operator
    is warned exactly when the host it listens on is neither [localhost] nor a
    loopback address; it was dialled with reconnection and with the limit on
    stalls; and an overriding resolver is one the tunnel has an address for. *)
Theorem no_open_proxy readFile AppendCertsFromPEM X509KeyPair rnd dial o host port :
  co_listen o = JoinHostPort host port → bracketless host → bracketless port → (colon ∉ port) →
  match run readFile AppendCertsFromPEM X509KeyPair rnd dial o with
  | Ok st =>
      let srv := st_server st in
      (co_socksAuth o = [] ∧ sv_authUser srv = [] ∨
       co_socksAuth o = sv_authUser srv ++ colon :: sv_authPass srv ∧ sv_authUser srv ≠ [] ∧ (colon ∉ sv_authUser srv)) ∧
      (st_warned st = true ↔ sv_authUser srv = [] ∧ ¬ loopback_host host) ∧
      cf_AutoReconnect (st_config st) = true ∧ cf_MaxConsecutiveStalls (st_config st) = 3 ∧
      ∃ up, dial (st_config st) = Some up ∧
        (AddrPort_IsValid (rv_override (st_resolver st)) = true →
         let a := ap_addr (rv_override (st_resolver st)) in (Is4 a && tu_hasV4 up) || (Is6 a && tu_hasV6 up) = true)
  | Err _ => True
  | Panic => False
  end.
Proof.
  intros Hl Hh Hp Hc. pose proof (isLoopbackListen_Join host port Hh Hp Hc) as Hloop. rewrite <-Hl in Hloop.
  unfold run. pose proof (loadConfig_no_panic readFile AppendCertsFromPEM X509KeyPair rnd o) as Hn.
  destruct (loadConfig _ _ _ rnd o) as [cfg|e|]; [|done|by destruct Hn]. bind. cbv zeta.
  destruct (dial _) as [up|] eqn:Hd; [|done].
  destruct (dns_override o up) as [ap|e|] eqn:Ho; [|done|].
  2: { revert Ho. unfold dns_override. destruct (blank _); [done|]. destruct (parseDNSFlag _); [|done].
       unfold guard_err. by repeat case_match. }
  bind. cbv zeta. destruct (newSOCKS5 (co_socksAuth o)) as [srv|] eqn:Hs; [|done]. apply newSOCKS5_Some in Hs. cbn.
  split_and!; [done| |done|done|exists up; split; [done|]; intros Hv; by apply (dns_override_Ok o up ap Ho)].
  unfold blank. rewrite andb_true_iff, negb_true_iff, bool_decide_eq_true.
  rewrite <-not_true_iff_false, Hloop. destruct Hs as [[-> ->]|(-> & Hne & _)]; [done|].
  split; [intros [H _]; by destruct (sv_authUser srv)|by intros [H _]].
Qed.

(** ** Concrete command lines *)

Definition disk (path : bytes) : option bytes :=
  if bool_decide (path = text "p.ovpn") then Some sample_data
  else if bool_decide (path = text "q.ovpn") then Some (sample_data ++ text "auth-user-pass cred" ++ [lf])
  else if bool_decide (path = text "cred") then Some (text "bob" ++ [lf] ++ text "b" ++ [lf])
  else if bool_decide (path = text "ta.key") then Some (text "key") else None.

Definition with_config (path : bytes) (o : cliOpts) : cliOpts :=
  mkCliOpts path [] (co_network o) (co_user o) (co_pass o) [] [] [] [] [] [] [] [] [] [] (co_handshakeT o) (co_listen o)
    [] (text "10.8.0.1") (co_idle o) false false.
Definition with_server (sni : bytes) (o : cliOpts) : cliOpts :=
  mkCliOpts [] (text "vpn.example:1194") (co_network o) (co_user o) (co_pass o) [] [] [] (text "ta.key") [] [] [] [] []
    sni (co_handshakeT o) (co_listen o) [] [] (co_idle o) false false.
Definition alice : cliOpts := parseFlags_defaults (text "alice") (text "a").
Definition v4_tunnel : Config → option tunnel_up := λ _, Some (mkTunnelUp [] true false).

(** The credentials of a profile's file replace those of the flags. *)
Example file_credentials_win :
  (cf_Username <$> match loadConfig disk any_cert any_pair 0 (with_config (text "q.ovpn") alice) with Ok c => Some c | _ => None end) =
    Some (text "bob").
Proof. by vm_compute. Qed.


Lemma no_open_proxy_witness :
  match run disk any_cert any_pair 0 v4_tunnel (with_config (text "p.ovpn") alice) with
  | Ok st => st_warned st = true ↔ sv_authUser (st_server st) = [] ∧ ¬ loopback_host (text "127.0.0.1")
  | _ => False
  end.
Proof.
  pose proof (no_open_proxy disk any_cert any_pair 0 v4_tunnel (with_config (text "p.ovpn") alice) (text "127.0.0.1") (text "1080")
    ltac:(vm_compute; reflexivity)
    ltac:(split; apply (bool_decide_unpack _); vm_compute; reflexivity)
    ltac:(split; apply (bool_decide_unpack _); vm_compute; reflexivity)
    ltac:(apply (bool_decide_unpack _); vm_compute; reflexivity)) as H.
  destruct (run disk any_cert any_pair 0 v4_tunnel (with_config (text "p.ovpn") alice)) as [st|e|] eqn:Hr.
  - exact (proj1 (proj2 H)).
  - revert Hr. vm_compute. discriminate.
  - exact H.
Defined.

(** The two ways that start: a profile, and flags with a name; without the name
    the server is refused. *)
Example starts :
  match run disk any_cert any_pair 0 v4_tunnel (with_server (text "vpn.example") alice) with
  | Ok st => st_warned st = false ∧ cf_RemoteAddr (st_config st) = text "vpn.example:1194" ∧
             tls_accepts (λ _ _, true) named (default sample_tls_config (cf_TLSConfig (st_config st))) [text "vpn.example"] = true
  | _ => False
  end ∧
  match run disk any_cert any_pair 0 v4_tunnel (with_server [] alice) with
  | Ok st => tls_accepts (λ _ _, true) (λ _ _, true) (default sample_tls_config (cf_TLSConfig (st_config st))) [text "vpn.example"] = false
  | _ => False
  end.
Proof. by vm_compute. Qed.
