(* ===== verification/Limiter.v ===== *)
(** The connect limiter of the proxy ([cmd/openvpn2socks/connrate.go]): a token
    bucket per destination address.  Tokens are binary64 numbers, with the
    operations of [Stdlib.Floats.SpecFloat]; clock readings are nanoseconds and
    their differences stay within [time.Duration].  The product of a refill is by
    two, hence exact, so that a fused multiply-add gives the same sum. *)
From Stdlib Require Import Floats.SpecFloat.
From stdpp Require Import gmap.
From S2P Require Import Prelude Text Netip Dns.
Local Open Scope Z_scope.

(** ** [float64] *)

Definition float64 (n : Z) : spec_float := binary_normalize 53 1024 n 0 false.
Definition fadd : spec_float → spec_float → spec_float := SFadd 53 1024.
Definition fsub : spec_float → spec_float → spec_float := SFsub 53 1024.
Definition fmul : spec_float → spec_float → spec_float := SFmul 53 1024.
Definition fdiv : spec_float → spec_float → spec_float := SFdiv 53 1024.

(** [time.Duration.Seconds]. *)
Definition Seconds (d : Z) : spec_float :=
  fadd (float64 (Z.quot d Second)) (fdiv (float64 (Z.rem d Second)) (float64 1000000000)).

#[export] Instance Addr_countable : Countable Addr.
Proof.
  refine (inj_countable'
    (λ a, match a with AddrZero => inl () | Addr4 v => inr (inl v) | Addr6 v z => inr (inr (v, z)) end)
    (λ x, match x with inl _ => AddrZero | inr (inl v) => Addr4 v | inr (inr (v, z)) => Addr6 v z end) _).
  by intros [| |].
Defined.

(** ** The limiter *)

Definition connRateBurst : spec_float := float64 8.
Definition connRateRefillSec : spec_float := float64 2.
Definition connRateGCEvery : Z := 30 * Second.
Definition connRateMaxIdle : Z := 5 * 60 * Second.

Record rateBucket := mkRateBucket { rb_tokens : spec_float; rb_last : Z; rb_touched : Z }.
Record connRateLimiter := mkLimiter { lm_buckets : gmap Addr rateBucket; lm_lastGC : Z }.

Definition newConnRateLimiter (now : Z) : connRateLimiter := mkLimiter ∅ now.

Definition gcLocked (now : Z) (m : gmap Addr rateBucket) : gmap Addr rateBucket :=
  filter (λ '(_, b), (connRateMaxIdle <? now - rb_touched b) = false) m.

Definition refill (now : Z) (b : rateBucket) : rateBucket :=
  let elapsed := Seconds (now - rb_last b) in
  if SFltb (float64 0) elapsed then
    let tokens := fadd (rb_tokens b) (fmul elapsed connRateRefillSec) in
    mkRateBucket (if SFltb connRateBurst tokens then connRateBurst else tokens) now (rb_touched b)
  else b.

Definition allow (now : Z) (target : Addr) (l : connRateLimiter) : connRateLimiter * bool :=
  let l := if connRateGCEvery <? now - lm_lastGC l then mkLimiter (gcLocked now (lm_buckets l)) now else l in
  let b := match lm_buckets l !! target with
           | None => mkRateBucket connRateBurst now now
           | Some b => refill now b
           end in
  let store tokens := mkLimiter (<[target := mkRateBucket tokens (rb_last b) now]> (lm_buckets l)) (lm_lastGC l) in
  if SFleb (float64 1) (rb_tokens b) then (store (fsub (rb_tokens b) (float64 1)), true) else (store (rb_tokens b), false).

(** [Reset]. *)
Definition limiter_Reset (now : Z) (l : connRateLimiter) : connRateLimiter := mkLimiter ∅ now.

(** ** Bursts *)

(** The calls of one instant, in order: the limiter and the answers. *)
Fixpoint allow_all (now : Z) (targets : list Addr) (l : connRateLimiter) : connRateLimiter * list (Addr * bool) :=
  match targets with
  | [] => (l, [])
  | a :: targets =>
      let '(l, ok) := allow now a l in
      let '(l, oks) := allow_all now targets l in
      (l, (a, ok) :: oks)
  end.

Definition granted (a : Addr) (oks : list (Addr * bool)) : nat := length (filter (λ x, x = (a, true)) oks).
Definition asked_for (a : Addr) (targets : list Addr) : nat := length (filter (λ x, x = a) targets).

(** The bucket of [a] has [k] tokens, counted at this instant. *)
Definition has_tokens (now : Z) (a : Addr) (k : nat) (l : connRateLimiter) : Prop :=
  now - lm_lastGC l ≤ connRateGCEvery ∧ lm_buckets l !! a = Some (mkRateBucket (float64 (Z.of_nat k)) now now).

Lemma same_instant now b : rb_last b = now → refill now b = b.
Proof. intros H. unfold refill. rewrite H, Z.sub_diag. by change (Seconds 0) with (S754_zero false). Qed.

Lemma no_gc now l : now - lm_lastGC l ≤ connRateGCEvery → (connRateGCEvery <? now - lm_lastGC l) = false.
Proof. apply Z.ltb_ge. Qed.

(** Up to the capacity the arithmetic is exact. *)
Lemma spend_exact k :
  (k ≤ 8)%nat →
  SFleb (float64 1) (float64 (Z.of_nat k)) = negb (k =? 0)%nat ∧
  ((0 < k)%nat → fsub (float64 (Z.of_nat k)) (float64 1) = float64 (Z.of_nat (k - 1))).
Proof. intros Hk. do 9 (destruct k as [|k]; [split; [vm_compute; reflexivity|intros ?; first [lia|vm_compute; reflexivity]]|]). lia. Qed.

Lemma allow_same now a k l :
  (k ≤ 8)%nat → has_tokens now a k l →
  (allow now a l).2 = negb (k =? 0)%nat ∧ has_tokens now a (k - 1) (allow now a l).1.
Proof.
  intros Hk [Hgc Hb]. destruct (spend_exact k Hk) as [H1 H2]. unfold allow. rewrite no_gc, Hb by done.
  rewrite same_instant by done. cbn [rb_tokens rb_last]. rewrite H1.
  destruct (Nat.eqb_spec k 0) as [->|Hne]; cbn [negb]; (split; [done|]); (split; [done|]); cbn [fst lm_buckets];
    rewrite lookup_insert_eq; [done|]. by rewrite H2 by lia.
Qed.

Lemma allow_other now a b k l : a ≠ b → has_tokens now a k l → has_tokens now a k (allow now b l).1.
Proof.
  intros Hne [Hgc Hb]. unfold allow. rewrite no_gc by done.
  destruct (SFleb _ _); (split; [done|]); cbn [fst lm_buckets]; by rewrite lookup_insert_ne.
Qed.

Lemma burst_from now a targets : ∀ k l,
  (k ≤ 8)%nat → has_tokens now a k l →
  granted a (allow_all now targets l).2 = (asked_for a targets `min` k)%nat.
Proof.
  induction targets as [|b targets IH]; intros k l Hk Ht; [done|]. cbn [allow_all].
  destruct (allow now b l) as [l1 ok] eqn:Ha. destruct (allow_all now targets l1) as [l2 oks] eqn:Hl. cbn [snd].
  unfold granted, asked_for. rewrite !filter_cons. destruct (decide (b = a)) as [->|Hne].
  - destruct (allow_same now a k l Hk Ht) as [Hok Ht']. rewrite Ha in Hok, Ht'. cbn in Hok, Ht'.
    specialize (IH (k - 1)%nat l1 ltac:(lia) Ht'). rewrite Hl in IH. unfold granted, asked_for in IH. cbn in IH.
    destruct (Nat.eqb_spec k 0) as [->|Hk0]; cbn in Hok; subst ok.
    + rewrite decide_False by (by intros [=]). rewrite IH. cbn. lia.
    + rewrite decide_True by done. cbn [length]. rewrite IH. lia.
  - pose proof (allow_other now a b k l ltac:(done) Ht) as Ht'. rewrite Ha in Ht'.
    specialize (IH k l1 Hk Ht'). rewrite Hl in IH. unfold granted, asked_for in IH. cbn in IH.
    rewrite decide_False by (by intros [= ->]). done.
Qed.

Lemma allow_fresh now a l :
  lm_buckets l !! a = None → (allow now a l).2 = true ∧ has_tokens now a 7 (allow now a l).1.
Proof.
  intros Hb. unfold allow. set (l' := if connRateGCEvery <? now - lm_lastGC l then _ else l).
  assert (lm_buckets l' !! a = None ∧ now - lm_lastGC l' ≤ connRateGCEvery) as [Hb' Hgc].
  { subst l'. destruct (Z.ltb_spec connRateGCEvery (now - lm_lastGC l)); [|done]. split; [|cbn; rewrite Z.sub_diag; done].
    cbn. unfold gcLocked. apply map_lookup_filter_None_2. by left. }
  rewrite Hb'. cbn [rb_tokens rb_last]. assert (SFleb (float64 1) connRateBurst = true) as -> by reflexivity. split; [done|].
  split; [done|]. cbn [fst lm_buckets]. rewrite lookup_insert_eq.
  assert (fsub connRateBurst (float64 1) = float64 7) as -> by reflexivity. done.
Qed.

Lemma other_fresh now a b l : a ≠ b → lm_buckets l !! a = None → lm_buckets (allow now b l).1 !! a = None.
Proof.
  intros Hne Hb. unfold allow. set (l' := if connRateGCEvery <? now - lm_lastGC l then _ else l). assert (lm_buckets l' !! a = None) as Hb'.
  { subst l'. destruct (_ <? _); [|done]. cbn. unfold gcLocked. apply map_lookup_filter_None_2. by left. }
  destruct (SFleb _ _); cbn [fst lm_buckets]; by rewrite lookup_insert_ne.
Qed.

(** A burst to one address is cut at eight.  To an address without a bucket
    (never asked for, idle for five minutes, or after the [Reset] of a
    reconnection), of the connections asked for at one instant exactly the first
    eight are allowed, however many others, to whatever addresses, come between. *)
Theorem burst_exact now a targets l :
  lm_buckets l !! a = None →
  granted a (allow_all now targets l).2 = (asked_for a targets `min` 8)%nat.
Proof.
  revert l. induction targets as [|b targets IH]; intros l Hb; [done|]. cbn [allow_all].
  destruct (allow now b l) as [l1 ok] eqn:Ha. destruct (allow_all now targets l1) as [l2 oks] eqn:Hl. cbn [snd].
  unfold granted, asked_for. rewrite !filter_cons. destruct (decide (b = a)) as [->|Hne].
  - destruct (allow_fresh now a l Hb) as [Hok Ht]. rewrite Ha in Hok, Ht. cbn in Hok, Ht. subst ok.
    pose proof (burst_from now a targets 7 l1 ltac:(lia) Ht) as H. rewrite Hl in H. unfold granted, asked_for in H. cbn in H.
    rewrite decide_True by done. cbn [length]. rewrite H. lia.
  - pose proof (other_fresh now a b l ltac:(done) Hb) as Hb'. rewrite Ha in Hb'. specialize (IH l1 Hb'). rewrite Hl in IH.
    unfold granted, asked_for in IH. cbn in IH. rewrite decide_False by (by intros [= ->]). done.
Qed.

Lemma burst_exact_witness :
  granted (Addr4 1) (allow_all 5 (replicate 9 (Addr4 1) ++ [Addr4 2; Addr4 1]) (newConnRateLimiter 0)).2 = 8%nat.
Proof. apply (burst_exact 5 (Addr4 1) (replicate 9 (Addr4 1) ++ [Addr4 2; Addr4 1]) (newConnRateLimiter 0)). reflexivity. Defined.

(** Half a second buys one more, a tenth does not. *)
Example refills :
  let drained := (allow_all 0 (replicate 9 (Addr4 1)) (newConnRateLimiter 0)).1 in
  (allow (500 * Millisecond) (Addr4 1) drained).2 = true ∧ (allow (100 * Millisecond) (Addr4 1) drained).2 = false ∧
  granted (Addr4 1) (allow_all (3600 * Second) (replicate 20 (Addr4 1)) drained).2 = 8%nat.
Proof. by vm_compute. Qed.
