(* ===== verification/Workers.v ===== *)
(** The supervision of goroutines ([internal/workers/workers.go]): each step is a
    section the code runs without interruption, of the manager or of one worker.
    Workers keep their place in the list when they are gone; the two counters are
    those of the code. *)
From stdpp Require Import list.
From S2P Require Import Prelude.
Local Open Scope Z_scope.

(** Where a worker is: in its function; in the recover branch after a panic, its
    handler called; out of both; no longer counted as active; gone. *)
Inductive worker : Type :=
  | Running
  | Recovering
  | Returned
  | Inactive
  | Gone.
#[export] Instance worker_eq_dec : EqDecision worker.
Proof. solve_decision. Defined.

(** [shutdownOnce]: not begun, the flag set, the context cancelled. *)
Inductive once : Type := NotBegun | Flagged | Cancelled.
#[export] Instance once_eq_dec : EqDecision once.
Proof. solve_decision. Defined.

Record Manager := mkManager {
  wm_once : once;
  wm_wg : Z;
  wm_active : Z;
  wm_workers : list worker;
  wm_panics : list nat        (* the calls of onPanic, by worker *)
}.
Definition NewManager : Manager := mkManager NotBegun 0 0 [] [].

(** [m.shutdown] and [ctx.Done()]. *)
Definition shutting (m : Manager) : bool := negb (bool_decide (wm_once m = NotBegun)).
Definition cancelled (m : Manager) : bool := bool_decide (wm_once m = Cancelled).

(** [Go]: the section under the lock, and whether the worker was scheduled. *)
Definition Go (m : Manager) : Manager * bool :=
  if shutting m then (m, false)
  else (mkManager (wm_once m) (wm_wg m + 1) (wm_active m + 1) (wm_workers m ++ [Running]) (wm_panics m), true).

(** [Shutdown], and the end of its once: a second call waits for it. *)
Definition Shutdown_flag (m : Manager) : Manager :=
  match wm_once m with
  | NotBegun => mkManager Flagged (wm_wg m) (wm_active m) (wm_workers m) (wm_panics m)
  | _ => m
  end.
Definition Shutdown_cancel (m : Manager) : Manager :=
  match wm_once m with
  | Flagged => mkManager Cancelled (wm_wg m) (wm_active m) (wm_workers m) (wm_panics m)
  | _ => m
  end.

Definition set_worker (i : nat) (w : worker) (m : Manager) : Manager :=
  mkManager (wm_once m) (wm_wg m) (wm_active m) (<[i := w]> (wm_workers m)) (wm_panics m).

(** The function of a worker returns, or panics. *)
Definition worker_return (i : nat) (m : Manager) : Manager :=
  match wm_workers m !! i with Some Running => set_worker i Returned m | _ => m end.
Definition worker_panics (i : nat) (m : Manager) : Manager :=
  match wm_workers m !! i with
  | Some Running =>
      let m := set_worker i Recovering m in
      mkManager (wm_once m) (wm_wg m) (wm_active m) (wm_workers m) (i :: wm_panics m)
  | _ => m
  end.
(** The recover branch calls [Shutdown], and is over when that returns. *)
Definition recover_call (i : nat) (m : Manager) : Manager :=
  match wm_workers m !! i with Some Recovering => Shutdown_flag m | _ => m end.
Definition recover_return (i : nat) (m : Manager) : Manager :=
  match wm_workers m !! i with
  | Some Recovering => if cancelled m then set_worker i Returned m else m
  | _ => m
  end.
(** The deferred [active.Add(-1)] and [wg.Done()]. *)
Definition worker_inactive (i : nat) (m : Manager) : Manager :=
  match wm_workers m !! i with
  | Some Returned =>
      let m := set_worker i Inactive m in
      mkManager (wm_once m) (wm_wg m) (wm_active m - 1) (wm_workers m) (wm_panics m)
  | _ => m
  end.
Definition worker_done (i : nat) (m : Manager) : Manager :=
  match wm_workers m !! i with
  | Some Inactive =>
      let m := set_worker i Gone m in
      mkManager (wm_once m) (wm_wg m - 1) (wm_active m) (wm_workers m) (wm_panics m)
  | _ => m
  end.

(** [Wait] returns. *)
Definition waited (m : Manager) : bool := wm_wg m =? 0.

Inductive wstep : Type :=
  | WGo | WShutdown | WCancel
  | WReturn (i : nat) | WPanic (i : nat) | WRecover (i : nat) | WRecovered (i : nat) | WInactive (i : nat) | WDone (i : nat).

Definition wact (s : wstep) (m : Manager) : Manager :=
  match s with
  | WGo => (Go m).1
  | WShutdown => Shutdown_flag m
  | WCancel => Shutdown_cancel m
  | WReturn i => worker_return i m
  | WPanic i => worker_panics i m
  | WRecover i => recover_call i m
  | WRecovered i => recover_return i m
  | WInactive i => worker_inactive i m
  | WDone i => worker_done i m
  end.
Definition wacts (ss : list wstep) (m : Manager) : Manager := foldl (λ m s, wact s m) m ss.

(** ** The counters *)

Definition alive (w : worker) : bool := negb (bool_decide (w = Gone)).
Definition busy (w : worker) : bool := alive w && negb (bool_decide (w = Inactive)).

(** A worker that panicked is out only once the context is cancelled. *)
Record counts (m : Manager) : Prop := {
  ct_wg : wm_wg m = counted alive (wm_workers m);
  ct_active : wm_active m = counted busy (wm_workers m);
  ct_panics i : i ∈ wm_panics m →
    match wm_workers m !! i with
    | Some Recovering => True
    | Some Running | None => False
    | Some _ => wm_once m = Cancelled
    end
}.

Lemma ct_set i v w m :
  counts m → wm_workers m !! i = Some v →
  (i ∈ wm_panics m → match w with Running => False | Recovering => True | _ => wm_once m = Cancelled end) →
  counts (mkManager (wm_once m) (wm_wg m + (if alive w then 1 else 0) - (if alive v then 1 else 0))
            (wm_active m + (if busy w then 1 else 0) - (if busy v then 1 else 0)) (<[i := w]> (wm_workers m)) (wm_panics m)).
Proof.
  intros [] Hi Hw. split; cbn.
  - rewrite (counted_insert _ _ _ _ _ Hi). lia.
  - rewrite (counted_insert _ _ _ _ _ Hi). lia.
  - intros j Hj. destruct (decide (j = i)) as [->|Hne].
    + rewrite list_lookup_insert_eq by (by eapply lookup_lt_Some). specialize (Hw Hj). by destruct w.
    + rewrite list_lookup_insert_ne by done. by apply ct_panics0.
Qed.

Lemma ct_once o m : counts m → wm_once m ≠ Cancelled → counts (mkManager o (wm_wg m) (wm_active m) (wm_workers m) (wm_panics m)).
Proof.
  intros [] Ho. split; cbn; [done..|]. intros i Hi%ct_panics0. destruct (wm_workers m !! i) as [[]|]; done.
Qed.

Lemma ct_out i m : counts m → i ∈ wm_panics m → wm_workers m !! i ≠ Some Running ∧ is_Some (wm_workers m !! i).
Proof. intros [] Hi%ct_panics0. destruct (wm_workers m !! i) as [[]|]; done. Qed.


Lemma counts_step s m : counts m → counts (wact s m).
Proof.
  intros Hc. destruct s as [| | |i|i|i|i|i|i]; cbn [wact].
  - unfold Go. destruct (shutting m); [done|]. destruct Hc. split; cbn [fst wm_wg wm_active wm_workers wm_panics wm_once].
    + rewrite counted_app. change (if alive Running then 1 else 0) with 1. lia.
    + rewrite counted_app. change (if busy Running then 1 else 0) with 1. lia.
    + intros i Hi%ct_panics0. destruct (wm_workers m !! i) as [w|] eqn:Hw; [|done]. by rewrite (lookup_app_l_Some _ _ _ _ Hw).
  - unfold Shutdown_flag. destruct (wm_once m) eqn:Ho; [|done..]. apply ct_once; [done|by rewrite Ho].
  - unfold Shutdown_cancel. destruct (wm_once m) eqn:Ho; [done| |done]. apply ct_once; [done|by rewrite Ho].
  - unfold worker_return. destruct (wm_workers m !! i) as [[]|] eqn:Hi; try done.
    pose proof (ct_set i _ Returned m Hc Hi) as H. cbn in H. rewrite !Z.add_simpl_r in H. apply H.
    intros Hp. by destruct (ct_out i m Hc Hp).
  - unfold worker_panics. destruct (wm_workers m !! i) as [[]|] eqn:Hi; try done.
    pose proof (ct_set i _ Recovering m Hc Hi) as H. cbn in H. rewrite !Z.add_simpl_r in H. destruct (H (λ _, I)).
    split; cbn in *; [done..|]. intros j [->|Hj]%elem_of_cons; [|by apply ct_panics0].
    by rewrite list_lookup_insert_eq by (by eapply lookup_lt_Some).
  - unfold recover_call, Shutdown_flag. destruct (wm_workers m !! i) as [[]|]; try done. destruct (wm_once m) eqn:Ho; try done.
    apply ct_once; [done|by rewrite Ho].
  - unfold recover_return, cancelled. destruct (wm_workers m !! i) as [[]|] eqn:Hi; try done. case_bool_decide as Ho; [|done].
    pose proof (ct_set i _ Returned m Hc Hi) as H. cbn in H. rewrite !Z.add_simpl_r in H. by apply H.
  - unfold worker_inactive. destruct (wm_workers m !! i) as [[]|] eqn:Hi; try done.
    pose proof (ct_set i _ Inactive m Hc Hi) as H. cbn in H. rewrite Z.add_simpl_r, Z.add_0_r in H. apply H.
    intros Hp%(ct_panics _ Hc). by rewrite Hi in Hp.
  - unfold worker_done. destruct (wm_workers m !! i) as [[]|] eqn:Hi; try done.
    pose proof (ct_set i _ Gone m Hc Hi) as H. cbn in H. rewrite !Z.add_0_r, Z.sub_0_r in H. apply H.
    intros Hp%(ct_panics _ Hc). by rewrite Hi in Hp.
Qed.

Lemma counts_all ss m : counts m → counts (wacts ss m).
Proof. revert m. induction ss as [|s ss IH]; intros m H; [done|]. cbn. by apply IH, counts_step. Qed.

Lemma counts_init : counts NewManager.
Proof. split; [done..|]. by intros i ?%not_elem_of_nil. Qed.

(** ** The end *)

(** Once shutting down, no worker starts and none comes back. *)
Lemma shutting_step s m :
  shutting m = true →
  shutting (wact s m) = true ∧ length (wm_workers (wact s m)) = length (wm_workers m) ∧ wm_wg (wact s m) ≤ wm_wg m.
Proof.
  intros Hs. destruct s as [| | |i|i|i|i|i|i]; cbn [wact]; unfold Go, Shutdown_flag, Shutdown_cancel, worker_return, worker_panics,
    recover_call, recover_return, worker_inactive, worker_done, Shutdown_flag.
  all: repeat case_match; try done; cbn; rewrite ?length_insert; split_and!; try done; lia.
Qed.

Lemma shutting_all ss : ∀ m,
  shutting m = true →
  shutting (wacts ss m) = true ∧ length (wm_workers (wacts ss m)) = length (wm_workers m) ∧ wm_wg (wacts ss m) ≤ wm_wg m.
Proof.
  induction ss as [|s ss IH]; intros m Hs; [by split_and!|]. destruct (shutting_step s m Hs) as (H1 & H2 & H3).
  destruct (IH _ H1) as (H4 & H5 & H6). cbn. unfold wacts in *. split_and!; [done|congruence|lia].
Qed.

(** A worker that sees the cancelled context and returns. *)
Definition finish (i : nat) : list wstep := [WRecovered i; WReturn i; WInactive i; WDone i].

Lemma finish_worker i m :
  wm_once m = Cancelled → (i < length (wm_workers m))%nat →
  wm_once (wacts (finish i) m) = Cancelled ∧ wm_workers (wacts (finish i) m) = <[i := Gone]> (wm_workers m).
Proof.
  intros Ho Hi. destruct (lookup_lt_is_Some_2 _ _ Hi) as [w Hw]. pose proof (λ v, list_lookup_insert_eq (wm_workers m) i v Hi) as Hii.
  destruct m as [o wg a l p]. cbn in Ho, Hi, Hw, Hii. subst o.
  destruct w; cbn; unfold recover_return, worker_return, worker_inactive, worker_done, cancelled;
    repeat (cbn; rewrite ?Hw, ?Hii, ?list_insert_insert_eq, ?(bool_decide_eq_true_2 (Cancelled = Cancelled) eq_refl)).
  all: (split; [done|]); try done. by rewrite list_insert_id.
Qed.

Lemma finish_all n m :
  wm_once m = Cancelled → (n ≤ length (wm_workers m))%nat →
  let m' := wacts (concat (finish <$> seq 0 n)) m in
  wm_once m' = Cancelled ∧ length (wm_workers m') = length (wm_workers m) ∧ ∀ i, (i < n)%nat → wm_workers m' !! i = Some Gone.
Proof.
  intros Ho. induction n as [|n IH]; intros Hn; [split_and!; [done|done|lia]|]. destruct (IH ltac:(lia)) as (H1 & H2 & H3).
  rewrite seq_S, fmap_app, concat_app. cbn [fmap list_fmap concat]. unfold wacts in *. rewrite foldl_app, app_nil_r.
  set (m1 := foldl _ m _) in *. destruct (finish_worker (0 + n) m1 H1 ltac:(lia)) as [H4 H5]. unfold wacts in H4, H5. cbv zeta.
  rewrite H4, H5, length_insert. split_and!; [done|done|]. intros i Hi. cbn [Nat.add]. destruct (decide (i = n)) as [->|Hne].
  - apply list_lookup_insert_eq. lia.
  - rewrite list_lookup_insert_ne by done. apply H3. lia.
Qed.

(** C37: goroutines are counted, and a shutdown ends them all.  Whatever the
    workers do (return, panic, at any moment), the counters are those of the
    workers that run; a worker that panicked is out only after the context was
    cancelled; and once a shutdown has begun, no worker is accepted, the counter
    that [Wait] waits for never grows, so that when [Wait] has returned no worker
    runs ever again, and it can return: it does when the workers obey the context. *)
Theorem workers_end ss :
  let m := wacts ss NewManager in
  wm_wg m = counted alive (wm_workers m) ∧ wm_active m = counted busy (wm_workers m) ∧
  (∀ i, i ∈ wm_panics m → wm_workers m !! i = Some Recovering ∨ wm_once m = Cancelled) ∧
  (shutting m = true →
     (∀ ss', let m' := wacts ss' m in
        (Go m').2 = false ∧ wm_wg m' ≤ wm_wg m ∧ length (wm_workers m') = length (wm_workers m) ∧
        (waited m = true → Forall (λ w, w = Gone) (wm_workers m'))) ∧
     ∃ ss', waited (wacts ss' m) = true).
Proof.
  intros m. assert (counts m) as Hc by apply counts_all, counts_init. split_and!; [apply Hc|apply Hc| |].
  - intros i Hi%(ct_panics _ Hc). destruct (wm_workers m !! i) as [[]|]; auto; done.
  - intros Hs. split.
    + intros ss' m'. destruct (shutting_all ss' m Hs) as (H1 & H2 & H3). split_and!; [|done|done|].
      * unfold Go. subst m'. by rewrite H1.
      * intros Hw%Z.eqb_eq. assert (counts m') as Hc' by (by apply counts_all).
        assert (0 ≤ counted alive (wm_workers m')) by (unfold counted; lia).
        assert (counted alive (wm_workers m') = 0) as Hz by (rewrite <-(ct_wg _ Hc'); pose proof (ct_wg _ Hc'); subst m'; lia).
        apply counted_zero in Hz. eapply list.Forall_impl; [exact Hz|]. intros w Hw'. unfold alive in Hw'.
        by apply negb_false_iff, bool_decide_eq_true in Hw'.
    + set (m1 := wact WCancel m). assert (wm_once m1 = Cancelled ∧ wm_workers m1 = wm_workers m) as [Ho Hl].
      { unfold shutting in Hs. apply negb_true_iff, bool_decide_eq_false in Hs. subst m1. cbn. unfold Shutdown_cancel.
        destruct (wm_once m) eqn:E; by rewrite ?E. }
      destruct (finish_all (length (wm_workers m1)) m1 Ho ltac:(lia)) as (H1 & H2 & H3).
      exists (WCancel :: concat (finish <$> seq 0 (length (wm_workers m1)))). cbn [wacts foldl]. fold m1.
      set (m2 := wacts _ m1) in *. apply Z.eqb_eq. assert (counts m2) as Hc2 by (by apply counts_all, (counts_step WCancel)).
      change (foldl _ m1 _) with m2. rewrite (ct_wg _ Hc2). apply counted_zero, Forall_lookup_2. intros i w Hw.
      apply lookup_lt_Some in Hw as Hlt. rewrite H3 in Hw by lia. by injection Hw as <-.
Qed.

(** A worker that panics ends the other, and a third is not accepted. *)
Example panicking :
  let m := wacts [WGo; WGo; WPanic 0; WRecover 0; WCancel; WRecovered 0; WGo; WInactive 0; WDone 0; WReturn 1; WInactive 1; WDone 1] NewManager in
  wm_panics m = [0%nat] ∧ wm_workers m = [Gone; Gone] ∧ waited m = true ∧ (Go m).2 = false.
Proof. by vm_compute. Qed.
