(* ===== verification/Tunnel.v ===== *)
(** The surface of the tunnel connection ([conn.go], the accessors of [openvpn.go],
    [pkg/netstack]): deadlines, addresses, and the options of the server as the
    caller and the network stack see them.  A [time.Time] is its reading in
    nanoseconds, or [None] for the zero value. *)
From S2P Require Import Prelude Text Netip PushReply Dial Session Client.
Local Open Scope Z_scope.

(** ** Deadlines *)

(** The two atomics of [tunnel]. *)
Record tunnel := mkTunnel { tn_readDeadlineNs : Z; tn_writeDeadlineNs : Z }.
Definition tunnel_new : tunnel := mkTunnel 0 0.

(** What is stored for a deadline; [UnixNano] wraps in 64 bits. *)
Definition storeDeadline (d : option Z) : Z := match d with None => 0 | Some t => i64 t end.
Definition SetReadDeadline (d : option Z) (t : tunnel) : tunnel := mkTunnel (storeDeadline d) (tn_writeDeadlineNs t).
Definition SetWriteDeadline (d : option Z) (t : tunnel) : tunnel := mkTunnel (tn_readDeadlineNs t) (storeDeadline d).
Definition tunnel_SetDeadline (d : option Z) (t : tunnel) : tunnel := mkTunnel (storeDeadline d) (storeDeadline d).

(** The deadline of the context of a call. *)
Definition ctx_deadline (ns : Z) : option Z := if ns =? 0 then None else Some ns.
Definition readCtx (t : tunnel) : option Z := ctx_deadline (tn_readDeadlineNs t).
Definition writeCtx (t : tunnel) : option Z := ctx_deadline (tn_writeDeadlineNs t).

Inductive ctx_error : Type := Canceled | DeadlineExceeded.
#[export] Instance ctx_error_eq_dec : EqDecision ctx_error.
Proof. solve_decision. Defined.

(** What the session returns to the tunnel: an error of a context, or its own. *)
Inductive session_error : Type :=
  | SErrCtx (e : ctx_error)
  | SErrClosed (e : option close_error).

(** [ctxErr] is the state of the context of the call. *)
Definition isDeadlineErr (err : session_error) (ctxErr : option ctx_error) : bool :=
  match err with
  | SErrCtx DeadlineExceeded => true
  | SErrCtx Canceled => bool_decide (ctxErr = Some DeadlineExceeded)
  | SErrClosed _ => false
  end.

(** How a round of [Read] or [Write] sees the result of the session. *)
Definition io_seen (r : nat + session_error) (ctxErr : option ctx_error) : io_result :=
  match r with
  | inl n => IoOk n
  | inr e => if isDeadlineErr e ctxErr then IoDeadline else IoErr (match e with SErrClosed e => e | _ => None end)
  end.

(** A context at a moment: its deadline, and the error it ended with. *)
Record context := mkContext { cx_deadline : option Z; cx_err : option ctx_error }.

(** [mergedContext], while it is not cancelled by its own [CancelFunc]: a child of
    [a] that [b], if there is one, cancels too. *)
Definition mergedContext (a : context) (b : option context) : context :=
  mkContext (cx_deadline a)
    (match cx_err a with
     | Some e => Some e
     | None => match b with Some (mkContext _ (Some _)) => Some Canceled | _ => None end
     end).

(** ** Addresses *)

(** [ipAddr]: the bytes of the address; none renders as [<nil>]. *)
Definition ipAddr : Type := bytes.

Definition LocalAddr (pr : PushReply) : ipAddr :=
  if Netip.IsValid (pr_LocalIP pr) then AsSlice (pr_LocalIP pr)
  else if 0 <=? pf_bits (pr_LocalIP6 pr) then AsSlice (pf_addr (pr_LocalIP6 pr)) else [].

Definition peerForRemote (pr : PushReply) : Addr :=
  if Netip.IsValid (pr_Gateway pr) then pr_Gateway pr
  else if Netip.IsValid (pr_RemoteIP pr) then pr_RemoteIP pr
  else if Netip.IsValid (pr_LocalIP pr) then pr_LocalIP pr
  else pr_RemoteIP6 pr.

Definition RemoteAddr (pr : PushReply) : ipAddr :=
  let peer := peerForRemote pr in if Netip.IsValid peer then AsSlice peer else [].

(** ** Options *)

(** The public [PushReply]. *)
Record PublicPushReply := mkPublicPushReply {
  pp_LocalIP : Addr;
  pp_Netmask : Addr;
  pp_Gateway : Addr;
  pp_LocalIP6 : Prefix;
  pp_RemoteIP6 : Addr;
  pp_Routes : list Prefix;
  pp_Routes6 : list Prefix;
  pp_DNS : list Addr;
  pp_MTU : Z;
  pp_Cipher : bytes;
  pp_PeerID : Z;
  pp_PingInterval : Z;
  pp_PingRestart : Z;
  pp_Topology : bytes
}.

Definition pushReplyFrom (pr : PushReply) : PublicPushReply :=
  mkPublicPushReply (pr_LocalIP pr) (pr_Netmask pr) (pr_Gateway pr) (pr_LocalIP6 pr) (pr_RemoteIP6 pr) (pr_Routes pr)
    (pr_Routes6 pr) (pr_DNS pr) (pr_MTU pr) (pr_Cipher pr) (pr_PeerID pr) (pr_PingInterval pr) (pr_PingRestart pr)
    (pr_Topology pr).

Definition TunnelMTU (pr : PushReply) : Z := let mtu := pr_MTU pr in if mtu <=? 0 then 1500 else mtu.

(** What go-tun2net configures its interface from. *)
Record TunConfig := mkTunConfig {
  tc_LocalIP : Addr;
  tc_Netmask : Addr;
  tc_Gateway : Addr;
  tc_LocalIP6 : Prefix;
  tc_RemoteIP6 : Addr;
  tc_Routes : list Prefix;
  tc_Routes6 : list Prefix;
  tc_DNS : list Addr;
  tc_MTU : Z
}.

Definition pushReplyToTunConfig (pr : PublicPushReply) : TunConfig :=
  mkTunConfig (pp_LocalIP pr) (pp_Netmask pr) (pp_Gateway pr) (pp_LocalIP6 pr) (pp_RemoteIP6 pr) (pp_Routes pr)
    (pp_Routes6 pr) (pp_DNS pr) (if 0 <? pp_MTU pr then u32 (pp_MTU pr) else 0).

(** ** What holds *)

(** A deadline is kept as it is set, for reads and writes apart, but for the one
    instant that is stored as "none". *)
Lemma deadline_kept d t :
  - 2 ^ 63 ≤ d < 2 ^ 63 →
  readCtx (SetReadDeadline (Some d) t) = (if d =? 0 then None else Some d) ∧
  writeCtx (SetReadDeadline (Some d) t) = writeCtx t ∧ readCtx (SetWriteDeadline (Some d) t) = readCtx t.
Proof. intros Hd. unfold readCtx, SetReadDeadline, ctx_deadline, storeDeadline. cbn. by rewrite i64_small. Qed.

Example epoch_is_no_deadline : readCtx (SetReadDeadline (Some 0) tunnel_new) = None.
Proof. reflexivity. Qed.

(** The merged context ends when either does, but has the deadline of the first
    alone. *)
Lemma merged_ends a b : cx_err (mergedContext a b) = None ↔ cx_err a = None ∧ (∀ c, b = Some c → cx_err c = None).
Proof.
  unfold mergedContext. destruct (cx_err a); [naive_solver|]. destruct b as [[d [e|]]|]; cbn; [|naive_solver..].
  split; [done|]. intros [_ H]. by specialize (H _ eq_refl).
Qed.
Example merged_deadline_lost : cx_deadline (mergedContext (mkContext None None) (Some (mkContext (Some 5) None))) = None.
Proof. reflexivity. Qed.

(** A call whose deadline has passed reports it, and asks for no reconnection. *)
Lemma deadline_reported c e :
  cl_closed c = false → tunnel_round c (io_seen (inr (SErrCtx e)) (Some DeadlineExceeded)) = inl TunnelDeadline.
Proof. intros Hc. unfold tunnel_round. rewrite Hc. by destruct e. Qed.

Lemma AsSlice_ne a : Netip.IsValid a = true → AsSlice a ≠ [].
Proof.
  intros Hv Ha. assert (length (AsSlice a) = 0%nat) as Hl by (by rewrite Ha).
  destruct a; [done|cbn [AsSlice] in Hl; rewrite length_be_enc in Hl; lia..].
Qed.

(** An address is missing only when the server gave none of either family. *)
Lemma local_address pr :
  (0 ≤ pf_bits (pr_LocalIP6 pr) → Netip.IsValid (pf_addr (pr_LocalIP6 pr)) = true) →
  LocalAddr pr = [] ↔ pr_LocalIP pr = AddrZero ∧ pf_bits (pr_LocalIP6 pr) < 0.
Proof.
  intros H6. unfold LocalAddr. destruct (Netip.IsValid (pr_LocalIP pr)) eqn:H4.
  - pose proof (AsSlice_ne _ H4). split; [done|]. intros [Hz _]. by rewrite Hz in H4.
  - assert (pr_LocalIP pr = AddrZero) as -> by (by apply negb_false_iff, bool_decide_eq_true in H4).
    destruct (Z.leb_spec 0 (pf_bits (pr_LocalIP6 pr))) as [Hb|Hb]; [|tauto]. pose proof (AsSlice_ne _ (H6 Hb)). split; [done|lia].
Qed.

(** The network stack gets the options of the server; an MTU of more than 32 bits
    is cut. *)
Lemma tun_config_exact pr :
  0 ≤ pr_MTU pr < 2 ^ 32 →
  let c := pushReplyToTunConfig (pushReplyFrom pr) in
  tc_LocalIP c = pr_LocalIP pr ∧ tc_Netmask c = pr_Netmask pr ∧ tc_Gateway c = pr_Gateway pr ∧
  tc_LocalIP6 c = pr_LocalIP6 pr ∧ tc_RemoteIP6 c = pr_RemoteIP6 pr ∧ tc_Routes c = pr_Routes pr ∧
  tc_Routes6 c = pr_Routes6 pr ∧ tc_DNS c = pr_DNS pr ∧ tc_MTU c = pr_MTU pr.
Proof.
  intros Hm. cbv zeta. cbn. split_and!; try done. destruct (Z.ltb_spec 0 (pr_MTU pr)); [|lia]. by apply Z.mod_small.
Qed.
