(* ===== verification/Cancel.v ===== *)
(** How a blocked read of a socket is interrupted
    ([internal/transport/udp.go], [watchContext], [BindLifetimeCtx]): the deadlines
    and the watcher goroutines of a connection, as a transition system.  Contexts
    are numbered; [deadline] and [cancellable] are their [Deadline()] and whether
    they have a [Done()] channel. *)
From S2P Require Import Prelude.
Local Open Scope Z_scope.

(** A watcher goroutine: its context, whether its stop channel is closed, and
    whether it still runs. *)
Record watcher := mkWatcher { wt_ctx : nat; wt_stopped : bool; wt_runs : bool }.

(** The reader: outside [ReadPacket]; between its two first statements; in the
    [Read] of the socket, with the watcher of the call if it has one. *)
Inductive reader : Type :=
  | Outside
  | Entered (ctx : nat)
  | InRead (ctx : nat) (own : option nat).

Record udpConn := mkUdpConn {
  uc_now : Z;
  uc_done : list nat;              (* the cancelled contexts *)
  uc_readDeadline : option Z;
  uc_closed : bool;
  uc_lifetimeCtx : option nat;
  uc_lifetimeStop : option nat;    (* the watcher behind the stop channel *)
  uc_watchers : list watcher;
  uc_reader : reader
}.
Definition newUDP (now : Z) : udpConn := mkUdpConn now [] None false None None [] Outside.

(** [time.Unix(1, 0)]. *)
Definition past : Z := Second.

Definition set_deadline (d : option Z) (u : udpConn) : udpConn :=
  mkUdpConn (uc_now u) (uc_done u) d (uc_closed u) (uc_lifetimeCtx u) (uc_lifetimeStop u) (uc_watchers u) (uc_reader u).
Definition set_watchers (l : list watcher) (u : udpConn) : udpConn :=
  mkUdpConn (uc_now u) (uc_done u) (uc_readDeadline u) (uc_closed u) (uc_lifetimeCtx u) (uc_lifetimeStop u) l (uc_reader u).
Definition set_lifetime (ctx stop : option nat) (u : udpConn) : udpConn :=
  mkUdpConn (uc_now u) (uc_done u) (uc_readDeadline u) (uc_closed u) ctx stop (uc_watchers u) (uc_reader u).
Definition set_reader (r : reader) (u : udpConn) : udpConn :=
  mkUdpConn (uc_now u) (uc_done u) (uc_readDeadline u) (uc_closed u) (uc_lifetimeCtx u) (uc_lifetimeStop u) (uc_watchers u) r.
Definition set_shut (u : udpConn) : udpConn :=
  mkUdpConn (uc_now u) (uc_done u) (uc_readDeadline u) true (uc_lifetimeCtx u) (uc_lifetimeStop u) (uc_watchers u) (uc_reader u).

(** A stop channel is closed; a watcher is started. *)
Definition stop_watcher (i : nat) (u : udpConn) : udpConn :=
  set_watchers (alter (λ w, mkWatcher (wt_ctx w) true (wt_runs w)) i (uc_watchers u)) u.
Definition stop_if (i : option nat) (u : udpConn) : udpConn := match i with Some i => stop_watcher i u | None => u end.
Definition start_watcher (ctx : nat) (u : udpConn) : udpConn := set_watchers (uc_watchers u ++ [mkWatcher ctx false true]) u.

(** The [Read] of the socket returns at once. *)
Definition interrupted (u : udpConn) : bool :=
  uc_closed u || match uc_readDeadline u with Some t => t <=? uc_now u | None => false end.

Section contexts.
Variable deadline : nat → option Z.
Variable cancellable : nat → bool.

Definition BindLifetimeCtx (ctx : nat) (u : udpConn) : udpConn :=
  if negb (cancellable ctx) then u
  else
    let u := stop_if (uc_lifetimeStop u) u in
    let u := set_lifetime (Some ctx) (Some (length (uc_watchers u))) u in
    start_watcher ctx u.

Definition isLifetimeCtx (ctx : nat) (u : udpConn) : bool := bool_decide (uc_lifetimeCtx u = Some ctx).

(** [ReadPacket]: the deadline, the watcher, and the deferred calls. *)
Definition read_enter (ctx : nat) (u : udpConn) : udpConn :=
  match uc_reader u with
  | Outside =>
      let u := match deadline ctx with Some d => set_deadline (Some d) u | None => u end in
      set_reader (Entered ctx) u
  | _ => u
  end.
Definition watchContext (ctx : nat) (u : udpConn) : udpConn * option nat :=
  if negb (cancellable ctx) then (u, None) else (start_watcher ctx u, Some (length (uc_watchers u))).
Definition read_wait (u : udpConn) : udpConn :=
  match uc_reader u with
  | Entered ctx =>
      let '(u, own) := if isLifetimeCtx ctx u then (u, None) else watchContext ctx u in
      set_reader (InRead ctx own) u
  | _ => u
  end.
Definition read_leave (u : udpConn) : udpConn :=
  match uc_reader u with
  | InRead ctx own =>
      let u := stop_if own u in
      let u := match deadline ctx with Some _ => set_deadline None u | None => u end in
      set_reader Outside u
  | _ => u
  end.

Definition Conn_Close (u : udpConn) : udpConn :=
  if uc_closed u then u
  else set_shut (set_lifetime (uc_lifetimeCtx u) None (stop_if (uc_lifetimeStop u) u)).

(** The two branches of a watcher. *)
Definition watcher_fires (i : nat) (u : udpConn) : udpConn :=
  match uc_watchers u !! i with
  | Some w =>
      if wt_runs w && bool_decide (wt_ctx w ∈ uc_done u)
      then set_deadline (Some past) (set_watchers (<[i := mkWatcher (wt_ctx w) (wt_stopped w) false]> (uc_watchers u)) u) else u
  | None => u
  end.
Definition watcher_stops (i : nat) (u : udpConn) : udpConn :=
  match uc_watchers u !! i with
  | Some w =>
      if wt_runs w && wt_stopped w then set_watchers (<[i := mkWatcher (wt_ctx w) true false]> (uc_watchers u)) u else u
  | None => u
  end.

Inductive ucstep : Type :=
  | CBind (ctx : nat)
  | CEnter (ctx : nat)
  | CWait
  | CLeave
  | CFire (i : nat)
  | CStop (i : nat)
  | CClose
  | CCancel (ctx : nat)
  | CTime (d : nat).

Definition ucact (s : ucstep) (u : udpConn) : udpConn :=
  match s with
  | CBind ctx => BindLifetimeCtx ctx u
  | CEnter ctx => read_enter ctx u
  | CWait => read_wait u
  | CLeave => read_leave u
  | CFire i => watcher_fires i u
  | CStop i => watcher_stops i u
  | CClose => Conn_Close u
  | CCancel ctx =>
      mkUdpConn (uc_now u) (ctx :: uc_done u) (uc_readDeadline u) (uc_closed u) (uc_lifetimeCtx u) (uc_lifetimeStop u) (uc_watchers u) (uc_reader u)
  | CTime d =>
      mkUdpConn (uc_now u + Z.of_nat d) (uc_done u) (uc_readDeadline u) (uc_closed u) (uc_lifetimeCtx u) (uc_lifetimeStop u) (uc_watchers u) (uc_reader u)
  end.
Definition ucacts (ss : list ucstep) (u : udpConn) : udpConn := foldl (λ u s, ucact s u) u ss.

(** ** Watched contexts *)

(** A watcher that waits for the context. *)
Definition waits (i ctx : nat) (u : udpConn) : Prop := uc_watchers u !! i = Some (mkWatcher ctx false true).

(** The watcher behind the stop channel, or the one of the call, unless the socket
    was interrupted already; and no other watcher is left running. *)
Record watched (bound : nat) (u : udpConn) : Prop := {
  wd_deadline : past ≤ uc_now u ∧ (uc_readDeadline u = None ∨ uc_readDeadline u = Some past);
  wd_bound ctx : uc_lifetimeCtx u = Some ctx → ctx = bound;
  wd_lifetime : uc_lifetimeCtx u = Some bound → interrupted u = true ∨ ∃ i, uc_lifetimeStop u = Some i ∧ waits i bound u;
  wd_entered ctx : uc_reader u = Entered ctx → deadline ctx = None;
  wd_read ctx own : uc_reader u = InRead ctx own → deadline ctx = None ∧
    match own with
    | Some i => interrupted u = true ∨ waits i ctx u
    | None => cancellable ctx = false ∨ uc_lifetimeCtx u = Some ctx
    end;
  wd_stop i : uc_lifetimeStop u = Some i → (i < length (uc_watchers u))%nat;
  wd_own ctx i : uc_reader u = InRead ctx (Some i) → (i < length (uc_watchers u))%nat ∧ uc_lifetimeStop u ≠ Some i;
  wd_runs i w : uc_watchers u !! i = Some w → wt_runs w = true → wt_stopped w = false →
    uc_lifetimeStop u = Some i ∨ ∃ ctx, uc_reader u = InRead ctx (Some i)
}.

(** The steps of callers that pass contexts without a deadline and bind one
    context only. *)
Definition plain (bound : nat) (s : ucstep) : Prop :=
  match s with CBind ctx => ctx = bound | CEnter ctx => deadline ctx = None | _ => True end.

Lemma waits_stop i j ctx u : i ≠ j → waits i ctx u → waits i ctx (stop_watcher j u).
Proof. intros Hne H. unfold waits, stop_watcher. cbn. by rewrite list_lookup_alter_ne. Qed.
Lemma waits_stop_if i o ctx u : o ≠ Some i → waits i ctx u → waits i ctx (stop_if o u).
Proof. intros Hne H. destruct o as [j|]; [|done]. apply waits_stop; [congruence|done]. Qed.

(** A watcher still running unstopped, after another was stopped. *)
Lemma runs_stop_if o u i w :
  uc_watchers (stop_if o u) !! i = Some w → wt_stopped w = false → uc_watchers u !! i = Some w ∧ o ≠ Some i.
Proof.
  destruct o as [j|]; [|done]. cbn. intros Hw Hs. destruct (decide (i = j)) as [->|Hne].
  - rewrite list_lookup_alter_eq in Hw. destruct (uc_watchers u !! j) as [v|]; [|done]. by injection Hw as <-.
  - rewrite list_lookup_alter_ne in Hw by done. split; [done|congruence].
Qed.
Lemma length_stop_if o u : length (uc_watchers (stop_if o u)) = length (uc_watchers u).
Proof. destruct o as [j|]; [|done]. cbn. by rewrite length_alter. Qed.

Lemma runs_started ctx u i w :
  uc_watchers (start_watcher ctx u) !! i = Some w → uc_watchers u !! i = Some w ∨ i = length (uc_watchers u).
Proof.
  cbn. intros H. destruct (decide (i < length (uc_watchers u))%nat); [left; by rewrite lookup_app_l in H|right].
  apply lookup_lt_Some in H. rewrite length_app in H. cbn in H. lia.
Qed.
Lemma waits_start i ctx c u : waits i ctx u → waits i ctx (start_watcher c u).
Proof. apply lookup_app_l_Some. Qed.
Lemma waits_started ctx u : waits (length (uc_watchers u)) ctx (start_watcher ctx u).
Proof. apply list_lookup_middle. done. Qed.

Lemma Bind_watched bound u : watched bound u → watched bound (BindLifetimeCtx bound u).
Proof.
  intros Hd. unfold BindLifetimeCtx. destruct (cancellable bound) eqn:Hc; [cbn [negb]|done]. destruct Hd.
  set (v := stop_if (uc_lifetimeStop u) u).
  assert (uc_now v = uc_now u ∧ uc_readDeadline v = uc_readDeadline u ∧ uc_reader v = uc_reader u ∧ interrupted v = interrupted u)
    as (Hv1 & Hv2 & Hv3 & Hv4) by (subst v; by destruct (uc_lifetimeStop u)).
  set (x := set_lifetime _ _ v). assert (length (uc_watchers v) = length (uc_watchers u)) as Hl by apply length_stop_if.
  split; cbn [start_watcher set_watchers set_lifetime uc_now uc_readDeadline uc_lifetimeCtx uc_lifetimeStop uc_reader x]; rewrite ?Hv1, ?Hv2, ?Hv3.
  - done.
  - by intros ctx [= <-].
  - intros _. right. eexists. split; [done|]. apply (waits_started bound x).
  - done.
  - intros ctx own Hr. destruct (wd_read0 ctx own Hr) as [H1 H2]. split; [done|]. destruct own as [i|].
    + destruct H2 as [H2|H2]; [left; by rewrite <-Hv4 in H2|right]. apply (waits_start i ctx bound x). destruct (wd_own0 ctx i Hr) as [_ Hn].
      by apply waits_stop_if.
    + destruct H2 as [H2|H2]; [by left|right]. by rewrite (wd_bound0 _ H2).
  - intros i [= <-]. cbn. rewrite length_app. cbn. lia.
  - intros ctx i Hr. destruct (wd_own0 ctx i Hr) as [Hi _]. cbn. rewrite length_app, Hl. split; [lia|]. intros [= ?]. lia.
  - intros i w Hw H1 H2. destruct (runs_started bound x i w Hw) as [Hw'| ->]; [|by left]. right.
    destruct (runs_stop_if _ _ _ _ Hw' H2) as [Hw'' Hn]. by destruct (wd_runs0 i w Hw'' H1 H2).
Qed.

Lemma wait_watched bound u : watched bound u → watched bound (read_wait u).
Proof.
  intros Hd. unfold read_wait. destruct (uc_reader u) as [|ctx|] eqn:Hr; try done. pose proof Hd as [].
  pose proof (wd_entered0 ctx Hr) as Hdl. unfold isLifetimeCtx. case_bool_decide as Hlt.
  - split; cbn; try done. 
    + intros c own [= <- <-]. split; [done|by right].
    + intros i w Hw H1 H2. destruct (wd_runs0 i w Hw H1 H2) as [?|[c Hc]]; [by left|by rewrite Hr in Hc].
  - unfold watchContext. destruct (cancellable ctx) eqn:Hc; cbn [negb].
    + split; cbn [set_reader start_watcher set_watchers uc_now uc_readDeadline uc_lifetimeCtx uc_lifetimeStop uc_reader]; try done.
      * intros H. destruct (wd_lifetime0 H) as [H1|(i & H1 & H2)]; [by left|right]. exists i. split; [done|by apply waits_start].
      * intros c own [= <- <-]. split; [done|right]. apply waits_started.
      * intros i Hi%wd_stop0. cbn. rewrite length_app. lia.
      * intros c i [= <- <-]. cbn. rewrite length_app. cbn. split; [lia|]. intros H%wd_stop0. lia.
      * intros i w Hw H1 H2. destruct (runs_started ctx u i w Hw) as [Hw'| ->]; [|right; by exists ctx].
        destruct (wd_runs0 i w Hw' H1 H2) as [?|[c Hc']]; [by left|by rewrite Hr in Hc'].
    + split; cbn; try done.
      * intros c own [= <- <-]. split; [done|by left].
      * intros i w Hw H1 H2. destruct (wd_runs0 i w Hw H1 H2) as [?|[c Hc']]; [by left|by rewrite Hr in Hc'].
Qed.

Lemma leave_watched bound u : watched bound u → watched bound (read_leave u).
Proof.
  intros Hd. unfold read_leave. destruct (uc_reader u) as [| |ctx own] eqn:Hr; try done. destruct Hd.
  destruct (wd_read0 ctx own Hr) as [-> _]. cbv zeta. set (v := stop_if own u).
  assert (uc_now v = uc_now u ∧ uc_readDeadline v = uc_readDeadline u ∧ uc_lifetimeCtx v = uc_lifetimeCtx u ∧
          uc_lifetimeStop v = uc_lifetimeStop u ∧ uc_closed v = uc_closed u)
    as (Hv1 & Hv2 & Hv3 & Hv4 & Hv5) by (subst v; by destruct own).
  split; cbn [set_reader uc_now uc_readDeadline uc_lifetimeCtx uc_lifetimeStop uc_reader]; rewrite ?Hv1, ?Hv2, ?Hv3, ?Hv4; try done.
  - intros H. destruct (wd_lifetime0 H) as [H1|(i & H1 & H2)].
    + left. unfold interrupted in *. cbn. by rewrite Hv1, Hv2, Hv5.
    + right. exists i. split; [done|]. apply waits_stop_if; [|done]. intros ->. by destruct (wd_own0 ctx i Hr).
  - intros i Hi%wd_stop0. change (i < length (uc_watchers v))%nat. subst v. by rewrite length_stop_if.
  - intros i w Hw H1 H2. destruct (runs_stop_if _ _ _ _ Hw H2) as [Hw' Hn]. destruct (wd_runs0 i w Hw' H1 H2) as [?|[c Hc]]; [by left|].
    rewrite Hr in Hc. by injection Hc as _ ->.
Qed.

Lemma Close_watched bound u : watched bound u → watched bound (Conn_Close u).
Proof.
  intros Hd. unfold Conn_Close. destruct (uc_closed u) eqn:Hc; [done|]. destruct Hd. set (v := stop_if (uc_lifetimeStop u) u).
  assert (uc_now v = uc_now u ∧ uc_readDeadline v = uc_readDeadline u ∧ uc_lifetimeCtx v = uc_lifetimeCtx u ∧ uc_reader v = uc_reader u)
    as (Hv1 & Hv2 & Hv3 & Hv4) by (subst v; by destruct (uc_lifetimeStop u)).
  split; cbn [set_shut set_lifetime uc_now uc_readDeadline uc_lifetimeCtx uc_lifetimeStop uc_reader]; rewrite ?Hv1, ?Hv2, ?Hv4; try done.
  - intros _. by left.
  - intros ctx own Hr. destruct (wd_read0 ctx own Hr) as [H1 H2]. split; [done|]. destruct own; [by left|done].
  - intros ctx i Hr. split; [|done]. destruct (wd_own0 ctx i Hr) as [Hi _]. by rewrite <-(length_stop_if (uc_lifetimeStop u) u) in Hi.
  - intros i w Hw H1 H2. destruct (runs_stop_if _ _ _ _ Hw H2) as [Hw' Hn]. destruct (wd_runs0 i w Hw' H1 H2) as [?|?]; [done|by right].
Qed.

(** A watcher that ends, in a socket that is interrupted or whose watcher was
    stopped. *)
Lemma watcher_ends bound u i w d :
  watched bound u → uc_watchers u !! i = Some w → d = None ∨ d = Some past →
  (d = Some past ∨ (d = uc_readDeadline u ∧ wt_stopped w = true)) →
  watched bound (set_deadline d (set_watchers (<[i := mkWatcher (wt_ctx w) (wt_stopped w) false]> (uc_watchers u)) u)).
Proof.
  intros [] Hw Hd Hcase. set (l := <[i := _]> _). set (v := set_deadline d _).
  assert (interrupted u = true → interrupted v = true) as Hint.
  { unfold interrupted. cbn. destruct (uc_closed u); [done|]. destruct Hcase as [-> | [-> _]]; [|done].
    intros _. cbn. apply Z.leb_le. apply wd_deadline0. }
  assert (∀ j c, waits j c u → interrupted v = true ∨ waits j c v) as Hwaits.
  { intros j c Hj. destruct Hcase as [-> | [-> Hs]].
    - left. unfold interrupted. cbn. rewrite (proj2 (Z.leb_le _ _) (proj1 wd_deadline0)). by rewrite orb_true_r.
    - right. unfold waits in *. cbn. subst l. destruct (decide (i = j)) as [->|Hne]; [by rewrite Hw in Hj; injection Hj as ->|].
      by rewrite list_lookup_insert_ne. }
  assert (length l = length (uc_watchers u)) as Hl by apply length_insert.
  split; cbn [v set_deadline set_watchers uc_now uc_readDeadline uc_lifetimeCtx uc_lifetimeStop uc_reader uc_watchers]; rewrite ?Hl; try done.
  - split; [apply wd_deadline0|done].
  - intros H. destruct (wd_lifetime0 H) as [H1|(j & H1 & H2)]; [by left; apply Hint|]. destruct (Hwaits j bound H2); [by left|right]. by exists j.
  - intros ctx own Hr. destruct (wd_read0 ctx own Hr) as [H1 H2]. split; [done|]. destruct own as [j|]; [|done].
    destruct H2 as [H2|H2]; [by left; apply Hint|by apply Hwaits].
  - intros j w' Hw' H1 H2. destruct (decide (i = j)) as [->|Hne].
    + subst l. rewrite list_lookup_insert_eq in Hw' by (by eapply lookup_lt_Some). by injection Hw' as <-.
    + subst l. rewrite list_lookup_insert_ne in Hw' by done. by eapply wd_runs0.
Qed.

Lemma set_deadline_same u : set_deadline (uc_readDeadline u) u = u.
Proof. by destruct u. Qed.

(** Time and cancellations. *)
Lemma wait_more bound u u' :
  watched bound u → uc_now u ≤ uc_now u' → uc_readDeadline u' = uc_readDeadline u → uc_closed u' = uc_closed u →
  uc_lifetimeCtx u' = uc_lifetimeCtx u → uc_lifetimeStop u' = uc_lifetimeStop u → uc_watchers u' = uc_watchers u →
  (uc_reader u' = uc_reader u ∨ (uc_reader u = Outside ∧ ∃ ctx, deadline ctx = None ∧ uc_reader u' = Entered ctx)) → watched bound u'.
Proof.
  intros [] Hn Hd Hc Hlc Hls Hw Hr.
  assert (interrupted u = true → interrupted u' = true) as Hint.
  { unfold interrupted. rewrite Hd, Hc. destruct (uc_closed u); [done|]. destruct (uc_readDeadline u); [|done]. cbn. rewrite !Z.leb_le. lia. }
  assert (∀ c o, uc_reader u' = InRead c o → uc_reader u = InRead c o) as Hin.
  { intros c o H. destruct Hr as [Hr|(_ & c' & _ & Hr)]; congruence. }
  split; unfold waits in *; rewrite ?Hd, ?Hlc, ?Hls, ?Hw.
  - split; [lia|apply wd_deadline0].
  - done.
  - intros H. destruct (wd_lifetime0 H); auto.
  - intros ctx H. destruct Hr as [Hr|(_ & c' & Hdl & Hr)]; [apply wd_entered0; congruence|congruence].
  - intros ctx own H%Hin. destruct (wd_read0 ctx own H) as [H1 H2]. split; [done|]. destruct own; [|done]. destruct H2; auto.
  - done.
  - intros ctx i H%Hin. by apply (wd_own0 ctx i).
  - intros i w H1 H2 H3. destruct (wd_runs0 i w H1 H2 H3) as [?|[ctx H]]; [by left|right]. exists ctx.
    destruct Hr as [Hr|(Hr & _)]; congruence.
Qed.

Lemma watched_step bound s u : plain bound s → watched bound u → watched bound (ucact s u).
Proof.
  intros Hp Hd. destruct s as [ctx|ctx| | |i|i| |ctx|d]; cbn [ucact plain] in *.
  - subst ctx. by apply Bind_watched.
  - unfold read_enter. destruct (uc_reader u) eqn:Hr; try done. rewrite Hp. apply (wait_more _ u); cbn; auto; [lia|]. right. split; [done|by exists ctx].
  - by apply wait_watched.
  - by apply leave_watched.
  - unfold watcher_fires. destruct (uc_watchers u !! i) as [w|] eqn:Hw; [|done]. destruct (wt_runs w && _); [|done].
    apply (watcher_ends bound u i w (Some past)); auto.
  - unfold watcher_stops. destruct (uc_watchers u !! i) as [w|] eqn:Hw; [|done]. destruct (wt_runs w); [|done]. destruct (wt_stopped w) eqn:Hs; [|done].
    pose proof (watcher_ends bound u i w (uc_readDeadline u) Hd Hw (proj2 (wd_deadline _ _ Hd)) (or_intror (conj eq_refl Hs))) as H.
    rewrite Hs in H. cbn [andb]. by destruct u.
  - by apply Close_watched.
  - apply (wait_more _ u); cbn; auto; lia.
  - apply (wait_more _ u); cbn; auto; lia.
Qed.

Lemma watched_all bound ss u : Forall (plain bound) ss → watched bound u → watched bound (ucacts ss u).
Proof.
  intros Hp. revert u. induction Hp as [|s ss Hs _ IH]; intros u H; [done|]. cbn. by apply IH, watched_step.
Qed.

Lemma watched_new bound now : past ≤ now → watched bound (newUDP now).
Proof. intros H. split; cbn; try done. by split; [|left]. Qed.

(** A watcher whose context is cancelled interrupts the socket. *)
Lemma fires i ctx bound u : watched bound u → waits i ctx u → ctx ∈ uc_done u → interrupted (watcher_fires i u) = true.
Proof.
  intros Hd Hw Hc. unfold watcher_fires. unfold waits in Hw. rewrite Hw. cbn [wt_runs wt_ctx andb]. rewrite bool_decide_eq_true_2 by done.
  unfold interrupted. cbn. rewrite (proj2 (Z.leb_le _ _) (proj1 (wd_deadline _ _ Hd))). by rewrite orb_true_r.
Qed.

(** C38: as long as no context carries a deadline and only one context is bound as the
    lifetime, which is how the session reads from its transport, a cancelled context
    interrupts the read that was given it.  Under these two conditions, whatever the
    calls, the cancellations and the watchers do in whatever order: a read that waits in
    the socket with a cancelled context is interrupted already, or a watcher runs whose
    next step interrupts it; and every watcher but the one of that read and the one of
    the lifetime was told to stop or has ended.  ([rebound] and [erased] show that
    neither condition can be dropped.) *)
Theorem reads_interruptible bound now ss :
  past ≤ now → Forall (plain bound) ss →
  let u := ucacts ss (newUDP now) in
  (∀ ctx own, uc_reader u = InRead ctx own → cancellable ctx = true → ctx ∈ uc_done u →
     interrupted u = true ∨ ∃ i, interrupted (watcher_fires i u) = true) ∧
  (∀ i w, uc_watchers u !! i = Some w → wt_runs w = true → wt_stopped w = false →
     uc_lifetimeStop u = Some i ∨ ∃ ctx, uc_reader u = InRead ctx (Some i)).
Proof.
  intros Hn Hp u. assert (watched bound u) as Hd by (by apply watched_all, watched_new). split_and!.
  - intros ctx own Hr Hc Hdone. destruct (wd_read _ _ Hd ctx own Hr) as [_ H]. destruct own as [i|].
    + destruct H as [H|H]; [by left|right]. exists i. by eapply fires.
    + destruct H as [H|H]; [by rewrite Hc in H|]. pose proof (wd_bound _ _ Hd _ H) as ->.
      destruct (wd_lifetime _ _ Hd H) as [?|(i & _ & Hi)]; [by left|right]. exists i. by eapply fires.
  - apply (wd_runs _ _ Hd).
Qed.
End contexts.

(** ** Concrete runs *)

Definition no_deadline : nat → option Z := λ _, None.
Definition some_deadline : nat → option Z := λ ctx, if (ctx =? 2)%nat then Some (9 * Second) else None.
Definition always : nat → bool := λ _, true.

Lemma reads_interruptible_witness :
  let u := ucacts no_deadline always [CBind 7; CEnter 7; CWait; CCancel 7] (newUDP (5 * Second)) in
  interrupted u = false ∧ ∃ i, interrupted (watcher_fires i u) = true.
Proof.
  intros u. split; [vm_compute; reflexivity|].
  destruct (reads_interruptible no_deadline always 7 (5 * Second) [CBind 7; CEnter 7; CWait; CCancel 7]
    ltac:(vm_compute; discriminate) ltac:(repeat constructor)) as [H _].
  destruct (H 7%nat None ltac:(vm_compute; reflexivity) ltac:(reflexivity) ltac:(apply (bool_decide_unpack _); vm_compute; reflexivity)) as [Hi|Hi].
  - exfalso. revert Hi. vm_compute. discriminate.
  - exact Hi.
Defined.

(** The deadline a cancelled call leaves behind fails the next call, whose context
    is not cancelled. *)
Example stale_deadline :
  let u := ucacts no_deadline always [CEnter 1; CWait; CCancel 1; CFire 0; CLeave; CEnter 3; CWait] (newUDP (5 * Second)) in
  interrupted u = true ∧ uc_done u = [1%nat] ∧ uc_reader u = InRead 3 (Some 1%nat).
Proof. by vm_compute. Qed.

(** What the hypotheses exclude: a second lifetime context takes the watcher away
    from a read with the first; a call with a deadline erases the interruption of a
    cancelled lifetime. *)
Example rebound :
  let u := ucacts no_deadline always [CBind 1; CEnter 1; CWait; CBind 3; CStop 0; CCancel 1] (newUDP (5 * Second)) in
  (interrupted ∘ (λ i, watcher_fires i u)) <$> [0%nat; 1%nat] = [false; false].
Proof. by vm_compute. Qed.
Example erased :
  let u := ucacts some_deadline always [CBind 1; CCancel 1; CFire 0; CEnter 2; CWait; CLeave; CStop 1; CEnter 1; CWait] (newUDP (5 * Second)) in
  uc_reader u = InRead 1 None ∧ (interrupted ∘ (λ i, watcher_fires i u)) <$> [0%nat; 1%nat] = [false; false].
Proof. by vm_compute. Qed.
