(* ===== verification/Exit.v ===== *)
(** The bounded waits of a session that closes ([internal/session/session.go],
    [sendExitNotifyBestEffort] and the end of [shutdown]).  What the clock reads,
    when a detached write or the workers are done, and the length of the queue at
    each look are arguments. *)
From S2P Require Import Prelude.
Local Open Scope Z_scope.

(** How the notification ended. *)
Inductive notified : Type :=
  | NoConn          (* no TLS connection *)
  | WriteParked     (* the write still waits on a full queue *)
  | NoLayer         (* the active control layer is gone *)
  | Acknowledged
  | NoAck.

Definition exitNotifyTimeout : Z := 500 * Millisecond.
Definition exitPoll : Z := 10 * Millisecond.
Definition shutdownWaitTimeout : Z := 2 * Second.

(** What the world answers: when the write returns, if it does; whether the active
    layer is still there then; the clock and the queue at the [i]-th look; when the
    workers are all done, if they are. *)
Record world := mkWorld {
  wo_written : option Z;
  wo_layer : bool;
  wo_clock : nat → Z;
  wo_queueLen : nat → nat;
  wo_workers : option Z
}.

Section waits.
Variable w : world.

(** The loop of [sendExitNotifyBestEffort], with the time it ends. *)
Fixpoint await_ack (fuel : nat) (deadline : Z) (i : nat) : option (notified * Z) :=
  match fuel with
  | O => None
  | S fuel =>
      if wo_clock w i <? deadline then
        if (wo_queueLen w i =? 0)%nat then Some (Acknowledged, wo_clock w i) else await_ack fuel deadline (S i)
      else Some (NoAck, wo_clock w i)
  end.

(** The looks that fit: one every ten milliseconds, and the last. *)
Definition exit_fuel (timeout : Z) : nat := S (Z.to_nat (timeout / exitPoll + 1)).

Definition sendExitNotifyBestEffort (now timeout : Z) (conn : bool) : option (notified * Z) :=
  if negb conn then Some (NoConn, now)
  else
    let deadline := now + timeout in
    match wo_written w with
    | Some t =>
        if t <=? deadline then
          if negb (wo_layer w) then Some (NoLayer, t) else await_ack (exit_fuel timeout) deadline 0
        else Some (WriteParked, deadline)
    | None => Some (WriteParked, deadline)
    end.

(** The wait for the workers at the end of [shutdown]; [false] leaves some behind. *)
Definition shutdown_wait (now : Z) : bool * Z :=
  match wo_workers w with
  | Some t => if t <=? now + shutdownWaitTimeout then (true, Z.max t now) else (false, now + shutdownWaitTimeout)
  | None => (false, now + shutdownWaitTimeout)
  end.

(** [Close], with the time it takes for everything between its two waits. *)
Definition Close_waits (now work : Z) (conn : bool) : option (notified * bool * Z) :=
  match sendExitNotifyBestEffort now exitNotifyTimeout conn with
  | Some (n, t) => let '(clean, t) := shutdown_wait (t + work) in Some (n, clean, t)
  | None => None
  end.

(** A sleep takes its ten milliseconds, and [late] more at most; a write does not
    return before it was made. *)
Record timely (now late : Z) : Prop := {
  ti_written t : wo_written w = Some t → now ≤ t ∧ t ≤ wo_clock w 0 ≤ t + late;
  ti_sleep i : wo_clock w i + exitPoll ≤ wo_clock w (S i) ≤ wo_clock w i + exitPoll + late
}.

Lemma await_ack_ends deadline late fuel : ∀ i,
  (∀ i, wo_clock w i + exitPoll ≤ wo_clock w (S i) ≤ wo_clock w i + exitPoll + late) →
  0 ≤ late → wo_clock w i ≤ deadline + exitPoll + late → deadline ≤ wo_clock w i + (Z.of_nat fuel - 1) * exitPoll → (0 < fuel)%nat →
  ∃ n t, await_ack fuel deadline i = Some (n, t) ∧ t ≤ deadline + exitPoll + late ∧
    (n = Acknowledged ↔ ∃ j, (i ≤ j)%nat ∧ wo_clock w j < deadline ∧ wo_queueLen w j = 0%nat ∧ ∀ k, (i ≤ k < j)%nat → wo_queueLen w k ≠ 0%nat).
Proof.
  induction fuel as [|fuel IH]; intros i Hs Hl Hi Hf Hpos; [lia|]. cbn [await_ack].
  assert (∀ j, wo_clock w i + Z.of_nat j * exitPoll ≤ wo_clock w (i + j)%nat) as Hmono.
  { induction j as [|j IHj]; [rewrite Nat.add_0_r; lia|]. rewrite Nat.add_succ_r. pose proof (Hs (i + j)%nat). lia. }
  destruct (Z.ltb_spec (wo_clock w i) deadline) as [Hlt|Hge].
  - destruct (Nat.eqb_spec (wo_queueLen w i) 0) as [Hq|Hq].
    + eexists _, _. split; [done|]. split; [lia|]. split; [|done]. intros _. exists i. split_and!; [done..|]. lia.
    + destruct (IH (S i) Hs Hl) as (n & t & H1 & H2 & H3); [pose proof (Hs i); unfold exitPoll in *; lia..| |].
      { destruct fuel; [|lia]. unfold exitPoll in *. lia. }
      exists n, t. split; [done|]. split; [done|]. rewrite H3. split.
      * intros (j & Hj & H4 & H5 & H6). exists j. split_and!; [lia|done|done|]. intros k Hk. destruct (decide (k = i)) as [->|]; [done|]. apply H6. lia.
      * intros (j & Hj & H4 & H5 & H6). exists j. destruct (decide (j = i)) as [->|]; [done|]. split_and!; [lia|done|done|]. intros k Hk. apply H6. lia.
  - eexists _, _. split; [done|]. split; [done|]. split; [done|]. intros (j & Hj & H4 & _). specialize (Hmono (j - i)%nat).
    replace (i + (j - i))%nat with j in Hmono by lia. unfold exitPoll, Millisecond in Hmono. lia.
Qed.
End waits.

Lemma notify_ends w now late conn :
  timely w now late → 0 ≤ late →
  ∃ n t, sendExitNotifyBestEffort w now exitNotifyTimeout conn = Some (n, t) ∧ t ≤ now + exitNotifyTimeout + exitPoll + late ∧
    (n = Acknowledged → conn = true ∧ ∃ j, wo_queueLen w j = 0%nat ∧ wo_clock w j < now + exitNotifyTimeout).
Proof.
  intros [Hw Hs] Hl. unfold sendExitNotifyBestEffort. assert (0 ≤ exitNotifyTimeout ∧ 0 ≤ exitPoll) as [H1 H2] by (by vm_compute).
  destruct conn; cbn [negb]; [|eexists _, _; split_and!; [done|lia|done]].
  destruct (wo_written w) as [t|] eqn:Hwt; [|eexists _, _; split_and!; [done|lia|done]].
  destruct (Hw t eq_refl) as [Ht Hc]. destruct (Z.leb_spec t (now + exitNotifyTimeout)) as [Hle|Hgt];
    [|eexists _, _; split_and!; [done|lia|done]].
  destruct (wo_layer w); cbn [negb]; [|eexists _, _; split_and!; [done|lia|done]].
  destruct (await_ack_ends w (now + exitNotifyTimeout) late (exit_fuel exitNotifyTimeout) 0 Hs Hl) as (n & t' & H3 & H4 & H5).
  - lia.
  - change ((Z.of_nat (exit_fuel exitNotifyTimeout) - 1) * exitPoll) with (exitNotifyTimeout + exitPoll). lia.
  - unfold exit_fuel. lia.
  - exists n, t'. split_and!; [done|done|]. intros (j & _ & H6 & H7 & _)%H5. split; [done|]. by exists j.
Qed.

(** [Close] comes back, within half a second for the notification, one poll, and
    two seconds for the workers, whatever the peer, the queue and the workers do;
    the notification counts as acknowledged only if the queue was seen empty in
    time. *)
Theorem close_bounded w now work late conn :
  timely w now late → 0 ≤ late → 0 ≤ work →
  ∃ n clean t, Close_waits w now work conn = Some (n, clean, t) ∧
    t ≤ now + 500 * Millisecond + 10 * Millisecond + late + work + 2 * Second ∧
    (n = Acknowledged → conn = true ∧ ∃ j, wo_queueLen w j = 0%nat ∧ wo_clock w j < now + 500 * Millisecond).
Proof.
  intros Ht Hl Hk. unfold Close_waits. destruct (notify_ends w now late conn Ht Hl) as (n & t & -> & Hle & Hn).
  change exitNotifyTimeout with (500 * Millisecond) in *. change exitPoll with (10 * Millisecond) in Hle.
  unfold shutdown_wait. change shutdownWaitTimeout with (2 * Second).
  destruct (wo_workers w) as [t'|]; [destruct (Z.leb_spec t' (t + work + 2 * Second))|]; eexists _, _, _; (split; [done|]); (split; [|done]);
    unfold Second in *; lia.
Qed.

Definition prompt : world := mkWorld (Some 1) true (λ i, Z.of_nat i * exitPoll + 1) (λ i, 3 - i)%nat (Some Second).
Lemma close_bounded_witness :
  ∃ t, Close_waits prompt 0 0 true = Some (Acknowledged, true, t) ∧ t ≤ 510 * Millisecond + 2 * Second.
Proof.
  destruct (close_bounded prompt 0 0 0 true) as (n & clean & t & H & Ht & _).
  - split; cbn; [by intros t [= <-]|]. unfold exitPoll, Millisecond. lia.
  - lia.
  - lia.
  - assert (Close_waits prompt 0 0 true = Some (Acknowledged, true, Second)) as H' by (vm_compute; reflexivity).
    exists t. rewrite H' in *. injection H as <- <- <-. split; [reflexivity|]. lia.
Defined.

(** A dead peer and a stuck worker: two and a half seconds. *)
Example dead_peer : Close_waits (mkWorld None true (λ _, 0) (λ _, 1%nat) None) 0 0 true = Some (WriteParked, false, 2500 * Millisecond).
Proof. by vm_compute. Qed.
