(* ===== verification/Optional.v ===== *)
(** Optional values ([internal/optional/optional.go]).  [encoding/json] is a class:
    what it writes for a value and what it reads, with the law that it reads back
    what it wrote. *)
From S2P Require Import Prelude Text.
Local Open Scope Z_scope.

(** A value and whether it is set; an unset one holds the zero of its type. *)
Record Value (T : Type) := mkValue { v_v : T; v_set : bool }.
Arguments mkValue {T} _ _.
Arguments v_v {T} _.
Arguments v_set {T} _.

Inductive optional_error : Type := ErrJson.

(** [json.Marshal] and [json.Unmarshal] at a type; [zero] is its zero value. *)
Class Json (T : Type) := {
  zero : T;
  json_Marshal : T → res optional_error bytes;
  json_Unmarshal : bytes → res optional_error T
}.
Class JsonLaws (T : Type) {J : Json T} := {
  json_back v b : json_Marshal v = Ok b → json_Unmarshal b = Ok v
}.

Definition null : bytes := text "null".

Section values.
Context {T : Type} {J : Json T}.

Definition NoValue : Value T := mkValue zero false.
Definition SomeValue (v : T) : Value T := mkValue v true.
Definition IsSome (o : Value T) : bool := v_set o.
Definition IsNone (o : Value T) : bool := negb (v_set o).
Definition Get (o : Value T) : T * bool := (v_v o, v_set o).
Definition UnwrapOr (fallback : T) (o : Value T) : T := if v_set o then v_v o else fallback.
Definition Unwrap (o : Value T) : res optional_error T := if negb (v_set o) then Panic else Ok (v_v o).

Definition MarshalJSON (o : Value T) : res optional_error bytes := if negb (v_set o) then Ok null else json_Marshal (v_v o).

(** The receiver is left alone by an error. *)
Definition UnmarshalJSON (data : bytes) (o : Value T) : Value T * option optional_error :=
  if bool_decide (data = null) then (NoValue, None)
  else
    match json_Unmarshal data with
    | Ok v => (SomeValue v, None)
    | Err e => (o, Some e)
    | Panic => (o, None)
    end.

(** An option, as the exported operations make and show it. *)
Definition of_option (o : option T) : Value T := match o with Some v => SomeValue v | None => NoValue end.
Definition to_option (o : Value T) : option T := if v_set o then Some (v_v o) else None.

Lemma operations_of_option o fallback :
  let v := of_option o in
  to_option v = o ∧ IsSome v = bool_decide (is_Some o) ∧ IsNone v = negb (IsSome v) ∧ Get v = (default zero o, bool_decide (is_Some o)) ∧
  UnwrapOr fallback v = default fallback o ∧ Unwrap v = match o with Some x => Ok x | None => Panic end.
Proof. by destruct o. Qed.

(** Everything the operations build is an option. *)
Lemma Unmarshal_option data o x : o = of_option x → ∃ y, (UnmarshalJSON data o).1 = of_option y.
Proof.
  intros ->. unfold UnmarshalJSON. case_bool_decide; [by exists None|].
  destruct (json_Unmarshal data) as [v| |]; [by exists (Some v)|by exists x..].
Qed.

(** An optional value survives JSON exactly if it is absent or its payload
    is not written as [null]: a payload so written comes back absent. *)
Theorem json_roundtrip {L : JsonLaws T} (o : option T) old b :
  MarshalJSON (of_option o) = Ok b →
  UnmarshalJSON b old = (of_option (if bool_decide (b = null) then None else o), None).
Proof.
  intros Hm. unfold UnmarshalJSON. case_bool_decide as Hb; [done|].
  destruct o as [v|]; cbn in Hm; [|by injection Hm as <-]. by rewrite (json_back _ _ Hm).
Qed.
End values.

(** JSON booleans; and optional values are themselves marshalled so. *)
#[export] Instance json_bool : Json bool := {|
  zero := false;
  json_Marshal b := Ok (text (if b then "true" else "false"));
  json_Unmarshal b :=
    if bool_decide (b = text "true") then Ok true
    else if bool_decide (b = text "false") then Ok false else Err ErrJson
|}.
#[export] Instance json_bool_laws : JsonLaws bool.
Proof. split. intros v b [= <-]. by destruct v. Qed.
#[export] Instance json_value {T} {J : Json T} : Json (Value T) := {|
  zero := NoValue;
  json_Marshal := MarshalJSON;
  json_Unmarshal b := match UnmarshalJSON b NoValue with (v, None) => Ok v | (_, Some e) => Err e end
|}.

Lemma json_roundtrip_witness :
  UnmarshalJSON (text "false") (SomeValue true) = (SomeValue false, None).
Proof. exact (json_roundtrip (Some false) (SomeValue true) (text "false") eq_refl). Defined.

(** A present absence is lost. *)
Example nested_lost :
  MarshalJSON (SomeValue (NoValue (T := bool))) = Ok null ∧
  UnmarshalJSON null (SomeValue (SomeValue true)) = (NoValue, None).
Proof. by vm_compute. Qed.
