(* ===== verification/Buffers.v ===== *)
(** The pooled buffers of the data path ([internal/data/slot.go]: [Seal] in place,
    [sealBufPool], [openBufPool]; their use in [internal/session]).  Everywhere
    else packets are values; here they live in shared memory, goroutines fill,
    read and recycle buffers in any order, and what leaves is shown to be what the
    values say. *)
From S2P Require Import Prelude Wire Replay DataChannel.
Local Open Scope Z_scope.

(** ** Sealing in place *)

Definition sealBufSize : nat := 1500 + DataV2HeaderLen + 2 * TagLen.
Definition openBufSize : nat := 1500.

(** [copy(buf[at:], b)] where [b] fits. *)
Definition write_at (at_ : nat) (b buf : bytes) : bytes := take at_ buf ++ b ++ drop (at_ + length b) buf.

Section buffers.
Context `{C : Aead}.

(** [Seal] up to its buffer: the header, and the output of the cipher. *)
Definition seal_parts (plaintext : bytes) (s : Slot) : Slot * res data_error (bytes * bytes) :=
  let pid := u32 (s_sendPID s + 1) in
  let s := set_sendPID pid s in
  (s,
   guard_err (PacketIDRekeyThreshold <=? pid) ErrPacketIDExhausted;;
   let opcodeKID := PackOpcodeKID PDataV2 (s_KeyID s) in
   let nonce := makeNonce pid (s_sendIV s) in
   let aad := makeAAD opcodeKID (s_PeerID s) pid in
   let hdr := [opcodeKID; z2b (Z.shiftr (s_PeerID s) 16); z2b (Z.shiftr (s_PeerID s) 8);
               z2b (s_PeerID s)] ++ be_enc 4 pid in
   let sealed := aead_Seal (s_sendAEAD s) nonce plaintext aad in
   guard_err (negb (length sealed =? length plaintext + TagLen)%nat) (ErrSealLength (length sealed));;
   Ok (hdr, sealed)).

(** Where the output of the cipher starts, the room a packet of [n] bytes takes
    while it is made, and its length. *)
Definition dstStart : nat := DataV2HeaderLen + TagLen.
Definition pktLen (n : nat) : nat := dstStart + n.
Definition want (n : nat) : nat := pktLen n + TagLen.

(** The three writes of [Seal], the last one moving the tag. *)
Definition put_header (hdr buf : bytes) : bytes := write_at 0 hdr buf.
Definition put_sealed (sealed buf : bytes) : bytes := write_at dstStart sealed buf.
Definition move_tag (n : nat) (buf : bytes) : bytes := write_at DataV2HeaderLen (take TagLen (drop (dstStart + n) buf)) buf.

Lemma length_write_at at_ b buf : (at_ + length b ≤ length buf)%nat → length (write_at at_ b buf) = length buf.
Proof. intros H. unfold write_at. rewrite !length_app, length_take, length_drop. lia. Qed.

Lemma seal_parts_Seal p s :
  Seal p s =
  ((seal_parts p s).1,
   match (seal_parts p s).2 with
   | Ok (hdr, sealed) => Ok (hdr ++ take TagLen (drop (length p) sealed) ++ take (length p) sealed)
   | Err e => Err e
   | Panic => Panic
   end).
Proof.
  unfold Seal, seal_parts. cbn [fst snd]. f_equal. unfold guard_err. destruct (PacketIDRekeyThreshold <=? _); [done|]. bind.
  destruct (Nat.eqb_spec (length (aead_Seal (s_sendAEAD s) (makeNonce (u32 (s_sendPID s + 1)) (s_sendIV s)) p
    (makeAAD (PackOpcodeKID PDataV2 (s_KeyID s)) (s_PeerID s) (u32 (s_sendPID s + 1))))) (length p + TagLen)) as [Hl|Hl].
  2: { cbn [set_sendPID s_sendAEAD s_sendIV s_KeyID s_PeerID]. by rewrite (proj2 (Nat.eqb_neq _ _) Hl). }
  cbn [set_sendPID s_sendAEAD s_sendIV s_KeyID s_PeerID]. rewrite Hl, Nat.eqb_refl. bind.
  rewrite !slice_Ok by (rewrite Hl; lia). bind. rewrite Nat.sub_0_r, Nat.add_comm, Nat.add_sub, drop_0. done.
Qed.

Lemma seal_parts_lengths p s hdr sealed :
  (seal_parts p s).2 = Ok (hdr, sealed) → length hdr = DataV2HeaderLen ∧ length sealed = (length p + TagLen)%nat.
Proof.
  unfold seal_parts. cbn [snd]. intros ([] & _ & ([] & Hl%guard_Ok & [= <- <-])%bind_Ok)%bind_Ok.
  apply negb_false_iff, Nat.eqb_eq in Hl. split; [|done]. cbn [app length]. by rewrite length_be_enc.
Qed.

(** The stages of a buffer and what it holds by then. *)
Inductive stage : Type := Acquired | Headed | Bodied | Sealed | Written.
#[local] Instance stage_eq_dec : EqDecision stage.
Proof. solve_decision. Defined.

Definition filled (st : stage) (p : bytes) (s : Slot) (buf : bytes) : Prop :=
  ∃ hdr sealed, (seal_parts p s).2 = Ok (hdr, sealed) ∧ (want (length p) ≤ length buf)%nat ∧
    match st with
    | Acquired => True
    | Headed => take DataV2HeaderLen buf = hdr
    | Bodied => take DataV2HeaderLen buf = hdr ∧ take (length sealed) (drop dstStart buf) = sealed
    | Sealed | Written => (Seal p s).2 = Ok (take (pktLen (length p)) buf)
    end.

Lemma put_header_filled p s buf hdr sealed :
  (seal_parts p s).2 = Ok (hdr, sealed) → filled Acquired p s buf → filled Headed p s (put_header hdr buf).
Proof.
  intros Hp (_ & _ & _ & Hw & _). destruct (seal_parts_lengths _ _ _ _ Hp) as [Hh _]. exists hdr, sealed. split; [done|].
  unfold put_header, want, pktLen in *. unfold dstStart, DataV2HeaderLen, TagLen in *. split.
  - rewrite length_write_at; lia.
  - unfold write_at. rewrite take_0. cbn [app]. by apply take_app_length'.
Qed.

Lemma put_sealed_filled p s buf hdr sealed :
  (seal_parts p s).2 = Ok (hdr, sealed) → filled Headed p s buf → filled Bodied p s (put_sealed sealed buf).
Proof.
  intros Hp (h & x & Hp' & Hw & Hh). rewrite Hp in Hp'. injection Hp' as <- <-. destruct (seal_parts_lengths _ _ _ _ Hp) as [Hl Hs].
  exists hdr, sealed. split; [done|]. unfold put_sealed, want, pktLen, TagLen in *.
  rewrite length_write_at by (unfold dstStart, DataV2HeaderLen, TagLen in *; lia). split; [done|]. unfold write_at. split.
  - rewrite take_app_le by (rewrite length_take; unfold dstStart, DataV2HeaderLen, TagLen in *; lia). by rewrite take_take.
  - rewrite drop_app_length' by (rewrite length_take; unfold dstStart, DataV2HeaderLen, TagLen in *; lia). by rewrite take_app_length.
Qed.

Lemma move_tag_filled p s buf : filled Bodied p s buf → filled Sealed p s (move_tag (length p) buf).
Proof.
  intros (hdr & sealed & Hp & Hw & Hh & Hs). destruct (seal_parts_lengths _ _ _ _ Hp) as [Hl Hsl]. exists hdr, sealed. split; [done|].
  unfold move_tag, want, pktLen in *. set (n := length p) in *.
  assert (take TagLen (drop (dstStart + n) buf) = take TagLen (drop n sealed)) as Htag.
  { rewrite <-Hs, skipn_firstn_comm, take_take, drop_drop. f_equal. unfold TagLen in *. lia. }
  assert (length (take TagLen (drop (dstStart + n) buf)) = TagLen) as Htl by (rewrite length_take, length_drop; unfold TagLen in *; lia).
  split; [rewrite length_write_at; [done|rewrite Htl; unfold dstStart, DataV2HeaderLen, TagLen in *; lia]|].
  rewrite seal_parts_Seal, Hp. cbn [snd]. f_equal. unfold write_at. rewrite Htag, Hh, app_assoc.
  assert (length (take TagLen (drop n sealed)) = TagLen) as Htl2 by (by rewrite <-Htag).
  rewrite (app_assoc _ _ (drop _ _)), take_app_ge by (rewrite !length_app, Htl2; unfold dstStart, DataV2HeaderLen, TagLen in *; lia).
  f_equal. rewrite Htl2. replace (dstStart + n - length (hdr ++ take TagLen (drop n sealed)))%nat with n
    by (rewrite length_app, Htl2; unfold dstStart, DataV2HeaderLen, TagLen in *; lia).
  rewrite <-Hs at 1. rewrite take_take. unfold dstStart. f_equal. lia.
Qed.

(** ** The memory *)

(** A goroutine in [WriteCtx] or the keepalive loop: outside, or with the buffer of
    its packet, the packet and the slot it was sealed with noted. *)
Inductive writer : Type :=
  | Outside
  | Holds (b : nat) (st : stage) (p : bytes) (s : Slot).

(** The read loop in [handleDataIn]: the pooled buffer, and the plaintext, which
    is in it or, if it did not fit, in a buffer of its own. *)
Inductive reader : Type :=
  | Waiting
  | Opened (pooled plain : nat) (n : nat) (pkt : bytes) (s : Slot).

(** The buffers ever made, by number, the two pools, the slot, the goroutines, and
    what an observer notes: the packets put on the wire and the plaintexts the
    consumers saw. *)
Record memory := mkMemory {
  mm_heap : list bytes;
  mm_sealPool : list nat;
  mm_openPool : list nat;
  mm_slot : Slot;
  mm_writers : list writer;
  mm_reader : reader;
  mm_wire : list (bytes * Slot * bytes);
  mm_seen : list (bytes * Slot * bytes)
}.

Definition mem_init (s : Slot) (writers : nat) : memory := mkMemory [] [] [] s (replicate writers Outside) Waiting [] [].

Definition set_heap h m := mkMemory h (mm_sealPool m) (mm_openPool m) (mm_slot m) (mm_writers m) (mm_reader m) (mm_wire m) (mm_seen m).
Definition set_sealPool l m := mkMemory (mm_heap m) l (mm_openPool m) (mm_slot m) (mm_writers m) (mm_reader m) (mm_wire m) (mm_seen m).
Definition set_openPool l m := mkMemory (mm_heap m) (mm_sealPool m) l (mm_slot m) (mm_writers m) (mm_reader m) (mm_wire m) (mm_seen m).
Definition set_slot s m := mkMemory (mm_heap m) (mm_sealPool m) (mm_openPool m) s (mm_writers m) (mm_reader m) (mm_wire m) (mm_seen m).
Definition set_writer i w m := mkMemory (mm_heap m) (mm_sealPool m) (mm_openPool m) (mm_slot m) (<[i := w]> (mm_writers m)) (mm_reader m) (mm_wire m) (mm_seen m).
Definition set_reader r m := mkMemory (mm_heap m) (mm_sealPool m) (mm_openPool m) (mm_slot m) (mm_writers m) r (mm_wire m) (mm_seen m).
Definition note_wire x m := mkMemory (mm_heap m) (mm_sealPool m) (mm_openPool m) (mm_slot m) (mm_writers m) (mm_reader m) (mm_wire m ++ [x]) (mm_seen m).
Definition note_seen x m := mkMemory (mm_heap m) (mm_sealPool m) (mm_openPool m) (mm_slot m) (mm_writers m) (mm_reader m) (mm_wire m) (mm_seen m ++ [x]).

(** [make]: a new buffer. *)
Definition make (size : nat) (m : memory) : memory * nat := (set_heap (mm_heap m ++ [replicate size x00]) m, length (mm_heap m)).

(** [sync.Pool]: [Get] takes any buffer of the pool, or makes one. *)
Definition seal_Get (choice : option nat) (m : memory) : memory * nat :=
  match choice ≫= (λ c, pair c <$> mm_sealPool m !! c) with
  | Some (c, b) => (set_sealPool (delete c (mm_sealPool m)) m, b)
  | None => make sealBufSize m
  end.
Definition GetOpenBuf (choice : option nat) (m : memory) : memory * nat :=
  match choice ≫= (λ c, pair c <$> mm_openPool m !! c) with
  | Some (c, b) => (set_openPool (delete c (mm_openPool m)) m, b)
  | None => make openBufSize m
  end.

Definition buf_cap (b : nat) (m : memory) : nat := length (default [] (mm_heap m !! b)).
Definition ReleaseSealedBuf (b : nat) (m : memory) : memory :=
  if negb (buf_cap b m =? sealBufSize)%nat then m else set_sealPool (b :: mm_sealPool m) m.
Definition PutOpenBuf (b : nat) (m : memory) : memory :=
  if negb (buf_cap b m =? openBufSize)%nat then m else set_openPool (b :: mm_openPool m) m.

(** [Seal] takes its buffer: from the pool if the packet fits. *)
Definition write_begin (i : nat) (p : bytes) (choice : option nat) (m : memory) : res data_error memory :=
  match mm_writers m !! i with
  | Some Outside =>
      let s := mm_slot m in
      let m := set_slot (seal_parts p s).1 m in
      match (seal_parts p s).2 with
      | Ok _ =>
          let '(m, b) := if (want (length p) <=? sealBufSize)%nat then seal_Get choice m else make (want (length p)) m in
          if (want (length p) <=? buf_cap b m)%nat then Ok (set_writer i (Holds b Acquired p s) m) else Panic
      | Err _ => Ok m
      | Panic => Panic
      end
  | _ => Ok m
  end.

(** One write of [Seal] into its buffer. *)
Definition write_fill (i : nat) (m : memory) : memory :=
  match mm_writers m !! i with
  | Some (Holds b st p s) =>
      match (seal_parts p s).2 with
      | Ok (hdr, sealed) =>
          match st with
          | Acquired => set_writer i (Holds b Headed p s) (set_heap (alter (put_header hdr) b (mm_heap m)) m)
          | Headed => set_writer i (Holds b Bodied p s) (set_heap (alter (put_sealed sealed) b (mm_heap m)) m)
          | Bodied => set_writer i (Holds b Sealed p s) (set_heap (alter (move_tag (length p)) b (mm_heap m)) m)
          | _ => m
          end
      | _ => m
      end
  | _ => m
  end.

(** [WritePacket] returns: the kernel has copied the packet, or refused it. *)
Definition write_sent (i : nat) (ok : bool) (m : memory) : memory :=
  match mm_writers m !! i with
  | Some (Holds b Sealed p s) =>
      let m := if ok then note_wire (p, s, take (pktLen (length p)) (default [] (mm_heap m !! b))) m else m in
      set_writer i (Holds b Written p s) m
  | _ => m
  end.

Definition write_release (i : nat) (m : memory) : memory :=
  match mm_writers m !! i with
  | Some (Holds b Written p s) => ReleaseSealedBuf b (set_writer i Outside m)
  | _ => m
  end.

(** [handleDataIn] up to the plaintext.  The cipher appends it to the pooled
    buffer, or to a new one if it does not fit. *)
Definition read_open (pkt : bytes) (choice : option nat) (m : memory) : res data_error memory :=
  match mm_reader m with
  | Waiting =>
      let '(m, b) := GetOpenBuf choice m in
      let s := mm_slot m in
      let '(s', _, r) := OpenInto [] pkt s in
      let m := set_slot s' m in
      match r with
      | Ok ip =>
          if (length ip <=? buf_cap b m)%nat
          then Ok (set_reader (Opened b b (length ip) pkt s) (set_heap (alter (write_at 0 ip) b (mm_heap m)) m))
          else Ok (set_reader (Opened b (length (mm_heap m)) (length ip) pkt s) (set_heap (mm_heap m ++ [ip]) m))
      | Err _ => Ok (PutOpenBuf b m)
      | Panic => Panic
      end
  | _ => Ok m
  end.

(** The handler, or the copy for the channel, reads the plaintext. *)
Definition read_deliver (m : memory) : memory :=
  match mm_reader m with
  | Opened _ plain n pkt s => note_seen (pkt, s, take n (default [] (mm_heap m !! plain))) m
  | Waiting => m
  end.
Definition read_done (m : memory) : memory :=
  match mm_reader m with
  | Opened b _ _ _ _ => PutOpenBuf b (set_reader Waiting m)
  | Waiting => m
  end.

Inductive mstep : Type :=
  | MBegin (i : nat) (p : bytes) (choice : option nat)
  | MFill (i : nat)
  | MSent (i : nat) (ok : bool)
  | MRelease (i : nat)
  | MOpen (pkt : bytes) (choice : option nat)
  | MDeliver
  | MDone
  | MCollectSeal (c : nat)      (* the collector takes a buffer out of a pool *)
  | MCollectOpen (c : nat).

Definition mact (st : mstep) (m : memory) : res data_error memory :=
  match st with
  | MBegin i p choice => write_begin i p choice m
  | MFill i => Ok (write_fill i m)
  | MSent i ok => Ok (write_sent i ok m)
  | MRelease i => Ok (write_release i m)
  | MOpen pkt choice => read_open pkt choice m
  | MDeliver => Ok (read_deliver m)
  | MDone => Ok (read_done m)
  | MCollectSeal c => Ok (set_sealPool (delete c (mm_sealPool m)) m)
  | MCollectOpen c => Ok (set_openPool (delete c (mm_openPool m)) m)
  end.
Fixpoint macts (sts : list mstep) (m : memory) : res data_error memory :=
  match sts with [] => Ok m | st :: sts => m ← mact st m; macts sts m end.

(** ** Who has which buffer *)

Inductive role : Type :=
  | InSealPool
  | InOpenPool
  | Packet (st : stage) (p : bytes) (s : Slot)
  | Spare
  | Plain (n : nat) (pkt : bytes) (s : Slot).

Definition role_ok (r : role) (data : bytes) : Prop :=
  match r with
  | InSealPool => length data = sealBufSize
  | InOpenPool => length data = openBufSize
  | Packet st p s => filled st p s data
  | Spare => True
  | Plain n pkt s => (OpenInto [] pkt s).2 = Ok (take n data)
  end.

Definition writer_role (w : writer) : option (nat * role) :=
  match w with Holds b st p s => Some (b, Packet st p s) | Outside => None end.
Definition reader_roles (r : reader) : list (nat * role) :=
  match r with
  | Waiting => []
  | Opened b c n pkt s => if decide (b = c) then [(b, Plain n pkt s)] else [(b, Spare); (c, Plain n pkt s)]
  end.
Definition roles (m : memory) : list (nat * role) :=
  ((λ b, (b, InSealPool)) <$> mm_sealPool m) ++ ((λ b, (b, InOpenPool)) <$> mm_openPool m) ++
  omap writer_role (mm_writers m) ++ reader_roles (mm_reader m).

(** Every buffer in use has one user, and holds what that user put there. *)
Record owned (heap : list bytes) (l : list (nat * role)) : Prop := {
  ow_one : NoDup l.*1;
  ow_ok b r : (b, r) ∈ l → ∃ data, heap !! b = Some data ∧ role_ok r data
}.

Lemma owned_perm heap l l' : l ≡ₚ l' → owned heap l → owned heap l'.
Proof. intros Hl [H1 H2]. split; [by rewrite <-Hl|]. intros b r. rewrite <-Hl. apply H2. Qed.

(** A user changes its buffer, or passes it on. *)
Lemma owned_change heap b r r' f l :
  owned heap ((b, r) :: l) → (∀ data, role_ok r data → role_ok r' (f data)) → owned (alter f b heap) ((b, r') :: l).
Proof.
  intros [H1 H2] Hf. cbn in H1. apply list.NoDup_cons in H1 as [Hn H1]. split; [cbn; by apply list.NoDup_cons|].
  intros b' x [[= -> ->]|Hx]%elem_of_cons.
  - destruct (H2 b r) as (data & Hd & Hr); [by left|]. exists (f data). rewrite list_lookup_alter_eq, Hd. auto.
  - destruct (H2 b' x) as (data & Hd & Hr); [by right|]. exists data. rewrite list_lookup_alter_ne; [done|].
    intros ->. apply Hn. apply list_elem_of_fmap. by exists (b', x).
Qed.

Lemma owned_pass heap b r r' l :
  owned heap ((b, r) :: l) → (∀ data, heap !! b = Some data → role_ok r data → role_ok r' data) → owned heap ((b, r') :: l).
Proof.
  intros [H1 H2] Hf. split; [done|]. intros b' x [[= -> ->]|Hx]%elem_of_cons; [|by apply H2; right].
  destruct (H2 b r) as (data & Hd & Hr); [by left|]. eauto.
Qed.

Lemma owned_drop heap l l' : owned heap (l ++ l') → owned heap l'.
Proof.
  intros [H1 H2]. split; [rewrite fmap_app in H1; by apply list.NoDup_app in H1 as (_ & _ & ?)|].
  intros b r Hb. apply H2. apply elem_of_app. by right.
Qed.

Lemma owned_new heap r data l : owned heap l → role_ok r data → owned (heap ++ [data]) ((length heap, r) :: l).
Proof.
  intros [H1 H2] Hr. split.
  - cbn. apply list.NoDup_cons. split; [|done]. intros ((b & x) & Heq & Hx)%list_elem_of_fmap. cbn in Heq.
    destruct (H2 b x Hx) as (d & Hd & _). apply lookup_lt_Some in Hd. lia.
  - intros b x [[= -> ->]|Hx]%elem_of_cons.
    + exists data. split; [|done]. by apply list_lookup_middle.
    + destruct (H2 b x Hx) as (d & Hd & Hr'). exists d. split; [|done]. by apply lookup_app_l_Some.
Qed.

Lemma writers_insert i w ws :
  ws !! i = Some w →
  ∃ rest, omap writer_role ws ≡ₚ option_list (writer_role w) ++ rest ∧
    ∀ w', omap writer_role (<[i := w']> ws) ≡ₚ option_list (writer_role w') ++ rest.
Proof.
  intros Hw. exists (omap writer_role (take i ws) ++ omap writer_role (drop (S i) ws)). split.
  - rewrite <-(take_drop_middle ws i w Hw) at 1. rewrite omap_app. cbn [omap list_omap]. destruct (writer_role w); cbn; [|done].
    symmetry. apply Permutation_middle.
  - intros w'. rewrite insert_take_drop by (by eapply lookup_lt_Some). rewrite omap_app. cbn [omap list_omap].
    destruct (writer_role w'); cbn; [|done]. symmetry. apply Permutation_middle.
Qed.

Lemma roles_take_seal c b m :
  mm_sealPool m !! c = Some b → roles m ≡ₚ (b, InSealPool) :: roles (set_sealPool (delete c (mm_sealPool m)) m).
Proof. intros Hc. unfold roles. cbn. rewrite (delete_Permutation _ _ _ Hc) at 1. done. Qed.
Lemma roles_take_open c b m :
  mm_openPool m !! c = Some b → roles m ≡ₚ (b, InOpenPool) :: roles (set_openPool (delete c (mm_openPool m)) m).
Proof. intros Hc. unfold roles. cbn. rewrite (delete_Permutation _ _ _ Hc) at 1. cbn. symmetry. apply Permutation_middle. Qed.
Lemma roles_put_open b m : roles (set_openPool (b :: mm_openPool m) m) ≡ₚ (b, InOpenPool) :: roles m.
Proof. unfold roles. cbn. symmetry. apply Permutation_middle. Qed.

Lemma roles_writer i w m :
  mm_writers m !! i = Some w →
  ∃ rest, roles m ≡ₚ option_list (writer_role w) ++ rest ∧ ∀ w', roles (set_writer i w' m) ≡ₚ option_list (writer_role w') ++ rest.
Proof.
  intros Hw. destruct (writers_insert i w _ Hw) as (rest & H1 & H2).
  exists (((λ b, (b, InSealPool)) <$> mm_sealPool m) ++ ((λ b, (b, InOpenPool)) <$> mm_openPool m) ++ rest ++ reader_roles (mm_reader m)).
  split; [|intros w'; specialize (H2 w')]; unfold roles; cbn [set_writer mm_sealPool mm_openPool mm_writers mm_reader]; rewrite ?H1, ?H2; solve_Permutation.
Qed.

Lemma roles_reader m :
  ∃ rest, roles m ≡ₚ reader_roles (mm_reader m) ++ rest ∧ ∀ r, roles (set_reader r m) ≡ₚ reader_roles r ++ rest.
Proof.
  exists (((λ b, (b, InSealPool)) <$> mm_sealPool m) ++ ((λ b, (b, InOpenPool)) <$> mm_openPool m) ++ omap writer_role (mm_writers m)).
  split; [|intros r]; unfold roles; cbn [set_reader mm_sealPool mm_openPool mm_writers mm_reader]; solve_Permutation.
Qed.

(** ** Every step keeps it *)

Record sound (m : memory) : Prop := {
  sd_owned : owned (mm_heap m) (roles m);
  sd_wire : Forall (λ '(p, s, got), (Seal p s).2 = Ok got) (mm_wire m);
  sd_seen : Forall (λ '(pkt, s, got), (OpenInto [] pkt s).2 = Ok got) (mm_seen m)
}.

Definition same_notes (m m' : memory) : Prop :=
  mm_writers m' = mm_writers m ∧ mm_reader m' = mm_reader m ∧ mm_wire m' = mm_wire m ∧ mm_seen m' = mm_seen m ∧ mm_slot m' = mm_slot m.

Lemma make_owned size r m :
  owned (mm_heap m) (roles m) → role_ok r (replicate size x00) →
  owned (mm_heap (make size m).1) (((make size m).2, r) :: roles (make size m).1) ∧ same_notes m (make size m).1.
Proof. intros H Hr. split; [|done]. by apply (owned_new (mm_heap m)). Qed.

Lemma seal_Get_owned choice m :
  owned (mm_heap m) (roles m) →
  owned (mm_heap (seal_Get choice m).1) (((seal_Get choice m).2, InSealPool) :: roles (seal_Get choice m).1) ∧ same_notes m (seal_Get choice m).1.
Proof.
  intros H. unfold seal_Get. destruct (choice ≫= _) as [[c b]|] eqn:Hc; [|by apply make_owned].
  destruct choice as [c'|]; [|done]. cbn in Hc. destruct (mm_sealPool m !! c') as [b'|] eqn:Hb; [|done]. injection Hc as <- <-.
  split; [|done]. eapply owned_perm; [by apply (roles_take_seal c' b')|done].
Qed.
Lemma open_Get_owned choice m :
  owned (mm_heap m) (roles m) →
  owned (mm_heap (GetOpenBuf choice m).1) (((GetOpenBuf choice m).2, InOpenPool) :: roles (GetOpenBuf choice m).1) ∧ same_notes m (GetOpenBuf choice m).1.
Proof.
  intros H. unfold GetOpenBuf. destruct (choice ≫= _) as [[c b]|] eqn:Hc; [|by apply make_owned].
  destruct choice as [c'|]; [|done]. cbn in Hc. destruct (mm_openPool m !! c') as [b'|] eqn:Hb; [|done]. injection Hc as <- <-.
  split; [|done]. eapply owned_perm; [by apply (roles_take_open c' b')|done].
Qed.

Lemma buf_cap_lookup b m data : mm_heap m !! b = Some data → buf_cap b m = length data.
Proof. intros H. unfold buf_cap. by rewrite H. Qed.

(** A released buffer goes back to its pool only with the size of the pool. *)
Lemma release_owned b r m : owned (mm_heap m) ((b, r) :: roles m) → owned (mm_heap (ReleaseSealedBuf b m)) (roles (ReleaseSealedBuf b m)).
Proof.
  intros H. unfold ReleaseSealedBuf, buf_cap. destruct (Nat.eqb_spec (length (default [] (mm_heap m !! b))) sealBufSize) as [Hs|Hs]; cbn [negb].
  - change (roles (set_sealPool _ m)) with ((b, InSealPool) :: roles m). eapply owned_pass; [done|]. intros data Hd _. cbn in Hd. by rewrite Hd in Hs.
  - by apply (owned_drop _ [(b, r)]).
Qed.
Lemma putopen_owned b r m : owned (mm_heap m) ((b, r) :: roles m) → owned (mm_heap (PutOpenBuf b m)) (roles (PutOpenBuf b m)).
Proof.
  intros H. unfold PutOpenBuf, buf_cap. destruct (Nat.eqb_spec (length (default [] (mm_heap m !! b))) openBufSize) as [Hs|Hs]; cbn [negb].
  - eapply owned_perm; [symmetry; apply roles_put_open|]. eapply owned_pass; [done|]. intros data Hd _. cbn in Hd. by rewrite Hd in Hs.
  - by apply (owned_drop _ [(b, r)]).
Qed.

Lemma begin_sound i p choice m : sound m → ∃ m', write_begin i p choice m = Ok m' ∧ sound m'.
Proof.
  intros Hm. unfold write_begin. destruct (mm_writers m !! i) as [[|]|] eqn:Hi; [|by exists m..]. cbv zeta.
  set (m1 := set_slot _ m). assert (sound m1) as H1 by (by destruct Hm).
  destruct (seal_parts p (mm_slot m)).2 as [[hdr sealed]|e|] eqn:Hp; [|by exists m1|].
  2: { exfalso. pose proof (Seal_no_panic p (mm_slot m)) as Hn. rewrite seal_parts_Seal, Hp in Hn. by apply Hn. }
  set (g := if (want (length p) <=? sealBufSize)%nat then _ else _).
  assert (∃ r, owned (mm_heap g.1) ((g.2, r) :: roles g.1) ∧ same_notes m1 g.1 ∧ ∀ data, role_ok r data → (want (length p) ≤ length data)%nat) as (r & Ho & Hs & Hr).
  { subst g. destruct (Nat.leb_spec (want (length p)) sealBufSize) as [Hle|Hgt].
    - destruct (seal_Get_owned choice m1 (sd_owned _ H1)) as [H2 H3]. exists InSealPool. split_and!; [done|done|]. intros data Hl. cbn in Hl. by rewrite Hl.
    - exists (Packet Acquired p (mm_slot m)). destruct (make_owned (want (length p)) (Packet Acquired p (mm_slot m)) m1 (sd_owned _ H1)) as [H2 H3].
      { exists hdr, sealed. split_and!; [done| |done]. by rewrite length_replicate. }
      split_and!; [done|done|]. by intros data (? & ? & _ & ? & _). }
  destruct g as [m2 b]. cbn [fst snd] in *. destruct Hs as (Hws & Hrd & Hwi & Hse & _).
  destruct (ow_ok _ _ Ho b r) as (data & Hd & Hrole); [by left|]. pose proof (Hr _ Hrole) as Hle. rewrite (buf_cap_lookup _ _ _ Hd), (proj2 (Nat.leb_le _ _) Hle). eexists. split; [done|]. split.
  - assert (mm_writers m2 !! i = Some Outside) as Hi2 by (by rewrite Hws). destruct (roles_writer i Outside m2 Hi2) as (rest & R1 & R2).
    eapply owned_perm; [symmetry; apply R2|]. cbn [writer_role option_list app set_writer mm_heap].
    eapply owned_perm in Ho; [|rewrite R1; done]. eapply owned_pass; [exact Ho|]. intros data' _ Hr'. exists hdr, sealed. split_and!; [done|by apply Hr|done].
  - cbn. rewrite Hwi. apply H1.
  - cbn. rewrite Hse. apply H1.
Qed.

(** A goroutine at work on its own buffer. *)
Lemma holds_change i b st p s st' f m :
  mm_writers m !! i = Some (Holds b st p s) → (∀ data, filled st p s data → filled st' p s (f data)) →
  sound m → sound (set_writer i (Holds b st' p s) (set_heap (alter f b (mm_heap m)) m)).
Proof.
  intros Hi Hf [Ho Hw Hs]. split; [|done..]. destruct (roles_writer i _ m Hi) as (rest & R1 & R2).
  eapply owned_perm; [symmetry; apply (R2 (Holds b st' p s))|]. eapply owned_perm in Ho; [|apply R1]. by apply (owned_change _ b (Packet st p s) (Packet st' p s) f rest).
Qed.

Lemma fill_sound i m : sound m → sound (write_fill i m).
Proof.
  intros Hm. unfold write_fill. destruct (mm_writers m !! i) as [[|b st p s]|] eqn:Hi; [done| |done].
  destruct (seal_parts p s).2 as [[hdr sealed]|e|] eqn:Hp; [|done..].
  destruct st; try done; eapply holds_change; try done; intros data.
  - by eapply put_header_filled.
  - by eapply put_sealed_filled.
  - by apply move_tag_filled.
Qed.

Lemma holds_filled i b st p s m :
  sound m → mm_writers m !! i = Some (Holds b st p s) → ∃ data, mm_heap m !! b = Some data ∧ filled st p s data.
Proof.
  intros Hm Hi. destruct (roles_writer i _ m Hi) as (rest & R1 & _). apply (ow_ok _ _ (sd_owned _ Hm) b (Packet st p s)).
  rewrite R1. cbn. by left.
Qed.

Lemma alter_id (b : nat) (h : list bytes) : alter (λ x, x) b h = h.
Proof. apply list_eq. intros i. destruct (decide (i = b)) as [->|]; [rewrite list_lookup_alter_eq; by destruct (h !! b)|by rewrite list_lookup_alter_ne]. Qed.

Lemma sent_sound i ok m : sound m → sound (write_sent i ok m).
Proof.
  intros Hm. unfold write_sent. destruct (mm_writers m !! i) as [[|b st p s]|] eqn:Hi; [done| |done]. destruct st; try done.
  destruct (holds_filled _ _ _ _ _ _ Hm Hi) as (data & Hd & Hfill).
  assert (sound (set_writer i (Holds b Written p s) m)) as [Ho Hw Hs].
  { pose proof (holds_change i b Sealed p s Written (λ x, x) m Hi (λ _ H, H) Hm) as H. by rewrite alter_id in H. }
  destruct ok; [|done]. split; [done| |done]. cbn. apply Forall_app. split; [done|]. apply list.Forall_singleton. rewrite Hd.
  by destruct Hfill as (? & ? & _ & _ & H).
Qed.

Lemma wrelease_sound i m : sound m → sound (write_release i m).
Proof.
  intros Hm. unfold write_release. destruct (mm_writers m !! i) as [[|b st p s]|] eqn:Hi; [done| |done]. destruct st; try done.
  destruct (roles_writer i _ m Hi) as (rest & R1 & R2). destruct Hm as [Ho Hw Hs].
  split; [|unfold ReleaseSealedBuf; by destruct (negb _)..]. apply (release_owned b (Packet Written p s)). eapply owned_perm; [|exact Ho].
  rewrite R1. cbn [writer_role option_list app]. apply Permutation_skip. symmetry. apply (R2 Outside).
Qed.

Lemma open_sound pkt choice m : sound m → ∃ m', read_open pkt choice m = Ok m' ∧ sound m'.
Proof.
  intros Hm. unfold read_open. destruct (mm_reader m) eqn:Hrd; [|by exists m].
  destruct (open_Get_owned choice m (sd_owned _ Hm)) as [Ho (Hws & Hr & Hwi & Hse & Hsl)].
  destruct (GetOpenBuf choice m) as [m1 b]. cbn [fst snd] in *.
  destruct (OpenInto [] pkt (mm_slot m1)) as [[s' pkt'] r] eqn:Hop. cbv zeta.
  set (m2 := set_slot s' m1). assert (owned (mm_heap m2) ((b, InOpenPool) :: roles m2)) as Ho2 by done.
  assert (Forall (λ '(p, s, got), (Seal p s).2 = Ok got) (mm_wire m2)) as Hw2 by (cbn; rewrite Hwi; apply Hm).
  assert (Forall (λ '(pkt, s, got), (OpenInto [] pkt s).2 = Ok got) (mm_seen m2)) as Hs2 by (cbn; rewrite Hse; apply Hm).
  destruct r as [ip|e|].
  - destruct (roles_reader m2) as (rest & R1 & R2). assert (mm_reader m2 = Waiting) as Hrd2 by (cbn; congruence). rewrite Hrd2 in R1. cbn [reader_roles app] in R1.
    destruct (ow_ok _ _ Ho2 b InOpenPool) as (data & Hd & Hlen); [by left|]. rewrite (buf_cap_lookup _ _ _ Hd).
    eapply owned_perm in Ho2; [|rewrite R1; done].
    destruct (Nat.leb_spec (length ip) (length data)) as [Hle|Hgt]; eexists; (split; [done|]); (split; [|done..]).
    + eapply owned_perm; [symmetry; apply (R2 (Opened b b (length ip) pkt (mm_slot m1)))|]. cbn [reader_roles]. rewrite decide_True by done.
      apply (owned_change _ b InOpenPool); [done|]. intros d _. cbn [role_ok]. rewrite Hop. cbn [snd]. f_equal. unfold write_at.
      rewrite take_0. cbn [app]. by rewrite take_app_length.
    + eapply owned_perm; [symmetry; apply (R2 (Opened b (length (mm_heap m2)) (length ip) pkt (mm_slot m1)))|]. cbn [reader_roles].
      apply lookup_lt_Some in Hd as Hlt. rewrite decide_False by lia. cbn [app]. eapply owned_perm; [apply Permutation_swap|].
      apply owned_new; [|cbn [role_ok]; rewrite Hop; cbn [snd]; f_equal; by rewrite firstn_all]. by eapply owned_pass.
  - eexists. split; [done|]. split; [by apply (putopen_owned b InOpenPool)|unfold PutOpenBuf; by destruct (negb _)..].
  - exfalso. pose proof (OpenInto_no_panic [] pkt (mm_slot m1)) as Hn. rewrite Hop in Hn. by apply Hn.
Qed.

Lemma deliver_sound m : sound m → sound (read_deliver m).
Proof.
  intros Hm. unfold read_deliver. destruct (mm_reader m) as [|b c n pkt s] eqn:Hrd; [done|]. destruct Hm as [Ho Hw Hs].
  split; [done|done|]. cbn. apply Forall_app. split; [done|]. apply list.Forall_singleton.
  destruct (roles_reader m) as (rest & R1 & _). rewrite Hrd in R1.
  destruct (ow_ok _ _ Ho c (Plain n pkt s)) as (data & -> & Hr); [|done]. rewrite R1. cbn. case_decide as Hbc; [subst; by left|by right; left].
Qed.

Lemma done_sound m : sound m → sound (read_done m).
Proof.
  intros Hm. unfold read_done. destruct (mm_reader m) as [|b c n pkt s] eqn:Hrd; [done|]. destruct Hm as [Ho Hw Hs].
  split; [|unfold PutOpenBuf; by destruct (negb _)..]. destruct (roles_reader m) as (rest & R1 & R2). rewrite Hrd in R1. cbn [reader_roles] in R1.
  assert (∃ r, owned (mm_heap m) ((b, r) :: rest)) as [r Ho'].
  { case_decide as Hbc; [exists (Plain n pkt s)|exists Spare]; (eapply owned_perm in Ho; [|apply R1]); [done|].
    apply (owned_drop _ [(c, Plain n pkt s)]). cbn [app] in *. eapply owned_perm; [apply Permutation_swap|done]. }
  apply (putopen_owned b r). eapply owned_perm; [|exact Ho']. apply Permutation_skip. symmetry. apply (R2 Waiting).
Qed.

Lemma delete_none (l : list nat) c : l !! c = None → delete c l = l.
Proof. revert c. induction l as [|x l IH]; intros [|c] H; [done..|]. cbn. f_equal. by apply IH. Qed.

Lemma mact_sound st m : sound m → ∃ m', mact st m = Ok m' ∧ sound m'.
Proof.
  intros Hm. destruct st as [i p choice|i|i ok|i|pkt choice| | |c|c]; cbn [mact].
  - by apply begin_sound.
  - eexists. split; [done|]. by apply fill_sound.
  - eexists. split; [done|]. by apply sent_sound.
  - eexists. split; [done|]. by apply wrelease_sound.
  - by apply open_sound.
  - eexists. split; [done|]. by apply deliver_sound.
  - eexists. split; [done|]. by apply done_sound.
  - eexists. split; [done|]. destruct Hm as [Ho Hw Hs]. split; [|done..]. destruct (mm_sealPool m !! c) as [b|] eqn:Hc.
    + eapply (owned_drop _ [(b, InSealPool)]), owned_perm; [by apply (roles_take_seal c b)|done].
    + unfold roles. cbn. by rewrite delete_none.
  - eexists. split; [done|]. destruct Hm as [Ho Hw Hs]. split; [|done..]. destruct (mm_openPool m !! c) as [b|] eqn:Hc.
    + eapply (owned_drop _ [(b, InOpenPool)]), owned_perm; [by apply (roles_take_open c b)|done].
    + unfold roles. cbn. by rewrite delete_none.
Qed.

Lemma init_sound s n : sound (mem_init s n).
Proof.
  split; [|done..]. unfold roles. cbn. assert (omap writer_role (replicate n Outside) = []) as -> by (induction n; [done|by cbn]).
  split; [by constructor|]. by intros b r ?%not_elem_of_nil.
Qed.

(** C33: recycled memory never shows.  However many goroutines send at once, and
    however their fills, writes and releases, the deliveries of the read loop, the
    two pools and the collector take turns: no step panics (a pooled buffer always
    has room), no buffer has two users, every packet the kernel copied is the one [Seal] computes for that
    plaintext and counter, and every plaintext a consumer saw is the one the packet
    opens to, although all of them are read from buffers shared through the pools. *)
Theorem buffers_faithful s n sts :
  ∃ m, macts sts (mem_init s n) = Ok m ∧ NoDup (roles m).*1 ∧
    Forall (λ '(p, s, got), (Seal p s).2 = Ok got) (mm_wire m) ∧
    Forall (λ '(pkt, s, got), (OpenInto [] pkt s).2 = Ok got) (mm_seen m).
Proof.
  assert (∀ m, sound m → ∃ m', macts sts m = Ok m' ∧ sound m') as H.
  { induction sts as [|st sts IH]; intros m Hm; [by exists m|]. destruct (mact_sound st m Hm) as (m1 & H1 & H2). cbn.
    rewrite H1. bind. by apply IH. }
  destruct (H _ (init_sound s n)) as (m & H1 & [[Ho _] Hw Hs]). by exists m.
Qed.
End buffers.

(** Two senders, a reader and a buffer used twice. *)
Definition sealing (i : nat) : list mstep := [MFill i; MFill i; MFill i].
Example recycled :
  match macts ([MBegin 0 [x41] None; MBegin 1 [x42] None; MFill 0] ++ sealing 1 ++ [MSent 1 true; MRelease 1; MFill 0; MBegin 1 [x43] (Some 0%nat);
      MFill 0; MSent 0 true] ++ sealing 1 ++ [MSent 1 true; MOpen (Sample.pkt 9 [x44; x45]) None; MDeliver; MDone; MRelease 0])
    (mem_init Sample.slot 2) with
  | Ok m =>
      (snd <$> mm_wire m) = [Sample.pkt 2 [x42]; Sample.pkt 1 [x41]; Sample.pkt 3 [x43]] ∧ (snd <$> mm_seen m) = [[x44; x45]] ∧
      length (mm_heap m) = 3%nat ∧ mm_sealPool m = [0%nat] ∧ mm_openPool m = [2%nat]
  | _ => False
  end.
Proof. vm_compute. by split_and!. Qed.
