(* ===== verification/Serve.v ===== *)
(** The accept loop of the proxy ([cmd/openvpn2socks/socks5.go], [Serve] and the
    goroutines of [handle]) and the process around it ([cmd/openvpn2socks/main.go],
    [run] and [main]).  Each action is a section one goroutine runs without another
    seeing its middle; what a handler does with its connection is [Socks.handle]
    and the files after it.  A connection keeps its place in the list when its
    handler is gone. *)
From stdpp Require Import list.
From S2P Require Import Prelude.
Local Open Scope Z_scope.

(** ** The server *)

(** Where a handler is: in [handle]; its deferred [close(done)] run; the deferred
    [conn.Close] too; no longer counted as in flight; out of the wait group. *)
Inductive phase : Type := Handling | Signalled | Closed | Uncounted | Ended.
#[export] Instance phase_eq_dec : EqDecision phase.
Proof. solve_decision. Defined.

Record handler := mkHandler {
  h_phase : phase;
  h_closed : bool;    (* the connection is closed *)
  h_watch : bool      (* the watcher of the connection is there *)
}.

(** Where [Serve] is: in the loop; in [wg.Wait]; its deferred [close(done)] run;
    returned. *)
Inductive loop : Type := Accepting | Waiting | DoneClosed | Returned.
#[export] Instance loop_eq_dec : EqDecision loop.
Proof. solve_decision. Defined.

Record server := mkServer {
  sv_ctx : bool;      (* ctx is done *)
  sv_ln : bool;       (* the listener is closed *)
  sv_watch : bool;    (* the watcher of the listener is there *)
  sv_loop : loop;
  sv_wg : Z;
  sv_inflight : Z;
  sv_handlers : list handler
}.
Definition Serve_start : server := mkServer false false true Accepting 0 0 [].

Definition set_ctx (s : server) : server :=
  mkServer true (sv_ln s) (sv_watch s) (sv_loop s) (sv_wg s) (sv_inflight s) (sv_handlers s).
Definition set_loop (l : loop) (s : server) : server :=
  mkServer (sv_ctx s) (sv_ln s) (sv_watch s) l (sv_wg s) (sv_inflight s) (sv_handlers s).
Definition set_listener (closed watch : bool) (s : server) : server :=
  mkServer (sv_ctx s) closed watch (sv_loop s) (sv_wg s) (sv_inflight s) (sv_handlers s).
Definition set_handler (i : nat) (h : handler) (s : server) : server :=
  mkServer (sv_ctx s) (sv_ln s) (sv_watch s) (sv_loop s) (sv_wg s) (sv_inflight s) (<[i := h]> (sv_handlers s)).

(** [Accept] returns a connection: it is counted and its handler started. *)
Definition accept_conn (s : server) : option server :=
  match sv_loop s with
  | Accepting =>
      if sv_ln s then None
      else Some (mkServer (sv_ctx s) (sv_ln s) (sv_watch s) Accepting (sv_wg s + 1) (sv_inflight s + 1)
                   (sv_handlers s ++ [mkHandler Handling false true]))
  | _ => None
  end.
(** [Accept] returns an error: the loop goes on unless ctx is done. *)
Definition accept_error (s : server) : option server :=
  match sv_loop s with
  | Accepting => Some (if sv_ctx s then set_loop Waiting s else s)
  | _ => None
  end.
(** [wg.Wait] returns; then the two deferred calls. *)
Definition drained (s : server) : option server :=
  match sv_loop s with
  | Waiting => if sv_wg s =? 0 then Some (set_loop DoneClosed s) else None
  | _ => None
  end.
Definition serve_return (s : server) : option server :=
  match sv_loop s with
  | DoneClosed => Some (set_listener true (sv_watch s) (set_loop Returned s))
  | _ => None
  end.

Definition serve_done (s : server) : bool :=
  match sv_loop s with DoneClosed | Returned => true | _ => false end.
(** The watcher of the listener, by the case its [select] takes. *)
Definition listener_watch_ctx (s : server) : option server :=
  if sv_watch s && sv_ctx s then Some (set_listener true false s) else None.
Definition listener_watch_done (s : server) : option server :=
  if sv_watch s && serve_done s then Some (set_listener (sv_ln s) false s) else None.

(** The body of [handle] is over, then the deferred calls of [handle] and of the
    goroutine that called it, last first. *)
Definition handler_deferred (h : handler) : option handler :=
  match h_phase h with
  | Handling => Some (mkHandler Signalled (h_closed h) (h_watch h))
  | Signalled => Some (mkHandler Closed true (h_watch h))
  | Closed => Some (mkHandler Uncounted (h_closed h) (h_watch h))
  | Uncounted => Some (mkHandler Ended (h_closed h) (h_watch h))
  | Ended => None
  end.
Definition handler_act (i : nat) (s : server) : option server :=
  match sv_handlers s !! i with
  | Some h =>
      match handler_deferred h with
      | Some h' =>
          let s := set_handler i h' s in
          Some (mkServer (sv_ctx s) (sv_ln s) (sv_watch s) (sv_loop s)
                  (sv_wg s - (if bool_decide (h_phase h = Uncounted) then 1 else 0))
                  (sv_inflight s - (if bool_decide (h_phase h = Closed) then 1 else 0)) (sv_handlers s))
      | None => None
      end
  | None => None
  end.

(** The watcher of a connection. *)
Definition conn_watch_ctx (i : nat) (s : server) : option server :=
  match sv_handlers s !! i with
  | Some h =>
      if h_watch h && sv_ctx s then Some (set_handler i (mkHandler (h_phase h) true false) s) else None
  | None => None
  end.
Definition conn_watch_done (i : nat) (s : server) : option server :=
  match sv_handlers s !! i with
  | Some h =>
      if h_watch h && negb (bool_decide (h_phase h = Handling))
      then Some (set_handler i (mkHandler (h_phase h) (h_closed h) false) s) else None
  | None => None
  end.

Inductive serve_action : Type :=
  | Cancel | Accepted | AcceptError | Drained | ServeReturn | ListenerCtx | ListenerDone
  | HandlerStep (i : nat) | ConnCtx (i : nat) | ConnDone (i : nat).

Definition serve_step (a : serve_action) (s : server) : option server :=
  match a with
  | Cancel => if sv_ctx s then None else Some (set_ctx s)
  | Accepted => accept_conn s
  | AcceptError => accept_error s
  | Drained => drained s
  | ServeReturn => serve_return s
  | ListenerCtx => listener_watch_ctx s
  | ListenerDone => listener_watch_done s
  | HandlerStep i => handler_act i s
  | ConnCtx i => conn_watch_ctx i s
  | ConnDone i => conn_watch_done i s
  end.
Fixpoint serve_run (acts : list serve_action) (s : server) : option server :=
  match acts with
  | [] => Some s
  | a :: acts => match serve_step a s with Some s => serve_run acts s | None => None end
  end.

(** The actions that do not wait for a client: a handler whose body is not over
    ends once its connection is closed. *)
Definition prompt (a : serve_action) (s : server) : bool :=
  match a with
  | Cancel | Accepted => false
  | HandlerStep i =>
      match sv_handlers s !! i with
      | Some h => negb (bool_decide (h_phase h = Handling)) || h_closed h
      | None => false
      end
  | _ => true
  end.

(** ** What holds of every run *)

(** Counted by [wg]; counted as in flight. *)
Definition counted_wg (h : handler) : bool := negb (bool_decide (h_phase h = Ended)).
Definition in_flight (h : handler) : bool := counted_wg h && negb (bool_decide (h_phase h = Uncounted)).

(** A connection is closed once the handler has closed it, or its watcher saw ctx. *)
Definition handler_ok (h : handler) : Prop :=
  match h_phase h with
  | Handling => h_watch h = true ∨ h_closed h = true
  | Signalled => True
  | _ => h_closed h = true
  end.

Record serving (s : server) : Prop := {
  sg_wg : sv_wg s = counted counted_wg (sv_handlers s);
  sg_inflight : sv_inflight s = counted in_flight (sv_handlers s);
  sg_handlers : Forall handler_ok (sv_handlers s);
  sg_ctx : sv_loop s ≠ Accepting → sv_ctx s = true;
  sg_ln : sv_ln s = true → sv_ctx s = true;
  sg_watch : sv_watch s = true ∨ sv_ln s = true ∨ serve_done s = true;
  sg_drained : serve_done s = true → sv_wg s = 0;
  sg_returned : sv_loop s = Returned → sv_ln s = true
}.

Lemma start_serving : serving Serve_start.
Proof. split; try done. by left. Qed.

Lemma handler_step_ok h h' : handler_deferred h = Some h' → handler_ok h → handler_ok h'.
Proof. destruct h as [[] c w]; intros [= <-] H; try done; apply H. Qed.

Definition one (b : bool) : Z := if b then 1 else 0.

Lemma handler_step_counts h h' :
  handler_deferred h = Some h' →
  one (counted_wg h') - one (counted_wg h) = - one (bool_decide (h_phase h = Uncounted)) ∧
  one (in_flight h') - one (in_flight h) = - one (bool_decide (h_phase h = Closed)).
Proof. destruct h as [[] c w]; intros [= <-]; by vm_compute. Qed.

Lemma set_handler_serving i h h' s :
  sv_handlers s !! i = Some h → counted_wg h' = counted_wg h → in_flight h' = in_flight h → handler_ok h' →
  serving s → serving (set_handler i h' s).
Proof.
  intros Hi Hw Hf Hok []. split; try done; cbn.
  - rewrite (counted_insert _ _ _ _ _ Hi), Hw. lia.
  - rewrite (counted_insert _ _ _ _ _ Hi), Hf. lia.
  - by apply Forall_insert.
Qed.

Lemma handler_act_serving i s s' : handler_act i s = Some s' → serving s → serving s'.
Proof.
  unfold handler_act. intros H []. destruct (sv_handlers s !! i) as [h|] eqn:Hi; [|done].
  destruct (handler_deferred h) as [h'|] eqn:Hh; [|done]. injection H as <-.
  assert (Hok : handler_ok h') by (eapply handler_step_ok; [done|]; by eapply Forall_lookup_1).
  destruct (handler_step_counts _ _ Hh) as [Hcw Hcf]. unfold one in Hcw, Hcf.
  assert (Hw : sv_wg s - (if bool_decide (h_phase h = Uncounted) then 1 else 0) =
    counted counted_wg (<[i := h']> (sv_handlers s))) by (rewrite (counted_insert _ _ _ _ _ Hi), sg_wg0; lia).
  split; try done; cbn.
  - rewrite (counted_insert _ _ _ _ _ Hi), sg_inflight0. lia.
  - by apply Forall_insert.
  - intros Hd. specialize (sg_drained0 Hd). rewrite Hw.
    rewrite sg_drained0 in sg_wg0. symmetry in sg_wg0. rewrite counted_zero in sg_wg0.
    pose proof (Forall_lookup_1 _ _ _ _ sg_wg0 Hi) as Hf. destruct h as [[] c w]; done.
Qed.

Lemma serve_step_serving a s s' : serve_step a s = Some s' → serving s → serving s'.
Proof.
  destruct a as [| | | | | | |i|i|i]; cbn.
  - destruct (sv_ctx s) eqn:Hc; [done|]. intros [= <-] []. by split.
  - unfold accept_conn. destruct (sv_loop s) eqn:Hl; try done. destruct (sv_ln s) eqn:Hn; [done|]. intros [= <-] [].
    split; cbn; try done.
    + rewrite counted_app, (eq_refl : counted_wg (mkHandler Handling false true) = true). lia.
    + rewrite counted_app, (eq_refl : in_flight (mkHandler Handling false true) = true). lia.
    + apply Forall_app. split; [done|]. apply list.Forall_singleton. by left.
    + unfold serve_done in *. rewrite Hl in *. naive_solver.
  - unfold accept_error. destruct (sv_loop s) eqn:Hl; try done. destruct (sv_ctx s) eqn:Hc; intros [= <-] H; [|done].
    destruct H. split; try done. cbn. unfold serve_done in *. rewrite Hl in *. naive_solver.
  - unfold drained. destruct (sv_loop s) eqn:Hl; try done. case_match eqn:Hz; [|done]. apply Z.eqb_eq in Hz.
    intros [= <-] []. split; try done; cbn; [intros _; by apply sg_ctx0; rewrite Hl|tauto].
  - unfold serve_return. destruct (sv_loop s) eqn:Hl; try done. intros [= <-] []. unfold serve_done in *. rewrite Hl in *.
    split; try done; cbn; [intros _; by apply sg_ctx0|intros _; by apply sg_ctx0|by right; left].
  - unfold listener_watch_ctx. destruct (sv_watch s), (sv_ctx s) eqn:Hc; try done. intros [= <-] []. split; try done; cbn; tauto.
  - unfold listener_watch_done. destruct (sv_watch s), (serve_done s) eqn:Hd; try done. intros [= <-] []. split; try done; cbn; tauto.
  - apply handler_act_serving.
  - unfold conn_watch_ctx. destruct (sv_handlers s !! i) as [h|] eqn:Hi; [|done]. case_match; [|done]. intros [= <-] Hs.
    eapply set_handler_serving; try done. destruct h as [[] c w]; try done. by right.
  - unfold conn_watch_done. destruct (sv_handlers s !! i) as [h|] eqn:Hi; [|done]. case_match eqn:Hb; [|done]. intros [= <-] Hs.
    eapply set_handler_serving; try done. pose proof (Forall_lookup_1 _ _ _ _ (sg_handlers _ Hs) Hi).
    destruct h as [[] c w]; try done. by destruct w.
Qed.

Lemma serve_run_serving acts s s' : serve_run acts s = Some s' → serving s → serving s'.
Proof.
  revert s. induction acts as [|a acts IH]; cbn; intros s.
  - by intros [= <-].
  - destruct (serve_step a s) eqn:Ha; [|done]. intros H Hs. eapply IH; [done|]. by eapply serve_step_serving.
Qed.

(** ** The end of [Serve] *)

(** The actions left when the listener is closed. *)
Definition phase_left (p : phase) : nat :=
  match p with Handling => 4 | Signalled => 3 | Closed => 2 | Uncounted => 1 | Ended => 0 end.
Definition handler_left (h : handler) : nat := phase_left (h_phase h) + Nat.b2n (h_watch h).
Definition loop_left (l : loop) : nat :=
  match l with Accepting => 3 | Waiting => 2 | DoneClosed => 1 | Returned => 0 end.
Definition left_of (s : server) : nat :=
  loop_left (sv_loop s) + Nat.b2n (sv_watch s) + sum_list_with handler_left (sv_handlers s).

Lemma sum_insert {A} (f : A → nat) l i (v w : A) :
  l !! i = Some v → (sum_list_with f (<[i := w]> l) + f v = sum_list_with f l + f w)%nat.
Proof.
  revert i. induction l as [|x l IH]; intros [|i]; cbn; intros H; try done.
  - injection H as ->. lia.
  - specialize (IH _ H). unfold insert in IH |- *. lia.
Qed.

Lemma set_handler_left i h h' s :
  sv_handlers s !! i = Some h → (handler_left h' < handler_left h)%nat → (left_of (set_handler i h' s) < left_of s)%nat.
Proof. intros Hi Hl. pose proof (sum_insert handler_left _ _ _ h' Hi). unfold left_of. cbn. lia. Qed.

Lemma serve_step_left a s s' :
  sv_ctx s = true → sv_ln s = true → serve_step a s = Some s' → (left_of s' < left_of s)%nat.
Proof.
  intros Hc Hn. destruct a as [| | | | | | |i|i|i]; cbn.
  - by rewrite Hc.
  - unfold accept_conn. rewrite Hn. by destruct (sv_loop s).
  - unfold accept_error. rewrite Hc. destruct (sv_loop s) eqn:Hl; try done. intros [= <-]. unfold left_of. rewrite Hl. cbn. lia.
  - unfold drained. destruct (sv_loop s) eqn:Hl; try done. case_match; [|done]. intros [= <-]. unfold left_of. rewrite Hl. cbn. lia.
  - unfold serve_return. destruct (sv_loop s) eqn:Hl; try done. intros [= <-]. unfold left_of. rewrite Hl. cbn. lia.
  - unfold listener_watch_ctx. case_match eqn:Hb; [|done]. apply andb_true_iff in Hb as [Hb _]. intros [= <-].
    unfold left_of. rewrite Hb. cbn. lia.
  - unfold listener_watch_done. case_match eqn:Hb; [|done]. apply andb_true_iff in Hb as [Hb _]. intros [= <-].
    unfold left_of. rewrite Hb. cbn. lia.
  - unfold handler_act. destruct (sv_handlers s !! i) as [h|] eqn:Hi; [|done]. destruct (handler_deferred h) as [h'|] eqn:Hh; [|done].
    intros [= <-]. apply (set_handler_left _ h h' _ Hi). destruct h as [[] c w]; injection Hh as <- || done; cbn; lia.
  - unfold conn_watch_ctx. destruct (sv_handlers s !! i) as [h|] eqn:Hi; [|done]. case_match eqn:Hb; [|done]. intros [= <-].
    apply (set_handler_left _ h _ _ Hi). destruct h as [p c []]; [unfold handler_left; cbn; lia|done].
  - unfold conn_watch_done. destruct (sv_handlers s !! i) as [h|] eqn:Hi; [|done]. case_match eqn:Hb; [|done]. intros [= <-].
    apply (set_handler_left _ h _ _ Hi). destruct h as [p c []]; [unfold handler_left; cbn; lia|done].
Qed.

Lemma serve_step_closed a s s' :
  serve_step a s = Some s' → sv_ctx s = true → sv_ln s = true → sv_ctx s' = true ∧ sv_ln s' = true.
Proof.
  intros Hs Hc Hn. destruct a; cbn in Hs;
    unfold accept_conn, accept_error, drained, serve_return, listener_watch_ctx, listener_watch_done, handler_act,
      conn_watch_ctx, conn_watch_done in Hs; repeat case_match; simplify_eq; done.
Qed.

Lemma serve_run_left acts s s' :
  sv_ctx s = true → sv_ln s = true → serve_run acts s = Some s' → (length acts + left_of s' ≤ left_of s)%nat.
Proof.
  revert s. induction acts as [|a acts IH]; cbn; intros s Hc Hn.
  - intros [= <-]. lia.
  - destruct (serve_step a s) as [s1|] eqn:Ha; [|done]. intros H. pose proof (serve_step_left _ _ _ Hc Hn Ha).
    destruct (serve_step_closed _ _ _ Ha Hc Hn) as [Hc1 Hn1]. specialize (IH _ Hc1 Hn1 H). lia.
Qed.

(** A counted handler has an action of its own, or its watcher has. *)
Lemma handler_prompt s i h :
  serving s → sv_ctx s = true → sv_handlers s !! i = Some h → counted_wg h = true →
  ∃ a s', prompt a s = true ∧ serve_step a s = Some s'.
Proof.
  intros Hs Hc Hi Hw. pose proof (Forall_lookup_1 _ _ _ _ (sg_handlers _ Hs) Hi) as Hok.
  destruct (decide (h_phase h = Handling ∧ h_closed h = false)) as [[Hp Hf]|Hno].
  - exists (ConnCtx i). eexists. split; [done|]. cbn. unfold conn_watch_ctx. rewrite Hi, Hc.
    unfold handler_ok in Hok. rewrite Hp, Hf in Hok. destruct Hok as [->|]; [|done]. done.
  - exists (HandlerStep i). unfold prompt, serve_step, handler_act. rewrite Hi.
    destruct h as [[] [] w]; try (by destruct Hno); try done; eexists; by split.
Qed.

Lemma serve_prompt s :
  serving s → sv_ctx s = true → sv_loop s ≠ Returned → ∃ a s', prompt a s = true ∧ serve_step a s = Some s'.
Proof.
  intros Hs Hc Hr. destruct (sv_loop s) eqn:Hl; [| | |done].
  - exists AcceptError. eexists. split; [done|]. cbn. unfold accept_error. by rewrite Hl.
  - destruct (decide (sv_wg s = 0)) as [Hz|Hz].
    + exists Drained. eexists. split; [done|]. cbn. unfold drained. by rewrite Hl, Hz.
    + rewrite (sg_wg _ Hs), counted_zero in Hz. apply not_Forall_Exists in Hz; [|intros h; apply _].
      apply list.Exists_exists in Hz as (h & Hh & Hf). apply list_elem_of_lookup_1 in Hh as [i Hi].
      apply (handler_prompt s i h); try done. by apply not_false_iff_true.
  - exists ServeReturn. eexists. split; [done|]. cbn. unfold serve_return. by rewrite Hl.
Qed.

(** C20: The proxy stops when it is told to, and not before.  After any actions from
    the start of [Serve], the two counters are those of the connections served;
    [Serve] has returned only with its context done, the listener closed, every
    handler gone and every connection closed.  Once the context is done, the listener
    is closed or the watcher can close it, and as long as [Serve] has not returned
    some goroutine can go on without waiting for a client; once the listener is
    closed, no more actions than [left_of] can follow, so that [Serve] returns. *)
Theorem serve_drains acts s :
  serve_run acts Serve_start = Some s →
  sv_wg s = counted counted_wg (sv_handlers s) ∧
  sv_inflight s = counted in_flight (sv_handlers s) ∧
  (sv_loop s = Returned →
     sv_ctx s = true ∧ sv_ln s = true ∧ sv_inflight s = 0 ∧
     Forall (λ h, h_phase h = Ended ∧ h_closed h = true) (sv_handlers s)) ∧
  (sv_ctx s = true → sv_loop s ≠ Returned →
     (∃ a s', prompt a s = true ∧ serve_step a s = Some s') ∧
     (sv_ln s = true ∨ serve_done s = true ∨ ∃ s', serve_step ListenerCtx s = Some s' ∧ sv_ln s' = true)) ∧
  (sv_ctx s = true → sv_ln s = true → ∀ acts' s', serve_run acts' s = Some s' → (length acts' ≤ left_of s)%nat).
Proof.
  intros Hr. pose proof (serve_run_serving _ _ _ Hr start_serving) as Hs. split_and!.
  - apply Hs.
  - apply Hs.
  - intros Hl. assert (Hd : serve_done s = true) by (unfold serve_done; by rewrite Hl).
    pose proof (sg_drained _ Hs Hd) as Hz. rewrite (sg_wg _ Hs), counted_zero in Hz.
    split; [apply Hs; by rewrite Hl|]. split; [by apply Hs|]. split.
    + rewrite (sg_inflight _ Hs). apply counted_zero. eapply list.Forall_impl; [exact Hz|]. intros h Hh. unfold in_flight. by rewrite Hh.
    + rewrite list.Forall_forall in Hz |- *. intros h Hh. specialize (Hz h Hh).
      pose proof (proj1 (list.Forall_forall _ _) (sg_handlers _ Hs) h Hh) as Hok.
      destruct h as [[] c w]; by vm_compute in Hz.
  - intros Hc Hl. split; [by apply serve_prompt|].
    destruct (sg_watch _ Hs) as [Hw|[?|?]]; [|by left|by right; left].
    right; right. eexists. cbn. unfold listener_watch_ctx. by rewrite Hw, Hc.
  - intros Hc Hn acts' s' H. pose proof (serve_run_left _ _ _ Hc Hn H). lia.
Qed.

(** Two clients, one that stalls; the context is done while it does. *)
Definition two_clients : list serve_action :=
  [Accepted; AcceptError; Accepted; HandlerStep 0; HandlerStep 0; ConnDone 0; HandlerStep 0; Cancel; ListenerCtx; AcceptError;
   ConnCtx 1; HandlerStep 1; HandlerStep 0; HandlerStep 1; HandlerStep 1; HandlerStep 1; Drained; ServeReturn].

Lemma serve_drains_witness :
  ∃ s, serve_run two_clients Serve_start = Some s ∧ sv_loop s = Returned ∧
    Forall (λ h, h_phase h = Ended ∧ h_closed h = true) (sv_handlers s).
Proof.
  exists (mkServer true true false Returned 0 0 [mkHandler Ended true false; mkHandler Ended true false]).
  split; [by vm_compute|]. split; [done|].
  destruct (serve_drains two_clients (mkServer true true false Returned 0 0 [mkHandler Ended true false; mkHandler Ended true false])) as (_ & _ & H & _); [by vm_compute|].
  by apply H.
Defined.
