(* ===== verification/Process.v ===== *)
(** The process of the proxy ([cmd/openvpn2socks/main.go], [run] from the point where
    its signals are installed, and [main]): the goroutine of the signals, the watcher
    of a client that gives up, and the goroutine of [run] with its deferred calls.
    The server is that of [Serve]; its context is the root context.  Each action is a
    section one goroutine runs without another seeing its middle; what comes from
    outside (a signal, the dial, the client that gives up) is an action too. *)
From S2P Require Import Prelude Serve.
Local Open Scope Z_scope.

(** What [run] returns. *)
Inductive outcome : Type := RunOk | RunError | ErrReconnectGaveUp.
#[export] Instance outcome_eq_dec : EqDecision outcome.
Proof. solve_decision. Defined.

(** How the process ended: an exit code, or a signal nobody had asked for. *)
Inductive ended : Type := ExitCode (code : Z) | KilledBySignal.
#[export] Instance ended_eq_dec : EqDecision ended.
Proof. solve_decision. Defined.

(** The goroutine of the signals: before its first [select], before its second, gone. *)
Inductive signals : Type := FirstSelect | SecondSelect | SignalsLeft.
#[export] Instance signals_eq_dec : EqDecision signals.
Proof. solve_decision. Defined.

(** The goroutine of [run]: in [Dial]; between [Dial] and [ListenAndServe]; in it;
    back from it; its deferred calls, as far as they have run: [ns.Close], [cli.Close]
    and [dialCancel], then [signal.Stop], then [cancel]. *)
Inductive stage : Type :=
  | Dialling
  | Starting
  | Serving
  | Served (failed : bool)
  | Closing (r : outcome)
  | Silenced (r : outcome)
  | Back (r : outcome).

Record process := mkProcess {
  pr_server : server;        (* [sv_ctx] is rootCtx.Done() *)
  pr_queued : nat;           (* sigCh *)
  pr_notify : bool;          (* signal.Notify is in force *)
  pr_signals : signals;
  pr_client : bool;          (* Dial has returned a client *)
  pr_gaveUp : bool;          (* cli.Unrecoverable() is closed *)
  pr_watcher : bool;         (* the watcher of the client is there *)
  pr_stage : stage;
  pr_end : option ended
}.
Definition run_start : process :=
  mkProcess Serve_start 0 true FirstSelect false false false Dialling None.

Definition sigCh_cap : nat := 4.
Definition forceExitGrace : Z := 5 * Second.

Definition rootDone (p : process) : bool := sv_ctx (pr_server p).
Definition set_server (s : server) (p : process) : process :=
  mkProcess s (pr_queued p) (pr_notify p) (pr_signals p) (pr_client p) (pr_gaveUp p) (pr_watcher p) (pr_stage p) (pr_end p).
Definition cancel (p : process) : process := set_server (set_ctx (pr_server p)) p.
Definition set_queued (n : nat) (p : process) : process :=
  mkProcess (pr_server p) n (pr_notify p) (pr_signals p) (pr_client p) (pr_gaveUp p) (pr_watcher p) (pr_stage p) (pr_end p).
Definition set_signals (g : signals) (p : process) : process :=
  mkProcess (pr_server p) (pr_queued p) (pr_notify p) g (pr_client p) (pr_gaveUp p) (pr_watcher p) (pr_stage p) (pr_end p).
Definition set_watcher (b : bool) (p : process) : process :=
  mkProcess (pr_server p) (pr_queued p) (pr_notify p) (pr_signals p) (pr_client p) (pr_gaveUp p) b (pr_stage p) (pr_end p).
Definition set_stage (g : stage) (p : process) : process :=
  mkProcess (pr_server p) (pr_queued p) (pr_notify p) (pr_signals p) (pr_client p) (pr_gaveUp p) (pr_watcher p) g (pr_end p).
Definition set_end (e : ended) (p : process) : process :=
  mkProcess (pr_server p) (pr_queued p) (pr_notify p) (pr_signals p) (pr_client p) (pr_gaveUp p) (pr_watcher p) (pr_stage p) (Some e).

(** SIGINT or SIGTERM: queued if there is room, or the end of a process that no longer
    asks for it. *)
Definition signal_arrives (p : process) : option process :=
  if pr_notify p then Some (if (pr_queued p <? sigCh_cap)%nat then set_queued (S (pr_queued p)) p else p)
  else Some (set_end KilledBySignal p).

(** The goroutine of the signals, by the case its [select] takes. *)
Definition first_signal (p : process) : option process :=
  match pr_signals p, pr_queued p with
  | FirstSelect, S n => Some (set_signals SecondSelect (cancel (set_queued n p)))
  | _, _ => None
  end.
Definition root_done (p : process) : option process :=
  match pr_signals p with
  | FirstSelect => if rootDone p then Some (set_signals SignalsLeft p) else None
  | _ => None
  end.
Definition second_signal (p : process) : option process :=
  match pr_signals p, pr_queued p with
  | SecondSelect, S n => Some (set_end (ExitCode 130) (set_queued n p))
  | _, _ => None
  end.
Definition grace_elapsed (p : process) : option process :=
  match pr_signals p with
  | SecondSelect => Some (set_end (ExitCode 130) p)
  | _ => None
  end.

(** The client gives up; the watcher of it. *)
Definition client_gives_up (p : process) : option process :=
  if pr_client p
  then Some (mkProcess (pr_server p) (pr_queued p) (pr_notify p) (pr_signals p) (pr_client p) true (pr_watcher p) (pr_stage p) (pr_end p))
  else None.
Definition watcher_unrecoverable (p : process) : option process :=
  if pr_watcher p && pr_gaveUp p then Some (set_watcher false (cancel p)) else None.
Definition watcher_root (p : process) : option process :=
  if pr_watcher p && rootDone p then Some (set_watcher false p) else None.

(** [Dial]; the rest of the start, whose failures are those of [Cli.run]; the watcher
    is started last. *)
Definition dial_returns (ok : bool) (p : process) : option process :=
  match pr_stage p with
  | Dialling =>
      if ok
      then Some (mkProcess (pr_server p) (pr_queued p) (pr_notify p) (pr_signals p) true (pr_gaveUp p) (pr_watcher p) Starting (pr_end p))
      else Some (set_stage (Closing RunError) p)
  | _ => None
  end.
Definition start_returns (ok : bool) (p : process) : option process :=
  match pr_stage p with
  | Starting => Some (if ok then set_stage Serving (set_watcher true p) else set_stage (Closing RunError) p)
  | _ => None
  end.

(** [ListenAndServe] fails to listen, or returns what [Serve] does, nil. *)
Definition listen_fails (p : process) : option process :=
  match pr_stage p with Serving => Some (set_stage (Served true) p) | _ => None end.
Definition serve_returns (p : process) : option process :=
  match pr_stage p with
  | Serving => if bool_decide (sv_loop (pr_server p) = Returned) then Some (set_stage (Served false) p) else None
  | _ => None
  end.
(** The last [select] of [run]. *)
Definition run_result (p : process) : option process :=
  match pr_stage p with
  | Served failed =>
      Some (set_stage (Closing (if pr_gaveUp p then ErrReconnectGaveUp else if failed then RunError else RunOk)) p)
  | _ => None
  end.

(** The deferred calls of [run], last first, and [main]. *)
Definition closed_all (p : process) : option process :=
  match pr_stage p with Closing r => Some (set_stage (Silenced r) p) | _ => None end.
Definition signal_Stop (p : process) : option process :=
  match pr_stage p with
  | Silenced r =>
      if pr_notify p
      then Some (mkProcess (pr_server p) (pr_queued p) false (pr_signals p) (pr_client p) (pr_gaveUp p) (pr_watcher p) (Silenced r) (pr_end p))
      else Some (set_stage (Back r) (cancel p))
  | _ => None
  end.
Definition main (p : process) : option process :=
  match pr_stage p with
  | Back r => Some (set_end (ExitCode (match r with RunOk => 0 | _ => 1 end)) p)
  | _ => None
  end.

Inductive action : Type :=
  | SignalArrives | FirstSignal | RootDone | SecondSignal | GraceElapsed
  | ClientGivesUp | WatcherUnrecoverable | WatcherRoot
  | DialReturns (ok : bool) | StartReturns (ok : bool) | ListenFails
  | ServerStep (a : serve_action) | ServeReturns | RunResult | ClosedAll | SignalStop | MainReturns.

(** The server moves while [run] is in it; its context is done only by [cancel]. *)
Definition server_step (a : serve_action) (p : process) : option process :=
  match pr_stage p, a with
  | _, Cancel => None
  | Serving, _ => option_map (λ s, set_server s p) (serve_step a (pr_server p))
  | _, _ => None
  end.

(** Nothing moves after the end. *)
Definition pstep (a : action) (p : process) : option process :=
  match pr_end p with
  | Some _ => None
  | None =>
      match a with
      | SignalArrives => signal_arrives p
      | FirstSignal => first_signal p
      | RootDone => root_done p
      | SecondSignal => second_signal p
      | GraceElapsed => grace_elapsed p
      | ClientGivesUp => client_gives_up p
      | WatcherUnrecoverable => watcher_unrecoverable p
      | WatcherRoot => watcher_root p
      | DialReturns ok => dial_returns ok p
      | StartReturns ok => start_returns ok p
      | ListenFails => listen_fails p
      | ServerStep a => server_step a p
      | ServeReturns => serve_returns p
      | RunResult => run_result p
      | ClosedAll => closed_all p
      | SignalStop => signal_Stop p
      | MainReturns => main p
      end
  end.
Fixpoint prun (acts : list action) (p : process) : option process :=
  match acts with
  | [] => Some p
  | a :: acts => match pstep a p with Some p => prun acts p | None => None end
  end.

(** ** What holds of every run *)

Definition failure (a : action) : bool :=
  match a with DialReturns false | StartReturns false | ListenFails => true | _ => false end.

(** The result a stage carries. *)
Definition result_of (g : stage) : option outcome :=
  match g with Closing r | Silenced r | Back r => Some r | _ => None end.

(** Which end there was, and why. *)
Definition explained (p : process) : Prop :=
  match pr_end p with
  | None => True
  | Some (ExitCode code) =>
      (code = 130 ∧ pr_signals p = SecondSelect) ∨
      ∃ r, pr_stage p = Back r ∧ code = match r with RunOk => 0 | _ => 1 end
  | Some KilledBySignal => pr_notify p = false
  end.

Record running (done : list action) (p : process) : Prop := {
  ru_server : serving (pr_server p);
  ru_second : pr_signals p ≠ FirstSelect → rootDone p = true;
  ru_root : rootDone p = true → pr_signals p = SecondSelect ∨ pr_gaveUp p = true ∨ ∃ r, pr_stage p = Back r;
  ru_served : pr_stage p = Served false ∨ result_of (pr_stage p) = Some RunOk → sv_loop (pr_server p) = Returned;
  ru_ok : result_of (pr_stage p) = Some RunOk → pr_signals p = SecondSelect;
  ru_failed : pr_stage p = Served true ∨ result_of (pr_stage p) = Some RunError → existsb failure done = true;
  ru_gaveUp : result_of (pr_stage p) = Some ErrReconnectGaveUp → pr_gaveUp p = true;
  ru_notify : pr_notify p = false → ∃ r, pr_stage p = Silenced r ∨ pr_stage p = Back r;
  ru_end : explained p
}.

Lemma run_start_running : running [] run_start.
Proof. split; try done; [apply start_serving|by intros [|]..]. Qed.

Lemma cancel_serving p : serving (pr_server p) → serving (pr_server (cancel p)).
Proof. intros []. by split. Qed.

Lemma serve_step_ctx a s s' : serve_step a s = Some s' → a ≠ Cancel → sv_ctx s' = sv_ctx s.
Proof.
  intros Hs Ha. destruct a; cbn in Hs;
    unfold accept_conn, accept_error, drained, serve_return, listener_watch_ctx, listener_watch_done, handler_act,
      conn_watch_ctx, conn_watch_done in Hs; repeat case_match; simplify_eq; done.
Qed.

Lemma failure_later done a : existsb failure done = true → existsb failure (done ++ [a]) = true.
Proof. intros H. by rewrite existsb_app, H. Qed.
Lemma failure_now done a : failure a = true → existsb failure (done ++ [a]) = true.
Proof. intros H. rewrite existsb_app. cbn. by rewrite H, orb_true_r. Qed.

(** A step beside the goroutine of [run]. *)
Lemma running_beside done a p p' :
  running done p → serving (pr_server p') →
  pr_stage p' = pr_stage p → pr_notify p' = pr_notify p →
  (sv_loop (pr_server p') = sv_loop (pr_server p) ∨ pr_stage p = Serving) →
  (pr_signals p' = pr_signals p ∨ pr_signals p = FirstSelect ∧ rootDone p' = true) →
  (rootDone p = true → rootDone p' = true) →
  (pr_gaveUp p = true → pr_gaveUp p' = true) →
  (rootDone p' = true → rootDone p = true ∨ pr_signals p' = SecondSelect ∨ pr_gaveUp p' = true) →
  explained p' → running (done ++ [a]) p'.
Proof.
  intros [] Hserving Hst Hn Hloop Hsig Hctx Hgave Hroot He.
  assert (H2 : pr_signals p = SecondSelect → pr_signals p' = SecondSelect) by (intros E; destruct Hsig as [->|[? _]]; congruence).
  split; rewrite ?Hst, ?Hn; try done.
  - destruct Hsig as [->|[_ ?]]; [|done]. intros H. by apply Hctx, ru_second0.
  - intros H. destruct (Hroot H) as [H'|[?|?]]; [|by left|by right; left].
    destruct (ru_root0 H') as [?|[?|?]]; [left; by apply H2|right; left; by apply Hgave|by right; right].
  - intros H. destruct Hloop as [->|E]; [by apply ru_served0|]. rewrite E in H. by destruct H.
  - intros H. by apply H2, ru_ok0.
  - intros H. by apply failure_later, ru_failed0.
  - intros H. by apply Hgave, ru_gaveUp0.
Qed.

(** A step of that goroutine, but the two that end what its deferred calls undo. *)
Lemma running_stage done a p p' :
  running done p → pr_end p' = None →
  pr_server p' = pr_server p → pr_signals p' = pr_signals p → pr_gaveUp p' = pr_gaveUp p → pr_notify p' = pr_notify p →
  (∀ r, pr_stage p ≠ Back r) →
  (pr_stage p' = Served false ∨ result_of (pr_stage p') = Some RunOk → sv_loop (pr_server p) = Returned) →
  (result_of (pr_stage p') = Some RunOk → pr_signals p = SecondSelect) →
  (pr_stage p' = Served true ∨ result_of (pr_stage p') = Some RunError → existsb failure (done ++ [a]) = true) →
  (result_of (pr_stage p') = Some ErrReconnectGaveUp → pr_gaveUp p = true) →
  (pr_notify p = false → ∃ r, pr_stage p' = Silenced r ∨ pr_stage p' = Back r) →
  running (done ++ [a]) p'.
Proof.
  intros [] He Hs Hg Hu Hn Hb. intros. split; unfold rootDone, explained in *; rewrite ?Hs, ?Hg, ?Hu, ?Hn, ?He; try done.
  intros Hc. destruct (ru_root0 Hc) as [?|[?|[r E]]]; [by left|by right; left|]. by destruct (Hb r).
Qed.

Ltac beside :=
  eapply running_beside; cbn; try done; auto; try (by apply cancel_serving);
  unfold explained; cbn; try match goal with E : pr_end _ = None |- _ => by rewrite E end; auto.

Lemma outside_running done a p p' :
  running done p → pr_end p = None → pstep a p = Some p' →
  match a with SignalArrives | FirstSignal | RootDone | SecondSignal | GraceElapsed | ClientGivesUp
             | WatcherUnrecoverable | WatcherRoot => True | _ => False end →
  running (done ++ [a]) p'.
Proof.
  intros Hr He Hs Ha. unfold pstep in Hs. rewrite He in Hs. pose proof (ru_server _ _ Hr) as Hsv.
  destruct a; try done; cbn in Hs; clear Ha.
  - unfold signal_arrives in Hs. destruct (pr_notify p) eqn:Hn; [destruct (_ <? _)%nat|]; injection Hs as <-; beside.
  - unfold first_signal in Hs. destruct (pr_signals p) eqn:Hg, (pr_queued p) as [|q]; try done. injection Hs as <-. beside.
  - unfold root_done in Hs. destruct (pr_signals p) eqn:Hg, (rootDone p) eqn:Hd; try done. injection Hs as <-. beside.
  - unfold second_signal in Hs. destruct (pr_signals p) eqn:Hg, (pr_queued p) as [|q]; try done. injection Hs as <-. beside.
  - unfold grace_elapsed in Hs. destruct (pr_signals p) eqn:Hg; try done. injection Hs as <-. beside.
  - unfold client_gives_up in Hs. destruct (pr_client p) eqn:Hg; try done. injection Hs as <-. beside.
  - unfold watcher_unrecoverable in Hs. destruct (pr_watcher p), (pr_gaveUp p) eqn:Hu; try done. injection Hs as <-. beside.
  - unfold watcher_root in Hs. destruct (pr_watcher p), (rootDone p) eqn:Hu; try done. injection Hs as <-. beside.
Qed.

Ltac along E :=
  eapply running_stage; cbn; try done; try (intros; by rewrite E); intros; destruct_or?; simplify_eq; try done;
  eauto using failure_now, failure_later.

Lemma run_running done a p p' :
  running done p → pr_end p = None → pstep a p = Some p' →
  match a with DialReturns _ | StartReturns _ | ListenFails | ServeReturns | RunResult | ClosedAll => True | _ => False end →
  running (done ++ [a]) p'.
Proof.
  intros Hr He Hs Ha. unfold pstep in Hs. rewrite He in Hs. pose proof (ru_notify _ _ Hr) as Hn.
  destruct a as [| | | | | | | |ok|ok| | | | | | |]; try done; cbn in Hs; clear Ha.
  - unfold dial_returns in Hs. destruct (pr_stage p) eqn:E, ok; try done; injection Hs as <-; along E; naive_solver.
  - unfold start_returns in Hs. destruct (pr_stage p) eqn:E, ok; try done; injection Hs as <-; along E; naive_solver.
  - unfold listen_fails in Hs. destruct (pr_stage p) eqn:E; try done; injection Hs as <-; along E; naive_solver.
  - unfold serve_returns in Hs. destruct (pr_stage p) eqn:E; try done. case_bool_decide as Hl; [|done].
    injection Hs as <-; along E; naive_solver.
  - unfold run_result in Hs. destruct (pr_stage p) as [| | |failed| | |] eqn:E; try done. injection Hs as <-.
    assert (Hok : failed = false → sv_loop (pr_server p) = Returned) by (intros ->; apply (ru_served _ _ Hr); by left).
    assert (Hf : failed = true → existsb failure (done ++ [RunResult]) = true).
    { intros ->. apply failure_later, (ru_failed _ _ Hr). by left. }
    assert (Hg : failed = false → pr_gaveUp p = false → pr_signals p = SecondSelect).
    { intros Hf' Hu. assert (Hc : rootDone p = true) by (apply (sg_ctx _ (ru_server _ _ Hr)); by rewrite Hok).
      destruct (ru_root _ _ Hr Hc) as [?|[?|[r ?]]]; [done|congruence|congruence]. }
    destruct (pr_gaveUp p) eqn:Hu, failed; along E; naive_solver.
  - unfold closed_all in Hs. destruct (pr_stage p) as [| | | |r| |] eqn:E; try done; injection Hs as <-.
    along E; first [by apply (ru_served _ _ Hr); rewrite E; right|by apply (ru_ok _ _ Hr); rewrite E
      |by apply failure_later, (ru_failed _ _ Hr); rewrite E; right|by apply (ru_gaveUp _ _ Hr); rewrite E].
Qed.

Lemma pstep_running done a p p' : running done p → pstep a p = Some p' → running (done ++ [a]) p'.
Proof.
  intros Hr Hs. destruct (pr_end p) eqn:He; [by unfold pstep in Hs; rewrite He in Hs|].
  destruct a as [| | | | | | | |ok|ok| |b| | | | |]; try (by eapply outside_running); try (by eapply run_running);
    unfold pstep in Hs; rewrite He in Hs; pose proof (ru_server _ _ Hr) as Hsv.
  - unfold server_step in Hs. destruct (pr_stage p) eqn:E; try (by destruct b).
    assert (Hb : b ≠ Cancel) by (by intros ->). 
    assert (Hs' : option_map (λ s, set_server s p) (serve_step b (pr_server p)) = Some p') by (by destruct b).
    destruct (serve_step b (pr_server p)) as [s|] eqn:Hb'; [|done]. injection Hs' as <-.
    pose proof (serve_step_ctx _ _ _ Hb' Hb) as Hc. pose proof (serve_step_serving _ _ _ Hb' Hsv).
    beside; unfold rootDone; cbn; rewrite Hc; auto.
  - unfold signal_Stop in Hs. destruct (pr_stage p) as [| | | | |r|] eqn:E; try done.
    destruct Hr. rewrite E in *. destruct (pr_notify p) eqn:Hn; injection Hs as <-.
    + split; cbn; try done; [by intros; apply failure_later, ru_failed0|by eauto|]. unfold explained. cbn. by rewrite He.
    + split; cbn; rewrite ?E, ?Hn; try done; [by apply cancel_serving|by eauto| | |by eauto|].
      * intros [|]; [done|]. apply ru_served0. by right.
      * intros [|]; [done|]. apply failure_later, ru_failed0. by right.
      * unfold explained. cbn. by rewrite He.
  - unfold main in Hs. destruct (pr_stage p) as [| | | | | |r] eqn:E; try done. injection Hs as <-.
    destruct Hr. split; cbn; try done.
    + intros H. by apply failure_later, ru_failed0.
    + unfold explained. cbn. right. by exists r.
Qed.

Lemma prun_running acts done p p' : running done p → prun acts p = Some p' → running (done ++ acts) p'.
Proof.
  revert done p. induction acts as [|a acts IH]; cbn; intros done p Hr.
  - intros [= <-]. by rewrite app_nil_r.
  - destruct (pstep a p) as [p1|] eqn:Ha; [|done]. intros H.
    rewrite (cons_middle a done acts), app_assoc. eapply IH; [|done]. by eapply pstep_running.
Qed.

Lemma run_ended done p code :
  running done p → pr_end p = Some (ExitCode code) →
  (code = 130 ∧ pr_signals p = SecondSelect) ∨
  (code = 0 ∧ pr_signals p = SecondSelect ∧ sv_loop (pr_server p) = Returned) ∨
  (code = 1 ∧ (existsb failure done = true ∨ pr_gaveUp p = true)).
Proof.
  intros [] He. unfold explained in ru_end0. rewrite He in ru_end0. destruct ru_end0 as [?|(r & Hr & ->)]; [by left|right].
  rewrite Hr in *. destruct r; [left|right|right]; (split; [done|]).
  - split; [by apply ru_ok0|]. apply ru_served0. by right.
  - left. apply ru_failed0. by right.
  - right. by apply ru_gaveUp0.
Qed.

Lemma signal_read p :
  pr_end p = None → pr_signals p = FirstSelect → pr_notify p = true →
  ∃ p', prun [SignalArrives; FirstSignal] p = Some p' ∧ rootDone p' = true ∧ pr_signals p' = SecondSelect.
Proof.
  intros He Hg Hn. cbn [prun]. unfold pstep at 1. rewrite He. unfold signal_arrives. rewrite Hn.
  assert (Hq : ∃ n, pr_queued (if (pr_queued p <? sigCh_cap)%nat then set_queued (S (pr_queued p)) p else p) = S n).
  { destruct (pr_queued p) as [|n] eqn:Hq; [by exists 0%nat|]. destruct (_ <? _)%nat; cbn; eauto. }
  destruct Hq as [n Hq]. unfold pstep, first_signal. rewrite Hq.
  destruct (_ <? _)%nat; cbn; rewrite He, Hg; by eexists.
Qed.

(** C21: How the process of the proxy ends.  Whatever signals arrive, whatever the dial,
    the start and the client do, and in whatever order the goroutines move, its exit
    code is 0, 1 or 130; it is 0 only after a signal, with [Serve] back and every
    client gone; 1 only if the start failed or the client gave up; 130 only after a
    signal.  A signal that was not asked for ends the process only when the deferred
    calls have closed the client and stopped asking.  As long as the process has not
    ended, its goroutine of the signals is in one of three places: before its first
    [select], where a signal that arrives is read and the server's context is done;
    after a signal, where the five seconds of grace can end the process whatever the
    rest is doing; or gone on [rootCtx.Done()], which happens only when the client gave
    up or [run] is through with its deferred calls. *)
Theorem process_ends acts p :
  prun acts run_start = Some p →
  (∀ code, pr_end p = Some (ExitCode code) →
     (code = 130 ∧ pr_signals p = SecondSelect) ∨
     (code = 0 ∧ pr_signals p = SecondSelect ∧ sv_loop (pr_server p) = Returned ∧
      Forall (λ h, counted_wg h = false) (sv_handlers (pr_server p))) ∨
     (code = 1 ∧ (existsb failure acts = true ∨ pr_gaveUp p = true))) ∧
  (pr_end p = Some KilledBySignal → ∃ r, pr_stage p = Silenced r ∨ pr_stage p = Back r) ∧
  (pr_end p = None →
     match pr_signals p with
     | FirstSelect => pr_notify p = true →
         ∃ p', prun [SignalArrives; FirstSignal] p = Some p' ∧ rootDone p' = true ∧ pr_signals p' = SecondSelect
     | SecondSelect => pstep GraceElapsed p = Some (set_end (ExitCode 130) p)
     | SignalsLeft => pr_gaveUp p = true ∨ ∃ r, pr_stage p = Back r
     end).
Proof.
  intros H. pose proof (prun_running _ _ _ _ run_start_running H) as Hr. cbn in Hr. split_and!.
  - intros code He. destruct (run_ended _ _ _ Hr He) as [?|[(? & ? & Hl)|?]]; [by left|right; left|by right; right].
    split_and!; try done. apply counted_zero. pose proof (ru_server _ _ Hr) as Hs. rewrite <-(sg_wg _ Hs).
    apply (sg_drained _ Hs). unfold serve_done. by rewrite Hl.
  - intros He. pose proof (ru_end _ _ Hr) as Hx. unfold explained in Hx. rewrite He in Hx. by apply (ru_notify _ _ Hr).
  - intros He. destruct (pr_signals p) eqn:Hg.
    + intros Hn. by apply signal_read.
    + unfold pstep, grace_elapsed. by rewrite He, Hg.
    + destruct (ru_root _ _ Hr) as [H'|[H'|H']]; [apply (ru_second _ _ Hr)| |by left|by right]; by rewrite Hg in *.
Qed.

(** A client connects and a signal stops the proxy. *)
Definition one_signal : list action :=
  [DialReturns true; StartReturns true; ServerStep Accepted; SignalArrives; FirstSignal; ServerStep ListenerCtx;
   ServerStep AcceptError; ServerStep (ConnCtx 0); ServerStep (HandlerStep 0); ServerStep (HandlerStep 0);
   ServerStep (HandlerStep 0); ServerStep (HandlerStep 0); ServerStep Drained; ServerStep ServeReturn; ServeReturns;
   RunResult; ClosedAll; SignalStop; SignalStop; MainReturns].

Lemma process_ends_witness :
  let p := default run_start (prun one_signal run_start) in
  pr_end p = Some (ExitCode 0) ∧
  ((0 = 130 ∧ pr_signals p = SecondSelect) ∨
   (0 = 0 ∧ pr_signals p = SecondSelect ∧ sv_loop (pr_server p) = Returned ∧
    Forall (λ h, counted_wg h = false) (sv_handlers (pr_server p))) ∨
   (0 = 1 ∧ (existsb failure one_signal = true ∨ pr_gaveUp p = true))).
Proof.
  split; [by vm_compute|]. destruct (process_ends one_signal (default run_start (prun one_signal run_start))) as [H _]; [by vm_compute|].
  apply H. by vm_compute.
Defined.

(** ** After the client gave up *)

(** The actions of signals, of the clock and of the two watchers. *)
Definition beside_run (a : action) : bool :=
  match a with
  | SignalArrives | FirstSignal | RootDone | SecondSignal | GraceElapsed | ClientGivesUp | WatcherUnrecoverable | WatcherRoot => true
  | _ => false
  end.

(** Once the goroutine of the signals has left on [rootCtx.Done()], neither a signal
    nor the clock ends the process: only [run] coming back does. *)
Lemma no_backstop acts p p' :
  pr_end p = None → pr_signals p = SignalsLeft → pr_notify p = true → Forall (λ a, beside_run a = true) acts →
  prun acts p = Some p' → pr_end p' = None.
Proof.
  revert p. induction acts as [|a acts IH]; cbn; intros p He Hg Hn Hb.
  - by intros [= <-].
  - apply list.Forall_cons in Hb as [Ha Hb]. destruct (pstep a p) as [p1|] eqn:Hs; [|done]. intros H.
    assert (pr_end p1 = None ∧ pr_signals p1 = SignalsLeft ∧ pr_notify p1 = true) as (? & ? & ?); [|by eapply IH].
    clear IH H. unfold pstep in Hs. rewrite He in Hs.
    destruct a; try done; cbn in Hs;
      unfold signal_arrives, first_signal, root_done, second_signal, grace_elapsed, client_gives_up, watcher_unrecoverable,
        watcher_root in Hs; rewrite ?Hg, ?Hn in Hs; repeat case_match; simplify_eq; done.
Qed.

(** The client gives up while a handler does not come back: five signals and the
    clock later the process is still there, and one of the signals is lost. *)
Example surrender_hangs :
  let p := prun ([DialReturns true; StartReturns true; ServerStep Accepted; ClientGivesUp; WatcherUnrecoverable; RootDone] ++
                 [SignalArrives; SignalArrives; SignalArrives; SignalArrives; SignalArrives]) run_start in
  (p ≫= pstep FirstSignal) = None ∧ (p ≫= pstep SecondSignal) = None ∧ (p ≫= pstep GraceElapsed) = None ∧
  (pr_end <$> p) = Some None ∧ (pr_queued <$> p) = Some 4%nat.
Proof. by vm_compute. Qed.
