(* ===== verification/Connect.v ===== *)
(** The life of one accepted connection ([cmd/openvpn2socks/socks5.go], [handle];
    [socks5_tcp.go], [handleConnect]; [socks5_udp.go], [handleAssociate]): the parts
    modelled in [Socks], [Resolver], [Limiter], [SocksProxy] and [SocksUdp], put
    together the way the code calls them.  The tunnel's dial, the system's bind, the
    resolution of a name that is not cached and which writes succeed are arguments. *)
From stdpp Require Import list.
From S2P Require Import Prelude Text Netip Resolver Socks SocksFacts SocksUdp SocksProxy Limiter.
Local Open Scope Z_scope.

(** ** Addresses *)

(** 0.0.0.0:0. *)
Definition no_address : AddrPort := mkAddrPort (Addr4 0) 0.

(** The text of a connection's local address, if it has one. *)
Definition localAddrPort (local : option bytes) : AddrPort :=
  match local with
  | None => no_address
  | Some s => match ParseAddrPort s with Some ap => ap | None => no_address end
  end.
(** The same for a UDP socket; [None] also stands for an address of another kind. *)
Definition localAddrPortFromUDP (local : option bytes) : AddrPort :=
  match local with
  | Some s => match ParseAddrPort s with Some ap => ap | None => no_address end
  | None => no_address
  end.

(** [net.IP.IsUnspecified] and [net.IP.String]. *)
Definition IP_IsUnspecified (ip : bytes) : bool :=
  IP_Equal ip (v4InV6Prefix ++ replicate 4 x00) || IP_Equal ip (replicate 16 x00).
Definition IP_String (ip : bytes) : bytes :=
  match AddrFromSlice ip with
  | Some a => Addr_String (Unmap a)
  | None =>
      if bool_decide (ip = []) then text "<nil>"
      else text "?" ++ concat ((λ b, [hex_char (b2z b / 16); hex_char (b2z b mod 16)]) <$> ip)
  end.

(** The local address of the control connection: [None] if it is not a TCP address
    or has no IP. *)
Definition udpBindIPForCtrl (ctrl : option bytes) (listenAddr : bytes) : bytes :=
  let listen :=
    match SplitHostPort listenAddr with
    | Ok (host, _) =>
        if bool_decide (host = []) || bool_decide (host = text "0.0.0.0") || bool_decide (host = text "::")
        then text "127.0.0.1" else host
    | _ => text "127.0.0.1"
    end in
  match ctrl with
  | Some ip => if IP_IsUnspecified ip then listen else IP_String ip
  | None => listen
  end.

(** ** One connection *)

(** What the proxy is given, and what is outside it for this connection. *)
Record setting := mkSetting {
  se_server : socks5Server;
  se_listen : bytes;
  se_idle : Z;
  se_resolver : resolver;
  se_hasV4 : bool;
  se_hasV6 : bool;
  se_local : option bytes;                   (* the connection's local IP *)
  se_remote : option bytes;                  (* and its remote IP *)
  se_up : nat → bool;                        (* which writes of the greeting succeed *)
  se_replied : bool;                         (* whether the write of the reply does *)
  se_resolve : bytes → option (list Addr);   (* a name that is not cached *)
  se_dial : bytes → dialErr + option bytes;  (* the local address of the stream *)
  se_bind : bytes → option (option bytes);   (* that of the UDP socket *)
  se_now : Z;
  se_t1 : Z; se_t2 : Z                       (* the clock at the start of the copying *)
}.

Inductive serviced : Type :=
  | NotServed
  | Proxying (addr : bytes) (p : proxied)
  | Associated (m : udpRelayMgr).

Section connection.
Variable e : setting.

(** [LookupIP]: a literal, a cached answer, or the shared resolution. *)
Definition LookupIP (host : bytes) : option (list Addr) :=
  match (LookupIP_begin (se_now e) host (se_resolver e)).2 with
  | Some (Ok ips) => Some ips
  | Some _ => None
  | None => se_resolve e host
  end.
Definition dial (addr : bytes) : dialErr + Addr * Z :=
  match se_dial e addr with
  | inl err => inl err
  | inr local => let ap := localAddrPort local in inr (ap_addr ap, ap_port ap)
  end.

(** The address the limiter is asked about, if it is asked. *)
Definition target_of (req : socksRequest) : option Addr :=
  match LookupIP (rq_host req) with
  | Some ips => head (filterUsableIPs ips (se_hasV4 e) (se_hasV6 e))
  | None => None
  end.
Definition limited (l : connRateLimiter) (req : socksRequest) : connRateLimiter :=
  match target_of req with Some a => (allow (se_now e) a l).1 | None => l end.

(** A stream as the kernel hands it over, when its peer has sent [b]. *)
Definition fresh_conn (b : bytes) (fin halfClose : bool) : pconn := mkPconn b b fin [] None None false false false halfClose.

(** [handleAssociate] up to its relays. *)
Definition handleAssociate (req : socksRequest) : list bytes * option udpRelayMgr :=
  match se_bind e (JoinHostPort (udpBindIPForCtrl (se_local e) (se_listen e)) (text "0")) with
  | None => ([failure repGeneralFailure], None)
  | Some local =>
      let bnd := localAddrPortFromUDP local in
      let '(ip, port) := expected_source (tcpRemoteIP (se_remote e)) req in
      ([writeReply repSucceeded (ap_addr bnd) (ap_port bnd)], if se_replied e then Some (newUDPRelayMgr ip port) else None)
  end.

(** The whole of [handle] for a client that has sent [s] so far, of which the reader
    holds [ahead] bytes more than the request: what was written, the limiter, and
    what the client is given. *)
Definition connection (s : bytes) (ahead : nat) (fin halfClose : bool) (remote : pconn) (l : connRateLimiter)
  : list bytes * connRateLimiter * serviced :=
  match handle (se_server e) (se_up e) s with
  | (out, HandleConnect req, rest) =>
      match handleConnect (LookupIP (rq_host req)) (se_hasV4 e) (se_hasV6 e) (λ a, (allow (se_now e) a l).2) dial
              (se_replied e) req with
      | (reply, Some addr) =>
          (out ++ reply, limited l req,
           Proxying addr (proxy (se_idle e) (se_t1 e) (se_t2 e) (take ahead rest) (fresh_conn (drop ahead rest) fin halfClose) remote))
      | (reply, None) => (out ++ reply, limited l req, NotServed)
      end
  | (out, HandleAssociate req, _) =>
      match handleAssociate req with
      | (reply, Some m) => (out ++ reply, l, Associated m)
      | (reply, None) => (out ++ reply, l, NotServed)
      end
  | (out, Hangup, _) => (out, l, NotServed)
  end.
End connection.

Example bind_addresses :
  udpBindIPForCtrl (Some [xc0; xa8; x00; x02]) (text "0.0.0.0:1080") = text "192.168.0.2" ∧
  udpBindIPForCtrl (Some (v4InV6Prefix ++ [xc0; xa8; x00; x02])) (text ":1080") = text "192.168.0.2" ∧
  udpBindIPForCtrl (Some (replicate 16 x00)) (text "[fd00::1]:1080") = text "fd00::1" ∧
  udpBindIPForCtrl None (text "[::]:1080") = text "127.0.0.1" ∧ udpBindIPForCtrl None (text "localhost:1080") = text "localhost" ∧
  localAddrPort (Some (text "10.8.0.2:40000")) = mkAddrPort (Addr4 0x0A080002) 40000 ∧ localAddrPort (Some (text "pipe")) = no_address.
Proof. by vm_compute. Qed.

(** ** What it takes to be connected *)

(** The client said the right things; the name has an address of a family the tunnel
    has, which the limiter lets through; the dial and the reply went through.  What
    is left of what the client sent is [rest]. *)
Record connects (e : setting) (s : bytes) (l : connRateLimiter) (out : list bytes) (l' : connRateLimiter) (addr rest : bytes)
    (req : socksRequest) (a : Addr) : Prop := {
  cn_said : ∃ pre w, admitted (se_server e) (se_up e) pre ∧ request_wire req w ∧ s = pre ++ w ++ rest;
  cn_cmd : rq_cmd req = cmdConnect;
  cn_target : target_of e req = Some a;
  cn_allowed : allow (se_now e) a l = (l', true);
  cn_addr : addr = JoinHostPort (Addr_String a) (dec (rq_port req));
  cn_dialled : ∃ local, se_dial e addr = inr local ∧
    out = welcome (se_server e) ++ [writeReply repSucceeded (ap_addr (localAddrPort local)) (ap_port (localAddrPort local))];
  cn_replied : se_replied e = true
}.

Definition start_proxy (e : setting) (rest : bytes) (ahead : nat) (fin half : bool) (remote : pconn) : proxied :=
  proxy (se_idle e) (se_t1 e) (se_t2 e) (take ahead rest) (fresh_conn (drop ahead rest) fin half) remote.

Lemma usable_head ips v4 v6 a :
  head (filterUsableIPs ips v4 v6) = Some a → ∃ x ips', ips = x :: ips'.
Proof. destruct ips as [|x ips']; [done|]. by exists x, ips'. Qed.

(** [handleConnect] up to the copying, from both sides. *)
Lemma handleConnect_dials e l req reply addr :
  handleConnect (LookupIP e (rq_host req)) (se_hasV4 e) (se_hasV6 e) (λ a, (allow (se_now e) a l).2) (dial e) (se_replied e) req =
    (reply, Some addr) ↔
  ∃ a local, target_of e req = Some a ∧ (allow (se_now e) a l).2 = true ∧
    addr = JoinHostPort (Addr_String a) (dec (rq_port req)) ∧ se_dial e addr = inr local ∧
    reply = [writeReply repSucceeded (ap_addr (localAddrPort local)) (ap_port (localAddrPort local))] ∧ se_replied e = true.
Proof.
  unfold handleConnect, target_of, dial. destruct (LookupIP e (rq_host req)) as [ips|].
  2: { split; [done|]. by intros (? & ? & ? & _). }
  destruct (filterUsableIPs ips (se_hasV4 e) (se_hasV6 e)) as [|a us] eqn:Hu.
  { split; [by destruct ips|]. by intros (? & ? & ? & _). }
  destruct (usable_head ips (se_hasV4 e) (se_hasV6 e) a) as (x & ips' & ->); [by rewrite Hu|]. cbn [head].
  destruct (allow (se_now e) a l).2 eqn:Ha; cbn [negb].
  2: { split; [done|]. intros (? & ? & [= <-] & H & _). by rewrite Ha in H. }
  destruct (se_dial e (JoinHostPort (Addr_String a) (dec (rq_port req)))) as [err|local] eqn:Hd.
  { split; [done|]. intros (? & ? & [= <-] & _ & -> & H & _). by rewrite Hd in H. }
  split.
  - destruct (se_replied e); [|done]. intros [= <- <-]. exists a, local. by split_and!.
  - intros (? & ? & [= <-] & _ & -> & H & -> & ->). rewrite Hd in H. by injection H as <-.
Qed.

Lemma connection_connects e s ahead fin half remote l out l' addr p0 :
  connection e s ahead fin half remote l = (out, l', Proxying addr p0) ↔
  ∃ rest req a, connects e s l out l' addr rest req a ∧ p0 = start_proxy e rest ahead fin half remote.
Proof.
  unfold connection. split.
  - destruct (handle (se_server e) (se_up e) s) as [[o act] rest] eqn:Hh. destruct act as [|req|req]; [done| |].
    2: { destruct (handleAssociate e req) as [r [m|]]; done. }
    destruct (handleConnect _ _ _ _ _ _ _) as [reply [addr'|]] eqn:Hc; [|done]. intros [= <- <- <- <-].
    apply handleConnect_dials in Hc as (a & local & Ht & Ha & Haddr & Hd & -> & Hr).
    apply (socks_admission _ _ _ _ (HandleConnect req) req) in Hh as (-> & Hs & Hq); [|by left].
    exists rest, req, a. split; [|done]. split; try done.
    + unfold limited. rewrite Ht. destruct (allow (se_now e) a l). cbn in *. by subst.
    + by exists local.
  - intros (rest & req & a & [Hs Hq Ht Ha Haddr (local & Hd & ->) Hr] & ->).
    assert (handle (se_server e) (se_up e) s = (welcome (se_server e), HandleConnect req, rest)) as ->.
    { apply (socks_admission _ _ _ _ (HandleConnect req) req); [by left|]. by split_and!. }
    rewrite (proj2 (handleConnect_dials e l req [writeReply repSucceeded (ap_addr (localAddrPort local)) (ap_port (localAddrPort local))] addr)).
    2: { exists a, local. rewrite Ha. by split_and!. }
    unfold limited. by rewrite Ht, Ha.
Qed.

(** A literal is its own address, and not one of the proxy's own host. *)
Lemma literal_target e req a ip :
  target_of e req = Some a → ParseAddr (rq_host req) = Some ip → a = ip ∧ isProxiableLiteral ip = true.
Proof.
  unfold target_of, LookupIP, LookupIP_begin. intros H Hip. rewrite Hip in H. cbn in H. destruct (isProxiableLiteral ip); [|done].
  unfold filterUsableIPs in H. rewrite filter_cons in H. case_decide; [|done]. by injection H.
Qed.

(** What a peer sent is only added to. *)
Lemma sent_step idle st s p : pk_sent (conn s p) `prefix_of` pk_sent (conn s (pxact idle st p)).
Proof.
  assert (∀ c, pk_sent (end_writes c) = pk_sent c) as He by (intros c; unfold end_writes; by destruct (pk_halfClose c)).
  destruct st as [s' b|s'|s'|d| | |s' n|s' n|s']; cbn [pxact]; unfold proxy_watch, copy_read, write_some, write_fails, copy_returns.
  all: repeat case_match; try destruct s'; destruct s; cbn; rewrite ?He; try done; by apply prefix_app_r.
Qed.
Lemma sent_all idle sts s p : pk_sent (conn s p) `prefix_of` pk_sent (conn s (pxacts idle sts p)).
Proof. revert p. induction sts as [|st sts IH]; intros p; [done|]. cbn. etrans; [apply sent_step|apply IH]. Qed.

(** C18: From the first byte of a client to the last one its target gets.  A client's
    stream is copied to an address exactly when the client sent a greeting the server
    accepts, its credentials if the server asks for any and a CONNECT request, byte
    for byte; the address is the first one the resolver has for the name of a family
    the tunnel has, with the port of the request, and never one of the proxy's own
    host when the request names an address; the limiter let it through, with a token
    less; the dial succeeded, and the reply carries the local address of the stream.
    From then on, however the peers, the clock, the kernel and the goroutines take
    turns, the target is given what the client sent after the request, read ahead or
    not, from its first byte and in order, and the client what the target sent, all
    of it where a direction ended by an end of stream. *)
Theorem connect_end_to_end e s ahead fin half remote l out l' addr p0 :
  se_t1 e ≤ se_t2 e → handed_over remote →
  (connection e s ahead fin half remote l = (out, l', Proxying addr p0) ↔
   ∃ rest req a, connects e s l out l' addr rest req a ∧ p0 = start_proxy e rest ahead fin half remote) ∧
  (∀ rest req a, connects e s l out l' addr rest req a →
     (∀ ip, ParseAddr (rq_host req) = Some ip → a = ip ∧ isProxiableLiteral ip = true) ∧
     ∀ sts, let p := pxacts (se_idle e) sts (start_proxy e rest ahead fin half remote) in
       ∃ later, pk_sent (px_client p) = drop ahead rest ++ later ∧
         pk_out (px_remote p) `prefix_of` rest ++ later ∧ pk_out (px_client p) `prefix_of` pk_sent (px_remote p) ∧
         (px_up p = Returned true → live (px_remote p) = true → pk_out (px_remote p) = rest ++ later) ∧
         (px_down p = Returned true → live (px_client p) = true → pk_out (px_client p) = pk_sent (px_remote p))).
Proof.
  intros Ht Hr. split; [apply connection_connects|]. intros rest req a [_ _ Ha _ _ _ _]. split; [intros ip; by eapply literal_target|].
  intros sts p. assert (∀ d, carried (take ahead rest) d p) as Hc by (intros d; by apply carried_all, carried_init).
  assert (drop ahead rest `prefix_of` pk_sent (px_client p)) as [later Hl].
  { replace (drop ahead rest) with (pk_sent (conn ClientSide (start_proxy e rest ahead fin half remote))).
    - apply (sent_all _ _ ClientSide).
    - unfold start_proxy, proxy, idleDeadline. by destruct (0 <? se_idle e). }
  exists later. split; [done|]. assert (rest ++ later = to_carry (take ahead rest) ClientSide p) as ->.
  { unfold to_carry. cbn [conn]. by rewrite Hl, app_assoc, take_drop. }
  destruct (carried_told _ _ _ (Hc ClientSide)) as [H1 H2], (carried_told _ _ _ (Hc RemoteSide)) as [H3 H4].
  split_and!; [apply H1|apply H3|..]; intros Hg Hlive; [by apply H2|by apply H4].
Qed.

(** A client of the sample server, its request and the first bytes of its stream. *)
Definition sample_setting : setting :=
  mkSetting sample_server (text "127.0.0.1:1080") 600 (newResolver [] no_address) true false
    (Some [x7f; x00; x00; x01]) (Some [x7f; x00; x00; x01]) (λ _, true) true
    (λ _, Some [Addr6 1 []; Addr4 0x0A010203]) (λ _, inr (Some (text "10.8.0.2:40000"))) (λ _, Some (Some (text "127.0.0.1:5000"))) 0 0 0.
Definition sample_remote : pconn := fresh_conn (text "OK") true true.
Definition sample_limiter : connRateLimiter := (allow 0 (Addr4 0x0A010203) (newConnRateLimiter 0)).1.

Lemma sample_connects :
  connects sample_setting sample_stream (newConnRateLimiter 0)
    ([[x05; x02]; [x01; x00]] ++ [writeReply repSucceeded (Addr4 0x0A080002) 40000]) sample_limiter (text "10.1.2.3:443")
    (text "GET") sample_request (Addr4 0x0A010203).
Proof.
  split; [|reflexivity|vm_compute; reflexivity|vm_compute; reflexivity|vm_compute; reflexivity| |reflexivity].
  - exists (greeting [x00; x02] ++ credentials (text "u") (text "pw")), [x05; x01; x00; x03; x02; x65; x78; x01; xbb].
    split_and!; [| |vm_compute; reflexivity].
    + exists [x00; x02]. split_and!; [done|done| |done|]; [apply (bool_decide_unpack _); vm_compute; exact I|]. by split_and!.
    + exists x00, (WDomain (text "ex")), [x01; xbb]. by split_and!.
  - exists (Some (text "10.8.0.2:40000")). split; [reflexivity|]. vm_compute. reflexivity.
Qed.

Definition sample_copying : list pxstep :=
  [PWrite ClientSide 9; PRead ClientSide 9; PWrite ClientSide 9; PFin ClientSide; PRead ClientSide 9;
   PRead RemoteSide 9; PWrite RemoteSide 9; PRead RemoteSide 9].

Lemma connect_end_to_end_witness :
  connection sample_setting sample_stream 1 false true sample_remote (newConnRateLimiter 0) =
    ([[x05; x02]; [x01; x00]] ++ [writeReply repSucceeded (Addr4 0x0A080002) 40000], sample_limiter,
     Proxying (text "10.1.2.3:443") (start_proxy sample_setting (text "GET") 1 false true sample_remote)) ∧
  (let p := pxacts 600 sample_copying (start_proxy sample_setting (text "GET") 1 false true sample_remote) in
   pk_out (px_remote p) = text "GET" ∧ ∃ later, pk_out (px_remote p) = text "GET" ++ later).
Proof.
  destruct (connect_end_to_end sample_setting sample_stream 1 false true sample_remote (newConnRateLimiter 0)
    ([[x05; x02]; [x01; x00]] ++ [writeReply repSucceeded (Addr4 0x0A080002) 40000]) sample_limiter (text "10.1.2.3:443")
    (start_proxy sample_setting (text "GET") 1 false true sample_remote) ltac:(cbn; lia) ltac:(by repeat split)) as [H1 H2].
  split; [|split; [vm_compute; reflexivity|]].
  - apply H1. exists (text "GET"), sample_request, (Addr4 0x0A010203). split; [apply sample_connects|reflexivity].
  - destruct (H2 _ _ _ sample_connects) as [_ H]. destruct (H sample_copying) as (later & _ & _ & _ & Hup & _).
    exists later. apply Hup; vm_compute; reflexivity.
Defined.

(** ** An association *)

(** A UDP association starts exactly for a client that asked for one the same way;
    its socket is on the address the client reached, its relays bound to the source
    the request named or to the client's. *)
Lemma associate_end_to_end e s ahead fin half remote l out l' m :
  connection e s ahead fin half remote l = (out, l', Associated m) ↔
  l' = l ∧ se_replied e = true ∧
  ∃ pre w rest req local, admitted (se_server e) (se_up e) pre ∧ request_wire req w ∧ s = pre ++ w ++ rest ∧
    rq_cmd req = cmdAssociate ∧
    se_bind e (JoinHostPort (udpBindIPForCtrl (se_local e) (se_listen e)) (text "0")) = Some local ∧
    out = welcome (se_server e) ++
      [writeReply repSucceeded (ap_addr (localAddrPortFromUDP local)) (ap_port (localAddrPortFromUDP local))] ∧
    m = uncurry newUDPRelayMgr (expected_source (tcpRemoteIP (se_remote e)) req).
Proof.
  unfold connection. split.
  - destruct (handle (se_server e) (se_up e) s) as [[o act] rest] eqn:Hh. destruct act as [|req|req]; [done| |].
    { destruct (handleConnect _ _ _ _ _ _ _) as [reply [addr'|]]; done. }
    unfold handleAssociate. destruct (se_bind e _) as [local|] eqn:Hb; [|done].
    destruct (expected_source _ req) as [ip port] eqn:Hx. destruct (se_replied e); [|done]. intros [= <- <- <-].
    apply (socks_admission _ _ _ _ (HandleAssociate req) req) in Hh as (-> & (pre & w & Hs) & Hq); [|by right].
    split_and!; [done..|]. exists pre, w, rest, req, local. rewrite Hx. naive_solver.
  - intros (-> & Hr & pre & w & rest & req & local & Hpre & Hw & Hs & Hq & Hb & -> & ->).
    assert (handle (se_server e) (se_up e) s = (welcome (se_server e), HandleAssociate req, rest)) as ->.
    { apply (socks_admission _ _ _ _ (HandleAssociate req) req); [by right|]. split_and!; [done| |done]. by exists pre, w. }
    unfold handleAssociate. rewrite Hb, Hr. by destruct (expected_source _ req).
Qed.
