(* ===== verification/Statistics.v ===== *)
(** What the program reports of itself: the snapshot of a session
    ([internal/session/session.go], [Stats]), its periodic log line
    ([internal/session/keepalive.go], [statsLogger]) and that of the name cache
    ([cmd/openvpn2socks/resolver.go], [startStatsLogger], [dnsCacheHitRate]).
    Counters are 64-bit and wrap; rates are binary64 numbers. *)
From Stdlib Require Import Floats.SpecFloat.
From stdpp Require Import list.
From S2P Require Import Prelude Watch Resolver Limiter DataChannel Session.
Local Open Scope Z_scope.

(** ** The snapshot of a session *)

(** [time.Time]: [None] is the zero time. *)
Definition nsToTime (ns : Z) : option Z := if ns =? 0 then None else Some ns.

Record session_stats := mkStats {
  Forwarded : Z; DroppedFull : Z; PingIn : Z; OpenFailed : Z; StrayHandshake : Z; HardResetIn : Z;
  LastInbound : option Z; LastDataInbound : option Z; LastUserOutbound : option Z
}.
Definition session_Stats `{C : Aead} {W} (s : Session W) : session_stats :=
  mkStats (c_forwarded (ss_stats s)) (c_droppedFull (ss_stats s)) (c_pingIn (ss_stats s)) (c_openFailed (ss_stats s))
    (c_strayHandshake (ss_stats s)) (c_hardResetIn (ss_stats s))
    (nsToTime (lastInbound (ss_clocks s))) (nsToTime (lastDataInbound (ss_clocks s))) (nsToTime (lastUserOutbound (ss_clocks s))).

(** ** The log line of a session *)

Definition statsLogPeriod : Z := 30 * Second.

(** The nine counters: those of the session, and the retries of the transport, zero
    when it does not report them. *)
Record sample := mkSample {
  sm_forwarded : Z; sm_dropped : Z; sm_pingIn : Z; sm_openFailed : Z; sm_stray : Z; sm_hardReset : Z;
  sm_outOK : Z; sm_outErr : Z; sm_enobufs : Z
}.
Definition no_sample : sample := mkSample 0 0 0 0 0 0 0 0 0.
Definition sample_of `{C : Aead} {W} (s : Session W) (enobufs : option Z) : sample :=
  mkSample (c_forwarded (ss_stats s)) (c_droppedFull (ss_stats s)) (c_pingIn (ss_stats s)) (c_openFailed (ss_stats s))
    (c_strayHandshake (ss_stats s)) (c_hardResetIn (ss_stats s)) (c_outboundOK (ss_stats s)) (c_outboundErr (ss_stats s))
    (default 0 enobufs).

(** The nine subtractions. *)
Definition sample_op (f : Z → Z → Z) (x y : sample) : sample :=
  mkSample (f (sm_forwarded x) (sm_forwarded y)) (f (sm_dropped x) (sm_dropped y)) (f (sm_pingIn x) (sm_pingIn y))
    (f (sm_openFailed x) (sm_openFailed y)) (f (sm_stray x) (sm_stray y)) (f (sm_hardReset x) (sm_hardReset y))
    (f (sm_outOK x) (sm_outOK y)) (f (sm_outErr x) (sm_outErr y)) (f (sm_enobufs x) (sm_enobufs y)).
Definition delta : sample → sample → sample := sample_op (λ x y, u64 (x - y)).

Inductive log_level : Type := LevelDebug | LevelWarn.

(** A line: the level, the deltas, the totals and the time since the last data. *)
Record stats_line := mkLine { ln_level : log_level; ln_delta : sample; ln_total : sample; ln_sinceLastIn : Z }.

(** The decision about the level. *)
Definition stats_level (d : sample) (sinceLastIn : Z) : log_level :=
  if (0 <? sm_dropped d) || (0 <? sm_openFailed d) || (0 <? sm_hardReset d) || (0 <? sm_outErr d) ||
     (10 <? sm_enobufs d) || ((sm_forwarded d =? 0) && (statsLogPeriod <? sinceLastIn))
  then LevelWarn else LevelDebug.

(** One tick: the previous sample is replaced, the line logged. *)
Definition stats_tick (now lastDataIn : Z) (cur prev : sample) : sample * stats_line :=
  let d := delta cur prev in
  let since := Sub now lastDataIn in
  (cur, mkLine (stats_level d since) d cur since).

(** The ticks of a session that runs: clock, last inbound data, counters. *)
Fixpoint statsLogger_from (prev : sample) (ticks : list (Z * Z * sample)) : list stats_line :=
  match ticks with
  | [] => []
  | (now, lastDataIn, cur) :: ticks =>
      let '(prev, line) := stats_tick now lastDataIn cur prev in line :: statsLogger_from prev ticks
  end.
Definition statsLogger : list (Z * Z * sample) → list stats_line := statsLogger_from no_sample.

(** The sum of the deltas logged, and the last sample. *)
Definition logged (lines : list stats_line) : sample :=
  foldr (λ l acc, sample_op (λ x y, u64 (x + y)) (ln_delta l) acc) no_sample lines.
Definition last_sample (ticks : list (Z * Z * sample)) : sample :=
  match list.last ticks with Some (_, _, cur) => cur | None => no_sample end.
Definition sample_in_range (x : sample) : Prop := sample_op (λ n _, u64 n) x x = x.

Lemma u64_telescope a p z : u64 (u64 (a - p) + u64 (z - a)) = u64 (z - p).
Proof. unfold u64. rewrite <-Z.add_mod by lia. f_equal. lia. Qed.

Lemma delta_telescope a p z : sample_op (λ x y, u64 (x + y)) (delta a p) (delta z a) = delta z p.
Proof. unfold delta, sample_op. cbn. by rewrite !u64_telescope. Qed.

Lemma delta_self p : delta p p = no_sample.
Proof. unfold delta, sample_op. by rewrite !Z.sub_diag. Qed.

Lemma last_of x (ticks : list (Z * Z * sample)) d :
  match list.last (x :: ticks) with Some (_, _, cur) => cur | None => d end =
  match list.last ticks with Some (_, _, cur) => cur | None => x.2 end.
Proof. rewrite last_cons. by destruct (list.last ticks) as [[[n i] c]|], x as [[n' i'] c']. Qed.

Lemma logged_from prev ticks :
  logged (statsLogger_from prev ticks) =
  delta (match list.last ticks with Some (_, _, cur) => cur | None => prev end) prev.
Proof.
  revert prev. induction ticks as [|[[now i] cur] ticks IH]; intros prev.
  - by rewrite delta_self.
  - cbn [statsLogger_from stats_tick logged foldr]. fold (logged (statsLogger_from cur ticks)). rewrite IH, last_of.
    cbn [snd ln_delta]. apply delta_telescope.
Qed.

(** What the lines of a session add up to is its counters, also when they wrap; and a
    line is a warning exactly when a packet was dropped, could not be opened or sent,
    the server asked for a new session, the socket was full more than ten times, or
    nothing was forwarded and the last data is older than the period. *)
Lemma statsLogger_adds_up ticks :
  sample_in_range (last_sample ticks) → logged (statsLogger ticks) = last_sample ticks.
Proof.
  intros H. unfold statsLogger. rewrite logged_from. change (delta (last_sample ticks) no_sample = last_sample ticks).
  etrans; [|exact H]. unfold delta, sample_op, no_sample. cbn. by rewrite !Z.sub_0_r.
Qed.

Lemma stats_level_warns d since :
  stats_level d since = LevelWarn ↔
  0 < sm_dropped d ∨ 0 < sm_openFailed d ∨ 0 < sm_hardReset d ∨ 0 < sm_outErr d ∨ 10 < sm_enobufs d ∨
  (sm_forwarded d = 0 ∧ statsLogPeriod < since).
Proof.
  unfold stats_level. rewrite <-!Z.ltb_lt, <-Z.eqb_eq. destruct (0 <? sm_dropped d), (0 <? sm_openFailed d), (0 <? sm_hardReset d),
    (0 <? sm_outErr d), (10 <? sm_enobufs d), (sm_forwarded d =? 0), (statsLogPeriod <? since); naive_solver.
Qed.

(** A tunnel that is up and idle warns every period. *)
Example idle_warns :
  ln_level <$> statsLogger [(30 * Second, 0, no_sample); (60 * Second, 0, no_sample); (90 * Second, 89 * Second, no_sample)] =
    [LevelDebug; LevelWarn; LevelDebug].
Proof. by vm_compute. Qed.

(** ** The log line of the name cache *)

Definition resolver_Stats (r : resolver) : Z * Z := (rv_hits r, rv_misses r).

(** [math.Round]: halves away from zero. *)
Definition Round (x : spec_float) : spec_float :=
  match x with
  | S754_finite s m e =>
      if 0 <=? e then x
      else
        let n := (Zpos m + 2 ^ (- e - 1)) / 2 ^ (- e) in
        if n =? 0 then S754_zero s else binary_normalize 53 1024 (if s then - n else n) 0 s
  | _ => x
  end.

Definition dnsCacheHitRate (hits misses : Z) : spec_float :=
  let total := u64 (hits + misses) in
  if total =? 0 then float64 0
  else
    let pct := fdiv (fmul (float64 100) (float64 hits)) (float64 total) in
    fdiv (Round (fmul pct (float64 100))) (float64 100).

(** Totals, deltas and the two rates; no line while nothing was ever looked up. *)
Definition dns_line : Type := (Z * Z) * (Z * Z) * (spec_float * spec_float).
Definition dns_stats_tick (r : resolver) (prev : Z * Z) : (Z * Z) * option dns_line :=
  let '(hits, misses) := resolver_Stats r in
  let dHits := u64 (hits - prev.1) in
  let dMisses := u64 (misses - prev.2) in
  ((hits, misses),
   if (dHits =? 0) && (dMisses =? 0) && (hits =? 0) && (misses =? 0) then None
   else Some ((hits, misses), (dHits, dMisses), (dnsCacheHitRate dHits dMisses, dnsCacheHitRate hits misses))).

(** Rounded to two places: 7 of 27, a third, all, none. *)
Example hit_rates :
  dnsCacheHitRate 7 20 = fdiv (float64 2593) (float64 100) ∧ dnsCacheHitRate 1 2 = fdiv (float64 3333) (float64 100) ∧
  dnsCacheHitRate 2 1 = fdiv (float64 6667) (float64 100) ∧ dnsCacheHitRate 5 0 = float64 100 ∧
  dnsCacheHitRate 0 9 = float64 0 ∧ dnsCacheHitRate 0 0 = float64 0.
Proof. by vm_compute. Qed.
