(* ===== verification/Opening.v ===== *)
(** Who opens a socket and who closes it while a client is dialled
    ([internal/transport/transport.go], [Dial]; [udp.go], [dialUDP]; [tcp.go],
    [dialTCP]; [session.go], [Dial]; [openvpn.go], [dialSession] and [Dial]).
    The definitions of [Dial] say what a dial returns; these say, call by call,
    what it does to the connection it opens.  The dialer of the operating system and
    the custom one of the configuration are arguments. *)
From S2P Require Import Prelude Text DataChannel ControlWrap Session Transport Handshake Dial.
Local Open Scope Z_scope.

(** The calls on the connection: it was opened, [Close] was called. *)
Inductive call : Type := Opened | CloseCalled.
#[export] Instance call_eq_dec : EqDecision call.
Proof. solve_decision. Defined.

(** What [net.Dialer.DialContext] returns: an error, or a connection that is a
    [*net.UDPConn], a [*net.TCPConn] or of another type. *)
Inductive net_conn : Type := UDPConn | TCPConn | OtherConn.

(** The connection of a session, and what the code asks of the socket. *)
Inductive packet_conn : Type :=
  | udp_conn (tuned : bool)
  | tcp_conn (noDelay : bool)
  | custom_conn
  | scrambled (mode : ScrambleMode) (key : bytes) (c : packet_conn).

Inductive open_error : Type :=
  | ONet (e : bytes)
  | ONotUDP
  | OUnsupported (network : bytes)
  | OCustom (e : bytes)
  | ONilTransport
  | ODial (e : dial_error)
  | ONilConfig.

Section opening.
Context `{P : Primitives} `{PL : !PrimitiveLaws P} `{C : Aead}.
Variable pem_Decode : bytes → option (string * bytes).
(** [net.Dialer.DialContext]. *)
Variable DialContext : bytes → bytes → bytes + net_conn.

Definition newTCPConn (c : net_conn) : packet_conn := tcp_conn (match c with TCPConn => true | _ => false end).

Definition dialUDP (network addr : bytes) : list call * res open_error packet_conn :=
  match DialContext network addr with
  | inl e => ([], Err (ONet e))
  | inr UDPConn => ([Opened], Ok (udp_conn true))
  | inr _ => ([Opened; CloseCalled], Err ONotUDP)
  end.
Definition dialTCP (network addr : bytes) : list call * res open_error packet_conn :=
  match DialContext network addr with
  | inl e => ([], Err (ONet e))
  | inr c => ([Opened], Ok (newTCPConn c))
  end.

(** [transport.Dial]. *)
Definition transport_Dial (network addr : bytes) : list call * res open_error packet_conn :=
  if bool_decide (network ∈ [text "udp"; text "udp4"; text "udp6"]) then dialUDP network addr
  else if bool_decide (network ∈ [text "tcp"; text "tcp4"; text "tcp6"]) then dialTCP network addr
  else ([], Err (OUnsupported network)).

(** What [DialWithTransport] does with the transport it was given: nothing when it
    fails before it looks at the keys, one [Close] when it fails later. *)
Definition dial_calls (cfg : SessionConfig) (sid : option Z) (env : hs_env) (now : Z)
    (during : Session AnyWrapper → Session AnyWrapper) : list call :=
  match validateConfig cfg with
  | Some _ => []
  | None =>
      match sid with
      | None => []
      | Some _ =>
          match buildWrapper pem_Decode cfg with
          | Err _ => [CloseCalled]
          | _ =>
              match DialWithTransport pem_Decode cfg sid env now during with
              | Err _ => [CloseCalled]      (* shutdown *)
              | _ => []
              end
          end
      end
  end.

(** [session.Dial]. *)
Definition session_Dial (cfg : SessionConfig) (sid : option Z) (env : hs_env) (now : Z)
    (during : Session AnyWrapper → Session AnyWrapper) : list call * res open_error (Session AnyWrapper) :=
  if zlen (sf_Network cfg) =? 0 then ([], Err (ODial DNoNetwork))
  else if zlen (sf_RemoteAddr cfg) =? 0 then ([], Err (ODial DNoRemoteAddr))
  else
    match transport_Dial (sf_Network cfg) (sf_RemoteAddr cfg) with
    | (calls, Ok _) =>
        (calls ++ dial_calls cfg sid env now during, map_err ODial (DialWithTransport pem_Decode cfg sid env now during))
    | (calls, Err e) => (calls, Err e)
    | (calls, Panic) => (calls, Panic)
    end.

(** The transport of [dialSession]: of the configured dialer, whose nil is refused,
    or of [transport.Dial]; scrambled if the configuration says so. *)
Definition open_transport (custom : option (bytes → bytes → bytes + bool)) (cfg : Config) : list call * res open_error packet_conn :=
  let '(calls, r) :=
    match custom with
    | Some dialer =>
        match dialer (cf_Network cfg) (cf_RemoteAddr cfg) with
        | inl e => ([], Err (OCustom e))
        | inr false => ([], Err ONilTransport)
        | inr true => ([Opened], Ok custom_conn)
        end
    | None =>
        if zlen (cf_Network cfg) =? 0 then ([], Err (ODial DNoNetwork))
        else if zlen (cf_RemoteAddr cfg) =? 0 then ([], Err (ODial DNoRemoteAddr))
        else transport_Dial (cf_Network cfg) (cf_RemoteAddr cfg)
    end in
  (calls, tr ← r; Ok (match cf_Scramble cfg with Some sc => scrambled (sc_Mode sc) (sc_Key sc) tr | None => tr end)).

Definition dialSession_calls (custom : option (bytes → bytes → bytes + bool)) (cfg : Config) (sid : option Z)
    (env : hs_env) (now : Z) (during : Session AnyWrapper → Session AnyWrapper)
  : list call * res open_error (packet_conn * Session AnyWrapper) :=
  match open_transport custom cfg with
  | (calls, Ok tr) =>
      let calls := calls ++ dial_calls (sessionCfg cfg) sid env now during in
      match DialWithTransport pem_Decode (sessionCfg cfg) sid env now during with
      | Ok s => (calls, Ok (tr, s))
      | Err e => (calls ++ [CloseCalled], Err (ODial e))
      | Panic => (calls, Panic)
      end
  | (calls, Err e) => (calls, Err e)
  | (calls, Panic) => (calls, Panic)
  end.

(** [openvpn.Dial]: the session, its transport and whether a watcher was started. *)
Definition client_Dial (custom : option (bytes → bytes → bytes + bool)) (cfg : option Config) (sid : option Z)
    (env : hs_env) (now : Z) (during : Session AnyWrapper → Session AnyWrapper)
  : list call * res open_error (packet_conn * Session AnyWrapper * bool) :=
  match cfg with
  | None => ([], Err ONilConfig)
  | Some cfg =>
      match Dial_checks cfg with
      | Ok _ =>
          let '(calls, r) := dialSession_calls custom cfg sid env now during in
          (calls, x ← r; Ok (x, cf_AutoReconnect cfg))
      | Err e => ([], Err (ODial e))
      | Panic => ([], Panic)
      end
  end.

(** ** One socket at most, and none lost *)

(** The calls of a dial: none, or one connection opened first and then only closed. *)
Definition closes (calls : list call) : nat := length (filter (λ c, c = CloseCalled) calls).
Definition one_socket (calls : list call) : Prop := calls = [] ∨ ∃ n, calls = Opened :: replicate n CloseCalled.

Lemma closes_snoc calls : closes (calls ++ [CloseCalled]) = S (closes calls).
Proof. unfold closes. rewrite list.filter_app, length_app. change (filter _ [CloseCalled]) with [CloseCalled]. cbn. lia. Qed.

Lemma dial_calls_closed cfg sid env now during : ∃ n, dial_calls cfg sid env now during = replicate n CloseCalled.
Proof.
  unfold dial_calls. destruct (validateConfig cfg); [by exists 0%nat|]. destruct sid; [|by exists 0%nat].
  destruct (buildWrapper pem_Decode cfg); try (by exists 1%nat); destruct (DialWithTransport _ _ _ _ _ _); by (exists 0%nat + exists 1%nat).
Qed.
Lemma dial_calls_Ok cfg sid env now during s :
  DialWithTransport pem_Decode cfg sid env now during = Ok s → dial_calls cfg sid env now during = [].
Proof.
  intros Hd. unfold dial_calls. rewrite Hd. unfold DialWithTransport, dial_prepare in Hd.
  destruct (validateConfig cfg); [done|]. destruct sid; [|done]. by destruct (buildWrapper pem_Decode cfg).
Qed.

Lemma transport_Dial_calls network addr :
  match transport_Dial network addr with
  | (calls, Ok _) => calls = [Opened]
  | (calls, Err _) => calls = [] ∨ calls = [Opened; CloseCalled]
  | (_, Panic) => False
  end.
Proof.
  unfold transport_Dial, dialUDP, dialTCP. repeat case_bool_decide; [| |by left]; destruct (DialContext network addr) as [e|[]]; auto.
Qed.

Lemma open_transport_calls custom cfg :
  match open_transport custom cfg with
  | (calls, Ok _) => calls = [Opened]
  | (calls, Err _) => calls = [] ∨ calls = [Opened; CloseCalled]
  | (_, Panic) => False
  end.
Proof.
  unfold open_transport. destruct custom as [dialer|].
  - destruct (dialer (cf_Network cfg) (cf_RemoteAddr cfg)) as [e|[]]; cbn; auto.
  - destruct (zlen (cf_Network cfg) =? 0); [cbn; by left|]. destruct (zlen (cf_RemoteAddr cfg) =? 0); [cbn; by left|].
    pose proof (transport_Dial_calls (cf_Network cfg) (cf_RemoteAddr cfg)) as H.
    by destruct (transport_Dial _ _) as [calls [tr|e|]].
Qed.

(** C7: A dial loses no socket.  Whatever the configuration, the dialer and the
    server do, [openvpn.Dial] opens one connection at most; when it succeeds that
    connection is open and it is the session's, scrambled as configured; when it
    fails the connection it opened, if any, was closed; and it returns what the
    definitions of [Dial] say. *)
Theorem dial_no_leak custom cfg sid env now during calls r :
  client_Dial custom cfg sid env now during = (calls, r) →
  one_socket calls ∧
  match r with
  | Ok (tr, s, watcher) =>
      calls = [Opened] ∧
      ∃ c, cfg = Some c ∧ watcher = cf_AutoReconnect c ∧ (open_transport custom c).2 = Ok tr ∧
        dialSession pem_Decode (bool_decide (is_Some custom)) None c sid env now during = Ok s ∧
        (∀ sc, cf_Scramble c = Some sc → ∃ tr', tr = scrambled (sc_Mode sc) (sc_Key sc) tr')
  | Err _ => Opened ∈ calls → (0 < closes calls)%nat
  | Panic => True
  end.
Proof.
  unfold client_Dial. destruct cfg as [c|]; [|intros [= <- <-]; split; [by left|by intros ?%elem_of_nil]].
  destruct (Dial_checks c); [|intros [= <- <-]; split; [by left|by intros ?%elem_of_nil]|intros [= <- <-]; split; [by left|done]].
  pose proof (open_transport_calls custom c) as Ho. unfold dialSession_calls. destruct (open_transport custom c) as [ev [tr|e|]] eqn:Hop.
  - subst ev. destruct (dial_calls_closed (sessionCfg c) sid env now during) as [n Hn].
    destruct (DialWithTransport pem_Decode (sessionCfg c) sid env now during) as [s|e|] eqn:Hd; cbn; intros [= <- <-].
    + rewrite (dial_calls_Ok _ _ _ _ _ _ Hd). split; [right; by exists 0%nat|]. split; [done|].
      exists c. split_and!; [done|done|by rewrite Hop| |].
      * unfold dialSession. rewrite Hd. unfold open_transport in Hop. destruct custom; [done|]. rewrite bool_decide_eq_false_2 by (by intros []).
        cbn [negb andb]. destruct (zlen (cf_Network c) =? 0); [done|]. by destruct (zlen (cf_RemoteAddr c) =? 0).
      * intros sc Hsc. unfold open_transport in Hop. rewrite Hsc in Hop. destruct (match custom with Some _ => _ | None => _ end) as [ev r].
        injection Hop as _ Hr. apply bind_Ok in Hr as (tr' & _ & [= <-]). by exists tr'.
    + rewrite Hn. split.
      * right. exists (n + 1)%nat. by rewrite replicate_add.
      * intros _. rewrite app_comm_cons, closes_snoc. lia.
    + rewrite Hn. split; [right; by exists n|done].
  - cbn. intros [= <- <-]. destruct Ho as [->| ->]; (split; [|intros H]); [by left|by apply elem_of_nil in H|right; by exists 1%nat|by vm_compute; lia].
  - done.
Qed.
End opening.

(** A dial whose random read fails after its socket was opened. *)
Definition udp_dialer (network addr : bytes) : bytes + net_conn := inr UDPConn.

Definition sample_dial : list call * res open_error (packet_conn * Session AnyWrapper * bool) :=
  client_Dial (C := toy_aead) (λ _, None) udp_dialer None (Some sample_config) None sample_env 100 id.
Definition refused {A} (r : res open_error A) : bool := match r with Err _ => true | _ => false end.

Lemma dial_no_leak_witness :
  sample_dial.1 = [Opened; CloseCalled] ∧ refused sample_dial.2 = true ∧ (0 < closes sample_dial.1)%nat.
Proof.
  assert (sample_dial.1 = [Opened; CloseCalled]) as H1 by (vm_compute; reflexivity).
  assert (refused sample_dial.2 = true) as H2 by (vm_compute; reflexivity).
  split; [exact H1|]. split; [exact H2|].
  destruct (dial_no_leak _ _ _ _ _ _ _ _ _ _ (surjective_pairing sample_dial)) as [_ Hc].
  destruct sample_dial.2 as [x|e|]; [discriminate|apply Hc; rewrite H1; by left|discriminate].
Defined.

(** [session.Dial] does not close the transport when [DialWithTransport] fails before
    it takes it over; its callers have no other way to reach the socket. *)
Example session_Dial_leaks :
  (session_Dial (C := toy_aead) (λ _, None) udp_dialer (sessionCfg sample_config) None sample_env 100 id).1 = [Opened].
Proof. by vm_compute. Qed.
