(* ===== verification/Framing.v ===== *)
(** Concurrent writers of one TCP connection ([internal/transport/tcp.go],
    [tcpConn.WritePacket]): the deadline set before the lock is taken, the write
    lock, writes the kernel takes piecemeal, and the deadline cleared after the
    lock is released, as a transition system.  What the reader makes of the stream
    is [Transport.read_all]. *)
From S2P Require Import Prelude Transport.
Local Open Scope Z_scope.

(** ** The writers *)

(** A call of [WritePacket]: not begun; its checks passed and its deadline set, if its
    context has one; holding the lock, with so many bytes of its frame taken; its lock
    released. *)
Inductive wcall : Type :=
  | NoCall
  | Checked (p : bytes) (timed : bool)
  | Holding (p : bytes) (timed : bool) (sent : nat)
  | Released (timed : bool).

Record tcp_conn := mkTcp {
  tp_now : Z;
  tp_closed : bool;
  tp_reset : bool;                 (* the peer or the network ended the stream *)
  tp_writeDeadline : option Z;
  tp_lock : option nat;            (* who holds writeM *)
  tp_writers : list wcall;
  tp_stream : bytes;               (* what the kernel took *)
  tp_done : list bytes;            (* the packets of the writes that returned nil *)
  tp_cut : bool                    (* a write failed in the middle of its frame *)
}.
Definition tcp_start (writers : nat) : tcp_conn := mkTcp 0 false false None None (replicate writers NoCall) [] [] false.

Section framing.
Variable mode : ScrambleMode.
Variable key : bytes.

(** The header and the payload of a packet, as [net.Buffers] writes them. *)
Definition frame (p : bytes) : bytes := be_enc 2 (zlen p) ++ scrambleSend p mode (NewScramble mode key).

Definition set_writer (i : nat) (w : wcall) (t : tcp_conn) : tcp_conn :=
  mkTcp (tp_now t) (tp_closed t) (tp_reset t) (tp_writeDeadline t) (tp_lock t) (<[i := w]> (tp_writers t)) (tp_stream t) (tp_done t) (tp_cut t).
Definition set_deadline (d : option Z) (t : tcp_conn) : tcp_conn :=
  mkTcp (tp_now t) (tp_closed t) (tp_reset t) d (tp_lock t) (tp_writers t) (tp_stream t) (tp_done t) (tp_cut t).
Definition set_lock (l : option nat) (t : tcp_conn) : tcp_conn :=
  mkTcp (tp_now t) (tp_closed t) (tp_reset t) (tp_writeDeadline t) l (tp_writers t) (tp_stream t) (tp_done t) (tp_cut t).

(** The checks of a call, which returns if one fails, and its deadline. *)
Definition write_enter (i : nat) (p : bytes) (deadline : option Z) (t : tcp_conn) : tcp_conn :=
  match tp_writers t !! i with
  | Some NoCall =>
      match conn_WritePacket mode key p with
      | Ok _ =>
          if tp_closed t then t
          else
            let t := match deadline with Some d => set_deadline (Some d) t | None => t end in
            set_writer i (Checked p (bool_decide (is_Some deadline))) t
      | _ => t
      end
  | _ => t
  end.

Definition write_lock (i : nat) (t : tcp_conn) : tcp_conn :=
  match tp_writers t !! i, tp_lock t with
  | Some (Checked p timed), None => set_lock (Some i) (set_writer i (Holding p timed 0) t)
  | _, _ => t
  end.

(** Whether the socket takes bytes. *)
Definition can_write (t : tcp_conn) : bool :=
  negb (tp_closed t) && negb (tp_reset t) && match tp_writeDeadline t with Some d => tp_now t <? d | None => true end.

(** The kernel takes [n] more bytes; with the last one the write returns nil and the
    lock is released. *)
Definition write_takes (i n : nat) (t : tcp_conn) : tcp_conn :=
  match tp_writers t !! i with
  | Some (Holding p timed sent) =>
      if can_write t then
        let sent' := Nat.min (length (frame p)) (sent + n) in
        let t := mkTcp (tp_now t) (tp_closed t) (tp_reset t) (tp_writeDeadline t) (tp_lock t) (tp_writers t)
                   (tp_stream t ++ take (sent' - sent) (drop sent (frame p))) (tp_done t) (tp_cut t) in
        if (sent' =? length (frame p))%nat
        then set_lock None (set_writer i (Released timed)
               (mkTcp (tp_now t) (tp_closed t) (tp_reset t) (tp_writeDeadline t) (tp_lock t) (tp_writers t) (tp_stream t)
                  (tp_done t ++ [p]) (tp_cut t)))
        else set_writer i (Holding p timed sent') t
      else t
  | _ => t
  end.

(** The write fails: the connection is closed or reset, or its deadline passed. *)
Definition write_errs (i : nat) (t : tcp_conn) : tcp_conn :=
  match tp_writers t !! i with
  | Some (Holding p timed sent) =>
      if can_write t then t
      else
        set_lock None (set_writer i (Released timed)
          (mkTcp (tp_now t) (tp_closed t) (tp_reset t) (tp_writeDeadline t) (tp_lock t) (tp_writers t) (tp_stream t) (tp_done t)
             (tp_cut t || (0 <? sent)%nat)))
  | _ => t
  end.

(** The call returns; its deadline, if it set one, is cleared last. *)
Definition write_leave (i : nat) (t : tcp_conn) : tcp_conn :=
  match tp_writers t !! i with
  | Some (Released timed) => set_writer i NoCall (if timed then set_deadline None t else t)
  | _ => t
  end.

Inductive tstep : Type :=
  | TEnter (i : nat) (p : bytes) (deadline : option Z)
  | TLock (i : nat)
  | TTakes (i n : nat)
  | TFails (i : nat)
  | TLeave (i : nat)
  | TTime (d : nat)
  | TClose
  | TReset
  | TInterrupt.      (* the watcher of a read sets both deadlines to the past *)

Definition tact (st : tstep) (t : tcp_conn) : tcp_conn :=
  match st with
  | TEnter i p d => write_enter i p d t
  | TLock i => write_lock i t
  | TTakes i n => write_takes i n t
  | TFails i => write_errs i t
  | TLeave i => write_leave i t
  | TTime d => mkTcp (tp_now t + Z.of_nat d) (tp_closed t) (tp_reset t) (tp_writeDeadline t) (tp_lock t) (tp_writers t) (tp_stream t) (tp_done t) (tp_cut t)
  | TClose => mkTcp (tp_now t) true (tp_reset t) (tp_writeDeadline t) (tp_lock t) (tp_writers t) (tp_stream t) (tp_done t) (tp_cut t)
  | TReset => mkTcp (tp_now t) (tp_closed t) true (tp_writeDeadline t) (tp_lock t) (tp_writers t) (tp_stream t) (tp_done t) (tp_cut t)
  | TInterrupt => set_deadline (Some 0) t
  end.
Definition tacts (sts : list tstep) (t : tcp_conn) : tcp_conn := foldl (λ t st, tact st t) t sts.

(** ** Whole frames *)

(** What the stream holds of the frame being written. *)
Definition hand (t : tcp_conn) : bytes :=
  match tp_lock t with
  | Some i => match tp_writers t !! i with Some (Holding p _ sent) => take sent (frame p) | _ => [] end
  | None => []
  end.
Definition frames (ps : list bytes) : bytes := concat (frame <$> ps).

Definition call_ok (w : wcall) : Prop :=
  match w with
  | NoCall | Released _ => True
  | Checked p _ => frame_ok p
  | Holding p _ sent => frame_ok p ∧ (sent < length (frame p))%nat
  end.
Definition is_holding (w : wcall) : bool := match w with Holding _ _ _ => true | _ => false end.

Record framed (t : tcp_conn) : Prop := {
  fr_lock i w : tp_writers t !! i = Some w → is_holding w = true ↔ tp_lock t = Some i;
  fr_calls : Forall call_ok (tp_writers t);
  fr_done : Forall frame_ok (tp_done t);
  fr_stream : tp_cut t = false → tp_stream t = frames (tp_done t) ++ hand t
}.

Lemma frames_snoc ps p : frames (ps ++ [p]) = frames ps ++ frame p.
Proof. unfold frames. rewrite fmap_app, concat_app. cbn. by rewrite app_nil_r. Qed.

Lemma length_frame p : length (frame p) = (2 + length p)%nat.
Proof. unfold frame. by rewrite length_app, length_be_enc, (proj2 (NewScramble_key mode key p)). Qed.

Lemma start_framed n : framed (tcp_start n).
Proof.
  split; cbn; try done.
  - intros i w [-> _]%lookup_replicate. by split.
  - apply list.Forall_forall. by intros w [-> _]%elem_of_replicate.
Qed.

(** A step of a call that neither takes nor releases the lock and leaves the stream. *)
Lemma framed_ext i w w' d t :
  framed t → tp_writers t !! i = Some w → is_holding w = false → is_holding w' = false → call_ok w' →
  framed (set_writer i w' (set_deadline d t)).
Proof.
  intros [Hl Hc Hd Hs] Hi Hw Hw' Hok.
  assert (hand (set_writer i w' (set_deadline d t)) = hand t) as Hh.
  { unfold hand. cbn. destruct (tp_lock t) as [j|] eqn:Hj; [|done]. destruct (decide (i = j)) as [->|Hne].
    - pose proof (proj2 (Hl _ _ Hi) eq_refl). congruence.
    - by rewrite list_lookup_insert_ne. }
  split; cbn; try done.
  - intros j x. destruct (decide (i = j)) as [->|Hne].
    + rewrite list_lookup_insert_eq by (by eapply lookup_lt_Some). intros [= <-]. rewrite Hw', <-Hw. by apply Hl.
    + rewrite list_lookup_insert_ne by done. apply Hl.
  - by apply Forall_insert.
  - rewrite Hh. apply Hs.
Qed.

(** The holder goes on: the stream grows by what it took. *)
Lemma framed_goes_on i p timed sent sent' t :
  framed t → tp_writers t !! i = Some (Holding p timed sent) → (sent ≤ sent' < length (frame p))%nat →
  framed (set_writer i (Holding p timed sent')
    (mkTcp (tp_now t) (tp_closed t) (tp_reset t) (tp_writeDeadline t) (tp_lock t) (tp_writers t)
       (tp_stream t ++ take (sent' - sent) (drop sent (frame p))) (tp_done t) (tp_cut t))).
Proof.
  intros [Hl Hc Hd Hs] Hi Hle. pose proof (proj1 (Hl _ _ Hi) eq_refl) as Hlock.
  assert (i < length (tp_writers t))%nat by (by eapply lookup_lt_Some).
  destruct (Forall_lookup_1 _ _ _ _ Hc Hi) as [Hok _]. split; cbn; try done.
  - intros j x. destruct (decide (i = j)) as [->|Hne].
    + rewrite list_lookup_insert_eq by done. intros [= <-]. by split.
    + rewrite list_lookup_insert_ne by done. apply Hl.
  - apply Forall_insert; [done|]. split; [done|lia].
  - intros Hcut. rewrite (Hs Hcut), <-app_assoc. f_equal. unfold hand. cbn. rewrite Hlock, Hi, list_lookup_insert_eq by done.
    rewrite <-(take_drop sent (take sent' (frame p))), take_take, skipn_firstn_comm. do 2 f_equal. lia.
Qed.

(** The holder releases the lock, its frame whole or not. *)
Lemma framed_release i p timed sent stream done cut t :
  framed t → tp_writers t !! i = Some (Holding p timed sent) → Forall frame_ok done →
  (cut = false → stream = frames done) →
  framed (set_lock None (set_writer i (Released timed)
    (mkTcp (tp_now t) (tp_closed t) (tp_reset t) (tp_writeDeadline t) (tp_lock t) (tp_writers t) stream done cut))).
Proof.
  intros [Hl Hc Hd Hs] Hi Hdone Hst. pose proof (proj1 (Hl _ _ Hi) eq_refl) as Hlock. split; cbn; try done.
  - intros j x. destruct (decide (i = j)) as [->|Hne].
    + rewrite list_lookup_insert_eq by (by eapply lookup_lt_Some). intros [= <-]. by split.
    + rewrite list_lookup_insert_ne by done. intros Hj. rewrite (Hl _ _ Hj), Hlock. split; congruence.
  - by apply Forall_insert.
  - intros Hcut. unfold hand. cbn. by rewrite app_nil_r, Hst.
Qed.

Lemma tact_framed st t : framed t → framed (tact st t).
Proof.
  intros H. destruct st as [i p d|i|i n|i|i|d| | |]; cbn [tact]; try (by destruct H; split).
  - unfold write_enter. destruct (tp_writers t !! i) as [[]|] eqn:Hi; try done. rewrite conn_Write_iff.
    destruct (decide (frame_ok p)); [|done]. destruct (tp_closed t); [done|].
    destruct d as [d|]; [by eapply framed_ext|]. replace t with (set_deadline (tp_writeDeadline t) t) at 2 by (by destruct t).
    by eapply framed_ext.
  - unfold write_lock. destruct (tp_writers t !! i) as [[|p timed| |]|] eqn:Hi; try done. destruct (tp_lock t) eqn:Hlock; [done|].
    destruct H as [Hl Hc Hd Hs]. assert (i < length (tp_writers t))%nat by (by eapply lookup_lt_Some). split; cbn; try done.
    + intros j x. destruct (decide (i = j)) as [->|Hne].
      * rewrite list_lookup_insert_eq by done. intros [= <-]. by split.
      * rewrite list_lookup_insert_ne by done. intros Hj. rewrite (Hl _ _ Hj), Hlock. split; congruence.
    + apply Forall_insert; [done|]. split; [apply (Forall_lookup_1 _ _ _ _ Hc Hi)|]. rewrite length_frame. lia.
    + intros Hcut. rewrite (Hs Hcut). unfold hand. cbn. by rewrite Hlock, list_lookup_insert_eq, take_0 by done.
  - unfold write_takes. destruct (tp_writers t !! i) as [[| |p timed sent|]|] eqn:Hi; try done. destruct (can_write t); [|done].
    destruct (Forall_lookup_1 _ _ _ _ (fr_calls _ H) Hi) as [Hok Hlt]. cbv zeta.
    destruct (Nat.eqb_spec (Nat.min (length (frame p)) (sent + n)) (length (frame p))) as [He|Hne].
    + rewrite He. cbn. apply (framed_release i p timed sent _ _ _ t H Hi).
      * apply Forall_app. split; [apply H|by apply list.Forall_singleton].
      * intros Hcut. rewrite (fr_stream _ H Hcut), frames_snoc, <-app_assoc. f_equal. unfold hand.
        rewrite (proj1 (fr_lock _ H _ _ Hi) eq_refl), Hi. rewrite (take_ge (drop _ _)) by (by rewrite length_drop). by rewrite take_drop.
    + apply framed_goes_on; [done|done|lia].
  - unfold write_errs. destruct (tp_writers t !! i) as [[| |p timed sent|]|] eqn:Hi; try done. destruct (can_write t); [done|].
    apply (framed_release i p timed sent _ _ _ t H Hi); [apply H|]. intros [Hcut Hz]%orb_false_iff.
    rewrite (fr_stream _ H Hcut). unfold hand. rewrite (proj1 (fr_lock _ H _ _ Hi) eq_refl), Hi.
    destruct sent; [|done]. by rewrite take_0, app_nil_r.
  - unfold write_leave. destruct (tp_writers t !! i) as [[| | |timed]|] eqn:Hi; try done.
    destruct timed; [by eapply framed_ext|]. replace t with (set_deadline (tp_writeDeadline t) t) at 2 by (by destruct t).
    by eapply framed_ext.
Qed.

Lemma tacts_framed sts t : framed t → framed (tacts sts t).
Proof. revert t. induction sts as [|st sts IH]; intros t H; [done|]. cbn. by apply IH, tact_framed. Qed.

(** The reader gets the whole frames, and keeps the beginning of the next one. *)
Lemma read_frames ps q sent :
  Forall frame_ok ps → frame_ok q → (sent < length (frame q))%nat →
  read_all (S (length (frames ps ++ take sent (frame q)))) mode key (frames ps ++ take sent (frame q)) = (ps, take sent (frame q)).
Proof.
  intros Hps Hq Hs. rewrite length_frame in Hs. induction Hps as [|p ps Hp Hps IH].
  - cbn [read_all frames fmap list_fmap concat app]. rewrite (conn_Read_partial mode key q); [done|done| |rewrite length_take; lia].
    exists (drop sent (frame q)). symmetry. apply take_drop.
  - assert (frames (p :: ps) = frame p ++ frames ps) as -> by done.
    rewrite <-app_assoc. set (rest := frames ps ++ take sent (frame q)) in *.
    assert (conn_ReadPacket mode key (frame p ++ rest) = Ok (p, rest)) as Hc.
    { unfold frame. rewrite <-app_assoc. by apply conn_Read_frame. }
    cbn [read_all]. rewrite Hc, (read_all_fuel mode key rest (S (length rest))), IH; [done|lia|].
    rewrite length_app, length_frame. lia.
Qed.

(** No deadline, no interruption and no end of the connection. *)
Definition calm (st : tstep) : bool :=
  match st with TEnter _ _ (Some _) | TClose | TReset | TInterrupt => false | _ => true end.
Definition untimed (w : wcall) : bool := match w with Checked _ true | Holding _ true _ | Released true => false | _ => true end.

Record calm_conn (t : tcp_conn) : Prop := {
  cc_open : tp_closed t = false ∧ tp_reset t = false ∧ tp_writeDeadline t = None;
  cc_calls : Forall (λ w, untimed w = true) (tp_writers t);
  cc_cut : tp_cut t = false
}.

Lemma tact_calm st t : calm st = true → calm_conn t → calm_conn (tact st t).
Proof.
  intros Hst H. pose proof H as [(Ho1 & Ho2 & Ho3) Hc Hcut].
  assert (can_write t = true) as Hw by (unfold can_write; by rewrite Ho1, Ho2, Ho3).
  destruct st as [i p [d|]|i|i n|i|i|d| | |]; try done; cbn [tact].
  - unfold write_enter. rewrite Ho1. destruct (tp_writers t !! i) as [[]|]; try done. destruct (conn_WritePacket _ _ _); try done.
    split; cbn; [done|by apply Forall_insert|done].
  - unfold write_lock. destruct (tp_writers t !! i) as [[|p timed| |]|] eqn:Hi; try done. destruct (tp_lock t); [done|].
    split; cbn; [done| |done]. apply Forall_insert; [done|]. by eapply (Forall_lookup_1 _ _ _ _ Hc) in Hi.
  - unfold write_takes. rewrite Hw. destruct (tp_writers t !! i) as [[| |p timed sent|]|] eqn:Hi; try done.
    pose proof (Forall_lookup_1 _ _ _ _ Hc Hi) as Hu. cbv zeta.
    destruct (_ =? _)%nat; (split; cbn; [done|by apply Forall_insert|done]).
  - unfold write_errs. rewrite Hw. by destruct (tp_writers t !! i) as [[]|].
  - unfold write_leave. destruct (tp_writers t !! i) as [[| | |[]]|] eqn:Hi; try done.
    + by pose proof (Forall_lookup_1 _ _ _ _ Hc Hi).
    + split; cbn; [done|by apply Forall_insert|done].
Qed.

Lemma tacts_calm sts t : Forall (λ st, calm st = true) sts → calm_conn t → calm_conn (tacts sts t).
Proof. intros H. revert t. induction H as [|st sts Hst _ IH]; intros t Ht; [done|]. cbn. by apply IH, tact_calm. Qed.

(** C39: Frames are atomic until a write is cut.  However any number of writers, the
    kernel, the clock and the ends of the connection take turns, at most one writer
    is in a frame; as long as no write failed in the middle of its frame, the stream
    is the whole frames of the packets whose writes returned nil, in that order,
    then what was taken of the one being written, and a reader gets exactly those
    packets; and no write is ever cut while no call has a deadline, no read is
    interrupted and the connection lives. *)
Theorem frames_atomic n sts :
  let t := tacts sts (tcp_start n) in
  (∀ i j v w, tp_writers t !! i = Some v → tp_writers t !! j = Some w → is_holding v = true → is_holding w = true → i = j) ∧
  (tp_cut t = false →
     tp_stream t = frames (tp_done t) ++ hand t ∧
     read_all (S (length (tp_stream t))) mode key (tp_stream t) = (tp_done t, hand t)) ∧
  (Forall (λ st, calm st = true) sts → tp_cut t = false).
Proof.
  intros t. assert (framed t) as H by (apply tacts_framed, start_framed). split_and!.
  - intros i j v w Hi Hj Hv Hw. apply (fr_lock _ H _ _ Hi) in Hv. apply (fr_lock _ H _ _ Hj) in Hw. congruence.
  - intros Hcut. pose proof (fr_stream _ H Hcut) as Hs. split; [done|]. rewrite Hs.
    assert (∃ q sent, frame_ok q ∧ (sent < length (frame q))%nat ∧ hand t = take sent (frame q)) as (q & sent & Hq & Hlt & ->).
    { unfold hand. destruct (tp_lock t) as [i|] eqn:Hl.
      - destruct (tp_writers t !! i) as [[|p tm|p tm sent|tm]|] eqn:Hi.
        3: { destruct (Forall_lookup_1 _ _ _ _ (fr_calls _ H) Hi). by exists p, sent. }
        all: by exists [x00], 0%nat; split; [|rewrite length_frame; split; [lia|]].
      - by exists [x00], 0%nat; split; [|rewrite length_frame; split; [lia|]]. }
    apply read_frames; [apply H|done|done].
  - intros Hc. apply (cc_cut _ (tacts_calm sts (tcp_start n) Hc ltac:(split; [done| |done]; apply list.Forall_forall; by intros w [-> _]%elem_of_replicate))).
Qed.
End framing.

(** ** What a deadline does *)

(** A writer without a deadline is cut by that of another, which sets it before it has
    the lock; the next packet is then read as part of the broken frame. *)
Example borrowed_deadline :
  let t := tacts ScrambleNone [] [TEnter 0 (replicate 5 x61) None; TLock 0; TTakes 0 4; TEnter 1 (replicate 2 x62) (Some 10); TTime 10;
    TFails 0; TLeave 0; TLock 1; TFails 1; TLeave 1; TEnter 0 (replicate 7 x63) None; TLock 0; TTakes 0 9; TLeave 0] (tcp_start 2) in
  tp_cut t = true ∧ tp_done t = [replicate 7 x63] ∧
  (read_all 20 ScrambleNone [] (tp_stream t)).1 ≠ [replicate 7 x63].
Proof. vm_compute. by split_and!. Qed.

(** A writer loses its deadline: a call that ends clears it after it has released the
    lock, and with it that of the writer that waits. *)
Example deadline_lost :
  let t := tacts ScrambleNone [] [TEnter 0 (replicate 5 x61) (Some 10); TLock 0; TTakes 0 7; TEnter 1 (replicate 2 x62) (Some 20);
    TLeave 0; TLock 1; TTime 99] (tcp_start 2) in
  tp_writeDeadline t = None ∧ can_write t = true ∧ tp_writers t !! 1%nat = Some (Holding (replicate 2 x62) true 0).
Proof. by vm_compute. Qed.

(** A read that is interrupted after the header loses it: the next read takes the
    payload for a header. *)
Example interrupted_read :
  let stream := frame ScrambleNone [] [x00; x01; x2a] in
  read_all 9 ScrambleNone [] stream = ([[x00; x01; x2a]], []) ∧
  tcp_ReadPacket false (take 2 stream) = Err TErrShortStream ∧
  tcp_ReadPacket false (drop 2 stream) = Ok ([x2a], []).
Proof. by vm_compute. Qed.
