(* ===== verification/Sharing.v ===== *)
(** Who shares the slices of addresses the resolver hands out
    ([cmd/openvpn2socks/resolver.go], [cacheGet], [cacheSet] and the end of
    [LookupIP]): the cache, the results one resolution gives to all who wait for
    it, and the callers, over a memory of numbered arrays.  Which callers wait for
    which resolution is up to a third-party package: any of them gets any result.
    The definitions of [Resolver], where a slice is a value, are the specification. *)
From stdpp Require Import gmap list.
From S2P Require Import Prelude Text Netip Dns Resolver.
Local Open Scope Z_scope.

(** ** The memory *)

Record store := mkStore {
  sh_heap : list (list Addr);               (* the arrays, by number *)
  sh_cache : gmap bytes (nat * Z);          (* [dnsCacheEntry]: array and expiry *)
  sh_flights : list nat;                    (* the results of resolutions *)
  sh_callers : list nat;                    (* the slices callers got *)
  sh_got : list (list Addr)                 (* and what they held then *)
}.
Definition no_store : store := mkStore [] ∅ [] [] [].

Definition array (a : nat) (s : store) : list Addr := default [] (sh_heap s !! a).
(** [make] and [copy]. *)
Definition copied (ips : list Addr) (s : store) : nat * store :=
  (length (sh_heap s), mkStore (sh_heap s ++ [ips]) (sh_cache s) (sh_flights s) (sh_callers s) (sh_got s)).
Definition put_cache (m : gmap bytes (nat * Z)) (s : store) : store :=
  mkStore (sh_heap s) m (sh_flights s) (sh_callers s) (sh_got s).
(** A caller gets the array [a]. *)
Definition hand_out (a : nat) (s : store) : store :=
  mkStore (sh_heap s) (sh_cache s) (sh_flights s) (sh_callers s ++ [a]) (sh_got s ++ [array a s]).

(** The cache as the values it holds. *)
Definition entry_of (s : store) (e : nat * Z) : cacheEntry := mkCacheEntry (array e.1 s) e.2.
Definition cache_of (s : store) : gmap bytes cacheEntry := entry_of s <$> sh_cache s.

(** ** The operations *)

Definition shared_cacheGet (now : Z) (host : bytes) (s : store) : store :=
  match sh_cache s !! host with
  | None => s
  | Some (a, expires) =>
      if expires <? now then put_cache (delete host (sh_cache s)) s
      else let '(out, s) := copied (array a s) s in hand_out out s
  end.

Definition shared_cacheSet (now : Z) (order : list bytes) (host : bytes) (ips : nat) (s : store) : store :=
  match array ips s with
  | [] => s
  | _ =>
      let m := sh_cache s in
      let m := if bool_decide (m !! host = None) && (dnsCacheMaxEntries <=? size m)%nat
               then match evict_loop evictSample order (cache_of s) [] 0 with [] => m | k => delete k m end else m in
      let '(stored, s) := copied (array ips s) s in
      put_cache (<[host := (stored, now + dnsCacheTTL)]> m) s
  end.

(** A resolution ends with a fresh slice, cached if it came over the tunnel. *)
Definition resolved (now : Z) (order : list bytes) (host : bytes) (ips : list Addr) (tunnelled : bool) (s : store) : store :=
  let '(a, s) := copied ips s in
  let s := if tunnelled then shared_cacheSet now order host a s else s in
  mkStore (sh_heap s) (sh_cache s) (sh_flights s ++ [a]) (sh_callers s) (sh_got s).

(** One of those who waited for it gets its own copy. *)
Definition deliver_copy (f : nat) (s : store) : store :=
  match sh_flights s !! f with
  | Some src => let '(out, s) := copied (array src s) s in hand_out out s
  | None => s
  end.

(** A caller writes to a slice it got. *)
Definition scribble (c : nat) (ips : list Addr) (s : store) : store :=
  match sh_callers s !! c with
  | Some a => mkStore (<[a := ips]> (sh_heap s)) (sh_cache s) (sh_flights s) (sh_callers s) (sh_got s)
  | None => s
  end.

Inductive share_step : Type :=
  | ShGet (now : Z) (host : bytes)
  | ShResolved (now : Z) (order : list bytes) (host : bytes) (ips : list Addr) (tunnelled : bool)
  | ShDeliver (f : nat)
  | ShScribble (c : nat) (ips : list Addr)
  | ShSweep (now : Z).

Definition share_act (st : share_step) (s : store) : store :=
  match st with
  | ShGet now host => shared_cacheGet now host s
  | ShResolved now order host ips tunnelled => resolved now order host ips tunnelled s
  | ShDeliver f => deliver_copy f s
  | ShScribble c ips => scribble c ips s
  | ShSweep now => put_cache (filter (λ '(_, e), (e.2 <? now) = false) (sh_cache s)) s
  end.
Definition share_acts (sts : list share_step) (s : store) : store := foldl (λ s st, share_act st s) s sts.

(** ** The specification: slices as values *)

Record values := mkValues { vl_resolver : resolver; vl_flights : list (list Addr); vl_got : list (list Addr) }.
Definition no_values : values := mkValues (newResolver [] (mkAddrPort AddrZero 0)) [] [].

Definition value_act (st : share_step) (v : values) : values :=
  match st with
  | ShGet now host =>
      match cacheGet now host (vl_resolver v) with
      | (r, Some ips) => mkValues r (vl_flights v) (vl_got v ++ [ips])
      | (r, None) => mkValues r (vl_flights v) (vl_got v)
      end
  | ShResolved now order host ips tunnelled =>
      mkValues (if tunnelled then cacheSet now order host ips (vl_resolver v) else vl_resolver v) (vl_flights v ++ [ips]) (vl_got v)
  | ShDeliver f =>
      match vl_flights v !! f with Some ips => mkValues (vl_resolver v) (vl_flights v) (vl_got v ++ [ips]) | None => v end
  | ShScribble _ _ => v
  | ShSweep now => mkValues (cacheSweep now (vl_resolver v)) (vl_flights v) (vl_got v)
  end.
Definition value_acts (sts : list share_step) (v : values) : values := foldl (λ v st, value_act st v) v sts.

(** The arrays exist, no caller has one of the cache or of a resolution, and what they
    hold is what the values are. *)
Record unaliased (s : store) (v : values) : Prop := {
  un_cached host e : sh_cache s !! host = Some e → (e.1 < length (sh_heap s))%nat ∧ e.1 ∉ sh_callers s;
  un_flights a : a ∈ sh_flights s → (a < length (sh_heap s))%nat ∧ a ∉ sh_callers s;
  un_callers a : a ∈ sh_callers s → (a < length (sh_heap s))%nat;
  un_cache : cache_of s = rv_cache (vl_resolver v);
  un_values : (λ a, array a s) <$> sh_flights s = vl_flights v;
  un_got : sh_got s = vl_got v
}.

(** ** Nobody sees what a caller writes *)

Lemma array_copied a ips s : (a < length (sh_heap s))%nat → array a (copied ips s).2 = array a s.
Proof. intros H. unfold array. cbn. by rewrite lookup_app_l. Qed.
Lemma array_copy ips s : array (copied ips s).1 (copied ips s).2 = ips.
Proof. unfold array. cbn. by rewrite list_lookup_middle. Qed.

(** Arrays that keep what they hold keep the cache. *)
Lemma cache_of_ext (s s' : store) (m : gmap bytes (nat * Z)) :
  (∀ host (e : nat * Z), m !! host = Some e → array e.1 s' = array e.1 s) → entry_of s' <$> m = entry_of s <$> m.
Proof. intros H. apply map_fmap_ext. intros host e He. unfold entry_of. by rewrite (H host e He). Qed.

Lemma copied_unaliased ips s v : unaliased s v → unaliased (copied ips s).2 v.
Proof.
  intros [Hc Hf Hl Hv Hx Hg]. split; cbn [copied snd sh_cache sh_flights sh_callers sh_got sh_heap]; rewrite ?length_app.
  - intros host e He. destruct (Hc host e He). split; [lia|done].
  - intros a Ha. destruct (Hf a Ha). split; [lia|done].
  - intros a Ha. specialize (Hl a Ha). lia.
  - rewrite <-Hv. apply cache_of_ext. intros host e He. by apply array_copied, (Hc host e He).
  - rewrite <-Hx. apply list_fmap_ext. intros i a Ha. apply array_copied, Hf. by eapply list_elem_of_lookup_2.
  - done.
Qed.

(** A caller gets a fresh copy. *)
Lemma handed_unaliased ips s v :
  unaliased s v →
  unaliased (hand_out (copied ips s).1 (copied ips s).2) (mkValues (vl_resolver v) (vl_flights v) (vl_got v ++ [ips])).
Proof.
  intros H. pose proof (copied_unaliased ips s v H) as [Hc Hf Hl Hv Hx Hg].
  split; cbn [hand_out vl_resolver vl_flights vl_got sh_heap sh_cache sh_flights sh_callers sh_got].
  - intros host e He. destruct (Hc host e He) as [H1 H2]. split; [done|]. rewrite elem_of_app, list_elem_of_singleton.
    intros [?|Ha]; [done|]. pose proof (proj1 (un_cached _ _ H host e He)). cbn in Ha. lia.
  - intros a Ha. destruct (Hf a Ha) as [H1 H2]. split; [done|]. rewrite elem_of_app, list_elem_of_singleton.
    intros [?|Hb]; [done|]. pose proof (proj1 (un_flights _ _ H a Ha)). cbn in Hb. lia.
  - intros a. rewrite elem_of_app, list_elem_of_singleton. intros [Ha| ->]; [by apply Hl|]. cbn. rewrite length_app. cbn. lia.
  - exact Hv.
  - exact Hx.
  - rewrite Hg. f_equal. by rewrite array_copy.
Qed.

(** Entries of the cache may go. *)
Lemma smaller_unaliased (m : gmap bytes (nat * Z)) r s v :
  unaliased s v → m ⊆ sh_cache s → entry_of s <$> m = rv_cache r →
  unaliased (put_cache m s) (mkValues r (vl_flights v) (vl_got v)).
Proof.
  intros [Hc Hf Hl Hv Hx Hg] Hm Hr. split; try done. cbn. intros host e He. apply (Hc host e). by eapply lookup_weaken.
Qed.

(** The place made in the cache is the one the specification makes. *)
Definition shared_room (order : list bytes) (host : bytes) (s : store) : gmap bytes (nat * Z) :=
  let m := sh_cache s in
  if bool_decide (m !! host = None) && (dnsCacheMaxEntries <=? size m)%nat
  then match evict_loop evictSample order (cache_of s) [] 0 with [] => m | k => delete k m end else m.

Lemma shared_room_of order host s :
  shared_room order host s ⊆ sh_cache s ∧ entry_of s <$> shared_room order host s = make_room order host (cache_of s).
Proof.
  unfold shared_room, make_room. assert (size (cache_of s) = size (sh_cache s)) as -> by apply map_size_fmap.
  assert (bool_decide (cache_of s !! host = None) = bool_decide (sh_cache s !! host = None)) as ->.
  { apply bool_decide_ext. unfold cache_of. rewrite lookup_fmap. by destruct (sh_cache s !! host). }
  destruct (bool_decide _ && _); [|done]. destruct (evict_loop _ _ _ _ _) as [|x k]; [done|].
  split; [apply delete_subseteq|]. unfold cache_of. by rewrite fmap_delete.
Qed.

Lemma cacheSet_unaliased now order host a s v :
  unaliased s v → (a < length (sh_heap s))%nat →
  unaliased (shared_cacheSet now order host a s)
    (mkValues (cacheSet now order host (array a s) (vl_resolver v)) (vl_flights v) (vl_got v)).
Proof.
  intros H Ha. unfold shared_cacheSet, cacheSet. destruct (array a s) as [|x ips] eqn:Hips; [by destruct v|].
  change (if bool_decide _ && _ then _ else _) with (shared_room order host s) at 1.
  destruct (shared_room_of order host s) as [Hsub Hroom].
  pose proof (copied_unaliased (x :: ips) s v H) as [Hc Hf Hl Hv Hx Hg]. cbv zeta.
  split; cbn [put_cache set_cache copied fst snd rv_cache vl_resolver vl_flights vl_got sh_heap sh_cache sh_flights sh_callers sh_got] in *; try done.
  - intros k e [[<- <-]|[Hk He]]%lookup_insert_Some.
    + cbn. rewrite length_app. cbn. split; [lia|]. intros Hin%(un_callers _ _ H). lia.
    + apply (Hc k e). by eapply lookup_weaken.
  - unfold cache_of. cbn. rewrite fmap_insert. f_equal.
    + unfold entry_of. cbn. f_equal. apply array_copy.
    + rewrite <-(un_cache _ _ H), <-Hroom. apply cache_of_ext. intros k e He.
      apply array_copied. apply (un_cached _ _ H k e). by eapply lookup_weaken.
Qed.

Lemma share_step_unaliased st s v : unaliased s v → unaliased (share_act st s) (value_act st v).
Proof.
  intros H. destruct st as [now host|now order host ips tunnelled|f|c ips|now]; cbn [share_act value_act].
  - unfold shared_cacheGet, cacheGet. rewrite <-(un_cache _ _ H). unfold cache_of at 1. rewrite lookup_fmap.
    destruct (sh_cache s !! host) as [[a expires]|] eqn:Hh; cbn [fmap option_fmap option_map]; [|by destruct v].
    unfold entry_of at 1. cbn [ce_expires ce_ips fst snd]. destruct (expires <? now); cbn [ce_ips].
    + apply smaller_unaliased; [done|apply delete_subseteq|]. unfold cache_of. cbn. by rewrite fmap_delete.
    + by apply (handed_unaliased (array a s) s v).
  - unfold resolved. set (s1 := (copied ips s).2). set (a := (copied ips s).1).
    pose proof (copied_unaliased ips s v H) as H1. fold s1 in H1.
    assert (array a s1 = ips) as Ha by apply array_copy.
    assert (a < length (sh_heap s1))%nat as Hlt by (cbn; rewrite length_app; cbn; lia).
    assert (a ∉ sh_callers s1) as Hn by (intros Hin%(un_callers _ _ H); cbn in Hin; lia).
    change (copied ips s) with (a, s1). cbv beta iota zeta.
    assert (∀ s2 r, unaliased s2 (mkValues r (vl_flights v) (vl_got v)) → array a s2 = ips → sh_callers s2 = sh_callers s1 →
      (a < length (sh_heap s2))%nat →
      unaliased (mkStore (sh_heap s2) (sh_cache s2) (sh_flights s2 ++ [a]) (sh_callers s2) (sh_got s2))
        (mkValues r (vl_flights v ++ [ips]) (vl_got v))) as Hadd.
    { intros s2 r [Hc Hf Hl Hv Hx Hg] Ha2 Hcl Hlt2. split; cbn; try done.
      - intros b. rewrite elem_of_app, list_elem_of_singleton. intros [Hb| ->]; [by apply Hf|]. by rewrite Hcl.
      - rewrite fmap_app. cbn. f_equal; [exact Hx|]. by rewrite <-Ha2. }
    destruct tunnelled.
    + apply Hadd.
      * rewrite <-Ha. by apply cacheSet_unaliased.
      * rewrite <-Ha. unfold shared_cacheSet. destruct (array a s1) as [|x l] eqn:He; [done|].
        etrans; [exact (array_copied a (x :: l) s1 Hlt)|exact He].
      * unfold shared_cacheSet. by destruct (array a s1).
      * unfold shared_cacheSet. destruct (array a s1); [done|]. cbn. rewrite !length_app. cbn. lia.
    + apply Hadd; try done. by destruct v.
  - unfold deliver_copy. pose proof (un_values _ _ H) as Hx. rewrite <-Hx, list_lookup_fmap.
    destruct (sh_flights s !! f) as [src|]; cbn [fmap option_fmap option_map]; [|by destruct v].
    rewrite Hx. by apply (handed_unaliased (array src s) s v).
  - unfold scribble. destruct (sh_callers s !! c) as [a|] eqn:Hc; [|done]. apply list_elem_of_lookup_2 in Hc.
    assert (∀ b, b ≠ a → array b (mkStore (<[a := ips]> (sh_heap s)) (sh_cache s) (sh_flights s) (sh_callers s) (sh_got s)) = array b s) as Hb.
    { intros b Hne. unfold array. cbn. by rewrite list_lookup_insert_ne. }
    destruct H as [Hk Hf Hl Hv Hx Hg]. split; cbn [sh_heap sh_cache sh_flights sh_callers sh_got]; rewrite ?length_insert; try done.
    + rewrite <-Hv. apply cache_of_ext. intros host e He. apply Hb. intros <-. by apply (Hk host e He).
    + rewrite <-Hx. apply list_fmap_ext. intros i b Hi. apply Hb. intros ->. apply (Hf a); [by eapply list_elem_of_lookup_2|done].
  - apply smaller_unaliased; [done|apply map_filter_subseteq|]. unfold cacheSweep, set_cache. cbn.
    rewrite <-(un_cache _ _ H). unfold cache_of. rewrite map_filter_fmap. f_equal.
Qed.

Lemma share_acts_unaliased sts s v : unaliased s v → unaliased (share_acts sts s) (value_acts sts v).
Proof. revert s v. induction sts as [|st sts IH]; intros s v H; [done|]. cbn. by apply IH, share_step_unaliased. Qed.

(** C24: The resolver shares no memory with its callers.  However lookups, resolutions,
    sweeps and callers that write to the slices they got take turns, and whoever waits
    for which resolution, every slice handed out holds what the definitions of
    [Resolver], where slices are values, say; and so does the cache.  What callers
    write is seen by nobody else. *)
Theorem lookups_unaliased sts :
  let s := share_acts sts no_store in
  let v := value_acts sts no_values in
  sh_got s = vl_got v ∧ cache_of s = rv_cache (vl_resolver v) ∧
  (λ a, array a s) <$> sh_flights s = vl_flights v ∧
  (∀ host e, sh_cache s !! host = Some e → e.1 ∉ sh_callers s) ∧
  value_acts (filter (λ st, match st with ShScribble _ _ => false | _ => true end = true) sts) no_values = v.
Proof.
  intros s v. assert (unaliased s v) as H.
  { apply share_acts_unaliased. by split; cbn; [intros ? ? ?%lookup_empty_Some|intros ? ?%elem_of_nil|intros ? ?%elem_of_nil|..]. }
  split_and!; [apply H..| |].
  - intros host e He. by apply (un_cached _ _ H host e).
  - subst v. generalize no_values. clear. unfold value_acts. induction sts as [|st sts IH]; intros v; [done|].
    rewrite filter_cons. case_decide as Hd; cbn [foldl]; [apply IH|]. destruct st; done.
Qed.

(** Two callers wait for one resolution; the first spoils what it got, and a third
    asks the cache. *)
Example spoilt_copy :
  let x := Addr4 1 in let y := Addr4 2 in
  sh_got (share_acts [ShResolved 0 [] (text "a") [x; y] true; ShDeliver 0; ShScribble 0 []; ShDeliver 0; ShScribble 1 [y]; ShGet 5 (text "a")]
    no_store) = [[x; y]; [x; y]; [x; y]].
Proof. by vm_compute. Qed.
